(** * ExFS2: a shallow embedding of [exfs2.c] and the properties of its
      on-disk engine.

    The development follows the source file top to bottom: constants of
    [exfs2.h], the bitmap helpers, the inode table, the data block store,
    the directory layer, [split_path], and the commands [exfs2_add],
    [exfs2_extract] and [exfs2_remove].

    Modelling conventions.
    - A C [int] is a [Z].  Where the source computes a value that can leave
      the 32-bit range (the global ids returned by the allocators, the
      narrowing [int remaining = size]) the wrap-around is written out with
      [int32]; [size_t] arithmetic wraps with [size_t].
    - Raw storage is [list byte]: bitmaps and data blocks.  An [int] array or
      a [dir_entry_t] array kept in a block is obtained by decoding the
      little-endian bytes, as the casts in the source do.
    - An inode is transferred as one whole record by [fread]/[fwrite] at a
      fixed stride, so an inode segment keeps typed records.
    - The host calls ([fopen], [fread], [fwrite]) succeed whenever the
      segment file exists; a segment file that does not exist makes
      [open_segment] fail, as in the source.  Segment files are created by
      the program itself at the first missing index, so the existing
      segments of one kind are a list indexed from 0.
    - The layout is that of the LP64 ABI the Makefile targets (gcc on a
      64-bit host): [sizeof(int) = 4], [sizeof(size_t) = 8]. *)

From Stdlib Require Import ZArith List Lia Bool.
From Stdlib.Strings Require Import Byte.
From stdpp Require Import base tactics option list.

Local Open Scope Z_scope.

Ltac zlia := Z.to_euclidean_division_equations; lia.

(** ** Constants of [exfs2.h] *)

Definition SEGMENT_SIZE : Z := 1024 * 1024.
Definition BLOCK_SIZE : Z := 4096.
Definition MAX_FILENAME : Z := 256.
Definition MAX_PATH : Z := 1024.

Definition INODE_FREE : Z := 0.
Definition INODE_FILE : Z := 1.
Definition INODE_DIR : Z := 2.

Definition ROOT_DIR_INODE : Z := 0.
Definition MAX_DIRECT_BLOCKS : Z := 1017.

Definition sizeof_int : Z := 4.
Definition sizeof_size_t : Z := 8.

(** [sizeof(inode_t)]: [int type] (4, then 4 of padding before the 8-aligned
    [size_t]), [size_t size] (8), [int num_direct] (4), 1017 direct ids and
    three indirect ids (4 each): 4100 bytes, rounded up to the alignment 8. *)
Definition sizeof_inode_t : Z :=
  let raw := sizeof_int + 4 + sizeof_size_t + sizeof_int
             + MAX_DIRECT_BLOCKS * sizeof_int + 3 * sizeof_int in
  (raw + 7) / 8 * 8.

(** [sizeof(dir_entry_t)]: [char name[MAX_FILENAME]] and [int inode_num]. *)
Definition sizeof_dir_entry_t : Z := MAX_FILENAME + sizeof_int.

Definition DIR_ENTRIES_PER_BLOCK : Z := BLOCK_SIZE / sizeof_dir_entry_t.

(** [(SEGMENT_SIZE - BLOCK_SIZE) / sizeof(inode_t)] and
    [(SEGMENT_SIZE - BLOCK_SIZE) / BLOCK_SIZE], as the source recomputes them
    in every function. *)
Definition num_inodes_per_segment : Z := (SEGMENT_SIZE - BLOCK_SIZE) / sizeof_inode_t.
Definition blocks_per_segment : Z := (SEGMENT_SIZE - BLOCK_SIZE) / BLOCK_SIZE.

(** [BLOCK_SIZE / sizeof(int)]: ids held by an indirect block. *)
Definition PTRS_PER_BLOCK : Z := BLOCK_SIZE / sizeof_int.

(** ** Machine integers and bytes *)

Definition int32 (z : Z) : Z := (z + 2 ^ 31) mod 2 ^ 32 - 2 ^ 31.
Definition size_t (z : Z) : Z := z mod 2 ^ 64.

Definition b2z (b : byte) : Z := Z.of_N (Byte.to_N b).
Definition z2b (z : Z) : byte :=
  match Byte.of_N (Z.to_N (z mod 256)) with
  | Some b => b
  | None => x00
  end.

(** Little-endian [int] in four bytes, two's complement. *)
Definition encode_int (z : Z) : list byte :=
  [z2b z; z2b (Z.shiftr z 8); z2b (Z.shiftr z 16); z2b (Z.shiftr z 24)].

Definition decode_int (b0 b1 b2 b3 : byte) : Z :=
  int32 (b2z b0 + 256 * b2z b1 + 65536 * b2z b2 + 16777216 * b2z b3).

Definition zero_bytes (n : Z) : list byte := repeat x00 (Z.to_nat n).

(** ** C arrays indexed by an [int] *)

Definition zget {A} (l : list A) (i : Z) : option A :=
  if decide (0 <= i) then l !! Z.to_nat i else None.

(** A store outside the array is undefined in C; the total version leaves
    the array as it is and is used only where the index is in range. *)
Definition zset {A} (l : list A) (i : Z) (x : A) : list A :=
  if decide (0 <= i) then <[Z.to_nat i := x]> l else l.

(** ** Bitmap helpers: [find_free_bit], [set_bit], [clear_bit] *)

Definition bitmap_byte (bitmap : list byte) (i : Z) : Z :=
  b2z (default x00 (zget bitmap i)).

(** [(bitmap[i / 8] & (1 << (i % 8))) == 0] *)
Definition bit_is_clear (bitmap : list byte) (i : Z) : bool :=
  Z.land (bitmap_byte bitmap (Z.quot i 8)) (Z.shiftl 1 (Z.rem i 8)) =? 0.

(** The [for] loop of [find_free_bit], started at [i] with [n] iterations
    left; -1 when it runs to the end. *)
Fixpoint find_free_bit_from (bitmap : list byte) (i : Z) (n : nat) : Z :=
  match n with
  | O => -1
  | S n' => if bit_is_clear bitmap i then i
            else find_free_bit_from bitmap (i + 1) n'
  end.

Definition find_free_bit (bitmap : list byte) (num_bits : Z) : Z :=
  find_free_bit_from bitmap 0 (Z.to_nat num_bits).

(** [bitmap[bit / 8] |= (1 << (bit % 8))], stored back into a [uint8_t]. *)
Definition set_bit (bitmap : list byte) (bit : Z) : list byte :=
  zset bitmap (Z.quot bit 8)
       (z2b (Z.lor (bitmap_byte bitmap (Z.quot bit 8)) (Z.shiftl 1 (Z.rem bit 8)))).

(** [bitmap[bit / 8] &= ~(1 << (bit % 8))] *)
Definition clear_bit (bitmap : list byte) (bit : Z) : list byte :=
  zset bitmap (Z.quot bit 8)
       (z2b (Z.land (bitmap_byte bitmap (Z.quot bit 8))
                    (Z.lnot (Z.shiftl 1 (Z.rem bit 8))))).

(** ** Structures of [exfs2.h] *)

Record inode_t := mk_inode {
  type : Z;                   (* 0: free, 1: file, 2: directory *)
  size : Z;                   (* size in bytes *)
  num_direct : Z;             (* number of direct blocks in use *)
  direct_blocks : list Z;     (* [int direct_blocks[MAX_DIRECT_BLOCKS]] *)
  indirect_block : Z;
  double_indirect_block : Z;
  triple_indirect_block : Z
}.

Record dir_entry_t := mk_entry {
  name : list byte;           (* [char name[MAX_FILENAME]] *)
  inode_num : Z               (* -1 if free entry *)
}.

(** [memset(&inode, 0, sizeof(inode))] *)
Definition zero_inode : inode_t :=
  mk_inode 0 0 0 (repeat 0 (Z.to_nat MAX_DIRECT_BLOCKS)) 0 0 0.

(** The record both [create_new_segment] and [exfs2_add] build for a new
    object: zeroed, then tagged, with the three indirect ids set to -1. *)
Definition fresh_inode (ty : Z) : inode_t :=
  mk_inode ty 0 0 (direct_blocks zero_inode) (-1) (-1) (-1).

Definition with_direct (ino : inode_t) (nd : Z) (db : list Z) (sz : Z) : inode_t :=
  mk_inode (type ino) sz nd db
           (indirect_block ino) (double_indirect_block ino) (triple_indirect_block ino).

Definition with_indirect (ino : inode_t) (b : Z) : inode_t :=
  mk_inode (type ino) (size ino) (num_direct ino) (direct_blocks ino)
           b (double_indirect_block ino) (triple_indirect_block ino).

Definition with_double_indirect (ino : inode_t) (b : Z) : inode_t :=
  mk_inode (type ino) (size ino) (num_direct ino) (direct_blocks ino)
           (indirect_block ino) b (triple_indirect_block ino).

Definition with_size (ino : inode_t) (sz : Z) : inode_t :=
  mk_inode (type ino) sz (num_direct ino) (direct_blocks ino)
           (indirect_block ino) (double_indirect_block ino) (triple_indirect_block ino).

(** ** The disk: the segment files of the working directory *)

Definition block := list byte.

Record inode_segment := mk_iseg {
  ibitmap : list byte;        (* first block of [inode_seg_N] *)
  inodes : list inode_t       (* the records after it *)
}.

Record data_segment := mk_dseg {
  dbitmap : list byte;        (* first block of [data_seg_N] *)
  blocks : list block         (* the 4 KiB blocks after it *)
}.

Record disk := mk_disk {
  inode_segs : list inode_segment;
  data_segs : list data_segment
}.

Definition zero_block : block := zero_bytes BLOCK_SIZE.

(** A segment file right after the zero fill of [create_new_segment]. *)
Definition zero_inode_segment : inode_segment :=
  mk_iseg (zero_bytes BLOCK_SIZE) (repeat zero_inode (Z.to_nat num_inodes_per_segment)).

Definition zero_data_segment : data_segment :=
  mk_dseg (zero_bytes BLOCK_SIZE) (repeat zero_block (Z.to_nat blocks_per_segment)).

(** [fopen(name, "wb")] followed by the zero fill: the file at that index is
    replaced, or created after the last existing one. *)
Definition put_segment {A} (segs : list A) (segment_number : Z) (s : A) : list A :=
  if decide (0 <= segment_number < Z.of_nat (length segs))
  then zset segs segment_number s
  else segs ++ [s].

(** ** Inode table: [read_inode], [write_inode], [free_inode] *)

(** Inode numbers are taken to be array indices: not negative, as every
    number [allocate_inode] returns is.  For a negative number the C
    functions compute an offset before the start of the segment file,
    [fseek] fails and the transfer happens at the start of the file; the
    definitions below answer as for a missing record instead, and what is
    stated about them is stated for numbers that are not negative. *)
Definition read_inode (d : disk) (inode_num : Z) : option inode_t :=
  let segment_number := Z.quot inode_num num_inodes_per_segment in
  let index_in_segment := Z.rem inode_num num_inodes_per_segment in
  match zget (inode_segs d) segment_number with
  | None => None
  | Some seg => zget (inodes seg) index_in_segment
  end.

(** [None] is the return value -1: the segment cannot be opened. *)
Definition write_inode (d : disk) (inode_num : Z) (in_inode : inode_t) : option disk :=
  let segment_number := Z.quot inode_num num_inodes_per_segment in
  let index_in_segment := Z.rem inode_num num_inodes_per_segment in
  match zget (inode_segs d) segment_number with
  | None => None
  | Some seg =>
      Some (mk_disk (zset (inode_segs d) segment_number
                          (mk_iseg (ibitmap seg) (zset (inodes seg) index_in_segment in_inode)))
                    (data_segs d))
  end.

(** No caller reads the status of [free_inode]; the disk after the call is
    returned, unchanged when the segment cannot be opened. *)
Definition free_inode (d : disk) (inode_num : Z) : disk :=
  let segment_number := Z.quot inode_num num_inodes_per_segment in
  let index_in_segment := Z.rem inode_num num_inodes_per_segment in
  match zget (inode_segs d) segment_number with
  | None => d
  | Some seg =>
      mk_disk (zset (inode_segs d) segment_number
                    (mk_iseg (clear_bit (ibitmap seg) index_in_segment) (inodes seg)))
              (data_segs d)
  end.

(** ** Segment creation: [create_new_segment] *)

Definition INODE_SEGMENT : Z := 0.
Definition DATA_SEGMENT : Z := 1.

Definition create_new_segment (d : disk) (segment_number segment_type : Z) : disk :=
  if decide (segment_type = INODE_SEGMENT) then
    let d1 := mk_disk (put_segment (inode_segs d) segment_number zero_inode_segment)
                      (data_segs d) in
    if decide (segment_number = 0) then
      (* root directory: a bitmap with only bit 0 set, then the root inode *)
      match zget (inode_segs d1) 0 with
      | None => d1
      | Some seg =>
          let bitmap := set_bit (zero_bytes BLOCK_SIZE) ROOT_DIR_INODE in
          let d2 := mk_disk (zset (inode_segs d1) 0 (mk_iseg bitmap (inodes seg)))
                            (data_segs d1) in
          default d2 (write_inode d2 ROOT_DIR_INODE (fresh_inode INODE_DIR))
      end
    else d1
  else
    mk_disk (inode_segs d)
            (put_segment (data_segs d) segment_number zero_data_segment).

(** ** Allocation: [allocate_inode], [allocate_block] *)

(** The [while (1)] loop of [allocate_inode] with [fuel] iterations left.
    [None] means the iterations ran out; [Some (-1, _)] is the source's
    [return -1]. *)
Fixpoint allocate_inode_loop (fuel : nat) (d : disk) (segment_number : Z)
  : option (Z * disk) :=
  match fuel with
  | O => None
  | S fuel' =>
      let d1 := match zget (inode_segs d) segment_number with
                | Some _ => d
                | None => create_new_segment d segment_number INODE_SEGMENT
                end in
      match zget (inode_segs d1) segment_number with
      | None => Some (-1, d1)
      | Some seg =>
          let num_inodes := num_inodes_per_segment in
          let bitmap := ibitmap seg in
          if decide (Z.of_nat (length bitmap) = BLOCK_SIZE) then
            let free_inode := find_free_bit bitmap num_inodes in
            if decide (0 <= free_inode) then
              let bitmap' := set_bit bitmap free_inode in
              Some (int32 (segment_number * num_inodes + free_inode),
                    mk_disk (zset (inode_segs d1) segment_number
                                  (mk_iseg bitmap' (inodes seg)))
                            (data_segs d1))
            else allocate_inode_loop fuel' d1 (segment_number + 1)
          else Some (-1, d1)
      end
  end.

(** Every existing segment is visited at most once before a missing index
    is reached, so one more iteration than there are segments is enough. *)
Definition allocate_inode (d : disk) : option (Z * disk) :=
  allocate_inode_loop (S (length (inode_segs d))) d 0.

Fixpoint allocate_block_loop (fuel : nat) (d : disk) (segment_number : Z)
  : option (Z * disk) :=
  match fuel with
  | O => None
  | S fuel' =>
      let d1 := match zget (data_segs d) segment_number with
                | Some _ => d
                | None => create_new_segment d segment_number DATA_SEGMENT
                end in
      match zget (data_segs d1) segment_number with
      | None => Some (-1, d1)
      | Some seg =>
          let num_blocks := blocks_per_segment in
          let bitmap := dbitmap seg in
          if decide (Z.of_nat (length bitmap) = BLOCK_SIZE) then
            let free_block := find_free_bit bitmap num_blocks in
            if decide (0 <= free_block) then
              let bitmap' := set_bit bitmap free_block in
              Some (int32 (segment_number * num_blocks + free_block),
                    mk_disk (inode_segs d1)
                            (zset (data_segs d1) segment_number
                                  (mk_dseg bitmap' (blocks seg))))
            else allocate_block_loop fuel' d1 (segment_number + 1)
          else Some (-1, d1)
      end
  end.

Definition allocate_block (d : disk) : option (Z * disk) :=
  allocate_block_loop (S (length (data_segs d))) d 0.

(** ** Data block store: [read_block], [write_block], [free_block] *)

(** Block ids are taken to be array indices: not negative, as every id
    [allocate_block] returns is.  For a negative id the C functions seek
    before the first block of the segment file (to its bitmap block, or
    nowhere when [fseek] fails); the definitions below answer as for a
    missing block instead, and what is stated about them is stated for ids
    that are not negative.  The buffers the callers pass hold [BLOCK_SIZE]
    bytes. *)
Definition read_block (d : disk) (block_id : Z) : option block :=
  let segment_number := Z.quot block_id blocks_per_segment in
  let block_index := Z.rem block_id blocks_per_segment in
  match zget (data_segs d) segment_number with
  | None => None
  | Some seg => zget (blocks seg) block_index
  end.

Definition write_block (d : disk) (block_id : Z) (buffer : block) : option disk :=
  let segment_number := Z.quot block_id blocks_per_segment in
  let block_index := Z.rem block_id blocks_per_segment in
  match zget (data_segs d) segment_number with
  | None => None
  | Some seg =>
      Some (mk_disk (inode_segs d)
                    (zset (data_segs d) segment_number
                          (mk_dseg (dbitmap seg) (zset (blocks seg) block_index buffer))))
  end.

Definition free_block (d : disk) (block_id : Z) : disk :=
  let segment_number := Z.quot block_id blocks_per_segment in
  let block_index := Z.rem block_id blocks_per_segment in
  match zget (data_segs d) segment_number with
  | None => d
  | Some seg =>
      mk_disk (inode_segs d)
              (zset (data_segs d) segment_number
                    (mk_dseg (clear_bit (dbitmap seg) block_index) (blocks seg)))
  end.

(** ** Typed views of a block *)

#[global] Instance byte_eq_dec : EqDecision byte := Byte.byte_eq_dec.

(** A buffer of exactly [n] bytes holding [l], zero filled. *)
Definition fixed (n : Z) (l : list byte) : list byte :=
  take (Z.to_nat n) (l ++ zero_bytes n).

(** An [int] array overlaid on a byte buffer. *)
Fixpoint ints_of_bytes (l : list byte) : list Z :=
  match l with
  | b0 :: b1 :: b2 :: b3 :: rest => decode_int b0 b1 b2 b3 :: ints_of_bytes rest
  | _ => []
  end.

Definition bytes_of_ints (l : list Z) : list byte := flat_map encode_int l.

(** [int a[BLOCK_SIZE / sizeof(int)] = {0}] *)
Definition zero_ints : list Z := repeat 0 (Z.to_nat PTRS_PER_BLOCK).

(** One [dir_entry_t] overlaid on the bytes at the head of [l]. *)
Definition decode_entry (l : list byte) : dir_entry_t :=
  mk_entry (take (Z.to_nat MAX_FILENAME) l)
           (match drop (Z.to_nat MAX_FILENAME) l with
            | b0 :: b1 :: b2 :: b3 :: _ => decode_int b0 b1 b2 b3
            | _ => 0
            end).

Definition encode_entry (e : dir_entry_t) : list byte :=
  fixed MAX_FILENAME (name e) ++ encode_int (inode_num e).

Fixpoint entries_of_bytes (n : nat) (l : list byte) : list dir_entry_t :=
  match n with
  | O => []
  | S n' => decode_entry l :: entries_of_bytes n' (drop (Z.to_nat sizeof_dir_entry_t) l)
  end.

Definition bytes_of_entries (entries : list dir_entry_t) : list byte :=
  flat_map encode_entry entries.

(** ** Directory layer *)

(** [memcpy(entries, buffer, sizeof(dir_entry_t) * DIR_ENTRIES_PER_BLOCK)] *)
Definition load_directory_entries (d : disk) (block_id : Z) : option (list dir_entry_t) :=
  match read_block d block_id with
  | None => None
  | Some buffer => Some (entries_of_bytes (Z.to_nat DIR_ENTRIES_PER_BLOCK) buffer)
  end.

(** A zeroed block buffer with the entries array copied over its prefix. *)
Definition save_directory_entries (d : disk) (block_id : Z) (entries : list dir_entry_t)
  : option disk :=
  write_block d block_id (fixed BLOCK_SIZE (bytes_of_entries entries)).

(** The characters of a C string: the bytes before the first NUL. *)
Fixpoint cstr (s : list byte) : list byte :=
  match s with
  | [] => []
  | c :: r => if decide (c = x00) then [] else c :: cstr r
  end.

(** [strcmp(a, b) == 0] *)
Definition strcmp_eq (a b : list byte) : bool := bool_decide (cstr a = cstr b).

(** [strncpy(field, name, MAX_FILENAME - 1); field[MAX_FILENAME - 1] = '\0'] *)
Definition strncpy_name (name : list byte) : list byte :=
  fixed MAX_FILENAME (take (Z.to_nat (MAX_FILENAME - 1)) (cstr name)).

(** The slots of [direct_blocks] the loops [for (i = 0; i < num_direct; i++)]
    visit.  [num_direct] never passes [MAX_DIRECT_BLOCKS]: both places that
    increment it are guarded. *)
Definition live_direct_blocks (ino : inode_t) : list Z :=
  take (Z.to_nat (num_direct ino)) (direct_blocks ino).

(** Inner loop of [find_entry_in_dir]: first live entry with that name. *)
Fixpoint find_in_entries (entries : list dir_entry_t) (nm : list byte) : option Z :=
  match entries with
  | [] => None
  | e :: rest =>
      if negb (inode_num e =? -1) && strcmp_eq (name e) nm
      then Some (inode_num e)
      else find_in_entries rest nm
  end.

(** Outer loop: a block that cannot be loaded is skipped ([continue]). *)
Fixpoint find_in_blocks (d : disk) (blks : list Z) (nm : list byte) : Z :=
  match blks with
  | [] => -1
  | b :: rest =>
      match load_directory_entries d b with
      | None => find_in_blocks d rest nm
      | Some entries =>
          match find_in_entries entries nm with
          | Some n => n
          | None => find_in_blocks d rest nm
          end
      end
  end.

Definition find_entry_in_dir (d : disk) (dir_inode : inode_t) (nm : list byte) : Z :=
  if decide (type dir_inode = INODE_DIR)
  then find_in_blocks d (live_direct_blocks dir_inode) nm
  else -1.

(** Index of the first entry with [inode_num == -1]. *)
Fixpoint first_free_slot (entries : list dir_entry_t) (j : nat) : option nat :=
  match entries with
  | [] => None
  | e :: rest => if inode_num e =? -1 then Some j else first_free_slot rest (S j)
  end.

(** The slot-reuse loop of [add_entry_to_dir]: the disk after the entry was
    stored in the first free slot of the first loadable block that has one;
    [None] when the loop ends without finding a slot.  The status of
    [save_directory_entries] is not read by the source. *)
Fixpoint fill_free_slot (d : disk) (blks : list Z) (nm : list byte) (child : Z)
  : option disk :=
  match blks with
  | [] => None
  | b :: rest =>
      match load_directory_entries d b with
      | None => fill_free_slot d rest nm child
      | Some entries =>
          match first_free_slot entries O with
          | Some j =>
              let entries' := <[j := mk_entry (strncpy_name nm) child]> entries in
              Some (default d (save_directory_entries d b entries'))
          | None => fill_free_slot d rest nm child
          end
      end
  end.

(** [memset(entries, 0, sizeof(entries))], every [inode_num] set to -1, then
    the new entry at index 0. *)
Definition new_directory_block (nm : list byte) (child : Z) : list dir_entry_t :=
  <[O := mk_entry (strncpy_name nm) child]>
    (repeat (mk_entry (zero_bytes MAX_FILENAME) (-1)) (Z.to_nat DIR_ENTRIES_PER_BLOCK)).

(** [add_entry_to_dir]: the status, the caller's in-memory [dir_inode] after
    the call, and the disk.  [None] only if [allocate_block] ran out of
    iterations. *)
Definition add_entry_to_dir (d : disk) (dir_inode : inode_t) (dir_inode_num : Z)
           (nm : list byte) (child_inode_num : Z) : option (Z * inode_t * disk) :=
  if decide (type dir_inode = INODE_DIR) then
    if decide (find_entry_in_dir d dir_inode nm = -1) then
      match fill_free_slot d (live_direct_blocks dir_inode) nm child_inode_num with
      | Some d' => Some (0, dir_inode, d')
      | None =>
          if decide (MAX_DIRECT_BLOCKS <= num_direct dir_inode) then Some (-1, dir_inode, d)
          else
            match allocate_block d with
            | None => None
            | Some (new_block_id, d1) =>
                if decide (new_block_id = -1) then Some (-1, dir_inode, d1)
                else
                  match save_directory_entries d1 new_block_id
                          (new_directory_block nm child_inode_num) with
                  | None => Some (-1, dir_inode, free_block d1 new_block_id)
                  | Some d2 =>
                      let dir_inode' :=
                        with_direct dir_inode
                          (num_direct dir_inode + 1)
                          (zset (direct_blocks dir_inode) (num_direct dir_inode) new_block_id)
                          (size_t (size dir_inode + BLOCK_SIZE)) in
                      Some (0, dir_inode', default d2 (write_inode d2 dir_inode_num dir_inode'))
                  end
            end
      end
    else Some (-1, dir_inode, d)
  else Some (-1, dir_inode, d).

(** ** [split_path] *)

Definition SLASH : byte := x2f.

(** [strtok(s, "/")] called until it returns NULL: the maximal runs of
    bytes other than '/'.  [cur] is the run being read. *)
Fixpoint strtok_all (s cur : list byte) : list (list byte) :=
  match s with
  | [] => match cur with [] => [] | _ => [cur] end
  | c :: r =>
      if decide (c = SLASH)
      then match cur with [] => strtok_all r [] | _ => cur :: strtok_all r [] end
      else strtok_all r (cur ++ [c])
  end.

(** The components [parts[0 .. count-1]] that [split_path] hands back. *)
Definition split_path (path : list byte) : list (list byte) :=
  let p := cstr path in
  if decide (p = [] \/ p = [SLASH]) then []
  else
    let path_copy := take (Z.to_nat (MAX_PATH - 1)) p in
    let start := match path_copy with
                 | c :: r => if decide (c = SLASH) then r else path_copy
                 | [] => path_copy
                 end in
    take 32 (map (take (Z.to_nat (MAX_FILENAME - 1))) (strtok_all start [])).

(** ** Outcomes of a command *)

(** The diagnostics the commands print on the standard error stream. *)
Inductive message :=
| Invalid_path
| Failed_to_read_root_inode
| Failed_to_allocate_inode_for_directory
| Failed_to_write_new_directory_inode
| Failed_to_add_new_directory_entry
| Failed_to_read_existing_directory_inode
| Is_not_a_directory (part : list byte)
| File_already_exists (filename : list byte)
| Failed_to_allocate_file_inode
| Failed_to_open_local_file
| Failed_to_allocate_data_block
| Failed_to_write_data_block
| Failed_to_allocate_indirect_block
| Failed_to_allocate_double_indirect_block
| Failed_to_allocate_level_1_block
| Failed_to_write_file_inode
| Failed_to_add_file_entry
| Path_not_found (part : list byte)
| Failed_to_read_inode
| Not_a_regular_file
| File_not_found (part : list byte).

(** How a piece of a command ends: it goes on with a value, the command
    returns early after a diagnostic (leaving the disk as it then is), it
    indexes an array outside its bounds or reads an uninitialised buffer, or
    the model ran out of iterations. *)
Inductive outcome (A : Type) :=
| Ok (a : A)
| Stop (d : disk) (m : message)
| Undefined
| OutOfFuel.

Arguments Ok {A} a.
Arguments Stop {A} d m.
Arguments Undefined {A}.
Arguments OutOfFuel {A}.

Definition bind {A B} (x : outcome A) (k : A -> outcome B) : outcome B :=
  match x with
  | Ok a => k a
  | Stop d m => Stop d m
  | Undefined => Undefined
  | OutOfFuel => OutOfFuel
  end.

Notation "x <- c ;; k" := (bind c (fun x => k))
  (at level 100, c at next level, right associativity).

(** An allocator call followed by the caller's test [id == -1]. *)
Definition alloc_or_stop (r : option (Z * disk)) (m : message) : outcome (Z * disk) :=
  match r with
  | None => OutOfFuel
  | Some (id, d) => if decide (id = -1) then Stop d m else Ok (id, d)
  end.

(** [a[i]] and [a[i] = x] on an array of [PTRS_PER_BLOCK] ints. *)
Definition arr_read (a : list Z) (i : Z) : outcome Z :=
  if decide (0 <= i < PTRS_PER_BLOCK)
  then match zget a i with Some x => Ok x | None => Undefined end
  else Undefined.

Definition arr_write (a : list Z) (i x : Z) : outcome (list Z) :=
  if decide (0 <= i < PTRS_PER_BLOCK) then Ok (zset a i x) else Undefined.

(** [read_block(id, a)] into an [int] array that already has contents:
    a failed read leaves the array as it was. *)
Definition read_ints (d : disk) (id : Z) (a : list Z) : list Z :=
  match read_block d id with
  | Some b => ints_of_bytes b
  | None => a
  end.

(** [write_block(id, a)] whose status the source does not read. *)
Definition write_ints (d : disk) (id : Z) (a : list Z) : disk :=
  default d (write_block d id (bytes_of_ints a)).

(** ** [exfs2_add] *)

(** The local variables of [exfs2_add] that live across the iterations of
    its read loop, with the disk. *)
Record add_locals := mk_locals {
  l_disk : disk;
  file_inode : inode_t;
  indirect_buf : list Z;          (* [int indirect_block[...]] *)
  double_indirect_buf : list Z;   (* [int double_indirect_block[...]] *)
  total_blocks : Z;
  indirect_count : Z;
  double_indirect_level1_count : Z;
  double_indirect_level2_count : Z
}.

Definition initial_locals (d : disk) : add_locals :=
  mk_locals d (fresh_inode INODE_FILE) zero_ints zero_ints 0 0 0 0.

(** The local file as [fread(buffer, 1, BLOCK_SIZE, fp)] delivers it: full
    buffers, then what is left.  [fuel] bounds the number of reads. *)
Fixpoint fread_all (fuel : nat) (data : list byte) : list (list byte) :=
  match fuel with
  | O => []
  | S fuel' =>
      match data with
      | [] => []
      | _ => take (Z.to_nat BLOCK_SIZE) data
             :: fread_all fuel' (drop (Z.to_nat BLOCK_SIZE) data)
      end
  end.

Definition file_chunks (data : list byte) : list (list byte) :=
  fread_all (length data) data.

(** Branch "direct block": [direct_blocks[num_direct++] = block_id]. *)
Definition place_direct (l : add_locals) (d : disk) (block_id : Z) : outcome add_locals :=
  let ino := file_inode l in
  if decide (0 <= num_direct ino < MAX_DIRECT_BLOCKS) then
    Ok (mk_locals d
          (with_direct ino (num_direct ino + 1)
                       (zset (direct_blocks ino) (num_direct ino) block_id) (size ino))
          (indirect_buf l) (double_indirect_buf l)
          (total_blocks l) (indirect_count l)
          (double_indirect_level1_count l) (double_indirect_level2_count l))
  else Undefined.

(** Branch "single indirect block territory". *)
Definition place_indirect (l : add_locals) (d : disk) (block_id : Z) : outcome add_locals :=
  let ino := file_inode l in
  r <- (if decide (indirect_block ino = -1) then
          p <- alloc_or_stop (allocate_block d) Failed_to_allocate_indirect_block ;;
          Ok (with_indirect ino (fst p), zero_ints, snd p)
        else
          Ok (ino, read_ints d (indirect_block ino) (indirect_buf l), d)) ;;
  let '(ino1, buf, d1) := r in
  buf' <- arr_write buf (indirect_count l) block_id ;;
  Ok (mk_locals (write_ints d1 (indirect_block ino1) buf')
        ino1 buf' (double_indirect_buf l)
        (total_blocks l) (indirect_count l + 1)
        (double_indirect_level1_count l) (double_indirect_level2_count l)).

(** Branch "double indirect block territory": every block past the single
    indirect range comes here. *)
Definition place_double (l : add_locals) (d : disk) (block_id : Z) : outcome add_locals :=
  let ino := file_inode l in
  let indirect_blocks_per_block := PTRS_PER_BLOCK in
  r <- (if decide (double_indirect_block ino = -1) then
          p <- alloc_or_stop (allocate_block d) Failed_to_allocate_double_indirect_block ;;
          Ok (with_double_indirect ino (fst p), zero_ints,
              write_ints (snd p) (fst p) zero_ints)
        else
          Ok (ino, read_ints d (double_indirect_block ino) (double_indirect_buf l), d)) ;;
  let '(ino1, dbuf, d1) := r in
  (* if we need a new level 1 block *)
  need <- (if decide (indirect_blocks_per_block <= double_indirect_level2_count l)
           then Ok true
           else x <- arr_read dbuf (double_indirect_level1_count l) ;;
                Ok (bool_decide (x = 0))) ;;
  r2 <- (if need : bool then
           p <- alloc_or_stop (allocate_block d1) Failed_to_allocate_level_1_block ;;
           dbuf' <- arr_write dbuf (double_indirect_level1_count l) (fst p) ;;
           Ok (dbuf', double_indirect_level1_count l + 1, 0,
               write_ints (snd p) (fst p) zero_ints)
         else
           Ok (dbuf, double_indirect_level1_count l,
               double_indirect_level2_count l, d1)) ;;
  let '(dbuf2, level1_count, level2_count, d2) := r2 in
  (* read the current level 1 block *)
  level1_block_id <- arr_read dbuf2 (level1_count - 1) ;;
  level1_data <- match read_block d2 level1_block_id with
                 | Some b => Ok (ints_of_bytes b)
                 | None => Undefined       (* the array stays uninitialised *)
                 end ;;
  level1_data' <- arr_write level1_data level2_count block_id ;;
  let d3 := write_ints d2 level1_block_id level1_data' in
  let d4 := write_ints d3 (double_indirect_block ino1) dbuf2 in
  Ok (mk_locals d4 ino1 (indirect_buf l) dbuf2
        (total_blocks l) (indirect_count l) level1_count (level2_count + 1)).

(** One iteration of the [while ((bytes_read = fread(...)) > 0)] loop. *)
Definition add_block (l : add_locals) (chunk : list byte) : outcome add_locals :=
  p <- alloc_or_stop (allocate_block (l_disk l)) Failed_to_allocate_data_block ;;
  let '(block_id, d1) := p in
  let bytes_read := Z.of_nat (length chunk) in
  let buffer := chunk ++ zero_bytes (BLOCK_SIZE - bytes_read) in
  match write_block d1 block_id buffer with
  | None => Stop d1 Failed_to_write_data_block
  | Some d2 =>
      l' <- (if decide (total_blocks l < MAX_DIRECT_BLOCKS) then
               place_direct l d2 block_id
             else if decide (total_blocks l < int32 (MAX_DIRECT_BLOCKS + PTRS_PER_BLOCK)) then
               place_indirect l d2 block_id
             else
               place_double l d2 block_id) ;;
      Ok (mk_locals (l_disk l')
            (with_size (file_inode l') (size_t (size (file_inode l') + bytes_read)))
            (indirect_buf l') (double_indirect_buf l')
            (total_blocks l' + 1) (indirect_count l')
            (double_indirect_level1_count l') (double_indirect_level2_count l'))
  end.

Fixpoint add_blocks (l : add_locals) (chunks : list (list byte)) : outcome add_locals :=
  match chunks with
  | [] => Ok l
  | c :: rest => l' <- add_block l c ;; add_blocks l' rest
  end.

(** The loop "walk and create intermediate directories" over the components
    before the last one; the result is [current_inode_num], the in-memory
    [current_inode] and the disk. *)
Fixpoint add_walk (d : disk) (current_inode_num : Z) (current_inode : inode_t)
         (parts : list (list byte)) : outcome (Z * inode_t * disk) :=
  match parts with
  | [] => Ok (current_inode_num, current_inode, d)
  | part :: rest =>
      let next_inode_num := find_entry_in_dir d current_inode part in
      if decide (next_inode_num = -1) then
        p <- alloc_or_stop (allocate_inode d) Failed_to_allocate_inode_for_directory ;;
        let '(new_dir_inode_num, d1) := p in
        let new_dir_inode := fresh_inode INODE_DIR in
        match write_inode d1 new_dir_inode_num new_dir_inode with
        | None => Stop d1 Failed_to_write_new_directory_inode
        | Some d2 =>
            match add_entry_to_dir d2 current_inode current_inode_num part
                                   new_dir_inode_num with
            | None => OutOfFuel
            | Some (status, _, d3) =>
                if decide (status = 0)
                then add_walk d3 new_dir_inode_num new_dir_inode rest
                else Stop d3 Failed_to_add_new_directory_entry
            end
        end
      else
        match read_inode d next_inode_num with
        | None => Stop d Failed_to_read_existing_directory_inode
        | Some ino =>
            if decide (type ino = INODE_DIR)
            then add_walk d next_inode_num ino rest
            else Stop d (Is_not_a_directory part)
        end
  end.

(** [exfs2_add]; [local_file] is the content of the local file, [None] when
    it cannot be opened.  [Ok d'] is the run that ends with "added
    successfully". *)
Definition exfs2_add (d : disk) (exfs2_path : list byte) (local_file : option (list byte))
  : outcome disk :=
  let parts := split_path exfs2_path in
  match parts with
  | [] => Stop d Invalid_path
  | _ =>
      match read_inode d ROOT_DIR_INODE with
      | None => Stop d Failed_to_read_root_inode
      | Some root =>
          w <- add_walk d ROOT_DIR_INODE root (removelast parts) ;;
          let '(current_inode_num, current_inode, d1) := w in
          let filename := List.last parts [] in
          if decide (find_entry_in_dir d1 current_inode filename = -1) then
            p <- alloc_or_stop (allocate_inode d1) Failed_to_allocate_file_inode ;;
            let '(file_inode_num, d2) := p in
            match local_file with
            | None => Stop d2 Failed_to_open_local_file
            | Some data =>
                l <- add_blocks (initial_locals d2) (file_chunks data) ;;
                match write_inode (l_disk l) file_inode_num (file_inode l) with
                | None => Stop (l_disk l) Failed_to_write_file_inode
                | Some d3 =>
                    match add_entry_to_dir d3 current_inode current_inode_num
                                           filename file_inode_num with
                    | None => OutOfFuel
                    | Some (status, _, d4) =>
                        if decide (status = 0) then Ok d4
                        else Stop d4 Failed_to_add_file_entry
                    end
                end
            end
          else Stop d1 (File_already_exists filename)
      end
  end.

(** ** Path walk of [exfs2_extract] and [exfs2_remove] *)

(** The loop "walk through path": each component is looked up in the current
    inode and the inode found is read; no type test. *)
Fixpoint walk_path (d : disk) (current_inode_num : Z) (current_inode : inode_t)
         (parts : list (list byte)) : outcome (Z * inode_t) :=
  match parts with
  | [] => Ok (current_inode_num, current_inode)
  | part :: rest =>
      let next_inode_num := find_entry_in_dir d current_inode part in
      if decide (next_inode_num = -1) then Stop d (Path_not_found part)
      else
        match read_inode d next_inode_num with
        | None => Stop d Failed_to_read_inode
        | Some ino => walk_path d next_inode_num ino rest
        end
  end.

(** ** [exfs2_extract] *)

(** [read_block] of one data block and the [fwrite] of its first
    [min(remaining, BLOCK_SIZE)] bytes; the state is [remaining] and the
    bytes written to the standard output so far. *)
Definition emit_block (d : disk) (id : Z) (st : Z * list byte) : Z * list byte :=
  let '(remaining, out) := st in
  match read_block d id with
  | None => st
  | Some buffer =>
      let to_write := if decide (BLOCK_SIZE < remaining) then BLOCK_SIZE else remaining in
      (remaining - to_write, out ++ take (Z.to_nat to_write) buffer)
  end.

Fixpoint extract_direct (d : disk) (ids : list Z) (st : Z * list byte) : Z * list byte :=
  match ids with
  | [] => st
  | id :: rest =>
      if decide (0 < fst st) then extract_direct d rest (emit_block d id st) else st
  end.

(** Loop over the entries of a single indirect block, [break] at a 0. *)
Fixpoint extract_level1 (d : disk) (ids : list Z) (st : Z * list byte) : Z * list byte :=
  match ids with
  | [] => st
  | id :: rest =>
      if decide (0 < fst st) then
        if decide (id = 0) then st
        else extract_level1 d rest (emit_block d id st)
      else st
  end.

(** The [int] array a loop reads after [read_block(id, array) == 0]. *)
Definition load_ints (d : disk) (id : Z) : option (list Z) :=
  match read_block d id with
  | None => None
  | Some b => Some (take (Z.to_nat PTRS_PER_BLOCK) (ints_of_bytes b))
  end.

Fixpoint extract_level2 (d : disk) (ids : list Z) (st : Z * list byte) : Z * list byte :=
  match ids with
  | [] => st
  | id :: rest =>
      if decide (0 < fst st) then
        if decide (id = 0) then st
        else extract_level2 d rest
               (match load_ints d id with
                | Some a => extract_level1 d a st
                | None => st
                end)
      else st
  end.

Fixpoint extract_level3 (d : disk) (ids : list Z) (st : Z * list byte) : Z * list byte :=
  match ids with
  | [] => st
  | id :: rest =>
      if decide (0 < fst st) then
        if decide (id = 0) then st
        else extract_level3 d rest
               (match load_ints d id with
                | Some a => extract_level2 d a st
                | None => st
                end)
      else st
  end.

(** The body of [exfs2_extract] once the file inode is at hand. *)
Definition extract_inode (d : disk) (ino : inode_t) : list byte :=
  let remaining := int32 (size ino) in
  let st0 := extract_direct d (live_direct_blocks ino) (remaining, []) in
  let via (ptr : Z) (loop : disk -> list Z -> Z * list byte -> Z * list byte) st :=
      if decide (ptr <> -1 /\ 0 < fst st) then
        match load_ints d ptr with
        | Some a => loop d a st
        | None => st
        end
      else st in
  let st1 := via (indirect_block ino) extract_level1 st0 in
  let st2 := via (double_indirect_block ino) extract_level2 st1 in
  let st3 := via (triple_indirect_block ino) extract_level3 st2 in
  snd st3.

(** [exfs2_extract]: the bytes written to the standard output, or the
    diagnostic. *)
Definition exfs2_extract (d : disk) (exfs2_path : list byte) : outcome (list byte) :=
  let parts := split_path exfs2_path in
  match parts with
  | [] => Stop d Invalid_path
  | _ =>
      match read_inode d ROOT_DIR_INODE with
      | None => Stop d Failed_to_read_root_inode
      | Some root =>
          w <- walk_path d ROOT_DIR_INODE root parts ;;
          let '(_, current_inode) := w in
          if decide (type current_inode = INODE_FILE)
          then Ok (extract_inode d current_inode)
          else Stop d Not_a_regular_file
      end
  end.

(** ** [exfs2_remove] *)

(** Loop over an indirect block in [exfs2_remove_recursive]: [free_block]
    of every entry before the first 0. *)
Fixpoint free_until_zero (d : disk) (ids : list Z) : disk :=
  match ids with
  | [] => d
  | id :: rest => if decide (id = 0) then d else free_until_zero (free_block d id) rest
  end.

(** The "file" branch of [exfs2_remove_recursive]. *)
Definition remove_file (d : disk) (inode_num : Z) (inode : inode_t) : disk :=
  let d1 := fold_left free_block (live_direct_blocks inode) d in
  let d2 := if decide (indirect_block inode <> -1) then
              let d' := match load_ints d1 (indirect_block inode) with
                        | Some a => free_until_zero d1 a
                        | None => d1
                        end in
              free_block d' (indirect_block inode)
            else d1 in
  free_inode d2 inode_num.

(** Inner loop of the "directory" branch: [rec] is the recursive call. *)
Fixpoint remove_entries (rec : disk -> Z -> option disk) (d : disk)
         (entries : list dir_entry_t) : option disk :=
  match entries with
  | [] => Some d
  | e :: rest =>
      if decide (inode_num e = -1) then remove_entries rec d rest
      else match rec d (inode_num e) with
           | None => None
           | Some d1 => remove_entries rec d1 rest
           end
  end.

(** Outer loop: a block that cannot be loaded is skipped and not freed. *)
Fixpoint remove_dir_blocks (rec : disk -> Z -> option disk) (d : disk)
         (blks : list Z) : option disk :=
  match blks with
  | [] => Some d
  | b :: rest =>
      match load_directory_entries d b with
      | None => remove_dir_blocks rec d rest
      | Some entries =>
          match remove_entries rec d entries with
          | None => None
          | Some d1 => remove_dir_blocks rec (free_block d1 b) rest
          end
      end
  end.

(** [exfs2_remove_recursive] with [fuel] bounding the depth of the
    recursion; [None] when the bound is hit. *)
Fixpoint exfs2_remove_recursive (fuel : nat) (d : disk) (inode_num : Z) : option disk :=
  match fuel with
  | O => None
  | S fuel' =>
      match read_inode d inode_num with
      | None => Some d
      | Some inode =>
          if decide (type inode = INODE_FILE) then
            Some (remove_file d inode_num inode)
          else if decide (type inode = INODE_DIR) then
            match remove_dir_blocks (exfs2_remove_recursive fuel') d
                                    (live_direct_blocks inode) with
            | None => None
            | Some d1 => Some (free_inode d1 inode_num)
            end
          else Some d
      end
  end.

(** First entry of a block naming [target]: cleared ([inode_num = -1], name
    zeroed); [None] if the block has none. *)
Fixpoint clear_first (entries : list dir_entry_t) (target : Z) : option (list dir_entry_t) :=
  match entries with
  | [] => None
  | e :: rest =>
      if decide (inode_num e = target)
      then Some (mk_entry (zero_bytes MAX_FILENAME) (-1) :: rest)
      else match clear_first rest target with
           | Some rest' => Some (e :: rest')
           | None => None
           end
  end.

(** The loop "remove entry from directory": the [break] leaves the inner
    loop only, so every block of the parent is visited. *)
Fixpoint unlink_entry (d : disk) (blks : list Z) (target : Z) : disk :=
  match blks with
  | [] => d
  | b :: rest =>
      match load_directory_entries d b with
      | None => unlink_entry d rest target
      | Some entries =>
          match clear_first entries target with
          | Some entries' =>
              unlink_entry (default d (save_directory_entries d b entries')) rest target
          | None => unlink_entry d rest target
          end
      end
  end.

Definition exfs2_remove (fuel : nat) (d : disk) (exfs2_path : list byte) : outcome disk :=
  let parts := split_path exfs2_path in
  match parts with
  | [] => Stop d Invalid_path
  | _ =>
      match read_inode d ROOT_DIR_INODE with
      | None => Stop d Failed_to_read_root_inode
      | Some root =>
          w <- walk_path d ROOT_DIR_INODE root (removelast parts) ;;
          let '(_, current_inode) := w in
          let target_inode_num := find_entry_in_dir d current_inode (List.last parts []) in
          if decide (target_inode_num = -1) then Stop d (File_not_found (List.last parts []))
          else
            match exfs2_remove_recursive fuel d target_inode_num with
            | None => OutOfFuel
            | Some d1 =>
                Ok (unlink_entry d1 (live_direct_blocks current_inode) target_inode_num)
            end
      end
  end.

(** ** [init_fs] and the commands of [main] *)

Definition empty_disk : disk := mk_disk [] [].

Definition init_fs (d : disk) : disk :=
  match zget (inode_segs d) 0 with
  | Some _ => d
  | None => create_new_segment (create_new_segment d 0 INODE_SEGMENT) 0 DATA_SEGMENT
  end.

(** The disk an outcome leaves behind, when it is defined. *)
Definition disk_after (o : outcome disk) : option disk :=
  match o with
  | Ok d => Some d
  | Stop d _ => Some d
  | _ => None
  end.

(** One run of the program that may write: [-a] and [-r] after [init_fs].
    The commands [-l], [-e] and [-D] only read once [init_fs] has run. *)
Inductive run : disk -> disk -> Prop :=
| run_add d path local d' :
    disk_after (exfs2_add (init_fs d) path local) = Some d' -> run d d'
| run_remove d fuel path d' :
    disk_after (exfs2_remove fuel (init_fs d) path) = Some d' -> run d d'
| run_read_only d : run d (init_fs d).

(** The disks a sequence of runs can produce in a directory that starts
    without segment files. *)
Inductive reachable : disk -> Prop :=
| reachable_empty : reachable empty_disk
| reachable_run d d' : reachable d -> run d d' -> reachable d'.

(** * Properties *)

(** ** Machine integers and bytes *)

Lemma int32_small z : - 2 ^ 31 <= z < 2 ^ 31 -> int32 z = z.
Proof. intros H. unfold int32. rewrite Z.mod_small; lia. Qed.

Lemma int32_range z : - 2 ^ 31 <= int32 z < 2 ^ 31.
Proof. unfold int32. pose proof (Z.mod_pos_bound (z + 2 ^ 31) (2 ^ 32)). lia. Qed.

Lemma b2z_range b : 0 <= b2z b < 256.
Proof. unfold b2z. pose proof (Byte.to_N_bounded b). lia. Qed.

Lemma b2z_z2b z : b2z (z2b z) = z mod 256.
Proof.
  unfold b2z, z2b.
  pose proof (Z.mod_pos_bound z 256 ltac:(lia)) as Hb.
  destruct (Byte.of_N (Z.to_N (z mod 256))) as [b|] eqn:E.
  - apply Byte.to_of_N in E. rewrite E. lia.
  - apply Byte.of_N_None_iff in E. lia.
Qed.

Lemma z2b_b2z b : z2b (b2z b) = b.
Proof.
  unfold z2b, b2z. pose proof (Byte.to_N_bounded b).
  rewrite Z.mod_small by lia. rewrite N2Z.id. now rewrite Byte.of_to_N.
Qed.

Lemma b2z_x00 : b2z x00 = 0.
Proof. reflexivity. Qed.

Lemma encode_int_length z : length (encode_int z) = 4%nat.
Proof. reflexivity. Qed.

Lemma decode_encode_int z :
  - 2 ^ 31 <= z < 2 ^ 31 ->
  decode_int (z2b z) (z2b (Z.shiftr z 8)) (z2b (Z.shiftr z 16)) (z2b (Z.shiftr z 24)) = z.
Proof.
  intros Hz. unfold decode_int. rewrite !b2z_z2b, !Z.shiftr_div_pow2 by lia.
  unfold int32.
  change (2 ^ 8) with 256. change (2 ^ 16) with 65536. change (2 ^ 24) with 16777216.
  change (2 ^ 31) with 2147483648 in *. change (2 ^ 32) with 4294967296.
  zlia.
Qed.

(** ** Arrays *)

Lemma zget_Some {A} (l : list A) i x :
  zget l i = Some x <-> 0 <= i /\ l !! Z.to_nat i = Some x.
Proof. unfold zget. destruct (decide (0 <= i)); intuition congruence. Qed.

Lemma zget_lt {A} (l : list A) i x : zget l i = Some x -> 0 <= i < Z.of_nat (length l).
Proof. rewrite zget_Some. intros [? H%lookup_lt_Some]. lia. Qed.

Lemma zget_is_Some {A} (l : list A) i :
  0 <= i < Z.of_nat (length l) -> is_Some (zget l i).
Proof.
  intros H. unfold zget. rewrite decide_True by lia. apply lookup_lt_is_Some. lia.
Qed.

Lemma zget_None {A} (l : list A) i :
  zget l i = None <-> ~ (0 <= i < Z.of_nat (length l)).
Proof.
  split.
  - intros E [? ?]. destruct (zget_is_Some l i) as [x Hx]; [lia|congruence].
  - intros H. destruct (zget l i) eqn:E; [|done]. apply zget_lt in E. lia.
Qed.

Lemma zset_length {A} (l : list A) i x : length (zset l i x) = length l.
Proof. unfold zset. destruct (decide _); [apply length_insert|done]. Qed.

Lemma zget_zset_eq {A} (l : list A) i x :
  0 <= i < Z.of_nat (length l) -> zget (zset l i x) i = Some x.
Proof.
  intros H. unfold zget, zset. rewrite !decide_True by lia.
  apply list_lookup_insert_eq. lia.
Qed.

Lemma zget_zset_ne {A} (l : list A) i j x : i <> j -> zget (zset l i x) j = zget l j.
Proof.
  intros H. unfold zget, zset.
  destruct (decide (0 <= j)); [|done]. destruct (decide (0 <= i)); [|done].
  apply list_lookup_insert_ne. lia.
Qed.

Lemma zset_zset {A} (l : list A) i x y : zset (zset l i x) i y = zset l i y.
Proof. unfold zset. destruct (decide _); [apply list_insert_insert_eq|done]. Qed.

Lemma zset_id {A} (l : list A) i x : zget l i = Some x -> zset l i x = l.
Proof. rewrite zget_Some. intros [? H]. unfold zset. rewrite decide_True by done. by apply list_insert_id. Qed.

(** ** Bitmaps *)

(** Bit [i] of a bitmap: the negation of the test in [find_free_bit]. *)
Definition test_bit (bitmap : list byte) (i : Z) : bool := negb (bit_is_clear bitmap i).

Lemma land_bit_eq0 x k : 0 <= k -> (Z.land x (Z.shiftl 1 k) =? 0) = negb (Z.testbit x k).
Proof.
  intros Hk. rewrite Z.shiftl_1_l.
  assert (E : Z.land x (2 ^ k) = if Z.testbit x k then 2 ^ k else 0).
  { apply Z.bits_inj'. intros n Hn. rewrite Z.land_spec, Z.pow2_bits_eqb by done.
    destruct (Z.testbit x k) eqn:Ex.
    - rewrite Z.pow2_bits_eqb by done. destruct (Z.eqb_spec k n); subst; [by rewrite Ex|].
      apply andb_false_r.
    - rewrite Z.bits_0. destruct (Z.eqb_spec k n); subst; [by rewrite Ex|].
      apply andb_false_r. }
  rewrite E. pose proof (Z.pow_pos_nonneg 2 k ltac:(lia) Hk).
  destruct (Z.testbit x k); simpl; [apply Z.eqb_neq; lia | done].
Qed.

Lemma test_bit_spec bitmap i :
  0 <= i -> test_bit bitmap i = Z.testbit (bitmap_byte bitmap (i / 8)) (i mod 8).
Proof.
  intros Hi. unfold test_bit, bit_is_clear.
  rewrite Z.quot_div_nonneg, Z.rem_mod_nonneg by lia.
  rewrite land_bit_eq0 by zlia. apply negb_involutive.
Qed.

Lemma bitmap_byte_zset bitmap q v p :
  0 <= q < Z.of_nat (length bitmap) ->
  bitmap_byte (zset bitmap q (z2b v)) p = if decide (q = p) then v mod 256 else bitmap_byte bitmap p.
Proof.
  intros Hq. unfold bitmap_byte. destruct (decide (q = p)) as [->|Hne].
  - rewrite zget_zset_eq by done. simpl. apply b2z_z2b.
  - by rewrite zget_zset_ne.
Qed.

Lemma set_bit_length bitmap i : length (set_bit bitmap i) = length bitmap.
Proof. apply zset_length. Qed.

Lemma clear_bit_length bitmap i : length (clear_bit bitmap i) = length bitmap.
Proof. apply zset_length. Qed.

Lemma test_bit_set_bit bitmap i j :
  0 <= i < 8 * Z.of_nat (length bitmap) -> 0 <= j ->
  test_bit (set_bit bitmap i) j = if decide (i = j) then true else test_bit bitmap j.
Proof.
  intros Hi Hj. rewrite !test_bit_spec by done. unfold set_bit.
  rewrite Z.quot_div_nonneg, Z.rem_mod_nonneg by lia.
  rewrite bitmap_byte_zset by zlia.
  destruct (decide (i / 8 = j / 8)) as [Eq|Hne].
  - change 256 with (2 ^ 8). rewrite Z.mod_pow2_bits_low by zlia.
    rewrite Z.lor_spec, Z.shiftl_1_l, Z.pow2_bits_eqb by zlia. rewrite Eq.
    destruct (decide (i = j)) as [->|Hij].
    + rewrite Z.eqb_refl. apply orb_true_r.
    + destruct (Z.eqb_spec (i mod 8) (j mod 8)); [zlia|]. apply orb_false_r.
  - rewrite decide_False; [done|]. intros ->. done.
Qed.

Lemma test_bit_clear_bit bitmap i j :
  0 <= i < 8 * Z.of_nat (length bitmap) -> 0 <= j ->
  test_bit (clear_bit bitmap i) j = if decide (i = j) then false else test_bit bitmap j.
Proof.
  intros Hi Hj. rewrite !test_bit_spec by done. unfold clear_bit.
  rewrite Z.quot_div_nonneg, Z.rem_mod_nonneg by lia.
  rewrite bitmap_byte_zset by zlia.
  destruct (decide (i / 8 = j / 8)) as [Eq|Hne].
  - change 256 with (2 ^ 8). rewrite Z.mod_pow2_bits_low by zlia.
    rewrite Z.land_spec, Z.lnot_spec, Z.shiftl_1_l, Z.pow2_bits_eqb by zlia. rewrite Eq.
    destruct (decide (i = j)) as [->|Hij].
    + rewrite Z.eqb_refl. apply andb_false_r.
    + destruct (Z.eqb_spec (i mod 8) (j mod 8)); [zlia|]. apply andb_true_r.
  - rewrite decide_False; [done|]. intros ->. done.
Qed.

Lemma test_bit_zero_bytes n i : test_bit (zero_bytes n) i = false.
Proof.
  unfold test_bit, bit_is_clear, bitmap_byte.
  assert (E : default x00 (zget (zero_bytes n) (Z.quot i 8)) = x00).
  { destruct (zget _ _) as [b|] eqn:Hb; [|done]. simpl.
    apply zget_Some in Hb as [_ Hb]. unfold zero_bytes in Hb.
    apply list_elem_of_lookup_2, list_elem_of_In, repeat_spec in Hb. by subst. }
  rewrite E. reflexivity.
Qed.

(** What the loop of [find_free_bit] returns. *)
Lemma find_free_bit_from_spec bitmap n : forall i,
  let r := find_free_bit_from bitmap i n in
  (r = -1 /\ forall j, i <= j < i + Z.of_nat n -> test_bit bitmap j = true) \/
  (i <= r < i + Z.of_nat n /\ test_bit bitmap r = false /\
   forall j, i <= j < r -> test_bit bitmap j = true).
Proof.
  induction n as [|n IH]; intros i; simpl.
  - left. split; [done|]. intros j Hj. lia.
  - destruct (bit_is_clear bitmap i) eqn:E.
    + right. split; [lia|]. split; [unfold test_bit; by rewrite E|]. intros j Hj. lia.
    + assert (Hi : test_bit bitmap i = true) by (unfold test_bit; by rewrite E).
      destruct (IH (i + 1)) as [[-> H]|(Hr & Hc & Hl)].
      * left. split; [done|]. intros j Hj.
        destruct (decide (j = i)) as [->|]; [done|]. apply H. lia.
      * right. split; [lia|]. split; [done|]. intros j Hj.
        destruct (decide (j = i)) as [->|]; [done|]. apply Hl. lia.
Qed.

Lemma find_free_bit_spec bitmap n :
  0 <= n ->
  let r := find_free_bit bitmap n in
  (r = -1 /\ forall j, 0 <= j < n -> test_bit bitmap j = true) \/
  (0 <= r < n /\ test_bit bitmap r = false /\
   forall j, 0 <= j < r -> test_bit bitmap j = true).
Proof.
  intros Hn. unfold find_free_bit.
  pose proof (find_free_bit_from_spec bitmap (Z.to_nat n) 0) as H.
  rewrite Z2Nat.id in H by done. exact H.
Qed.

(** ** Well-formed disks and the bitmap bit of an id *)

Lemma blocks_per_segment_eq : blocks_per_segment = 255.
Proof. reflexivity. Qed.

Lemma num_inodes_per_segment_eq : num_inodes_per_segment = 254.
Proof. reflexivity. Qed.

Lemma DIR_ENTRIES_PER_BLOCK_eq : DIR_ENTRIES_PER_BLOCK = 15.
Proof. reflexivity. Qed.

Lemma PTRS_PER_BLOCK_eq : PTRS_PER_BLOCK = 1024.
Proof. reflexivity. Qed.

(** Every segment file has the size [create_new_segment] gives it. *)
Definition wf_iseg (s : inode_segment) : Prop :=
  Z.of_nat (length (ibitmap s)) = BLOCK_SIZE /\
  Z.of_nat (length (inodes s)) = num_inodes_per_segment.

Definition wf_dseg (s : data_segment) : Prop :=
  Z.of_nat (length (dbitmap s)) = BLOCK_SIZE /\
  Z.of_nat (length (blocks s)) = blocks_per_segment.

(** The ids of every slot of every segment, and of one more segment, are
    [int] values: no allocation wraps. *)
Definition MAX_SEGMENTS : Z := 8000000.

Definition wf_blocks (s : data_segment) : Prop :=
  Forall (fun b : block => Z.of_nat (length b) = BLOCK_SIZE) (blocks s).

Record wf_disk (d : disk) : Prop := mk_wf {
  wf_isegs : Forall wf_iseg (inode_segs d);
  wf_dsegs : Forall wf_dseg (data_segs d);
  wf_dblocks : Forall wf_blocks (data_segs d)
}.

(** Bitmap bit of a global id; an id whose segment does not exist has no
    bit set. *)
Definition block_bit (d : disk) (block_id : Z) : bool :=
  match zget (data_segs d) (Z.quot block_id blocks_per_segment) with
  | None => false
  | Some seg => test_bit (dbitmap seg) (Z.rem block_id blocks_per_segment)
  end.

Definition inode_bit (d : disk) (inode_num : Z) : bool :=
  match zget (inode_segs d) (Z.quot inode_num num_inodes_per_segment) with
  | None => false
  | Some seg => test_bit (ibitmap seg) (Z.rem inode_num num_inodes_per_segment)
  end.

(** A bitmap whose first [n] bits are all set. *)
Definition seg_full (bitmap : list byte) (n : Z) : Prop :=
  forall j, 0 <= j < n -> test_bit bitmap j = true.

Lemma wf_zero_data_segment : wf_dseg zero_data_segment.
Proof. split; reflexivity. Qed.

Lemma wf_blocks_zero_data_segment : wf_blocks zero_data_segment.
Proof.
  unfold wf_blocks. cbn [blocks zero_data_segment].
  apply List.Forall_forall. intros b Hb%repeat_spec. by subst.
Qed.

Lemma wf_zero_inode_segment : wf_iseg zero_inode_segment.
Proof. split; reflexivity. Qed.

Lemma Forall_zset {A} (P : A -> Prop) l i x : Forall P l -> P x -> Forall P (zset l i x).
Proof.
  intros Hl Hx. unfold zset. destruct (decide _); [|done].
  rewrite Forall_lookup in Hl |- *. intros j y Hj.
  destruct (decide (Z.to_nat i = j)) as [<-|Hne].
  - destruct (decide (Z.to_nat i < length l)%nat).
    + rewrite list_lookup_insert_eq in Hj by done. congruence.
    + rewrite list_insert_ge in Hj by lia. eauto.
  - rewrite list_lookup_insert_ne in Hj by done. eauto.
Qed.

Lemma Forall_zget {A} (P : A -> Prop) l i x : Forall P l -> zget l i = Some x -> P x.
Proof. intros Hl [_ H]%zget_Some. rewrite Forall_lookup in Hl. eauto. Qed.

Lemma find_free_bit_zero n : 0 < n -> find_free_bit (zero_bytes BLOCK_SIZE) n = 0.
Proof.
  intros Hn. destruct (find_free_bit_spec (zero_bytes BLOCK_SIZE) n ltac:(lia))
    as [[_ H]|(Hr & _ & Hl)].
  - specialize (H 0 ltac:(lia)). by rewrite test_bit_zero_bytes in H.
  - destruct (decide (find_free_bit (zero_bytes BLOCK_SIZE) n = 0)) as [|Hne]; [done|].
    specialize (Hl 0 ltac:(lia)). by rewrite test_bit_zero_bytes in Hl.
Qed.

Lemma put_segment_new {A} (segs : list A) (s : A) :
  put_segment segs (Z.of_nat (length segs)) s = segs ++ [s].
Proof. unfold put_segment. rewrite decide_False by lia. done. Qed.

Lemma zget_app_l {A} (l1 l2 : list A) i :
  i < Z.of_nat (length l1) -> zget (l1 ++ l2) i = zget l1 i.
Proof.
  intros H. unfold zget. destruct (decide (0 <= i)); [|done].
  apply lookup_app_l. lia.
Qed.

Lemma zget_app_last {A} (l : list A) x : zget (l ++ [x]) (Z.of_nat (length l)) = Some x.
Proof.
  unfold zget. rewrite decide_True by lia. rewrite Nat2Z.id.
  rewrite lookup_app_r by lia. by rewrite Nat.sub_diag.
Qed.

(** Room for [k] more segments of each kind below [MAX_SEGMENTS]. *)
Definition fits (d : disk) (k : Z) : Prop :=
  Z.of_nat (length (inode_segs d)) + k <= MAX_SEGMENTS /\
  Z.of_nat (length (data_segs d)) + k <= MAX_SEGMENTS.

Lemma fits_weaken d k k' : fits d k -> k' <= k -> fits d k'.
Proof. unfold fits. lia. Qed.

(** ** The allocators *)

Lemma create_data_segment d :
  create_new_segment d (Z.of_nat (length (data_segs d))) DATA_SEGMENT =
  mk_disk (inode_segs d) (data_segs d ++ [zero_data_segment]).
Proof.
  unfold create_new_segment. rewrite decide_False by done. by rewrite put_segment_new.
Qed.

Lemma allocate_block_loop_S fuel d segment_number :
  allocate_block_loop (S fuel) d segment_number =
  let d1 := match zget (data_segs d) segment_number with
            | Some _ => d
            | None => create_new_segment d segment_number DATA_SEGMENT
            end in
  match zget (data_segs d1) segment_number with
  | None => Some (-1, d1)
  | Some seg =>
      if decide (Z.of_nat (length (dbitmap seg)) = BLOCK_SIZE) then
        if decide (0 <= find_free_bit (dbitmap seg) blocks_per_segment) then
          Some (int32 (segment_number * blocks_per_segment
                       + find_free_bit (dbitmap seg) blocks_per_segment),
                mk_disk (inode_segs d1)
                        (zset (data_segs d1) segment_number
                              (mk_dseg (set_bit (dbitmap seg)
                                          (find_free_bit (dbitmap seg) blocks_per_segment))
                                       (blocks seg))))
        else allocate_block_loop fuel d1 (segment_number + 1)
      else Some (-1, d1)
  end.
Proof. reflexivity. Qed.

(** The segment and slot the loop of [allocate_block] settles on. *)
Lemma allocate_block_loop_spec fuel : forall d k,
  wf_disk d ->
  0 <= k <= Z.of_nat (length (data_segs d)) ->
  Z.of_nat (length (data_segs d)) - k < Z.of_nat fuel ->
  Z.of_nat (length (data_segs d)) <= MAX_SEGMENTS ->
  (forall k' seg', 0 <= k' < k -> zget (data_segs d) k' = Some seg' ->
                   seg_full (dbitmap seg') blocks_per_segment) ->
  exists s i d1 seg,
    k <= s <= Z.of_nat (length (data_segs d)) /\
    0 <= i < blocks_per_segment /\
    d1 = (if decide (s < Z.of_nat (length (data_segs d))) then d
          else create_new_segment d s DATA_SEGMENT) /\
    zget (data_segs d1) s = Some seg /\
    test_bit (dbitmap seg) i = false /\
    (forall j, 0 <= j < i -> test_bit (dbitmap seg) j = true) /\
    (forall k' seg', 0 <= k' < s -> zget (data_segs d) k' = Some seg' ->
                     seg_full (dbitmap seg') blocks_per_segment) /\
    allocate_block_loop fuel d k =
      Some (s * blocks_per_segment + i,
            mk_disk (inode_segs d1)
                    (zset (data_segs d1) s (mk_dseg (set_bit (dbitmap seg) i) (blocks seg)))).
Proof.
  induction fuel as [|fuel IH]; intros d k Hwf Hk Hfuel Hmax Hfull; [lia|].
  rewrite allocate_block_loop_S.
  destruct (zget (data_segs d) k) as [seg0|] eqn:Hseg.
  - cbv beta iota zeta. rewrite Hseg. pose proof (zget_lt _ _ _ Hseg) as Hlt.
    destruct (Forall_zget _ _ _ _ (wf_dsegs _ Hwf) Hseg) as [Hbm Hbl].
    rewrite (decide_True _ _ Hbm).
    destruct (find_free_bit_spec (dbitmap seg0) blocks_per_segment ltac:(done))
      as [[Hr Hall]|(Hr & Hclr & Hlow)].
    + rewrite Hr. rewrite decide_False by lia.
      destruct (IH d (k + 1)) as (s & i & d1 & seg & Hs & Hi & Hd1 & Hz & Hc & Hl & Hf & Heq);
        try done; try lia.
      { intros k' seg' Hk' Hz'. destruct (decide (k' = k)) as [->|].
        - rewrite Hseg in Hz'. injection Hz' as <-. exact Hall.
        - eapply Hfull; [|done]. lia. }
      exists s, i, d1, seg. repeat split; try done; lia.
    + rewrite decide_True by lia.
      exists k, (find_free_bit (dbitmap seg0) blocks_per_segment), d, seg0.
      rewrite decide_True by lia. repeat split; try done; try lia.
      rewrite int32_small; [done|].
      rewrite blocks_per_segment_eq in *. unfold MAX_SEGMENTS in Hmax. lia.
  - assert (k = Z.of_nat (length (data_segs d))) as ->.
    { apply zget_None in Hseg. lia. }
    cbv beta iota zeta. rewrite create_data_segment. cbn [data_segs inode_segs].
    rewrite zget_app_last. cbn [dbitmap blocks zero_data_segment].
    rewrite decide_True by reflexivity.
    rewrite find_free_bit_zero by done. rewrite decide_True by lia.
    exists (Z.of_nat (length (data_segs d))), 0,
      (mk_disk (inode_segs d) (data_segs d ++ [zero_data_segment])), zero_data_segment.
    rewrite decide_False by lia. cbn [data_segs inode_segs].
    rewrite zget_app_last.
    repeat split; try done; try lia;
      try (symmetry; apply create_data_segment);
      try apply test_bit_zero_bytes.
    rewrite int32_small; [reflexivity|].
    rewrite blocks_per_segment_eq in *. unfold MAX_SEGMENTS in Hmax. lia.
Qed.

(** ** Frame lemmas for the data block store *)

(** A block id that names a slot of an existing data segment. *)
Definition valid_block (d : disk) (block_id : Z) : Prop :=
  0 <= block_id < blocks_per_segment * Z.of_nat (length (data_segs d)).

Lemma valid_block_seg d id :
  valid_block d id ->
  exists seg, zget (data_segs d) (Z.quot id blocks_per_segment) = Some seg.
Proof.
  intros [H0 H1]. rewrite blocks_per_segment_eq in *.
  destruct (zget_is_Some (data_segs d) (Z.quot id 255)) as [seg Hseg]; [zlia|eauto].
Qed.

(** The disk with the bitmap of data segment [s] replaced. *)
Definition with_dbitmap (d : disk) (s : Z) (seg : data_segment) (bitmap : list byte) : disk :=
  mk_disk (inode_segs d) (zset (data_segs d) s (mk_dseg bitmap (blocks seg))).

Lemma read_block_with_dbitmap d s seg bitmap x :
  zget (data_segs d) s = Some seg ->
  read_block (with_dbitmap d s seg bitmap) x = read_block d x.
Proof.
  intros Hs. unfold read_block, with_dbitmap. cbn [data_segs].
  destruct (decide (s = Z.quot x blocks_per_segment)) as [->|Hne].
  - rewrite zget_zset_eq by (by eapply zget_lt). by rewrite Hs.
  - by rewrite zget_zset_ne.
Qed.

Lemma block_bit_with_dbitmap d s seg bitmap x :
  zget (data_segs d) s = Some seg -> 0 <= x ->
  block_bit (with_dbitmap d s seg bitmap) x =
  if decide (x / blocks_per_segment = s) then test_bit bitmap (x mod blocks_per_segment)
  else block_bit d x.
Proof.
  intros Hs Hx. unfold block_bit, with_dbitmap. cbn [data_segs].
  rewrite !Z.quot_div_nonneg, !Z.rem_mod_nonneg by (rewrite ?blocks_per_segment_eq; lia).
  destruct (decide (x / blocks_per_segment = s)) as [->|Hne].
  - rewrite zget_zset_eq by (by eapply zget_lt). done.
  - by rewrite zget_zset_ne.
Qed.

Lemma wf_with_dbitmap d s seg bitmap :
  wf_disk d -> zget (data_segs d) s = Some seg ->
  length bitmap = length (dbitmap seg) ->
  wf_disk (with_dbitmap d s seg bitmap).
Proof.
  intros [Hi Hd Hb] Hs Hlen. split; [done| |]; cbn [data_segs with_dbitmap].
  - apply Forall_zset; [done|]. destruct (Forall_zget _ _ _ _ Hd Hs) as [H1 H2].
    split; cbn [dbitmap blocks]; [by rewrite Hlen|done].
  - apply Forall_zset; [done|]. apply (Forall_zget _ _ _ _ Hb Hs).
Qed.

Lemma free_block_eq d id seg :
  zget (data_segs d) (Z.quot id blocks_per_segment) = Some seg ->
  free_block d id =
  with_dbitmap d (Z.quot id blocks_per_segment) seg
               (clear_bit (dbitmap seg) (Z.rem id blocks_per_segment)).
Proof. intros H. unfold free_block. by rewrite H. Qed.

Lemma read_block_free_block d id x : read_block (free_block d id) x = read_block d x.
Proof.
  unfold free_block.
  destruct (zget (data_segs d) (Z.quot id blocks_per_segment)) as [seg|] eqn:Hs; [|done].
  by apply (read_block_with_dbitmap d _ seg).
Qed.

Lemma inode_segs_free_block d id : inode_segs (free_block d id) = inode_segs d.
Proof. unfold free_block. by destruct (zget _ _). Qed.

Lemma length_data_segs_free_block d id :
  length (data_segs (free_block d id)) = length (data_segs d).
Proof. unfold free_block. destruct (zget _ _); [|done]. apply zset_length. Qed.

Lemma wf_free_block d id : wf_disk d -> wf_disk (free_block d id).
Proof.
  intros Hwf. unfold free_block.
  destruct (zget (data_segs d) (Z.quot id blocks_per_segment)) as [seg|] eqn:Hs; [|done].
  apply (wf_with_dbitmap d _ seg); [done..|]. apply clear_bit_length.
Qed.

Lemma block_bit_free_block d id x :
  wf_disk d -> 0 <= id -> 0 <= x ->
  block_bit (free_block d id) x = if decide (x = id) then false else block_bit d x.
Proof.
  intros Hwf Hid Hx. unfold free_block.
  destruct (zget (data_segs d) (Z.quot id blocks_per_segment)) as [seg|] eqn:Hs.
  - fold (with_dbitmap d (Z.quot id blocks_per_segment) seg
            (clear_bit (dbitmap seg) (Z.rem id blocks_per_segment))).
    rewrite block_bit_with_dbitmap by done.
    destruct (Forall_zget _ _ _ _ (wf_dsegs _ Hwf) Hs) as [Hbm _].
    rewrite !Z.quot_div_nonneg, !Z.rem_mod_nonneg in * by (rewrite ?blocks_per_segment_eq; lia).
    rewrite blocks_per_segment_eq in *. unfold BLOCK_SIZE in Hbm.
    destruct (decide (x / 255 = id / 255)) as [Eq|Hne].
    + rewrite test_bit_clear_bit by zlia.
      destruct (decide (id mod 255 = x mod 255)), (decide (x = id)); try done; try zlia.
      unfold block_bit.
      rewrite !Z.quot_div_nonneg, !Z.rem_mod_nonneg by (rewrite ?blocks_per_segment_eq; lia).
      rewrite blocks_per_segment_eq, Eq, Hs. done.
    + rewrite decide_False; [done|]. intros ->. done.
  - destruct (decide (x = id)) as [->|]; [|done]. unfold block_bit. by rewrite Hs.
Qed.

(** [write_block] on a valid id. *)
Lemma write_block_valid d id buf :
  valid_block d id -> is_Some (write_block d id buf).
Proof. intros [seg Hs]%valid_block_seg. unfold write_block. rewrite Hs. eauto. Qed.

Lemma read_block_valid d id : wf_disk d -> valid_block d id -> is_Some (read_block d id).
Proof.
  intros Hwf Hv. destruct (valid_block_seg _ _ Hv) as [seg Hs].
  unfold read_block. rewrite Hs.
  destruct (Forall_zget _ _ _ _ (wf_dsegs _ Hwf) Hs) as [_ Hbl].
  apply zget_is_Some. destruct Hv. rewrite blocks_per_segment_eq in *. zlia.
Qed.

Lemma read_block_Some_valid d id b :
  wf_disk d -> 0 <= id -> read_block d id = Some b -> valid_block d id.
Proof.
  intros Hwf Hid. unfold read_block, valid_block.
  destruct (zget (data_segs d) (Z.quot id blocks_per_segment)) as [seg|] eqn:Hs; [|done].
  intros _. apply zget_lt in Hs. rewrite blocks_per_segment_eq in *. zlia.
Qed.

Section write_block.
Context (d d' : disk) (id : Z) (buf : block).
Hypothesis Hw : write_block d id buf = Some d'.

Lemma write_block_inode_segs : inode_segs d' = inode_segs d.
Proof using Hw.
  unfold write_block in Hw. destruct (zget _ _); [|done]. by injection Hw as <-.
Qed.

Lemma write_block_length : length (data_segs d') = length (data_segs d).
Proof using Hw.
  unfold write_block in Hw. destruct (zget _ _); [|done]. injection Hw as <-.
  apply zset_length.
Qed.

Lemma write_block_bit x : block_bit d' x = block_bit d x.
Proof using Hw.
  unfold write_block in Hw.
  destruct (zget (data_segs d) (Z.quot id blocks_per_segment)) as [seg|] eqn:Hs; [|done].
  injection Hw as <-. unfold block_bit. cbn [data_segs].
  destruct (decide (Z.quot id blocks_per_segment = Z.quot x blocks_per_segment)) as [Eq|Hne].
  - rewrite <- Eq. rewrite zget_zset_eq by (by eapply zget_lt). by rewrite Hs.
  - by rewrite zget_zset_ne.
Qed.

Lemma write_block_wf :
  Z.of_nat (length buf) = BLOCK_SIZE -> wf_disk d -> wf_disk d'.
Proof using Hw.
  intros Hbuf [Hi Hd Hb]. unfold write_block in Hw.
  destruct (zget (data_segs d) (Z.quot id blocks_per_segment)) as [seg|] eqn:Hs; [|done].
  injection Hw as <-. split; [done| |]; cbn [data_segs].
  - apply Forall_zset; [done|]. destruct (Forall_zget _ _ _ _ Hd Hs) as [H1 H2].
    split; cbn [dbitmap blocks]; [done|]. by rewrite zset_length.
  - apply Forall_zset; [done|]. unfold wf_blocks. cbn [blocks].
    apply Forall_zset; [|done]. apply (Forall_zget _ _ _ _ Hb Hs).
Qed.

Lemma write_block_valid_iff x : valid_block d' x <-> valid_block d x.
Proof using Hw. unfold valid_block. by rewrite write_block_length. Qed.

Lemma read_block_write_block x :
  wf_disk d -> 0 <= id -> 0 <= x ->
  read_block d' x = if decide (x = id) then Some buf else read_block d x.
Proof using Hw.
  intros Hwf Hid Hx. unfold write_block in Hw.
  destruct (zget (data_segs d) (Z.quot id blocks_per_segment)) as [seg|] eqn:Hs; [|done].
  injection Hw as <-. unfold read_block. cbn [data_segs].
  destruct (Forall_zget _ _ _ _ (wf_dsegs _ Hwf) Hs) as [_ Hbl].
  rewrite !Z.quot_div_nonneg, !Z.rem_mod_nonneg in * by (rewrite ?blocks_per_segment_eq; lia).
  rewrite blocks_per_segment_eq in *.
  destruct (decide (x / 255 = id / 255)) as [Eq|Hne].
  - rewrite Eq, zget_zset_eq by (by eapply zget_lt). cbn [blocks].
    destruct (decide (x = id)) as [->|Hne].
    + apply zget_zset_eq. zlia.
    + rewrite zget_zset_ne by zlia. by rewrite Hs.
  - rewrite zget_zset_ne by done. rewrite decide_False; [done|]. by intros ->.
Qed.
End write_block.

(** ** What [allocate_block] guarantees *)

Record alloc_block_post (d : disk) (id : Z) (d' : disk) : Prop := mk_abp {
  abp_id : 0 <= id < blocks_per_segment * (Z.of_nat (length (data_segs d)) + 1);
  abp_valid : valid_block d' id;
  abp_fresh : block_bit d id = false;
  abp_first : forall x, 0 <= x < id -> block_bit d x = true;
  abp_bit : forall x, 0 <= x ->
                      block_bit d' x = if decide (x = id) then true else block_bit d x;
  abp_inodes : inode_segs d' = inode_segs d;
  abp_read : forall x b, read_block d x = Some b -> read_block d' x = Some b;
  abp_wf : wf_disk d';
  abp_len : (length (data_segs d) <= length (data_segs d') <= length (data_segs d) + 1)%nat
}.

Lemma block_bit_new_segment d x :
  0 <= x ->
  block_bit (mk_disk (inode_segs d) (data_segs d ++ [zero_data_segment])) x = block_bit d x.
Proof.
  intros Hx. unfold block_bit. cbn [data_segs].
  set (q := Z.quot x blocks_per_segment).
  destruct (decide (q < Z.of_nat (length (data_segs d)))) as [Hq|Hq].
  - by rewrite zget_app_l.
  - replace (zget (data_segs d) q) with (@None data_segment) by (symmetry; apply zget_None; lia).
    destruct (zget _ q) as [seg|] eqn:Hs; [|done].
    assert (q = Z.of_nat (length (data_segs d))) as Hq'.
    { apply zget_lt in Hs. rewrite length_app in Hs. simpl in Hs. lia. }
    rewrite Hq', zget_app_last in Hs. injection Hs as <-. apply test_bit_zero_bytes.
Qed.

Lemma read_block_new_segment d x b :
  read_block d x = Some b ->
  read_block (mk_disk (inode_segs d) (data_segs d ++ [zero_data_segment])) x = Some b.
Proof.
  unfold read_block. cbn [data_segs].
  destruct (zget (data_segs d) (Z.quot x blocks_per_segment)) as [seg|] eqn:Hs; [|done].
  rewrite zget_app_l by (by eapply zget_lt). by rewrite Hs.
Qed.

Lemma wf_new_data_segment d :
  wf_disk d -> wf_disk (mk_disk (inode_segs d) (data_segs d ++ [zero_data_segment])).
Proof.
  intros [Hi Hd Hb]. split; [done| |]; cbn [data_segs].
  - apply Forall_app. split; [done|]. repeat constructor; reflexivity.
  - apply Forall_app. split; [done|].
    constructor; [apply wf_blocks_zero_data_segment|constructor].
Qed.

Lemma id_of_slot x s i :
  0 <= x -> 0 <= i < 255 -> (x = s * 255 + i <-> x / 255 = s /\ x mod 255 = i).
Proof. intros. zlia. Qed.

Theorem allocate_block_ok d :
  wf_disk d -> Z.of_nat (length (data_segs d)) <= MAX_SEGMENTS ->
  exists id d', allocate_block d = Some (id, d') /\ alloc_block_post d id d'.
Proof.
  intros Hwf Hmax.
  destruct (allocate_block_loop_spec (S (length (data_segs d))) d 0)
    as (s & i & d1 & seg & Hs & Hi & Hd1 & Hz & Hc & Hl & Hf & Heq); try done; try lia.
  unfold allocate_block. rewrite Heq. eexists _, _. split; [done|].
  fold (with_dbitmap d1 s seg (set_bit (dbitmap seg) i)).
  (* the disk after a possible segment creation *)
  assert (Hbit1 : forall x, 0 <= x -> block_bit d1 x = block_bit d x).
  { intros x Hx. rewrite Hd1. destruct (decide _); [done|].
    assert (s = Z.of_nat (length (data_segs d))) as -> by lia.
    rewrite create_data_segment. by apply block_bit_new_segment. }
  assert (Hread1 : forall x b, read_block d x = Some b -> read_block d1 x = Some b).
  { intros x b Hx. rewrite Hd1. destruct (decide _); [done|].
    assert (s = Z.of_nat (length (data_segs d))) as -> by lia.
    rewrite create_data_segment. by apply read_block_new_segment. }
  assert (Hwf1 : wf_disk d1).
  { rewrite Hd1. destruct (decide _); [done|].
    assert (s = Z.of_nat (length (data_segs d))) as -> by lia.
    rewrite create_data_segment. by apply wf_new_data_segment. }
  assert (Hin1 : inode_segs d1 = inode_segs d).
  { rewrite Hd1. destruct (decide _); [done|].
    assert (s = Z.of_nat (length (data_segs d))) as -> by lia.
    by rewrite create_data_segment. }
  assert (Hlen1 : (length (data_segs d) <= length (data_segs d1) <= length (data_segs d) + 1)%nat).
  { rewrite Hd1. destruct (decide _); [lia|].
    assert (s = Z.of_nat (length (data_segs d))) as -> by lia.
    rewrite create_data_segment. cbn [data_segs]. rewrite length_app. simpl. lia. }
  destruct (Forall_zget _ _ _ _ (wf_dsegs _ Hwf1) Hz) as [Hbm Hbl].
  pose proof (zget_lt _ _ _ Hz) as Hslt.
  rewrite blocks_per_segment_eq in *. unfold BLOCK_SIZE in Hbm.
  assert (Hlen' : length (data_segs (with_dbitmap d1 s seg (set_bit (dbitmap seg) i)))
                  = length (data_segs d1)).
  { unfold with_dbitmap. cbn [data_segs]. apply zset_length. }
  split.
  - rewrite blocks_per_segment_eq. lia.
  - unfold valid_block. rewrite Hlen', blocks_per_segment_eq. lia.
  - rewrite <- Hbit1 by lia. unfold block_bit.
    rewrite !Z.quot_div_nonneg, !Z.rem_mod_nonneg by (rewrite ?blocks_per_segment_eq; lia).
    rewrite blocks_per_segment_eq.
    replace ((s * 255 + i) / 255) with s by zlia.
    replace ((s * 255 + i) mod 255) with i by zlia. by rewrite Hz.
  - intros x Hx. unfold block_bit.
    rewrite !Z.quot_div_nonneg, !Z.rem_mod_nonneg by (rewrite ?blocks_per_segment_eq; lia).
    rewrite blocks_per_segment_eq.
    destruct (decide (x / 255 = s)) as [Eq|Hne].
    + assert (Hxi : x mod 255 < i) by zlia.
      destruct (decide (s < Z.of_nat (length (data_segs d)))) as [Hlt|Hge].
      * subst d1. rewrite Eq, Hz. apply Hl. zlia.
      * assert (s = Z.of_nat (length (data_segs d))) as -> by lia.
        rewrite create_data_segment in Hd1. subst d1. cbn [data_segs] in Hz.
        rewrite zget_app_last in Hz. injection Hz as <-.
        specialize (Hl (x mod 255) ltac:(zlia)).
        cbn [dbitmap zero_data_segment] in Hl. by rewrite test_bit_zero_bytes in Hl.
    + destruct (zget_is_Some (data_segs d) (x / 255)) as [seg' Hseg']; [zlia|].
      rewrite Hseg'. eapply Hf; [|done|]; zlia.
  - intros x Hx. rewrite block_bit_with_dbitmap by done.
    rewrite blocks_per_segment_eq.
    pose proof (id_of_slot x s i Hx ltac:(lia)) as Hid.
    destruct (decide (x / 255 = s)) as [Eq|Hne].
    + rewrite test_bit_set_bit by zlia.
      destruct (decide (i = x mod 255)) as [Ei|Hni].
      * rewrite decide_True; [done|]. by apply Hid.
      * rewrite decide_False by (intros [_ ?]%Hid; done).
        rewrite <- Hbit1 by done. unfold block_bit.
        rewrite !Z.quot_div_nonneg, !Z.rem_mod_nonneg by (rewrite ?blocks_per_segment_eq; lia).
        rewrite blocks_per_segment_eq, Eq, Hz. done.
    + rewrite decide_False by (intros [? _]%Hid; done). by apply Hbit1.
  - done.
  - intros x b Hx. rewrite read_block_with_dbitmap by done. by apply Hread1.
  - apply wf_with_dbitmap; [done..|]. apply set_bit_length.
  - rewrite Hlen'. done.
Qed.

(** ** Frame lemmas for the inode table *)

Definition valid_inode (d : disk) (inode_num : Z) : Prop :=
  0 <= inode_num < num_inodes_per_segment * Z.of_nat (length (inode_segs d)).

Definition with_ibitmap (d : disk) (s : Z) (seg : inode_segment) (bitmap : list byte) : disk :=
  mk_disk (zset (inode_segs d) s (mk_iseg bitmap (inodes seg))) (data_segs d).

Lemma read_inode_with_ibitmap d s seg bitmap x :
  zget (inode_segs d) s = Some seg ->
  read_inode (with_ibitmap d s seg bitmap) x = read_inode d x.
Proof.
  intros Hs. unfold read_inode, with_ibitmap. cbn [inode_segs].
  destruct (decide (s = Z.quot x num_inodes_per_segment)) as [->|Hne].
  - rewrite zget_zset_eq by (by eapply zget_lt). by rewrite Hs.
  - by rewrite zget_zset_ne.
Qed.

Lemma inode_bit_with_ibitmap d s seg bitmap x :
  zget (inode_segs d) s = Some seg -> 0 <= x ->
  inode_bit (with_ibitmap d s seg bitmap) x =
  if decide (x / num_inodes_per_segment = s)
  then test_bit bitmap (x mod num_inodes_per_segment)
  else inode_bit d x.
Proof.
  intros Hs Hx. unfold inode_bit, with_ibitmap. cbn [inode_segs].
  rewrite !Z.quot_div_nonneg, !Z.rem_mod_nonneg by (rewrite ?num_inodes_per_segment_eq; lia).
  destruct (decide (x / num_inodes_per_segment = s)) as [->|Hne].
  - rewrite zget_zset_eq by (by eapply zget_lt). done.
  - by rewrite zget_zset_ne.
Qed.

Lemma wf_with_ibitmap d s seg bitmap :
  wf_disk d -> zget (inode_segs d) s = Some seg ->
  length bitmap = length (ibitmap seg) ->
  wf_disk (with_ibitmap d s seg bitmap).
Proof.
  intros [Hi Hd Hb] Hs Hlen. split; [|done..]. cbn [inode_segs with_ibitmap].
  apply Forall_zset; [done|]. destruct (Forall_zget _ _ _ _ Hi Hs) as [H1 H2].
  split; cbn [ibitmap inodes]; [by rewrite Hlen|done].
Qed.

Lemma read_inode_free_inode d n x : read_inode (free_inode d n) x = read_inode d x.
Proof.
  unfold free_inode.
  destruct (zget (inode_segs d) (Z.quot n num_inodes_per_segment)) as [seg|] eqn:Hs; [|done].
  by apply (read_inode_with_ibitmap d _ seg).
Qed.

Lemma data_segs_free_inode d n : data_segs (free_inode d n) = data_segs d.
Proof. unfold free_inode. by destruct (zget _ _). Qed.


Lemma wf_free_inode d n : wf_disk d -> wf_disk (free_inode d n).
Proof.
  intros Hwf. unfold free_inode.
  destruct (zget (inode_segs d) (Z.quot n num_inodes_per_segment)) as [seg|] eqn:Hs; [|done].
  apply (wf_with_ibitmap d _ seg); [done..|]. apply clear_bit_length.
Qed.

Lemma inode_bit_free_inode d n x :
  wf_disk d -> 0 <= n -> 0 <= x ->
  inode_bit (free_inode d n) x = if decide (x = n) then false else inode_bit d x.
Proof.
  intros Hwf Hn Hx. unfold free_inode.
  destruct (zget (inode_segs d) (Z.quot n num_inodes_per_segment)) as [seg|] eqn:Hs.
  - fold (with_ibitmap d (Z.quot n num_inodes_per_segment) seg
            (clear_bit (ibitmap seg) (Z.rem n num_inodes_per_segment))).
    rewrite inode_bit_with_ibitmap by done.
    destruct (Forall_zget _ _ _ _ (wf_isegs _ Hwf) Hs) as [Hbm _].
    rewrite !Z.quot_div_nonneg, !Z.rem_mod_nonneg in *
      by (rewrite ?num_inodes_per_segment_eq; lia).
    rewrite num_inodes_per_segment_eq in *. unfold BLOCK_SIZE in Hbm.
    destruct (decide (x / 254 = n / 254)) as [Eq|Hne].
    + rewrite test_bit_clear_bit by zlia.
      destruct (decide (n mod 254 = x mod 254)), (decide (x = n)); try done; try zlia.
      unfold inode_bit.
      rewrite !Z.quot_div_nonneg, !Z.rem_mod_nonneg by (rewrite ?num_inodes_per_segment_eq; lia).
      rewrite num_inodes_per_segment_eq, Eq, Hs. done.
    + rewrite decide_False; [done|]. intros ->. done.
  - destruct (decide (x = n)) as [->|]; [|done]. unfold inode_bit. by rewrite Hs.
Qed.

Lemma valid_inode_seg d n :
  valid_inode d n ->
  exists seg, zget (inode_segs d) (Z.quot n num_inodes_per_segment) = Some seg.
Proof.
  intros [H0 H1]. rewrite num_inodes_per_segment_eq in *.
  destruct (zget_is_Some (inode_segs d) (Z.quot n 254)) as [seg Hseg]; [zlia|eauto].
Qed.

Lemma write_inode_valid d n ino : valid_inode d n -> is_Some (write_inode d n ino).
Proof. intros [seg Hs]%valid_inode_seg. unfold write_inode. rewrite Hs. eauto. Qed.

Lemma read_inode_valid d n : wf_disk d -> valid_inode d n -> is_Some (read_inode d n).
Proof.
  intros Hwf Hv. destruct (valid_inode_seg _ _ Hv) as [seg Hs].
  unfold read_inode. rewrite Hs.
  destruct (Forall_zget _ _ _ _ (wf_isegs _ Hwf) Hs) as [_ Hbl].
  apply zget_is_Some. destruct Hv. rewrite num_inodes_per_segment_eq in *. zlia.
Qed.

Lemma read_inode_Some_valid d n ino :
  0 <= n -> read_inode d n = Some ino -> valid_inode d n.
Proof.
  intros Hn. unfold read_inode, valid_inode.
  destruct (zget (inode_segs d) (Z.quot n num_inodes_per_segment)) as [seg|] eqn:Hs; [|done].
  intros _. apply zget_lt in Hs. rewrite num_inodes_per_segment_eq in *. zlia.
Qed.

Section write_inode.
Context (d d' : disk) (n : Z) (ino : inode_t).
Hypothesis Hw : write_inode d n ino = Some d'.

Lemma write_inode_data_segs : data_segs d' = data_segs d.
Proof using Hw.
  unfold write_inode in Hw. destruct (zget _ _); [|done]. by injection Hw as <-.
Qed.

Lemma write_inode_length : length (inode_segs d') = length (inode_segs d).
Proof using Hw.
  unfold write_inode in Hw. destruct (zget _ _); [|done]. injection Hw as <-.
  apply zset_length.
Qed.

Lemma write_inode_bit x : inode_bit d' x = inode_bit d x.
Proof using Hw.
  unfold write_inode in Hw.
  destruct (zget (inode_segs d) (Z.quot n num_inodes_per_segment)) as [seg|] eqn:Hs; [|done].
  injection Hw as <-. unfold inode_bit. cbn [inode_segs].
  destruct (decide (Z.quot n num_inodes_per_segment = Z.quot x num_inodes_per_segment))
    as [Eq|Hne].
  - rewrite <- Eq. rewrite zget_zset_eq by (by eapply zget_lt). by rewrite Hs.
  - by rewrite zget_zset_ne.
Qed.

Lemma write_inode_wf : wf_disk d -> wf_disk d'.
Proof using Hw.
  intros [Hi Hd Hb]. unfold write_inode in Hw.
  destruct (zget (inode_segs d) (Z.quot n num_inodes_per_segment)) as [seg|] eqn:Hs; [|done].
  injection Hw as <-. split; [|done..]. cbn [inode_segs].
  apply Forall_zset; [done|]. destruct (Forall_zget _ _ _ _ Hi Hs) as [H1 H2].
  split; cbn [ibitmap inodes]; [done|]. by rewrite zset_length.
Qed.

Lemma write_inode_read_block x : read_block d' x = read_block d x.
Proof using Hw. unfold read_block. by rewrite write_inode_data_segs. Qed.

Lemma write_inode_block_bit x : block_bit d' x = block_bit d x.
Proof using Hw. unfold block_bit. by rewrite write_inode_data_segs. Qed.

Lemma read_inode_write_inode x :
  wf_disk d -> 0 <= n -> 0 <= x ->
  read_inode d' x = if decide (x = n) then Some ino else read_inode d x.
Proof using Hw.
  intros Hwf Hn Hx. unfold write_inode in Hw.
  destruct (zget (inode_segs d) (Z.quot n num_inodes_per_segment)) as [seg|] eqn:Hs; [|done].
  injection Hw as <-. unfold read_inode. cbn [inode_segs].
  destruct (Forall_zget _ _ _ _ (wf_isegs _ Hwf) Hs) as [_ Hbl].
  rewrite !Z.quot_div_nonneg, !Z.rem_mod_nonneg in *
    by (rewrite ?num_inodes_per_segment_eq; lia).
  rewrite num_inodes_per_segment_eq in *.
  destruct (decide (x / 254 = n / 254)) as [Eq|Hne].
  - rewrite Eq, zget_zset_eq by (by eapply zget_lt). cbn [inodes].
    destruct (decide (x = n)) as [->|Hne].
    + apply zget_zset_eq. zlia.
    + rewrite zget_zset_ne by zlia. by rewrite Hs.
  - rewrite zget_zset_ne by done. rewrite decide_False; [done|]. by intros ->.
Qed.
End write_inode.

(** Blocks do not see the inode table and conversely. *)
Lemma write_block_read_inode d d' id buf x :
  write_block d id buf = Some d' -> read_inode d' x = read_inode d x.
Proof. intros H. unfold read_inode. by rewrite (write_block_inode_segs _ _ _ _ H). Qed.

Lemma write_block_inode_bit d d' id buf x :
  write_block d id buf = Some d' -> inode_bit d' x = inode_bit d x.
Proof. intros H. unfold inode_bit. by rewrite (write_block_inode_segs _ _ _ _ H). Qed.

Lemma free_block_read_inode d id x : read_inode (free_block d id) x = read_inode d x.
Proof. unfold read_inode. by rewrite inode_segs_free_block. Qed.

Lemma free_block_inode_bit d id x : inode_bit (free_block d id) x = inode_bit d x.
Proof. unfold inode_bit. by rewrite inode_segs_free_block. Qed.

Lemma free_inode_read_block d n x : read_block (free_inode d n) x = read_block d x.
Proof. unfold read_block. by rewrite data_segs_free_inode. Qed.

Lemma free_inode_block_bit d n x : block_bit (free_inode d n) x = block_bit d x.
Proof. unfold block_bit. by rewrite data_segs_free_inode. Qed.

(** ** What [allocate_inode] guarantees *)

(** Inode segment 0 as [create_new_segment] leaves it: bit 0 set and the
    empty root directory in slot 0. *)
Definition root_inode_segment : inode_segment :=
  mk_iseg (set_bit (zero_bytes BLOCK_SIZE) ROOT_DIR_INODE)
          (zset (inodes zero_inode_segment) 0 (fresh_inode INODE_DIR)).

Definition new_inode_segment (segment_number : Z) : inode_segment :=
  if decide (segment_number = 0) then root_inode_segment else zero_inode_segment.

Lemma create_inode_segment d :
  create_new_segment d (Z.of_nat (length (inode_segs d))) INODE_SEGMENT =
  mk_disk (inode_segs d ++ [new_inode_segment (Z.of_nat (length (inode_segs d)))])
          (data_segs d).
Proof.
  unfold create_new_segment. rewrite decide_True by done. cbn [inode_segs data_segs].
  rewrite put_segment_new. unfold new_inode_segment.
  destruct (inode_segs d) as [|s0 l] eqn:E.
  - reflexivity.
  - simpl length. rewrite !decide_False by lia. done.
Qed.

Lemma wf_root_inode_segment : wf_iseg root_inode_segment.
Proof. split; reflexivity. Qed.

Lemma wf_new_inode_segment s : wf_iseg (new_inode_segment s).
Proof.
  unfold new_inode_segment. destruct (decide _);
    [apply wf_root_inode_segment|apply wf_zero_inode_segment].
Qed.

Lemma test_bit_root_bitmap j :
  0 <= j -> test_bit (ibitmap root_inode_segment) j = bool_decide (j = 0).
Proof.
  intros Hj. cbn [ibitmap root_inode_segment]. unfold ROOT_DIR_INODE.
  rewrite test_bit_set_bit;
    [|unfold zero_bytes; rewrite repeat_length; unfold BLOCK_SIZE; lia|done].
  rewrite test_bit_zero_bytes. destruct (decide (0 = j)); subst.
  - by rewrite bool_decide_eq_true_2.
  - by rewrite bool_decide_eq_false_2.
Qed.

(** The lowest clear bit of a fresh inode segment: 1 in segment 0, whose
    slot 0 is the root, 0 elsewhere. *)
Lemma find_free_bit_new_inode_segment s :
  find_free_bit (ibitmap (new_inode_segment s)) num_inodes_per_segment =
  if decide (s = 0) then 1 else 0.
Proof.
  unfold new_inode_segment. destruct (decide (s = 0)) as [->|Hs].
  - destruct (find_free_bit_spec (ibitmap root_inode_segment) num_inodes_per_segment
                ltac:(done)) as [[_ H]|(Hr & Hc & Hl)].
    + specialize (H 1 ltac:(rewrite num_inodes_per_segment_eq; lia)).
      by rewrite test_bit_root_bitmap in H.
    + rewrite test_bit_root_bitmap in Hc by lia.
      apply bool_decide_eq_false in Hc.
      destruct (decide (find_free_bit (ibitmap root_inode_segment)
                                      num_inodes_per_segment = 1)) as [|Hne]; [done|].
      specialize (Hl 1 ltac:(lia)). by rewrite test_bit_root_bitmap in Hl.
  - apply find_free_bit_zero. done.
Qed.

Lemma allocate_inode_loop_S fuel d segment_number :
  allocate_inode_loop (S fuel) d segment_number =
  let d1 := match zget (inode_segs d) segment_number with
            | Some _ => d
            | None => create_new_segment d segment_number INODE_SEGMENT
            end in
  match zget (inode_segs d1) segment_number with
  | None => Some (-1, d1)
  | Some seg =>
      if decide (Z.of_nat (length (ibitmap seg)) = BLOCK_SIZE) then
        if decide (0 <= find_free_bit (ibitmap seg) num_inodes_per_segment) then
          Some (int32 (segment_number * num_inodes_per_segment
                       + find_free_bit (ibitmap seg) num_inodes_per_segment),
                mk_disk (zset (inode_segs d1) segment_number
                              (mk_iseg (set_bit (ibitmap seg)
                                          (find_free_bit (ibitmap seg) num_inodes_per_segment))
                                       (inodes seg)))
                        (data_segs d1))
        else allocate_inode_loop fuel d1 (segment_number + 1)
      else Some (-1, d1)
  end.
Proof. reflexivity. Qed.

Lemma allocate_inode_loop_spec fuel : forall d k,
  wf_disk d ->
  0 <= k <= Z.of_nat (length (inode_segs d)) ->
  Z.of_nat (length (inode_segs d)) - k < Z.of_nat fuel ->
  Z.of_nat (length (inode_segs d)) <= MAX_SEGMENTS ->
  (forall k' seg', 0 <= k' < k -> zget (inode_segs d) k' = Some seg' ->
                   seg_full (ibitmap seg') num_inodes_per_segment) ->
  exists s i d1 seg,
    k <= s <= Z.of_nat (length (inode_segs d)) /\
    0 <= i < num_inodes_per_segment /\
    d1 = (if decide (s < Z.of_nat (length (inode_segs d))) then d
          else create_new_segment d s INODE_SEGMENT) /\
    zget (inode_segs d1) s = Some seg /\
    test_bit (ibitmap seg) i = false /\
    (forall j, 0 <= j < i -> test_bit (ibitmap seg) j = true) /\
    (forall k' seg', 0 <= k' < s -> zget (inode_segs d) k' = Some seg' ->
                     seg_full (ibitmap seg') num_inodes_per_segment) /\
    allocate_inode_loop fuel d k =
      Some (s * num_inodes_per_segment + i,
            with_ibitmap d1 s seg (set_bit (ibitmap seg) i)).
Proof.
  induction fuel as [|fuel IH]; intros d k Hwf Hk Hfuel Hmax Hfull; [lia|].
  rewrite allocate_inode_loop_S.
  destruct (zget (inode_segs d) k) as [seg0|] eqn:Hseg.
  - cbv beta iota zeta. rewrite Hseg. pose proof (zget_lt _ _ _ Hseg) as Hlt.
    destruct (Forall_zget _ _ _ _ (wf_isegs _ Hwf) Hseg) as [Hbm Hbl].
    rewrite (decide_True _ _ Hbm).
    destruct (find_free_bit_spec (ibitmap seg0) num_inodes_per_segment ltac:(done))
      as [[Hr Hall]|(Hr & Hclr & Hlow)].
    + rewrite Hr. rewrite decide_False by lia.
      destruct (IH d (k + 1)) as (s & i & d1 & seg & Hs & Hi & Hd1 & Hz & Hc & Hl & Hf & Heq);
        try done; try lia.
      { intros k' seg' Hk' Hz'. destruct (decide (k' = k)) as [->|].
        - rewrite Hseg in Hz'. injection Hz' as <-. exact Hall.
        - eapply Hfull; [|done]. lia. }
      exists s, i, d1, seg. repeat split; try done; lia.
    + rewrite decide_True by lia.
      exists k, (find_free_bit (ibitmap seg0) num_inodes_per_segment), d, seg0.
      rewrite decide_True by lia. repeat split; try done; try lia.
      rewrite int32_small; [done|].
      rewrite num_inodes_per_segment_eq in *. unfold MAX_SEGMENTS in Hmax. lia.
  - assert (k = Z.of_nat (length (inode_segs d))) as ->.
    { apply zget_None in Hseg. lia. }
    cbv beta iota zeta. rewrite create_inode_segment. cbn [data_segs inode_segs].
    rewrite zget_app_last.
    set (n := Z.of_nat (length (inode_segs d))) in *.
    destruct (wf_new_inode_segment n) as [Hbm Hbl].
    rewrite (decide_True _ _ Hbm).
    pose proof (find_free_bit_new_inode_segment n) as Hff.
    destruct (find_free_bit_spec (ibitmap (new_inode_segment n)) num_inodes_per_segment
                ltac:(done)) as [[Hr Hall]|(Hr & Hclr & Hlow)].
    { rewrite Hr in Hff. destruct (decide (n = 0)); lia. }
    rewrite decide_True by lia.
    exists n, (find_free_bit (ibitmap (new_inode_segment n)) num_inodes_per_segment),
      (mk_disk (inode_segs d ++ [new_inode_segment n]) (data_segs d)), (new_inode_segment n).
    rewrite decide_False by lia. cbn [data_segs inode_segs].
    subst n. rewrite zget_app_last.
    repeat split; try done; try lia;
      try (symmetry; apply create_inode_segment).
    rewrite int32_small; [reflexivity|].
    rewrite num_inodes_per_segment_eq in *. unfold MAX_SEGMENTS in Hmax. lia.
Qed.

Record alloc_inode_post (d : disk) (id : Z) (d' : disk) : Prop := mk_aip {
  aip_id : 0 <= id < num_inodes_per_segment * (Z.of_nat (length (inode_segs d)) + 1);
  aip_valid : valid_inode d' id;
  aip_fresh : inode_bit d id = false;
  aip_first : forall x, 0 <= x < id -> inode_bit d x = true;
  aip_bit : forall x, 0 <= x ->
                      inode_bit d' x = if decide (x = id) then true else inode_bit d x;
  aip_data : data_segs d' = data_segs d;
  aip_read : forall x ino, read_inode d x = Some ino -> read_inode d' x = Some ino;
  aip_wf : wf_disk d';
  aip_len : (length (inode_segs d) <= length (inode_segs d') <= length (inode_segs d) + 1)%nat
}.

Lemma inode_bit_new_segment d x :
  0 <= x -> inode_segs d <> [] ->
  inode_bit (mk_disk (inode_segs d ++ [zero_inode_segment]) (data_segs d)) x = inode_bit d x.
Proof.
  intros Hx _. unfold inode_bit. cbn [inode_segs].
  set (q := Z.quot x num_inodes_per_segment).
  destruct (decide (q < Z.of_nat (length (inode_segs d)))) as [Hq|Hq].
  - by rewrite zget_app_l.
  - replace (zget (inode_segs d) q) with (@None inode_segment)
      by (symmetry; apply zget_None; lia).
    destruct (zget _ q) as [seg|] eqn:Hs; [|done].
    assert (q = Z.of_nat (length (inode_segs d))) as Hq'.
    { apply zget_lt in Hs. rewrite length_app in Hs. simpl in Hs. lia. }
    rewrite Hq', zget_app_last in Hs. injection Hs as <-. apply test_bit_zero_bytes.
Qed.

Lemma read_inode_new_segment d x ino seg :
  read_inode d x = Some ino ->
  read_inode (mk_disk (inode_segs d ++ [seg]) (data_segs d)) x = Some ino.
Proof.
  unfold read_inode. cbn [inode_segs].
  destruct (zget (inode_segs d) (Z.quot x num_inodes_per_segment)) as [seg0|] eqn:Hs; [|done].
  rewrite zget_app_l by (by eapply zget_lt). by rewrite Hs.
Qed.

Lemma wf_new_inode_segment_disk d s :
  wf_disk d -> wf_disk (mk_disk (inode_segs d ++ [new_inode_segment s]) (data_segs d)).
Proof.
  intros [Hi Hd Hb]. split; [|done..]. cbn [inode_segs].
  apply Forall_app. split; [done|]. repeat constructor; apply wf_new_inode_segment.
Qed.

Lemma inode_of_slot x s i :
  0 <= x -> 0 <= i < 254 -> (x = s * 254 + i <-> x / 254 = s /\ x mod 254 = i).
Proof. intros. zlia. Qed.

Theorem allocate_inode_ok d :
  wf_disk d -> Z.of_nat (length (inode_segs d)) <= MAX_SEGMENTS -> inode_segs d <> [] ->
  exists id d', allocate_inode d = Some (id, d') /\ alloc_inode_post d id d'.
Proof.
  intros Hwf Hmax Hne.
  destruct (allocate_inode_loop_spec (S (length (inode_segs d))) d 0)
    as (s & i & d1 & seg & Hs & Hi & Hd1 & Hz & Hc & Hl & Hf & Heq); try done; try lia.
  unfold allocate_inode. rewrite Heq. eexists _, _. split; [done|].
  assert (Hnz : 0 < Z.of_nat (length (inode_segs d))).
  { destruct (inode_segs d); [done|]. simpl. lia. }
  assert (Hd1' : d1 = d \/
            (s = Z.of_nat (length (inode_segs d)) /\
             d1 = mk_disk (inode_segs d ++ [zero_inode_segment]) (data_segs d))).
  { rewrite Hd1. destruct (decide _); [by left|right].
    assert (s = Z.of_nat (length (inode_segs d))) as -> by lia.
    rewrite create_inode_segment. unfold new_inode_segment.
    rewrite decide_False by lia. done. }
  assert (Hbit1 : forall x, 0 <= x -> inode_bit d1 x = inode_bit d x).
  { intros x Hx. destruct Hd1' as [->|[_ ->]]; [done|]. by apply inode_bit_new_segment. }
  assert (Hread1 : forall x ino, read_inode d x = Some ino -> read_inode d1 x = Some ino).
  { intros x ino Hx. destruct Hd1' as [->|[_ ->]]; [done|]. by apply read_inode_new_segment. }
  assert (Hwf1 : wf_disk d1).
  { destruct Hd1' as [->|[_ ->]]; [done|].
    apply (wf_new_inode_segment_disk d 1) in Hwf. exact Hwf. }
  assert (Hda1 : data_segs d1 = data_segs d).
  { by destruct Hd1' as [->|[_ ->]]. }
  assert (Hlen1 : (length (inode_segs d) <= length (inode_segs d1)
                   <= length (inode_segs d) + 1)%nat).
  { destruct Hd1' as [->|[_ ->]]; [lia|]. cbn [inode_segs]. rewrite length_app. simpl. lia. }
  destruct (Forall_zget _ _ _ _ (wf_isegs _ Hwf1) Hz) as [Hbm Hbl].
  pose proof (zget_lt _ _ _ Hz) as Hslt.
  rewrite num_inodes_per_segment_eq in *. unfold BLOCK_SIZE in Hbm.
  assert (Hlen' : length (inode_segs (with_ibitmap d1 s seg (set_bit (ibitmap seg) i)))
                  = length (inode_segs d1)).
  { unfold with_ibitmap. cbn [inode_segs]. apply zset_length. }
  split.
  - rewrite num_inodes_per_segment_eq. lia.
  - unfold valid_inode. rewrite Hlen', num_inodes_per_segment_eq. lia.
  - rewrite <- Hbit1 by lia. unfold inode_bit.
    rewrite !Z.quot_div_nonneg, !Z.rem_mod_nonneg by (rewrite ?num_inodes_per_segment_eq; lia).
    rewrite num_inodes_per_segment_eq.
    replace ((s * 254 + i) / 254) with s by zlia.
    replace ((s * 254 + i) mod 254) with i by zlia. by rewrite Hz.
  - intros x Hx. unfold inode_bit.
    rewrite !Z.quot_div_nonneg, !Z.rem_mod_nonneg by (rewrite ?num_inodes_per_segment_eq; lia).
    rewrite num_inodes_per_segment_eq.
    destruct (decide (x / 254 = s)) as [Eq|Hne'].
    + assert (Hxi : x mod 254 < i) by zlia.
      destruct Hd1' as [->|[Hsl ->]].
      * rewrite Eq, Hz. apply Hl. zlia.
      * cbn [inode_segs] in Hz. rewrite Hsl, zget_app_last in Hz. injection Hz as <-.
        specialize (Hl (x mod 254) ltac:(zlia)).
        cbn [ibitmap zero_inode_segment] in Hl. by rewrite test_bit_zero_bytes in Hl.
    + destruct (zget_is_Some (inode_segs d) (x / 254)) as [seg' Hseg']; [zlia|].
      rewrite Hseg'. eapply Hf; [|done|]; zlia.
  - intros x Hx. rewrite inode_bit_with_ibitmap by done.
    rewrite num_inodes_per_segment_eq.
    pose proof (inode_of_slot x s i Hx ltac:(lia)) as Hid.
    destruct (decide (x / 254 = s)) as [Eq|Hne'].
    + rewrite test_bit_set_bit by zlia.
      destruct (decide (i = x mod 254)) as [Ei|Hni].
      * rewrite decide_True; [done|]. by apply Hid.
      * rewrite decide_False by (intros [_ ?]%Hid; done).
        rewrite <- Hbit1 by done. unfold inode_bit.
        rewrite !Z.quot_div_nonneg, !Z.rem_mod_nonneg
          by (rewrite ?num_inodes_per_segment_eq; lia).
        rewrite num_inodes_per_segment_eq, Eq, Hz. done.
    + rewrite decide_False by (intros [? _]%Hid; done). by apply Hbit1.
  - done.
  - intros x ino Hx. rewrite read_inode_with_ibitmap by done. by apply Hread1.
  - apply wf_with_ibitmap; [done..|]. apply set_bit_length.
  - rewrite Hlen'. done.
Qed.

(** ** [init_fs] *)

Lemma wf_empty_disk : wf_disk empty_disk.
Proof. split; constructor. Qed.

Lemma init_fs_empty :
  init_fs empty_disk = mk_disk [root_inode_segment] [zero_data_segment].
Proof. reflexivity. Qed.

Lemma wf_init_fs_empty : wf_disk (init_fs empty_disk).
Proof.
  rewrite init_fs_empty. split.
  - repeat constructor.
  - repeat constructor.
  - constructor; [apply wf_blocks_zero_data_segment|constructor].
Qed.

(** C6.  [allocate_inode] is first fit and total: with the inode segments
    before [s] all full, it settles on segment [s] -- an existing one, or the
    one it creates right after the last -- takes the lowest clear bit [i] of
    that segment, stores the bitmap with the bit set, and returns
    [s * records_per_segment + i], which is never -1. *)
Theorem allocate_inode_first_fit d :
  wf_disk d ->
  Z.of_nat (length (inode_segs d)) <= MAX_SEGMENTS ->
  exists s i seg,
    let d1 := if decide (s < Z.of_nat (length (inode_segs d))) then d
              else create_new_segment d s INODE_SEGMENT in
    0 <= s <= Z.of_nat (length (inode_segs d)) /\
    0 <= i < num_inodes_per_segment /\
    (forall k seg', 0 <= k < s -> zget (inode_segs d) k = Some seg' ->
                    seg_full (ibitmap seg') num_inodes_per_segment) /\
    zget (inode_segs d1) s = Some seg /\
    test_bit (ibitmap seg) i = false /\
    (forall j, 0 <= j < i -> test_bit (ibitmap seg) j = true) /\
    test_bit (set_bit (ibitmap seg) i) i = true /\
    allocate_inode d =
      Some (s * num_inodes_per_segment + i,
            with_ibitmap d1 s seg (set_bit (ibitmap seg) i)) /\
    s * num_inodes_per_segment + i <> -1.
Proof.
  intros Hwf Hmax.
  destruct (allocate_inode_loop_spec (S (length (inode_segs d))) d 0)
    as (s & i & d1 & seg & Hs & Hi & Hd1 & Hz & Hc & Hl & Hf & Heq); try done; try lia.
  exists s, i, seg. cbv zeta. rewrite <- Hd1.
  assert (Hwf1 : wf_disk d1).
  { rewrite Hd1. destruct (decide _); [done|].
    assert (s = Z.of_nat (length (inode_segs d))) as -> by lia.
    rewrite create_inode_segment. by apply wf_new_inode_segment_disk. }
  destruct (Forall_zget _ _ _ _ (wf_isegs _ Hwf1) Hz) as [Hbm _].
  unfold BLOCK_SIZE in Hbm.
  repeat split; try done; try lia.
  - rewrite test_bit_set_bit; [by rewrite decide_True| |lia].
    rewrite num_inodes_per_segment_eq in Hi. lia.
  - rewrite num_inodes_per_segment_eq in *. lia.
Qed.

Lemma allocate_inode_first_fit_witness :
  exists s i seg,
    let d := init_fs empty_disk in
    let d1 := if decide (s < Z.of_nat (length (inode_segs d))) then d
              else create_new_segment d s INODE_SEGMENT in
    0 <= s <= Z.of_nat (length (inode_segs d)) /\
    0 <= i < num_inodes_per_segment /\
    (forall k seg', 0 <= k < s -> zget (inode_segs d) k = Some seg' ->
                    seg_full (ibitmap seg') num_inodes_per_segment) /\
    zget (inode_segs d1) s = Some seg /\
    test_bit (ibitmap seg) i = false /\
    (forall j, 0 <= j < i -> test_bit (ibitmap seg) j = true) /\
    test_bit (set_bit (ibitmap seg) i) i = true /\
    allocate_inode d =
      Some (s * num_inodes_per_segment + i,
            with_ibitmap d1 s seg (set_bit (ibitmap seg) i)) /\
    s * num_inodes_per_segment + i <> -1.
Proof.
  apply (allocate_inode_first_fit (init_fs empty_disk)).
  - apply wf_init_fs_empty.
  - vm_compute. discriminate.
Defined.

(** The first inode handed out in a fresh file system is 1: slot 0 is the
    root directory. *)
Example allocate_inode_fresh :
  fst <$> allocate_inode (init_fs empty_disk) = Some 1.
Proof. vm_compute. reflexivity. Qed.

(** ** Add is rejected when the target exists (C8) *)

(** Every component of [parts] names an existing directory, starting in the
    directory [current_inode]; the result is the last directory reached. *)
Fixpoint dirs_exist (d : disk) (current_inode_num : Z) (current_inode : inode_t)
         (parts : list (list byte)) : option (Z * inode_t) :=
  match parts with
  | [] => Some (current_inode_num, current_inode)
  | part :: rest =>
      let n := find_entry_in_dir d current_inode part in
      if decide (n = -1) then None
      else match read_inode d n with
           | None => None
           | Some ino =>
               if decide (type ino = INODE_DIR) then dirs_exist d n ino rest else None
           end
  end.

Lemma add_walk_existing d : forall parts n cur n' cur',
  dirs_exist d n cur parts = Some (n', cur') ->
  add_walk d n cur parts = Ok (n', cur', d).
Proof.
  induction parts as [|part rest IH]; intros n cur n' cur' H; simpl in *.
  - by injection H as -> ->.
  - destruct (decide (find_entry_in_dir d cur part = -1)); [done|].
    destruct (read_inode d (find_entry_in_dir d cur part)) as [ino|]; [|done].
    destruct (decide (type ino = INODE_DIR)); [|done]. by apply IH.
Qed.

(** C8.  When every intermediate component of the path is an existing
    directory and the last component is found in the directory they lead
    to, [exfs2_add] prints "File already exists" and returns with the disk
    exactly as it was. *)
Theorem add_existing_rejected d path local_file root parent_num parent :
  split_path path <> [] ->
  read_inode d ROOT_DIR_INODE = Some root ->
  dirs_exist d ROOT_DIR_INODE root (removelast (split_path path)) = Some (parent_num, parent) ->
  find_entry_in_dir d parent (List.last (split_path path) []) <> -1 ->
  exfs2_add d path local_file = Stop d (File_already_exists (List.last (split_path path) [])).
Proof.
  intros Hne Hroot Hdirs Hfound. unfold exfs2_add.
  destruct (split_path path) as [|p ps] eqn:E; [done|].
  rewrite Hroot. rewrite (add_walk_existing _ _ _ _ _ _ Hdirs). cbn [bind].
  rewrite decide_False by done. done.
Qed.

(** A small file system for the examples: "/a" holding one byte, added to a
    fresh file system. *)
Definition disk_of (o : outcome disk) : disk :=
  match o with
  | Ok d => d
  | Stop d _ => d
  | _ => empty_disk
  end.

Definition path_a : list byte := [x2f; x61].

Definition fs_with_a : disk :=
  disk_of (exfs2_add (init_fs empty_disk) path_a (Some [x41])).

Definition root_of (d : disk) : inode_t :=
  default zero_inode (read_inode d ROOT_DIR_INODE).

Lemma add_existing_rejected_witness :
  exfs2_add fs_with_a path_a (Some [x42]) =
  Stop fs_with_a (File_already_exists (List.last (split_path path_a) [])).
Proof.
  apply (add_existing_rejected fs_with_a path_a (Some [x42])
           (root_of fs_with_a) ROOT_DIR_INODE (root_of fs_with_a)).
  - vm_compute. discriminate.
  - vm_compute. reflexivity.
  - vm_compute. reflexivity.
  - vm_compute. discriminate.
Defined.

(** ** Remove-side reclamation for a file (C7) *)

(** The entries of an indirect block before the first 0. *)
Fixpoint nonzero_prefix (ids : list Z) : list Z :=
  match ids with
  | [] => []
  | id :: rest => if decide (id = 0) then [] else id :: nonzero_prefix rest
  end.

Lemma free_until_zero_fold d ids :
  free_until_zero d ids = fold_left free_block (nonzero_prefix ids) d.
Proof.
  revert d. induction ids as [|id rest IH]; intros d; simpl; [done|].
  destruct (decide (id = 0)); [done|]. simpl. apply IH.
Qed.

Lemma wf_free_blocks ids : forall d, wf_disk d -> wf_disk (fold_left free_block ids d).
Proof. induction ids as [|id rest IH]; intros d H; simpl; [done|]. by apply IH, wf_free_block. Qed.

Lemma read_block_free_blocks ids : forall d x,
  read_block (fold_left free_block ids d) x = read_block d x.
Proof.
  induction ids as [|id rest IH]; intros d x; simpl; [done|].
  rewrite IH. apply read_block_free_block.
Qed.

Lemma inode_segs_free_blocks ids : forall d,
  inode_segs (fold_left free_block ids d) = inode_segs d.
Proof.
  induction ids as [|id rest IH]; intros d; simpl; [done|].
  rewrite IH. apply inode_segs_free_block.
Qed.

Lemma block_bit_free_blocks ids : forall d x,
  wf_disk d -> Forall (fun id => 0 <= id) ids -> 0 <= x ->
  block_bit (fold_left free_block ids d) x =
  if decide (x ∈ ids) then false else block_bit d x.
Proof.
  induction ids as [|id rest IH]; intros d x Hwf Hids Hx; cbn [fold_left].
  - rewrite decide_False; [done|]. apply not_elem_of_nil.
  - inversion Hids as [|? ? Hid Hrest]; subst.
    rewrite IH by (try apply wf_free_block; done).
    rewrite block_bit_free_block by done.
    destruct (decide (x ∈ rest)) as [Hin|Hnin].
    + rewrite decide_True; [done|]. by right.
    + destruct (decide (x = id)) as [->|Hne].
      * rewrite decide_True; [done|]. by left.
      * rewrite decide_False; [done|]. rewrite elem_of_cons. tauto.
Qed.

Lemma load_ints_free_blocks ids d x : load_ints (fold_left free_block ids d) x = load_ints d x.
Proof. unfold load_ints. by rewrite read_block_free_blocks. Qed.

(** The data blocks a file reaches through its direct slots and its single
    indirect block, with the indirect block itself: what the "file" branch
    of [exfs2_remove_recursive] frees. *)
Definition file_indirect_entries (d : disk) (inode : inode_t) : list Z :=
  if decide (indirect_block inode <> -1) then
    match load_ints d (indirect_block inode) with
    | Some a => nonzero_prefix a
    | None => []
    end
  else [].

Definition file_freed_blocks (d : disk) (inode : inode_t) : list Z :=
  live_direct_blocks inode ++ file_indirect_entries d inode
  ++ (if decide (indirect_block inode <> -1) then [indirect_block inode] else []).

Lemma remove_file_eq d inode_num inode :
  remove_file d inode_num inode =
  free_inode (fold_left free_block (file_freed_blocks d inode) d) inode_num.
Proof.
  unfold remove_file, file_freed_blocks, file_indirect_entries.
  rewrite !fold_left_app. rewrite load_ints_free_blocks.
  destruct (decide (indirect_block inode <> -1)); [|done].
  destruct (load_ints d (indirect_block inode)) as [a|]; [|done].
  by rewrite free_until_zero_fold.
Qed.

(** The bitmaps after the "file" branch: exactly the freed blocks and the
    inode lose their bit. *)
Lemma remove_file_bits d inode_num inode :
  wf_disk d -> 0 <= inode_num ->
  Forall (fun id => 0 <= id) (file_freed_blocks d inode) ->
  let d' := remove_file d inode_num inode in
  (forall x, 0 <= x ->
     block_bit d' x = if decide (x ∈ file_freed_blocks d inode) then false else block_bit d x) /\
  (forall x, 0 <= x ->
     inode_bit d' x = if decide (x = inode_num) then false else inode_bit d x).
Proof.
  intros Hwf Hn Hids d'. subst d'. rewrite remove_file_eq. split; intros x Hx.
  - rewrite free_inode_block_bit. by apply block_bit_free_blocks.
  - rewrite inode_bit_free_inode by (try apply wf_free_blocks; done).
    destruct (decide (x = inode_num)); [done|].
    unfold inode_bit. by rewrite inode_segs_free_blocks.
Qed.

Lemma unlink_entry_bits blks target : forall d,
  (forall x, block_bit (unlink_entry d blks target) x = block_bit d x) /\
  (forall x, inode_bit (unlink_entry d blks target) x = inode_bit d x).
Proof.
  induction blks as [|b rest IH]; intros d; simpl; [done|].
  destruct (load_directory_entries d b) as [entries|]; [|apply IH].
  destruct (clear_first entries target) as [entries'|]; [|apply IH].
  unfold save_directory_entries.
  destruct (write_block d b _) as [d1|] eqn:Hw; simpl; [|apply IH].
  destruct (IH d1) as [H1 H2]. split; intros x.
  - rewrite H1. by eapply write_block_bit.
  - rewrite H2. by eapply write_block_inode_bit.
Qed.

Lemma length_data_segs_free_blocks ids : forall d,
  length (data_segs (fold_left free_block ids d)) = length (data_segs d).
Proof.
  induction ids as [|id rest IH]; intros d; simpl; [done|].
  rewrite IH. apply length_data_segs_free_block.
Qed.




(** Boolean check used to discharge side conditions on concrete disks. *)
Lemma nonneg_forallb l : forallb (fun id => 0 <=? id) l = true -> Forall (fun id => 0 <= id) l.
Proof.
  rewrite forallb_forall. intros H. apply List.Forall_forall. intros x Hx.
  specialize (H x Hx). lia.
Qed.


(** ** Invariants of the inode records *)

(** A property of an outcome: of its value when the command goes on, of the
    disk left behind when it returns early. *)
Definition outcome_inv {A} (I : disk -> Prop) (Q : A -> Prop) (o : outcome A) : Prop :=
  match o with
  | Ok a => Q a
  | Stop d _ => I d
  | Undefined | OutOfFuel => True
  end.

Lemma outcome_inv_bind {A B} (I : disk -> Prop) (Q : A -> Prop) (R : B -> Prop)
      (o : outcome A) (k : A -> outcome B) :
  outcome_inv I Q o -> (forall a, Q a -> outcome_inv I R (k a)) ->
  outcome_inv I R (bind o k).
Proof. destruct o; simpl; eauto. Qed.

Lemma outcome_inv_alloc (I : disk -> Prop) (r : option (Z * disk)) m :
  (forall id d, r = Some (id, d) -> I d) ->
  outcome_inv I (fun p => r = Some p /\ I (snd p)) (alloc_or_stop r m).
Proof.
  intros H. unfold alloc_or_stop. destruct r as [[id d]|]; [|done].
  destruct (decide (id = -1)); simpl; eauto.
Qed.

(** Case analysis on every test of a monadic definition unfolded in [H]. *)
Ltac outcome_cases H :=
  repeat first
    [ discriminate H
    | progress cbn [bind fst snd] in H
    | match type of H with
      | context [match ?x with _ => _ end] => destruct x eqn:?
      end ].

(** The file inode under construction keeps its type and never gets a
    triple indirect block: no branch of the read loop assigns either. *)
Lemma add_block_inode_fields l chunk l' :
  add_block l chunk = Ok l' ->
  type (file_inode l') = type (file_inode l) /\
  triple_indirect_block (file_inode l') = triple_indirect_block (file_inode l).
Proof.
  intros H.
  unfold add_block, place_direct, place_indirect, place_double,
    alloc_or_stop, arr_write, arr_read in H.
  outcome_cases H; injection H as <-; subst; simplify_eq; done.
Qed.

(** The inode records of a disk, segment by segment. *)
Definition records (d : disk) : list (list inode_t) := map inodes (inode_segs d).

Lemma records_zset_bitmap d s seg bitmap :
  zget (inode_segs d) s = Some seg ->
  map inodes (zset (inode_segs d) s (mk_iseg bitmap (inodes seg))) = records d.
Proof.
  intros [Hs Hl]%zget_Some. unfold zset, records. rewrite decide_True by done.
  rewrite list_fmap_insert. cbn [inodes]. apply list_insert_id.
  by rewrite list_lookup_fmap, Hl.
Qed.

Lemma records_free_inode d n : records (free_inode d n) = records d.
Proof.
  unfold free_inode.
  destruct (zget (inode_segs d) (Z.quot n num_inodes_per_segment)) as [seg|] eqn:Hs; [|done].
  by apply records_zset_bitmap.
Qed.

Lemma records_free_block d id : records (free_block d id) = records d.
Proof. unfold records. by rewrite inode_segs_free_block. Qed.

Lemma records_write_block d d' id buf :
  write_block d id buf = Some d' -> records d' = records d.
Proof. intros H. unfold records. by rewrite (write_block_inode_segs _ _ _ _ H). Qed.

Lemma records_free_blocks ids d : records (fold_left free_block ids d) = records d.
Proof. unfold records. by rewrite inode_segs_free_blocks. Qed.

Lemma records_remove_file d n inode : records (remove_file d n inode) = records d.
Proof. rewrite remove_file_eq, records_free_inode. apply records_free_blocks. Qed.

Lemma records_unlink_entry blks target : forall d,
  records (unlink_entry d blks target) = records d.
Proof.
  induction blks as [|b rest IH]; intros d; simpl; [done|].
  destruct (load_directory_entries d b) as [entries|]; [|apply IH].
  destruct (clear_first entries target) as [entries'|]; [|apply IH].
  unfold save_directory_entries.
  destruct (write_block d b _) as [d1|] eqn:Hw; simpl; [|apply IH].
  rewrite IH. by eapply records_write_block.
Qed.

Lemma records_remove_entries (rec : disk -> Z -> option disk) entries :
  (forall d n d', rec d n = Some d' -> records d' = records d) ->
  forall d d', remove_entries rec d entries = Some d' -> records d' = records d.
Proof.
  intros Hrec. induction entries as [|e rest IH]; intros d d' H; simpl in H.
  - by injection H as <-.
  - destruct (decide (inode_num e = -1)); [by apply IH|].
    destruct (rec d (inode_num e)) as [d1|] eqn:E; [|done].
    rewrite (IH _ _ H). by eapply Hrec.
Qed.

Lemma records_remove_dir_blocks (rec : disk -> Z -> option disk) blks :
  (forall d n d', rec d n = Some d' -> records d' = records d) ->
  forall d d', remove_dir_blocks rec d blks = Some d' -> records d' = records d.
Proof.
  intros Hrec. induction blks as [|b rest IH]; intros d d' H; simpl in H.
  - by injection H as <-.
  - destruct (load_directory_entries d b) as [entries|]; [|by apply IH].
    destruct (remove_entries rec d entries) as [d1|] eqn:E; [|done].
    rewrite (IH _ _ H), records_free_block. by eapply records_remove_entries.
Qed.

(** [exfs2_remove_recursive] only clears bitmap bits: no inode record and no
    block changes. *)
Lemma records_remove_recursive fuel : forall d n d',
  exfs2_remove_recursive fuel d n = Some d' -> records d' = records d.
Proof.
  induction fuel as [|fuel IH]; intros d n d' H; [done|]. simpl in H.
  destruct (read_inode d n) as [inode|]; [|by injection H as <-].
  destruct (decide (type inode = INODE_FILE)).
  { injection H as <-. apply records_remove_file. }
  destruct (decide (type inode = INODE_DIR)); [|by injection H as <-].
  destruct (remove_dir_blocks _ d _) as [d1|] eqn:E; [|done].
  injection H as <-. rewrite records_free_inode.
  eapply records_remove_dir_blocks; [|done]. exact IH.
Qed.

Lemma records_exfs2_remove fuel d path d' :
  disk_after (exfs2_remove fuel d path) = Some d' -> records d' = records d.
Proof.
  unfold exfs2_remove.
  destruct (split_path path); [by intros [= <-]|].
  destruct (read_inode d ROOT_DIR_INODE) as [root|]; [|by intros [= <-]].
  destruct (walk_path d ROOT_DIR_INODE root _) as [[n cur]| | |] eqn:Hw; simpl; try done.
  - destruct (decide _); [by intros [= <-]|].
    destruct (exfs2_remove_recursive fuel d _) as [d1|] eqn:E; [|done].
    intros [= <-]. rewrite records_unlink_entry. by eapply records_remove_recursive.
  - intros [= <-]. clear -Hw.
    revert Hw. generalize ROOT_DIR_INODE. generalize (removelast (l :: l0)).
    intros parts. revert root. induction parts as [|p ps IH]; intros root n H; simpl in H; [done|].
    destruct (decide _); [by injection H as <-|].
    destruct (read_inode d _); [|by injection H as <-]. by eapply IH.
Qed.

Lemma inode_segs_write_ints d id a : inode_segs (write_ints d id a) = inode_segs d.
Proof.
  unfold write_ints. destruct (write_block d id _) as [d1|] eqn:E; simpl; [|done].
  by eapply write_block_inode_segs.
Qed.

Lemma create_data_segment_inode_segs d k :
  inode_segs (create_new_segment d k DATA_SEGMENT) = inode_segs d.
Proof. unfold create_new_segment. by rewrite decide_False. Qed.

(** The block allocator never touches an inode segment. *)
Lemma allocate_block_loop_inode_segs fuel : forall d k id d',
  allocate_block_loop fuel d k = Some (id, d') -> inode_segs d' = inode_segs d.
Proof.
  induction fuel as [|fuel IH]; intros d k id d' H; [done|].
  rewrite allocate_block_loop_S in H. cbv zeta in H.
  set (d1 := match zget (data_segs d) k with
             | Some _ => d
             | None => create_new_segment d k DATA_SEGMENT
             end) in *.
  assert (H1 : inode_segs d1 = inode_segs d).
  { subst d1. destruct (zget (data_segs d) k); [done|].
    apply create_data_segment_inode_segs. }
  clearbody d1.
  destruct (zget (data_segs d1) k) as [seg|]; [|by injection H as _ <-].
  destruct (decide _); [|by injection H as _ <-].
  destruct (decide _); [by injection H as _ <-|].
  rewrite (IH _ _ _ _ H). done.
Qed.

Lemma allocate_block_inode_segs d id d' :
  allocate_block d = Some (id, d') -> inode_segs d' = inode_segs d.
Proof. apply allocate_block_loop_inode_segs. Qed.

Lemma fill_free_slot_inode_segs blks nm child : forall d d',
  fill_free_slot d blks nm child = Some d' -> inode_segs d' = inode_segs d.
Proof.
  induction blks as [|b rest IH]; intros d d' H; simpl in H; [done|].
  destruct (load_directory_entries d b) as [entries|]; [|by apply IH].
  destruct (first_free_slot entries 0) as [j|]; [|by apply IH].
  injection H as <-. unfold save_directory_entries.
  destruct (write_block d b _) as [d1|] eqn:E; simpl; [|done].
  by eapply write_block_inode_segs.
Qed.

(** The read loop of [exfs2_add] leaves the inode segments alone, whether
    it goes on or returns early. *)
Lemma add_block_inode_segs l chunk :
  outcome_inv (fun d => inode_segs d = inode_segs (l_disk l))
              (fun l' => inode_segs (l_disk l') = inode_segs (l_disk l))
              (add_block l chunk).
Proof.
  destruct (add_block l chunk) as [l'|d m| |] eqn:H; simpl; try done.
  - unfold add_block, place_direct, place_indirect, place_double,
      alloc_or_stop, arr_write, arr_read in H.
    outcome_cases H; injection H as <-; simplify_eq; cbn [l_disk];
      rewrite ?inode_segs_write_ints;
      repeat match goal with
        | H : allocate_block _ = Some _ |- _ => apply allocate_block_inode_segs in H
        | H : write_block _ _ _ = Some _ |- _ => apply write_block_inode_segs in H
        end; rewrite ?inode_segs_write_ints in *; congruence.
  - unfold add_block, place_direct, place_indirect, place_double,
      alloc_or_stop, arr_write, arr_read in H.
    outcome_cases H; injection H as <- _; simplify_eq;
      rewrite ?inode_segs_write_ints;
      repeat match goal with
        | H : allocate_block _ = Some _ |- _ => apply allocate_block_inode_segs in H
        | H : write_block _ _ _ = Some _ |- _ => apply write_block_inode_segs in H
        end; rewrite ?inode_segs_write_ints in *; congruence.
Qed.

Lemma add_blocks_inode_segs chunks : forall l,
  outcome_inv (fun d => inode_segs d = inode_segs (l_disk l))
              (fun l' => inode_segs (l_disk l') = inode_segs (l_disk l))
              (add_blocks l chunks).
Proof.
  induction chunks as [|c rest IH]; intros l; simpl; [done|].
  eapply outcome_inv_bind.
  - apply (add_block_inode_segs l c).
  - simpl. intros l1 H1. specialize (IH l1). rewrite H1 in IH. exact IH.
Qed.

Lemma add_blocks_inode_fields chunks : forall l l',
  add_blocks l chunks = Ok l' ->
  type (file_inode l') = type (file_inode l) /\
  triple_indirect_block (file_inode l') = triple_indirect_block (file_inode l).
Proof.
  induction chunks as [|c rest IH]; intros l l' H; simpl in H.
  - by injection H as <-.
  - destruct (add_block l c) as [l1| | |] eqn:E; try done. simpl in H.
    destruct (add_block_inode_fields _ _ _ E) as [E1 E2].
    destruct (IH _ _ H) as [-> ->]. done.
Qed.

(** A property [P] of inode records that the zeroed record and the empty
    directory have, that a directory keeps when [add_entry_to_dir] appends a
    block to it, and that every file inode without a triple indirect block
    has, holds of every record of every reachable disk. *)
Section inode_invariant.

Variable P : inode_t -> Prop.
Hypothesis P_zero : P zero_inode.
Hypothesis P_dir : P (fresh_inode INODE_DIR).
Hypothesis P_grow : forall ino b,
  P ino -> type ino = INODE_DIR -> num_direct ino < MAX_DIRECT_BLOCKS ->
  P (with_direct ino (num_direct ino + 1)
                 (zset (direct_blocks ino) (num_direct ino) b)
                 (size_t (size ino + BLOCK_SIZE))).
Hypothesis P_file : forall ino,
  type ino = INODE_FILE -> triple_indirect_block ino = -1 -> P ino.

Definition inodes_ok (d : disk) : Prop :=
  Forall (fun seg => Forall P (inodes seg)) (inode_segs d).

Lemma inodes_ok_records d : inodes_ok d <-> Forall (Forall P) (records d).
Proof. unfold inodes_ok, records. by rewrite Forall_fmap. Qed.

Lemma inodes_ok_same_records d d' : records d' = records d -> inodes_ok d -> inodes_ok d'.
Proof. rewrite !inodes_ok_records. by intros ->. Qed.

Lemma inodes_ok_same_segs d d' : inode_segs d' = inode_segs d -> inodes_ok d -> inodes_ok d'.
Proof. unfold inodes_ok. by intros ->. Qed.

Lemma inodes_ok_read_inode d n ino : inodes_ok d -> read_inode d n = Some ino -> P ino.
Proof.
  unfold read_inode. intros Hok H.
  destruct (zget (inode_segs d) _) as [seg|] eqn:Hs; [|done].
  eapply Forall_zget; [|exact H]. eapply (Forall_zget _ _ _ _ Hok Hs).
Qed.

Lemma inodes_ok_write_inode d n ino d' :
  inodes_ok d -> P ino -> write_inode d n ino = Some d' -> inodes_ok d'.
Proof.
  unfold write_inode. intros Hok HP H.
  destruct (zget (inode_segs d) _) as [seg|] eqn:Hs; [|done].
  injection H as <-. unfold inodes_ok. cbn [inode_segs].
  apply Forall_zset; [done|]. cbn [inodes]. apply Forall_zset; [|done].
  eapply (Forall_zget _ _ _ _ Hok Hs).
Qed.

Lemma inodes_ok_write_inode_default d n ino :
  inodes_ok d -> P ino -> inodes_ok (default d (write_inode d n ino)).
Proof.
  intros Hok HP. destruct (write_inode d n ino) as [d'|] eqn:E; simpl; [|done].
  by eapply inodes_ok_write_inode.
Qed.

Lemma inodes_ok_put_segment segs k seg :
  Forall (fun seg => Forall P (inodes seg)) segs -> Forall P (inodes seg) ->
  Forall (fun seg => Forall P (inodes seg)) (put_segment segs k seg).
Proof.
  intros Hl Hs. unfold put_segment. destruct (decide _).
  - by apply Forall_zset.
  - apply Forall_app. split; [done|]. by constructor.
Qed.

Lemma inodes_ok_create_new_segment d k ty :
  inodes_ok d -> inodes_ok (create_new_segment d k ty).
Proof.
  intros Hok. unfold create_new_segment. destruct (decide (ty = INODE_SEGMENT)); [|done].
  assert (H1 : inodes_ok (mk_disk (put_segment (inode_segs d) k zero_inode_segment)
                                  (data_segs d))).
  { apply inodes_ok_put_segment; [done|]. cbn [inodes zero_inode_segment].
    apply List.Forall_forall. intros x Hx%repeat_spec. by subst. }
  destruct (decide (k = 0)); [|done].
  destruct (zget _ 0) as [seg|] eqn:Hs; [|done].
  apply inodes_ok_write_inode_default; [|done].
  unfold inodes_ok. cbn [inode_segs]. apply Forall_zset; [done|]. cbn [inodes].
  eapply (Forall_zget _ _ _ _ H1 Hs).
Qed.

Lemma inodes_ok_allocate_inode_loop fuel : forall d k id d',
  inodes_ok d -> allocate_inode_loop fuel d k = Some (id, d') -> inodes_ok d'.
Proof.
  induction fuel as [|fuel IH]; intros d k id d' Hok H; [done|].
  rewrite allocate_inode_loop_S in H. cbv zeta in H.
  set (d1 := match zget (inode_segs d) k with
             | Some _ => d
             | None => create_new_segment d k INODE_SEGMENT
             end) in *.
  assert (H1 : inodes_ok d1).
  { subst d1. destruct (zget (inode_segs d) k); [done|].
    by apply inodes_ok_create_new_segment. }
  clearbody d1.
  destruct (zget (inode_segs d1) k) as [seg|] eqn:Hs; [|by injection H as _ <-].
  destruct (decide _); [|by injection H as _ <-].
  destruct (decide _); [|by eapply IH].
  injection H as _ <-. unfold inodes_ok. cbn [inode_segs].
  apply Forall_zset; [done|]. cbn [inodes]. eapply (Forall_zget _ _ _ _ H1 Hs).
Qed.

Lemma inodes_ok_allocate_inode d id d' :
  inodes_ok d -> allocate_inode d = Some (id, d') -> inodes_ok d'.
Proof. apply inodes_ok_allocate_inode_loop. Qed.

Lemma inodes_ok_add_entry_to_dir d dir n nm child st dir' d' :
  inodes_ok d -> P dir ->
  add_entry_to_dir d dir n nm child = Some (st, dir', d') ->
  inodes_ok d' /\ P dir'.
Proof.
  intros Hok HP H. unfold add_entry_to_dir in H.
  destruct (decide (type dir = INODE_DIR)); [|by simplify_eq].
  destruct (decide _); [|by simplify_eq].
  destruct (fill_free_slot d _ nm child) as [d1|] eqn:Hf.
  { simplify_eq. split; [|done].
    eapply inodes_ok_same_segs; [|done]. by eapply fill_free_slot_inode_segs. }
  destruct (decide (MAX_DIRECT_BLOCKS <= num_direct dir)); [by simplify_eq|].
  destruct (allocate_block d) as [[b d1]|] eqn:Ha; [|done].
  assert (H1 : inodes_ok d1).
  { eapply inodes_ok_same_segs; [|done]. by eapply allocate_block_inode_segs. }
  destruct (decide (b = -1)); [by simplify_eq|].
  destruct (save_directory_entries d1 b _) as [d2|] eqn:Hs.
  - assert (H2 : inodes_ok d2).
    { eapply inodes_ok_same_segs; [|done]. by eapply write_block_inode_segs. }
    simplify_eq. assert (HP' : P (with_direct dir (num_direct dir + 1)
                      (zset (direct_blocks dir) (num_direct dir) b)
                      (size_t (size dir + BLOCK_SIZE)))) by (apply P_grow; [done..|lia]).
    split; [|done]. by apply inodes_ok_write_inode_default.
  - simplify_eq. split; [|done].
    eapply inodes_ok_same_segs; [|done]. apply inode_segs_free_block.
Qed.

Lemma inodes_ok_add_walk parts : forall d n cur,
  inodes_ok d -> P cur ->
  outcome_inv inodes_ok (fun r => inodes_ok (snd r) /\ P (snd (fst r)))
              (add_walk d n cur parts).
Proof.
  induction parts as [|part rest IH]; intros d n cur Hok HP; simpl; [done|].
  destruct (decide (find_entry_in_dir d cur part = -1)).
  - unfold alloc_or_stop. destruct (allocate_inode d) as [[nd d1]|] eqn:Ha; [|done].
    pose proof (inodes_ok_allocate_inode _ _ _ Hok Ha) as H1.
    destruct (decide (nd = -1)); [done|]. cbn [bind].
    destruct (write_inode d1 nd _) as [d2|] eqn:Hw; [|done].
    pose proof (inodes_ok_write_inode _ _ _ _ H1 P_dir Hw) as H2.
    destruct (add_entry_to_dir d2 cur n part nd) as [[[st dir'] d3]|] eqn:He; [|done].
    destruct (inodes_ok_add_entry_to_dir _ _ _ _ _ _ _ _ H2 HP He) as [H3 _].
    destruct (decide (st = 0)); [|done]. by apply IH.
  - destruct (read_inode d _) as [ino|] eqn:Hr; [|done].
    destruct (decide (type ino = INODE_DIR)); [|done].
    apply IH; [done|]. by eapply inodes_ok_read_inode.
Qed.

Lemma inodes_ok_exfs2_add d path local_file :
  inodes_ok d -> outcome_inv inodes_ok inodes_ok (exfs2_add d path local_file).
Proof.
  intros Hok. unfold exfs2_add.
  destruct (split_path path) as [|p ps]; [done|].
  destruct (read_inode d ROOT_DIR_INODE) as [root|] eqn:Hr; [|done].
  eapply outcome_inv_bind.
  { apply inodes_ok_add_walk; [done|]. by eapply inodes_ok_read_inode. }
  intros [[n cur] d1] [H1 HP]. cbn [fst snd] in *.
  destruct (decide _); [|done].
  unfold alloc_or_stop. destruct (allocate_inode d1) as [[fi d2]|] eqn:Ha; [|done].
  pose proof (inodes_ok_allocate_inode _ _ _ H1 Ha) as H2.
  destruct (decide (fi = -1)); [done|]. cbn [bind].
  destruct local_file as [data|]; [|done].
  pose proof (add_blocks_inode_segs (file_chunks data) (initial_locals d2)) as Hs.
  destruct (add_blocks (initial_locals d2) (file_chunks data)) as [l|d3 m| |] eqn:Hl;
    simpl in Hs |- *; try done.
  - assert (H3 : inodes_ok (l_disk l)) by (by eapply inodes_ok_same_segs).
    destruct (add_blocks_inode_fields _ _ _ Hl) as [Ht Htr].
    destruct (write_inode (l_disk l) fi (file_inode l)) as [d3|] eqn:Hw; [|done].
    assert (HPf : P (file_inode l)) by (apply P_file; [by rewrite Ht|by rewrite Htr]).
    pose proof (inodes_ok_write_inode _ _ _ _ H3 HPf Hw) as H4.
    destruct (add_entry_to_dir d3 cur n _ fi) as [[[st dir'] d4]|] eqn:He; [|done].
    destruct (inodes_ok_add_entry_to_dir _ _ _ _ _ _ _ _ H4 HP He) as [H5 _].
    by destruct (decide (st = 0)).
  - by eapply inodes_ok_same_segs.
Qed.

Lemma inodes_ok_init_fs d : inodes_ok d -> inodes_ok (init_fs d).
Proof.
  intros Hok. unfold init_fs. destruct (zget _ 0); [done|].
  by do 2 apply inodes_ok_create_new_segment.
Qed.

Theorem inodes_ok_reachable d : reachable d -> inodes_ok d.
Proof.
  induction 1 as [|d d' Hr IH Hrun].
  - constructor.
  - apply inodes_ok_init_fs in IH. inversion Hrun as [? path lf ? Ha|? fuel path ? Hrm|]; subst.
    + pose proof (inodes_ok_exfs2_add (init_fs d) path lf IH) as H.
      destruct (exfs2_add _ _ _); simpl in *; by simplify_eq.
    + eapply inodes_ok_same_records; [|exact IH]. by eapply records_exfs2_remove.
    + done.
Qed.

End inode_invariant.

(** ** Reachable example disks *)

Definition is_defined {A} (o : outcome A) : bool :=
  match o with
  | Ok _ | Stop _ _ => true
  | Undefined | OutOfFuel => false
  end.

Lemma disk_after_disk_of o : is_defined o = true -> disk_after o = Some (disk_of o).
Proof. by destruct o. Qed.

Lemma reachable_init : reachable (init_fs empty_disk).
Proof. eapply reachable_run; [apply reachable_empty|apply run_read_only]. Qed.

Lemma reachable_fs_with_a : reachable fs_with_a.
Proof.
  eapply reachable_run; [apply reachable_empty|].
  eapply run_add. apply disk_after_disk_of. vm_compute. reflexivity.
Qed.

(** ** Directory size invariant (C5) *)

Definition dir_size_ok (ino : inode_t) : Prop :=
  type ino = INODE_DIR ->
  0 <= num_direct ino <= MAX_DIRECT_BLOCKS /\ size ino = num_direct ino * BLOCK_SIZE.

Lemma dir_size_ok_grow ino b :
  dir_size_ok ino -> type ino = INODE_DIR -> num_direct ino < MAX_DIRECT_BLOCKS ->
  dir_size_ok (with_direct ino (num_direct ino + 1)
                 (zset (direct_blocks ino) (num_direct ino) b)
                 (size_t (size ino + BLOCK_SIZE))).
Proof.
  intros H Ht Hlt _. destruct (H Ht) as [Hn Hs]. cbn [with_direct num_direct size].
  unfold MAX_DIRECT_BLOCKS, BLOCK_SIZE, size_t in *. split; [lia|].
  rewrite Hs, Z.mod_small; lia.
Qed.

(** C5.  On every disk a sequence of commands produces from an empty
    directory, every inode record of type directory -- created by
    [create_new_segment], by [exfs2_add], or grown by [add_entry_to_dir] --
    has [size == num_direct * 4096]. *)
Theorem dir_size_invariant d n ino :
  reachable d ->
  read_inode d n = Some ino ->
  type ino = INODE_DIR ->
  size ino = num_direct ino * BLOCK_SIZE.
Proof.
  intros Hr Hread Ht.
  assert (Hok : inodes_ok dir_size_ok d).
  { apply inodes_ok_reachable; try done.
    - intros ino' b. apply dir_size_ok_grow.
    - intros ino' Hf _ Hd. rewrite Hf in Hd. done. }
  by destruct (inodes_ok_read_inode _ _ _ _ Hok Hread Ht).
Qed.

Lemma dir_size_invariant_witness :
  size (root_of fs_with_a) = num_direct (root_of fs_with_a) * BLOCK_SIZE.
Proof.
  apply (dir_size_invariant fs_with_a ROOT_DIR_INODE (root_of fs_with_a)).
  - apply reachable_fs_with_a.
  - vm_compute. reflexivity.
  - vm_compute. reflexivity.
Defined.

(** The root of [fs_with_a] holds one block of entries. *)
Example root_with_a_size :
  (num_direct (root_of fs_with_a), size (root_of fs_with_a)) = (1, 4096).
Proof. vm_compute. reflexivity. Qed.

(** ** No triple indirect block is ever written *)

(** The read loop of [exfs2_add] has no branch for the triple indirect
    range: whatever the number of blocks, the file inode it builds keeps
    [triple_indirect_block = -1]. *)
Lemma add_blocks_no_triple d chunks l :
  add_blocks (initial_locals d) chunks = Ok l ->
  triple_indirect_block (file_inode l) = -1.
Proof. intros H. by destruct (add_blocks_inode_fields _ _ _ H) as [_ ->]. Qed.

(** No file inode of a reachable disk has a triple indirect block:
    [exfs2_add] is the only writer of file inodes and it never assigns the
    field after the initial -1. *)
Theorem reachable_no_triple d n ino :
  reachable d ->
  read_inode d n = Some ino ->
  type ino = INODE_FILE ->
  triple_indirect_block ino = -1.
Proof.
  intros Hr Hread Ht.
  assert (Hok : inodes_ok (fun i => type i = INODE_FILE -> triple_indirect_block i = -1) d).
  { apply inodes_ok_reachable; try done. }
  by apply (inodes_ok_read_inode _ _ _ _ Hok Hread).
Qed.

Definition file_a : inode_t := default zero_inode (read_inode fs_with_a 1).

Lemma reachable_no_triple_witness : triple_indirect_block file_a = -1.
Proof.
  apply (reachable_no_triple fs_with_a 1 file_a).
  - apply reachable_fs_with_a.
  - vm_compute. reflexivity.
  - vm_compute. reflexivity.
Defined.

(** ** Well-formedness is preserved *)

Lemma zero_bytes_length n : 0 <= n -> Z.of_nat (length (zero_bytes n)) = n.
Proof. intros H. unfold zero_bytes. rewrite repeat_length. lia. Qed.

Lemma fixed_length n l : 0 <= n -> Z.of_nat (length (fixed n l)) = n.
Proof.
  intros H. unfold fixed. rewrite length_take, length_app.
  pose proof (zero_bytes_length n H). lia.
Qed.

Lemma ints_of_bytes_length n : forall l,
  length l = (4 * n)%nat -> length (ints_of_bytes l) = n.
Proof.
  induction n as [|n IH]; intros l Hl.
  - by destruct l.
  - destruct l as [|b0 [|b1 [|b2 [|b3 rest]]]]; simpl in Hl; try lia.
    simpl. f_equal. apply IH. lia.
Qed.

Lemma bytes_of_ints_length l : length (bytes_of_ints l) = (4 * length l)%nat.
Proof.
  unfold bytes_of_ints. induction l as [|x l IH]; [done|].
  cbn [flat_map]. rewrite length_app, IH, encode_int_length. simpl. lia.
Qed.

Lemma zero_ints_length : length zero_ints = 1024%nat.
Proof. reflexivity. Qed.

Lemma read_block_length d id b :
  wf_disk d -> read_block d id = Some b -> Z.of_nat (length b) = BLOCK_SIZE.
Proof.
  intros Hwf H. unfold read_block in H.
  destruct (zget (data_segs d) _) as [seg|] eqn:Hs; [|done].
  pose proof (Forall_zget _ _ _ _ (wf_dblocks _ Hwf) Hs) as Hb.
  apply (Forall_zget _ _ _ _ Hb H).
Qed.

Lemma read_ints_length d id a :
  wf_disk d -> length a = 1024%nat -> length (read_ints d id a) = 1024%nat.
Proof.
  intros Hwf Ha. unfold read_ints. destruct (read_block d id) as [b|] eqn:E; [|done].
  apply ints_of_bytes_length. apply (read_block_length _ _ _ Hwf) in E.
  unfold BLOCK_SIZE in E. lia.
Qed.

Lemma wf_write_ints d id a :
  wf_disk d -> length a = 1024%nat -> wf_disk (write_ints d id a).
Proof.
  intros Hwf Ha. unfold write_ints.
  destruct (write_block d id _) as [d'|] eqn:E; simpl; [|done].
  eapply write_block_wf; [done| |done]. rewrite bytes_of_ints_length, Ha. reflexivity.
Qed.

Lemma wf_save_directory_entries d id es d' :
  wf_disk d -> save_directory_entries d id es = Some d' -> wf_disk d'.
Proof.
  intros Hwf H. eapply write_block_wf; [exact H| |done]. by apply fixed_length.
Qed.

Lemma wf_create_new_segment d k ty : wf_disk d -> wf_disk (create_new_segment d k ty).
Proof.
  intros [Hi Hd Hb]. unfold create_new_segment.
  destruct (decide (ty = INODE_SEGMENT)).
  - assert (H1 : wf_disk (mk_disk (put_segment (inode_segs d) k zero_inode_segment)
                                  (data_segs d))).
    { split; [|done..]. cbn [inode_segs]. unfold put_segment. destruct (decide _).
      - apply Forall_zset; [done|]. apply wf_zero_inode_segment.
      - apply Forall_app. split; [done|]. repeat constructor; apply wf_zero_inode_segment. }
    destruct (decide (k = 0)); [|done].
    destruct (zget _ 0) as [seg|] eqn:Hs; [|done].
    assert (H2 : wf_disk (mk_disk
               (zset (put_segment (inode_segs d) k zero_inode_segment) 0
                     (mk_iseg (set_bit (zero_bytes BLOCK_SIZE) ROOT_DIR_INODE) (inodes seg)))
               (data_segs d))).
    { destruct H1 as [Hi1 Hd1 Hb1]. split; [|done..]. cbn [inode_segs] in *.
      apply Forall_zset; [done|]. destruct (Forall_zget _ _ _ _ Hi1 Hs) as [_ Hl].
      split; [reflexivity|done]. }
    destruct (write_inode _ ROOT_DIR_INODE _) as [d3|] eqn:Hw; simpl; [|done].
    by eapply write_inode_wf.
  - split; [done| |]; cbn [data_segs]; unfold put_segment; destruct (decide _).
    + apply Forall_zset; [done|]. apply wf_zero_data_segment.
    + apply Forall_app. split; [done|]. repeat constructor; apply wf_zero_data_segment.
    + apply Forall_zset; [done|]. apply wf_blocks_zero_data_segment.
    + apply Forall_app. split; [done|].
      constructor; [apply wf_blocks_zero_data_segment|constructor].
Qed.

Lemma wf_allocate_inode_loop fuel : forall d k id d',
  wf_disk d -> allocate_inode_loop fuel d k = Some (id, d') -> wf_disk d'.
Proof.
  induction fuel as [|fuel IH]; intros d k id d' Hwf H; [done|].
  rewrite allocate_inode_loop_S in H. cbv zeta in H.
  set (d1 := match zget (inode_segs d) k with
             | Some _ => d
             | None => create_new_segment d k INODE_SEGMENT
             end) in *.
  assert (H1 : wf_disk d1).
  { subst d1. destruct (zget (inode_segs d) k); [done|]. by apply wf_create_new_segment. }
  clearbody d1.
  destruct (zget (inode_segs d1) k) as [seg|] eqn:Hs; [|by injection H as _ <-].
  destruct (decide _); [|by injection H as _ <-].
  destruct (decide _); [|by eapply IH].
  injection H as _ <-. apply (wf_with_ibitmap d1 k seg); [done..|]. apply set_bit_length.
Qed.

Lemma wf_allocate_inode d id d' : wf_disk d -> allocate_inode d = Some (id, d') -> wf_disk d'.
Proof. apply wf_allocate_inode_loop. Qed.

Lemma wf_allocate_block_loop fuel : forall d k id d',
  wf_disk d -> allocate_block_loop fuel d k = Some (id, d') -> wf_disk d'.
Proof.
  induction fuel as [|fuel IH]; intros d k id d' Hwf H; [done|].
  rewrite allocate_block_loop_S in H. cbv zeta in H.
  set (d1 := match zget (data_segs d) k with
             | Some _ => d
             | None => create_new_segment d k DATA_SEGMENT
             end) in *.
  assert (H1 : wf_disk d1).
  { subst d1. destruct (zget (data_segs d) k); [done|]. by apply wf_create_new_segment. }
  clearbody d1.
  destruct (zget (data_segs d1) k) as [seg|] eqn:Hs; [|by injection H as _ <-].
  destruct (decide _); [|by injection H as _ <-].
  destruct (decide _); [|by eapply IH].
  injection H as _ <-. apply (wf_with_dbitmap d1 k seg); [done..|]. apply set_bit_length.
Qed.

Lemma wf_allocate_block d id d' : wf_disk d -> allocate_block d = Some (id, d') -> wf_disk d'.
Proof. apply wf_allocate_block_loop. Qed.

Lemma wf_write_inode_default d n ino : wf_disk d -> wf_disk (default d (write_inode d n ino)).
Proof.
  intros Hwf. destruct (write_inode d n ino) as [d'|] eqn:E; simpl; [|done].
  by eapply write_inode_wf.
Qed.

Lemma wf_fill_free_slot blks nm child : forall d d',
  wf_disk d -> fill_free_slot d blks nm child = Some d' -> wf_disk d'.
Proof.
  induction blks as [|b rest IH]; intros d d' Hwf H; simpl in H; [done|].
  destruct (load_directory_entries d b) as [entries|]; [|by eapply IH].
  destruct (first_free_slot entries 0) as [j|]; [|by eapply IH].
  injection H as <-.
  destruct (save_directory_entries d b _) as [d1|] eqn:E; simpl; [|done].
  by eapply wf_save_directory_entries.
Qed.

Lemma wf_add_entry_to_dir d dir n nm child st dir' d' :
  wf_disk d -> add_entry_to_dir d dir n nm child = Some (st, dir', d') -> wf_disk d'.
Proof.
  intros Hwf H. unfold add_entry_to_dir in H.
  destruct (decide (type dir = INODE_DIR)); [|by simplify_eq].
  destruct (decide _); [|by simplify_eq].
  destruct (fill_free_slot d _ nm child) as [d1|] eqn:Hf.
  { simplify_eq. by eapply wf_fill_free_slot. }
  destruct (decide _); [by simplify_eq|].
  destruct (allocate_block d) as [[b d1]|] eqn:Ha; [|done].
  pose proof (wf_allocate_block _ _ _ Hwf Ha) as H1.
  destruct (decide (b = -1)); [by simplify_eq|].
  destruct (save_directory_entries d1 b _) as [d2|] eqn:Hs.
  - simplify_eq. apply wf_write_inode_default. by eapply wf_save_directory_entries.
  - simplify_eq. by apply wf_free_block.
Qed.

Lemma wf_add_walk parts : forall d n cur,
  wf_disk d -> outcome_inv wf_disk (fun r => wf_disk (snd r)) (add_walk d n cur parts).
Proof.
  induction parts as [|part rest IH]; intros d n cur Hwf; simpl; [done|].
  destruct (decide (find_entry_in_dir d cur part = -1)).
  - unfold alloc_or_stop. destruct (allocate_inode d) as [[nd d1]|] eqn:Ha; [|done].
    pose proof (wf_allocate_inode _ _ _ Hwf Ha) as H1.
    destruct (decide (nd = -1)); [done|]. cbn [bind].
    destruct (write_inode d1 nd _) as [d2|] eqn:Hw; [|done].
    pose proof (write_inode_wf _ _ _ _ Hw H1) as H2.
    destruct (add_entry_to_dir d2 cur n part nd) as [[[st dir'] d3]|] eqn:He; [|done].
    pose proof (wf_add_entry_to_dir _ _ _ _ _ _ _ _ H2 He) as H3.
    destruct (decide (st = 0)); [|done]. by apply IH.
  - destruct (read_inode d _) as [ino|] eqn:Hr; [|done].
    destruct (decide (type ino = INODE_DIR)); [|done]. by apply IH.
Qed.

(** The disk and the two array mirrors of the read loop. *)
Definition locals_wf (l : add_locals) : Prop :=
  wf_disk (l_disk l) /\
  length (indirect_buf l) = 1024%nat /\
  length (double_indirect_buf l) = 1024%nat.

Lemma data_buffer_length chunk :
  Z.of_nat (length chunk) <= BLOCK_SIZE ->
  Z.of_nat (length (chunk ++ zero_bytes (BLOCK_SIZE - Z.of_nat (length chunk)))) = BLOCK_SIZE.
Proof. intros H. rewrite length_app, Nat2Z.inj_add, zero_bytes_length; lia. Qed.

Lemma ints_of_block_length d id b :
  wf_disk d -> read_block d id = Some b -> length (ints_of_bytes b) = 1024%nat.
Proof.
  intros Hwf E. apply ints_of_bytes_length. apply (read_block_length _ _ _ Hwf) in E.
  unfold BLOCK_SIZE in E. lia.
Qed.

(** Backward search for the well-formedness of a disk built by the loop. *)
Ltac wf_solve :=
  repeat first
    [ assumption
    | apply zero_ints_length
    | apply wf_write_ints
    | apply read_ints_length
    | rewrite zset_length
    | eapply wf_allocate_block; [|eassumption]
    | eapply write_block_wf; [eassumption|by apply data_buffer_length|]
    | eapply ints_of_block_length; [|eassumption] ].

Lemma wf_add_block l chunk :
  locals_wf l -> Z.of_nat (length chunk) <= BLOCK_SIZE ->
  outcome_inv wf_disk locals_wf (add_block l chunk).
Proof.
  intros (Hwf & Hi & Hd) Hc.
  destruct (add_block l chunk) as [l'|d m| |] eqn:H; simpl; try done.
  - unfold add_block, place_direct, place_indirect, place_double,
      alloc_or_stop, arr_write, arr_read in H.
    outcome_cases H; injection H as <-; simplify_eq;
      unfold locals_wf; cbn [l_disk indirect_buf double_indirect_buf];
      repeat split; wf_solve.
  - unfold add_block, place_direct, place_indirect, place_double,
      alloc_or_stop, arr_write, arr_read in H.
    outcome_cases H; injection H as <- _; simplify_eq; wf_solve.
Qed.

Lemma fread_all_length fuel : forall data,
  Forall (fun c => Z.of_nat (length c) <= BLOCK_SIZE) (fread_all fuel data).
Proof.
  induction fuel as [|fuel IH]; intros data; simpl; [constructor|].
  destruct data as [|b data']; [constructor|]. constructor; [|apply IH].
  rewrite length_take. unfold BLOCK_SIZE. lia.
Qed.

Lemma wf_add_blocks chunks : forall l,
  locals_wf l -> Forall (fun c => Z.of_nat (length c) <= BLOCK_SIZE) chunks ->
  outcome_inv wf_disk locals_wf (add_blocks l chunks).
Proof.
  induction chunks as [|c rest IH]; intros l Hl Hc; simpl; [done|].
  inversion Hc as [|? ? Hc1 Hc2]; subst. eapply outcome_inv_bind.
  - by apply wf_add_block.
  - intros l1 Hl1. by apply IH.
Qed.

Lemma wf_exfs2_add d path local_file :
  wf_disk d -> outcome_inv wf_disk wf_disk (exfs2_add d path local_file).
Proof.
  intros Hwf. unfold exfs2_add.
  destruct (split_path path) as [|p ps]; [done|].
  destruct (read_inode d ROOT_DIR_INODE) as [root|] eqn:Hr; [|done].
  eapply outcome_inv_bind; [by apply wf_add_walk|].
  intros [[n cur] d1] H1. cbn [fst snd] in *.
  destruct (decide _); [|done].
  unfold alloc_or_stop. destruct (allocate_inode d1) as [[fi d2]|] eqn:Ha; [|done].
  pose proof (wf_allocate_inode _ _ _ H1 Ha) as H2.
  destruct (decide (fi = -1)); [done|]. cbn [bind].
  destruct local_file as [data|]; [|done].
  eapply outcome_inv_bind.
  { apply wf_add_blocks; [|apply fread_all_length].
    unfold locals_wf, initial_locals. cbn [l_disk indirect_buf double_indirect_buf].
    split; [done|split; reflexivity]. }
  intros l (H3 & _ & _).
  destruct (write_inode (l_disk l) fi (file_inode l)) as [d3|] eqn:Hw; [|done].
  pose proof (write_inode_wf _ _ _ _ Hw H3) as H4.
  destruct (add_entry_to_dir d3 cur n _ fi) as [[[st dir'] d4]|] eqn:He; [|done].
  pose proof (wf_add_entry_to_dir _ _ _ _ _ _ _ _ H4 He) as H5.
  by destruct (decide (st = 0)).
Qed.

Lemma wf_unlink_entry blks target : forall d,
  wf_disk d -> wf_disk (unlink_entry d blks target).
Proof.
  induction blks as [|b rest IH]; intros d Hwf; simpl; [done|].
  destruct (load_directory_entries d b) as [entries|]; [|by apply IH].
  destruct (clear_first entries target) as [entries'|]; [|by apply IH].
  destruct (save_directory_entries d b _) as [d1|] eqn:Hw; simpl; [|by apply IH].
  apply IH. by eapply wf_save_directory_entries.
Qed.

Lemma wf_remove_file d n inode : wf_disk d -> wf_disk (remove_file d n inode).
Proof. intros H. rewrite remove_file_eq. by apply wf_free_inode, wf_free_blocks. Qed.

Lemma wf_remove_entries (rec : disk -> Z -> option disk) entries :
  (forall d n d', wf_disk d -> rec d n = Some d' -> wf_disk d') ->
  forall d d', wf_disk d -> remove_entries rec d entries = Some d' -> wf_disk d'.
Proof.
  intros Hrec. induction entries as [|e rest IH]; intros d d' Hwf H; simpl in H.
  - by injection H as <-.
  - destruct (decide (inode_num e = -1)); [by eapply IH|].
    destruct (rec d (inode_num e)) as [d1|] eqn:E; [|done].
    eapply IH; [|done]. by eapply Hrec.
Qed.

Lemma wf_remove_dir_blocks (rec : disk -> Z -> option disk) blks :
  (forall d n d', wf_disk d -> rec d n = Some d' -> wf_disk d') ->
  forall d d', wf_disk d -> remove_dir_blocks rec d blks = Some d' -> wf_disk d'.
Proof.
  intros Hrec. induction blks as [|b rest IH]; intros d d' Hwf H; simpl in H.
  - by injection H as <-.
  - destruct (load_directory_entries d b) as [entries|]; [|by eapply IH].
    destruct (remove_entries rec d entries) as [d1|] eqn:E; [|done].
    eapply IH; [|done]. apply wf_free_block. by eapply wf_remove_entries.
Qed.

Lemma wf_remove_recursive fuel : forall d n d',
  wf_disk d -> exfs2_remove_recursive fuel d n = Some d' -> wf_disk d'.
Proof.
  induction fuel as [|fuel IH]; intros d n d' Hwf H; [done|]. simpl in H.
  destruct (read_inode d n) as [inode|]; [|by injection H as <-].
  destruct (decide (type inode = INODE_FILE)).
  { injection H as <-. by apply wf_remove_file. }
  destruct (decide (type inode = INODE_DIR)); [|by injection H as <-].
  destruct (remove_dir_blocks _ d _) as [d1|] eqn:E; [|done].
  injection H as <-. apply wf_free_inode.
  eapply wf_remove_dir_blocks; [|done|done]. exact IH.
Qed.

Lemma walk_path_stop d : forall parts n cur d' m,
  walk_path d n cur parts = Stop d' m -> d' = d.
Proof.
  induction parts as [|p ps IH]; intros n cur d' m H; simpl in H; [done|].
  destruct (decide _); [by injection H as <-|].
  destruct (read_inode d _); [|by injection H as <-]. by eapply IH.
Qed.

Lemma wf_exfs2_remove fuel d path :
  wf_disk d -> outcome_inv wf_disk wf_disk (exfs2_remove fuel d path).
Proof.
  intros Hwf. unfold exfs2_remove.
  destruct (split_path path); [done|].
  destruct (read_inode d ROOT_DIR_INODE) as [root|]; [|done].
  destruct (walk_path d ROOT_DIR_INODE root _) as [[n cur]|d1 m| |] eqn:Hw; simpl; try done.
  - destruct (decide _); [done|].
    destruct (exfs2_remove_recursive fuel d _) as [d1|] eqn:E; [|done].
    simpl. apply wf_unlink_entry. by eapply wf_remove_recursive.
  - by rewrite (walk_path_stop _ _ _ _ _ _ Hw).
Qed.

Lemma wf_init_fs d : wf_disk d -> wf_disk (init_fs d).
Proof.
  intros Hwf. unfold init_fs. destruct (zget _ 0); [done|].
  by do 2 apply wf_create_new_segment.
Qed.

(** Every reachable disk is well formed. *)
Theorem wf_reachable d : reachable d -> wf_disk d.
Proof.
  induction 1 as [|d d' Hr IH Hrun].
  - apply wf_empty_disk.
  - apply wf_init_fs in IH. inversion Hrun as [? path lf ? Ha|? fuel path ? Hrm|]; subst.
    + pose proof (wf_exfs2_add (init_fs d) path lf IH) as H.
      destruct (exfs2_add _ _ _); simpl in *; by simplify_eq.
    + pose proof (wf_exfs2_remove fuel (init_fs d) path IH) as H.
      destruct (exfs2_remove _ _ _); simpl in *; by simplify_eq.
    + done.
Qed.

Lemma wf_fs_with_a : wf_disk fs_with_a.
Proof. apply wf_reachable, reachable_fs_with_a. Qed.

(** ** Typed views of a block: decoding what was encoded *)

Definition int_range (z : Z) : Prop := - 2 ^ 31 <= z < 2 ^ 31.

Definition entry_wf (e : dir_entry_t) : Prop :=
  length (name e) = 256%nat /\ int_range (inode_num e).

Lemma decode_int_range b0 b1 b2 b3 : int_range (decode_int b0 b1 b2 b3).
Proof. apply int32_range. Qed.

Lemma ints_of_bytes_of_ints l :
  Forall int_range l -> ints_of_bytes (bytes_of_ints l) = l.
Proof.
  induction 1 as [|x l Hx Hl IH]; [done|].
  unfold bytes_of_ints in *. cbn [flat_map]. unfold encode_int at 1.
  cbn [app ints_of_bytes]. rewrite IH. f_equal. by apply decode_encode_int.
Qed.

Lemma take_repeat {A} (x : A) n m : (n <= m)%nat -> take n (repeat x m) = repeat x n.
Proof.
  revert m. induction n as [|n IH]; intros m H; [done|].
  destruct m as [|m]; [lia|]. simpl. f_equal. apply IH. lia.
Qed.

Lemma fixed_short n l :
  Z.of_nat (length l) <= n -> fixed n l = l ++ zero_bytes (n - Z.of_nat (length l)).
Proof.
  intros H. unfold fixed, zero_bytes. rewrite take_app, take_ge by lia.
  f_equal. replace (Z.to_nat (n - Z.of_nat (length l))) with (Z.to_nat n - length l)%nat by lia.
  apply take_repeat. lia.
Qed.

Lemma fixed_exact n l : Z.of_nat (length l) = n -> fixed n l = l.
Proof.
  intros H. rewrite fixed_short by lia. rewrite H, Z.sub_diag. apply app_nil_r.
Qed.

Lemma encode_entry_length e : length (encode_entry e) = 260%nat.
Proof.
  unfold encode_entry. rewrite length_app, encode_int_length.
  pose proof (fixed_length MAX_FILENAME (name e) ltac:(done)) as H.
  unfold MAX_FILENAME in *. lia.
Qed.

Lemma decode_encode_entry e rest :
  entry_wf e -> decode_entry (encode_entry e ++ rest) = e.
Proof.
  intros [Hn Hi]. destruct e as [nm num]. cbn [name inode_num] in *.
  unfold decode_entry, encode_entry. cbn [name inode_num].
  rewrite fixed_exact by (unfold MAX_FILENAME; lia).
  change (Z.to_nat MAX_FILENAME) with 256%nat. rewrite <- Hn.
  rewrite <- !app_assoc. rewrite take_app_length, drop_app_length.
  unfold encode_int. cbn [app]. f_equal. by apply decode_encode_int.
Qed.

Lemma entries_of_bytes_of_entries es rest :
  Forall entry_wf es ->
  entries_of_bytes (length es) (bytes_of_entries es ++ rest) = es.
Proof.
  induction 1 as [|e es He Hes IH]; [done|].
  unfold bytes_of_entries in *. cbn [flat_map length entries_of_bytes].
  rewrite <- app_assoc. rewrite decode_encode_entry by done. f_equal.
  change (Z.to_nat sizeof_dir_entry_t) with 260%nat.
  rewrite <- (encode_entry_length e), drop_app_length. apply IH.
Qed.

Lemma bytes_of_entries_length es : length (bytes_of_entries es) = (260 * length es)%nat.
Proof.
  unfold bytes_of_entries. induction es as [|e es IH]; [done|].
  cbn [flat_map]. rewrite length_app, IH, encode_entry_length. simpl. lia.
Qed.

(** What [load_directory_entries] reads back after [save_directory_entries]. *)
Lemma entries_of_saved es :
  length es = 15%nat -> Forall entry_wf es ->
  entries_of_bytes (Z.to_nat DIR_ENTRIES_PER_BLOCK) (fixed BLOCK_SIZE (bytes_of_entries es)) = es.
Proof.
  intros Hl Hwf. rewrite fixed_short.
  - change (Z.to_nat DIR_ENTRIES_PER_BLOCK) with 15%nat. rewrite <- Hl.
    by apply entries_of_bytes_of_entries.
  - rewrite bytes_of_entries_length, Hl. unfold BLOCK_SIZE. lia.
Qed.

Lemma entries_of_bytes_wf n : forall l,
  (260 * n <= length l)%nat ->
  length (entries_of_bytes n l) = n /\ Forall entry_wf (entries_of_bytes n l).
Proof.
  induction n as [|n IH]; intros l Hl; [by split|].
  cbn [entries_of_bytes]. change (Z.to_nat sizeof_dir_entry_t) with 260%nat.
  destruct (IH (drop 260 l)) as [H1 H2]; [rewrite length_drop; lia|].
  split; [simpl; lia|]. constructor; [|done].
  unfold decode_entry, entry_wf. cbn [name inode_num].
  change (Z.to_nat MAX_FILENAME) with 256%nat. split.
  - rewrite length_take. lia.
  - destruct (drop 256 l) as [|b0 [|b1 [|b2 [|b3 ?]]]];
      try apply decode_int_range; unfold int_range; lia.
Qed.

Lemma load_directory_entries_wf d b es :
  wf_disk d -> load_directory_entries d b = Some es ->
  length es = 15%nat /\ Forall entry_wf es.
Proof.
  intros Hwf H. unfold load_directory_entries in H.
  destruct (read_block d b) as [buf|] eqn:E; [|done].
  assert (es = entries_of_bytes (Z.to_nat DIR_ENTRIES_PER_BLOCK) buf) as -> by congruence.
  apply (read_block_length _ _ _ Hwf) in E. unfold BLOCK_SIZE in E.
  apply (entries_of_bytes_wf 15). lia.
Qed.

Lemma load_after_save d b es d' :
  wf_disk d -> 0 <= b ->
  length es = 15%nat -> Forall entry_wf es ->
  save_directory_entries d b es = Some d' ->
  load_directory_entries d' b = Some es.
Proof.
  intros Hwf Hb Hl He Hs. unfold load_directory_entries.
  unfold save_directory_entries in Hs.
  rewrite (read_block_write_block _ _ _ _ Hs b Hwf Hb Hb), decide_True by done.
  by rewrite entries_of_saved.
Qed.

Lemma load_other_after_save d b es d' x :
  wf_disk d -> 0 <= b -> 0 <= x -> x <> b ->
  save_directory_entries d b es = Some d' ->
  load_directory_entries d' x = load_directory_entries d x.
Proof.
  intros Hwf Hb Hx Hne Hs. unfold load_directory_entries.
  unfold save_directory_entries in Hs.
  rewrite (read_block_write_block _ _ _ _ Hs x Hwf Hb Hx), decide_False by done. done.
Qed.

(** The same for an array of ids. *)
Lemma load_ints_write_ints d id a :
  wf_disk d -> valid_block d id ->
  length a = 1024%nat -> Forall int_range a ->
  load_ints (write_ints d id a) id = Some a.
Proof.
  intros Hwf Hv Hl Ha. unfold load_ints, write_ints.
  destruct (write_block_valid d id (bytes_of_ints a) Hv) as [d' Hw]. rewrite Hw. simpl.
  destruct Hv as [Hid _].
  rewrite (read_block_write_block _ _ _ _ Hw id Hwf Hid Hid), decide_True by done.
  rewrite ints_of_bytes_of_ints by done.
  change (Z.to_nat PTRS_PER_BLOCK) with 1024%nat. rewrite <- Hl. by rewrite firstn_all.
Qed.

Lemma read_block_write_ints d id a x :
  wf_disk d -> 0 <= id -> 0 <= x -> x <> id ->
  read_block (write_ints d id a) x = read_block d x.
Proof.
  intros Hwf Hid Hx Hne. unfold write_ints.
  destruct (write_block d id _) as [d'|] eqn:Hw; simpl; [|done].
  rewrite (read_block_write_block _ _ _ _ Hw x Hwf Hid Hx), decide_False by done. done.
Qed.

Lemma block_bit_write_ints d id a x : block_bit (write_ints d id a) x = block_bit d x.
Proof.
  unfold write_ints. destruct (write_block d id _) as [d'|] eqn:Hw; simpl; [|done].
  by eapply write_block_bit.
Qed.

Lemma length_data_segs_write_ints d id a :
  length (data_segs (write_ints d id a)) = length (data_segs d).
Proof.
  unfold write_ints. destruct (write_block d id _) as [d'|] eqn:Hw; simpl; [|done].
  by eapply write_block_length.
Qed.

(** ** Blocks allocated during one command *)

(** [d] was obtained from [d0] by allocating the blocks [S] and writing
    only to them: they are distinct, were free in [d0], are allocated in
    [d]; every other bit and every other block is as in [d0]. *)
Record actx (d0 d : disk) (S : list Z) : Prop := mk_actx {
  ac_wf : wf_disk d;
  ac_nodup : NoDup S;
  ac_valid : forall x, x ∈ S -> valid_block d x;
  ac_fresh : forall x, x ∈ S -> block_bit d0 x = false;
  ac_set : forall x, x ∈ S -> block_bit d x = true;
  ac_bits : forall x, 0 <= x -> x ∉ S -> block_bit d x = block_bit d0 x;
  ac_read : forall x b, 0 <= x -> x ∉ S -> read_block d0 x = Some b -> read_block d x = Some b;
  ac_inodes : inode_segs d = inode_segs d0;
  ac_len : (length (data_segs d0) <= length (data_segs d))%nat /\
           (length (data_segs d) <= length (data_segs d0) + length S)%nat
}.

Lemma actx_init d0 : wf_disk d0 -> actx d0 d0 [].
Proof.
  intros Hwf. split; try done.
  - constructor.
  - intros x Hx. by apply elem_of_nil in Hx.
  - intros x Hx. by apply elem_of_nil in Hx.
  - intros x Hx. by apply elem_of_nil in Hx.
  - simpl. lia.
Qed.

Lemma valid_block_mono d d' x :
  (length (data_segs d) <= length (data_segs d'))%nat -> valid_block d x -> valid_block d' x.
Proof. unfold valid_block. rewrite blocks_per_segment_eq. lia. Qed.

Lemma valid_block_int_range d x :
  Z.of_nat (length (data_segs d)) <= MAX_SEGMENTS + 1 -> valid_block d x -> int_range x.
Proof.
  unfold valid_block, int_range, MAX_SEGMENTS. rewrite blocks_per_segment_eq. lia.
Qed.

(** One more block. *)
Lemma actx_alloc d0 d S :
  actx d0 d S ->
  Z.of_nat (length (data_segs d0) + length S) <= MAX_SEGMENTS ->
  exists id d',
    allocate_block d = Some (id, d') /\
    id <> -1 /\ 0 <= id /\ (id ∉ S) /\
    block_bit d id = false /\
    (forall x, 0 <= x < id -> block_bit d x = true) /\
    (forall x b, read_block d x = Some b -> read_block d' x = Some b) /\
    actx d0 d' (id :: S).
Proof.
  intros [Hwf Hnd Hv Hf Hs Hb Hr Hi Hl] Hmax.
  destruct (allocate_block_ok d Hwf ltac:(lia)) as (id & d' & Ha & Hp).
  destruct Hp as [Pid Pv Pf P1 Pb Pi Pr Pwf Pl].
  exists id, d'. split; [done|].
  assert (Hnin : id ∉ S).
  { intros Hin. apply Hs in Hin. congruence. }
  do 6 (split; [first [done|lia]|]).
  split; try done.
  - constructor; done.
  - intros x [->|Hx]%elem_of_cons; [done|].
    eapply valid_block_mono; [|by apply Hv]. lia.
  - intros x [->|Hx]%elem_of_cons; [|by apply Hf].
    rewrite <- Hb by (try lia; done). done.
  - intros x [->|Hx]%elem_of_cons.
    + rewrite Pb by lia. by rewrite decide_True.
    + destruct (Hv x Hx) as [Hx0 _]. rewrite Pb by done.
      destruct (decide (x = id)); [done|]. by apply Hs.
  - intros x Hx Hnx. apply not_elem_of_cons in Hnx as [Hne Hnx].
    rewrite Pb, decide_False by done. by apply Hb.
  - intros x b Hx Hnx Hrd. apply not_elem_of_cons in Hnx as [Hne Hnx].
    apply Pr. by apply Hr.
  - congruence.
  - simpl. lia.
Qed.

(** A write to one of the blocks. *)
Lemma actx_write d0 d S id buf :
  actx d0 d S -> id ∈ S -> Z.of_nat (length buf) = BLOCK_SIZE ->
  exists d',
    write_block d id buf = Some d' /\
    read_block d' id = Some buf /\
    (forall x, 0 <= x -> x <> id -> read_block d' x = read_block d x) /\
    actx d0 d' S.
Proof.
  intros [Hwf Hnd Hv Hf Hs Hb Hr Hi Hl] Hin Hbuf.
  destruct (write_block_valid d id buf (Hv id Hin)) as [d' Hw].
  destruct (Hv id Hin) as [Hid _].
  exists d'. split; [done|].
  pose proof (read_block_write_block _ _ _ _ Hw) as Hrw.
  split; [|split].
  - rewrite Hrw, decide_True by done. done.
  - intros x Hx Hne. rewrite Hrw, decide_False by done. done.
  - split; try done.
    + by eapply write_block_wf.
    + intros x Hx. apply (write_block_valid_iff _ _ _ _ Hw). by apply Hv.
    + intros x Hx. rewrite (write_block_bit _ _ _ _ Hw). by apply Hs.
    + intros x Hx Hnx. rewrite (write_block_bit _ _ _ _ Hw). by apply Hb.
    + intros x b Hx Hnx Hrd. rewrite Hrw, decide_False by (try done; by intros ->).
      by apply Hr.
    + rewrite (write_block_inode_segs _ _ _ _ Hw). done.
    + rewrite (write_block_length _ _ _ _ Hw). done.
Qed.

(** A write of an array of ids to one of the blocks. *)
Lemma actx_write_ints d0 d S id a :
  actx d0 d S -> id ∈ S -> length a = 1024%nat -> Forall int_range a ->
  load_ints (write_ints d id a) id = Some a /\
  (forall x, 0 <= x -> x <> id -> read_block (write_ints d id a) x = read_block d x) /\
  actx d0 (write_ints d id a) S.
Proof.
  intros Hctx Hin Hl Ha.
  assert (Hbuf : Z.of_nat (length (bytes_of_ints a)) = BLOCK_SIZE).
  { rewrite bytes_of_ints_length, Hl. reflexivity. }
  destruct (actx_write _ _ _ _ _ Hctx Hin Hbuf) as (d' & Hw & Hrd & Hfr & Hctx').
  split; [|split].
  - apply load_ints_write_ints; try done; [apply Hctx|by apply (ac_valid _ _ _ Hctx)].
  - unfold write_ints. rewrite Hw. exact Hfr.
  - unfold write_ints. rewrite Hw. exact Hctx'.
Qed.

Lemma load_ints_frame d d' x :
  read_block d' x = read_block d x -> load_ints d' x = load_ints d x.
Proof. unfold load_ints. by intros ->. Qed.

(** ** Directory layer: lookups *)

(** The entries of a directory block; none if it cannot be read. *)
Definition block_entries (d : disk) (b : Z) : list dir_entry_t :=
  default [] (load_directory_entries d b).

(** No entry of the block is free. *)
Definition full_block (d : disk) (b : Z) : Prop :=
  first_free_slot (block_entries d b) 0 = None.

Definition new_entry (nm : list byte) (child : Z) : dir_entry_t :=
  mk_entry (strncpy_name nm) child.

Lemma first_free_slot_None es : forall j0,
  first_free_slot es j0 = None <-> Forall (fun e => inode_num e <> -1) es.
Proof.
  induction es as [|e es IH]; intros j0; simpl.
  - split; [constructor|done].
  - destruct (Z.eqb_spec (inode_num e) (-1)) as [He|He].
    + split; [done|]. intros H. inversion H; subst. done.
    + rewrite IH. split.
      * intros H. by constructor.
      * intros H. by inversion H.
Qed.

Lemma first_free_slot_Some es : forall j0 j,
  first_free_slot es j0 = Some j ->
  exists i e, j = (j0 + i)%nat /\ es !! i = Some e /\ inode_num e = -1 /\
              Forall (fun e => inode_num e <> -1) (take i es).
Proof.
  induction es as [|e es IH]; intros j0 j; simpl; [done|].
  destruct (Z.eqb_spec (inode_num e) (-1)) as [He|He].
  - intros [= <-]. exists 0%nat, e. rewrite Nat.add_0_r. repeat split; done.
  - intros H. apply IH in H as (i & e' & -> & Hi & He' & Hall).
    exists (S i), e'. repeat split; try done; [lia|]. simpl. by constructor.
Qed.

Lemma find_in_entries_None es nm :
  find_in_entries es nm = None <->
  Forall (fun e => inode_num e = -1 \/ strcmp_eq (name e) nm = false) es.
Proof.
  induction es as [|e es IH]; simpl.
  - split; [constructor|done].
  - destruct (Z.eqb_spec (inode_num e) (-1)) as [He|He]; simpl.
    + rewrite IH. split; [intros H; constructor; auto|intros H; by inversion H].
    + destruct (strcmp_eq (name e) nm) eqn:Es.
      * split; [done|]. intros H. inversion H as [|? ? [?|?] ?]; subst; congruence.
      * rewrite IH. split; [intros H; constructor; auto|intros H; by inversion H].
Qed.

Lemma find_in_entries_Some es nm c :
  find_in_entries es nm = Some c ->
  exists i e, es !! i = Some e /\ inode_num e = c /\ c <> -1 /\
              strcmp_eq (name e) nm = true /\
              find_in_entries (take i es) nm = None.
Proof.
  induction es as [|e es IH]; simpl; [done|].
  destruct (Z.eqb_spec (inode_num e) (-1)) as [He|He]; simpl.
  - intros H. apply IH in H as (i & e' & Hi & ? & ? & ? & Hpre).
    exists (S i), e'. repeat split; try done. simpl.
    destruct (Z.eqb_spec (inode_num e) (-1)); done.
  - destruct (strcmp_eq (name e) nm) eqn:Es.
    + intros [= <-]. exists 0%nat, e. repeat split; done.
    + intros H. apply IH in H as (i & e' & Hi & ? & ? & ? & Hpre).
      exists (S i), e'. repeat split; try done. simpl.
      destruct (Z.eqb_spec (inode_num e) (-1)); [done|]. simpl. by rewrite Es.
Qed.

Lemma find_in_entries_ne es nm c : find_in_entries es nm = Some c -> c <> -1.
Proof. intros H. by apply find_in_entries_Some in H as (? & ? & ? & ? & ? & ?). Qed.

(** [find_in_blocks] in terms of [block_entries]. *)
Lemma find_in_blocks_cons d b rest nm :
  find_in_blocks d (b :: rest) nm =
  match find_in_entries (block_entries d b) nm with
  | Some n => n
  | None => find_in_blocks d rest nm
  end.
Proof.
  simpl. unfold block_entries.
  destruct (load_directory_entries d b) as [es|]; simpl; done.
Qed.

Lemma find_in_blocks_notfound d blks nm :
  find_in_blocks d blks nm = -1 <->
  Forall (fun b => find_in_entries (block_entries d b) nm = None) blks.
Proof.
  induction blks as [|b rest IH].
  - simpl. split; [constructor|done].
  - rewrite find_in_blocks_cons.
    destruct (find_in_entries (block_entries d b) nm) as [c|] eqn:E.
    + split.
      * intros ->. by apply find_in_entries_ne in E.
      * intros H. inversion H; subst. congruence.
    + rewrite IH. split; [intros H; by constructor|intros H; by inversion H].
Qed.

Lemma find_in_blocks_found d blks nm c :
  find_in_blocks d blks nm = c -> c <> -1 ->
  exists i b, blks !! i = Some b /\
              find_in_entries (block_entries d b) nm = Some c /\
              Forall (fun b => find_in_entries (block_entries d b) nm = None) (take i blks).
Proof.
  induction blks as [|b rest IH].
  - simpl. intros <-. done.
  - rewrite find_in_blocks_cons.
    destruct (find_in_entries (block_entries d b) nm) as [c'|] eqn:E.
    + intros -> _. exists 0%nat, b. repeat split; done.
    + intros H Hc. destruct (IH H Hc) as (i & b' & Hi & Hf & Hpre).
      exists (S i), b'. repeat split; try done. simpl. by constructor.
Qed.

(** The lookup reads the blocks it is given, nothing else. *)
Lemma find_in_blocks_frame d d' blks nm :
  Forall (fun b => block_entries d' b = block_entries d b) blks ->
  find_in_blocks d' blks nm = find_in_blocks d blks nm.
Proof.
  induction 1 as [|b rest Hb _ IH]; [done|].
  rewrite !find_in_blocks_cons, Hb, IH. done.
Qed.

Lemma block_entries_frame d d' b :
  read_block d' b = read_block d b -> block_entries d' b = block_entries d b.
Proof. unfold block_entries, load_directory_entries. by intros ->. Qed.

(** The first matching live entry decides. *)
Lemma find_in_entries_app es1 es2 nm :
  find_in_entries (es1 ++ es2) nm =
  match find_in_entries es1 nm with
  | Some c => Some c
  | None => find_in_entries es2 nm
  end.
Proof.
  induction es1 as [|e es1 IH]; simpl; [done|].
  destruct (negb (inode_num e =? -1) && strcmp_eq (name e) nm); done.
Qed.

Lemma find_in_blocks_app d blks1 blks2 nm :
  find_in_blocks d (blks1 ++ blks2) nm =
  if decide (find_in_blocks d blks1 nm = -1) then find_in_blocks d blks2 nm
  else find_in_blocks d blks1 nm.
Proof.
  induction blks1 as [|b rest IH].
  - reflexivity.
  - rewrite <- app_comm_cons, !find_in_blocks_cons.
    destruct (find_in_entries (block_entries d b) nm) as [c|] eqn:E; [|done].
    apply find_in_entries_ne in E. by rewrite decide_False.
Qed.

(** ** Directory layer: [add_entry_to_dir] *)

(** The slot-reuse loop: the first block with a free slot gets the entry in
    its first free slot. *)
Lemma fill_free_slot_Some d blks nm child d' :
  fill_free_slot d blks nm child = Some d' ->
  exists i b es j,
    blks !! i = Some b /\ Forall (full_block d) (take i blks) /\
    load_directory_entries d b = Some es /\
    first_free_slot es 0 = Some j /\
    d' = default d (save_directory_entries d b (<[j := new_entry nm child]> es)).
Proof.
  induction blks as [|b rest IH]; simpl; [done|].
  destruct (load_directory_entries d b) as [es|] eqn:El.
  - destruct (first_free_slot es 0) as [j|] eqn:Ef.
    + intros [= <-]. exists 0%nat, b, es, j. repeat split; done.
    + intros H. destruct (IH H) as (i & b' & es' & j & Hi & Hpre & Hl & Hj & ->).
      exists (S i), b', es', j. repeat split; try done. simpl. constructor; [|done].
      unfold full_block, block_entries. by rewrite El.
  - intros H. destruct (IH H) as (i & b' & es' & j & Hi & Hpre & Hl & Hj & ->).
    exists (S i), b', es', j. repeat split; try done. simpl. constructor; [|done].
    unfold full_block, block_entries. by rewrite El.
Qed.

Lemma fill_free_slot_None d blks nm child :
  fill_free_slot d blks nm child = None <-> Forall (full_block d) blks.
Proof.
  induction blks as [|b rest IH]; simpl.
  - split; [constructor|done].
  - unfold full_block at 1, block_entries at 1.
    destruct (load_directory_entries d b) as [es|] eqn:El; simpl.
    + destruct (first_free_slot es 0) as [j|] eqn:Ef.
      * split; [done|]. intros H. inversion H as [|? ? Hb ?]; subst.
        unfold full_block, block_entries in Hb. rewrite El in Hb. simpl in Hb. congruence.
      * rewrite IH. split; [intros H; constructor; [|done]|intros H; by inversion H].
        unfold full_block, block_entries. by rewrite El.
    + rewrite IH. split; [intros H; constructor; [|done]|intros H; by inversion H].
      unfold full_block, block_entries. by rewrite El.
Qed.

(** ** The write loop of [exfs2_add] *)

(** Reads that survive from [d] to [d'], except at the blocks [W]. *)
Definition agree (d d' : disk) (W : list Z) : Prop :=
  forall x b, 0 <= x -> x ∉ W -> read_block d x = Some b -> read_block d' x = Some b.

Lemma agree_refl d W : agree d d W.
Proof. by intros x b _ _ H. Qed.

Lemma agree_trans d1 d2 d3 W1 W2 :
  agree d1 d2 W1 -> agree d2 d3 W2 -> agree d1 d3 (W1 ++ W2).
Proof.
  intros H1 H2 x b Hx Hn Hr. apply not_elem_of_app in Hn as [Hn1 Hn2].
  apply H2; [done..|]. by apply H1.
Qed.

Lemma agree_weaken d d' W W' : agree d d' W -> W ⊆ W' -> agree d d' W'.
Proof. intros H Hs x b Hx Hn Hr. apply H; [done| |done]. intros Hin. by apply Hn, Hs. Qed.

Lemma agree_load_ints d d' W x a :
  agree d d' W -> 0 <= x -> x ∉ W -> load_ints d x = Some a -> load_ints d' x = Some a.
Proof.
  intros H Hx Hn. unfold load_ints.
  destruct (read_block d x) as [b|] eqn:E; [|done].
  rewrite (H x b Hx Hn E). done.
Qed.

Lemma actx_perm d0 d S S' : S ≡ₚ S' -> actx d0 d S -> actx d0 d S'.
Proof.
  intros Hp [Hwf Hnd Hv Hf Hs Hb Hr Hi Hl]. split; try done.
  - by rewrite <- Hp.
  - intros x Hx. apply Hv. by rewrite Hp.
  - intros x Hx. apply Hf. by rewrite Hp.
  - intros x Hx. apply Hs. by rewrite Hp.
  - intros x Hx Hn. apply Hb; [done|]. by rewrite Hp.
  - intros x b Hx Hn. apply Hr; [done|]. by rewrite Hp.
  - by rewrite <- Hp.
Qed.

Lemma actx_int_range d0 d S x :
  actx d0 d S -> Z.of_nat (length (data_segs d0) + length S) <= MAX_SEGMENTS ->
  x ∈ S -> int_range x.
Proof.
  intros Hc Hmax Hx. apply (valid_block_int_range d); [|by apply (ac_valid _ _ _ Hc)].
  destruct (ac_len _ _ _ Hc). lia.
Qed.

Lemma actx_nonneg d0 d S x : actx d0 d S -> x ∈ S -> 0 <= x.
Proof. intros Hc Hx. by destruct (ac_valid _ _ _ Hc x Hx). Qed.

(** Once a block of the command is allocated, block 0 is taken. *)
Lemma actx_zero_alloc d0 d S id d' :
  actx d0 d S ->
  (forall x, 0 <= x < id -> block_bit d x = true) -> 0 <= id ->
  actx d0 d' (id :: S) -> block_bit d' 0 = true.
Proof.
  intros Hc Hfirst Hid Hc'.
  destruct (decide (id = 0)) as [->|Hne].
  - apply (ac_set _ _ _ Hc'). left.
  - destruct (decide (0 ∈ S)) as [Hin|Hnin].
    + apply (ac_set _ _ _ Hc'). by right.
    + rewrite (ac_bits _ _ _ Hc') by (try done; by intros [?|?]%elem_of_cons).
      rewrite <- (ac_bits _ _ _ Hc) by done. apply Hfirst. lia.
Qed.

Lemma actx_zero_keep d0 d S d' S' :
  actx d0 d S -> actx d0 d' S' -> S ⊆ S' ->
  block_bit d 0 = true -> block_bit d' 0 = true.
Proof.
  intros Hc Hc' Hsub H0.
  destruct (decide (0 ∈ S')) as [Hin|Hnin].
  - by apply (ac_set _ _ _ Hc').
  - rewrite (ac_bits _ _ _ Hc') by done.
    rewrite <- (ac_bits _ _ _ Hc); [done..|]. intros Hin. by apply Hnin, Hsub.
Qed.

(** The allocation and the write together, as the loop uses them. *)
Lemma actx_alloc_write d0 d S buf :
  actx d0 d S ->
  Z.of_nat (length (data_segs d0) + length S) <= MAX_SEGMENTS ->
  Z.of_nat (length buf) = BLOCK_SIZE ->
  exists id d1 d2,
    allocate_block d = Some (id, d1) /\ id <> -1 /\ (id ∉ S) /\
    write_block d1 id buf = Some d2 /\
    read_block d2 id = Some buf /\
    agree d d2 [id] /\
    (block_bit d 0 = true -> id <> 0) /\
    block_bit d2 0 = true /\
    actx d0 d2 (id :: S).
Proof.
  intros Hc Hmax Hbuf.
  destruct (actx_alloc _ _ _ Hc Hmax) as (id & d1 & Ha & Hne & Hid & Hnin & Hfree & Hfirst & Hrd & Hc1).
  destruct (actx_write _ _ _ id buf Hc1 ltac:(left) Hbuf) as (d2 & Hw & Hr2 & Hfr & Hc2).
  exists id, d1, d2. split_and!; try done.
  - intros x b Hx Hn Hr. apply not_elem_of_cons in Hn as [Hn _].
    rewrite Hfr by done. by apply Hrd.
  - intros H0 ->. congruence.
  - apply (actx_zero_keep d0 d1 (id :: S) d2 (id :: S) Hc1 Hc2); [done|].
    apply (actx_zero_alloc d0 d S id d1 Hc Hfirst Hid Hc1).
Qed.

(** An array of ids: the ids, then zeros. *)
Definition pad_ids (ids : list Z) : list Z := ids ++ repeat 0 (1024 - length ids)%nat.

Lemma pad_ids_length ids : (length ids <= 1024)%nat -> length (pad_ids ids) = 1024%nat.
Proof. intros H. unfold pad_ids. rewrite length_app, repeat_length. lia. Qed.

Lemma pad_ids_nil : pad_ids [] = zero_ints.
Proof. reflexivity. Qed.

Lemma pad_ids_range ids : Forall int_range ids -> Forall int_range (pad_ids ids).
Proof.
  intros H. unfold pad_ids. apply Forall_app. split; [done|].
  apply List.Forall_forall. intros x Hx%repeat_spec. subst. unfold int_range. lia.
Qed.

Lemma pad_ids_snoc ids x :
  (length ids < 1024)%nat ->
  zset (pad_ids ids) (Z.of_nat (length ids)) x = pad_ids (ids ++ [x]).
Proof.
  intros H. unfold zset, pad_ids. rewrite decide_True by lia. rewrite Nat2Z.id.
  rewrite insert_app_r_alt by lia. rewrite Nat.sub_diag.
  rewrite length_app. simpl.
  replace (1024 - length ids)%nat with (S (1024 - (length ids + 1))) by lia.
  simpl. by rewrite <- app_assoc.
Qed.

Lemma lookup_repeat {A} (x : A) n : forall i, (i < n)%nat -> repeat x n !! i = Some x.
Proof.
  induction n as [|n IH]; intros i Hi; [lia|].
  destruct i as [|i]; simpl; [done|]. apply IH. lia.
Qed.

Lemma pad_ids_lookup_in ids i x :
  ids !! i = Some x -> zget (pad_ids ids) (Z.of_nat i) = Some x.
Proof.
  intros H. unfold zget, pad_ids. rewrite decide_True by lia. rewrite Nat2Z.id.
  by apply lookup_app_l_Some.
Qed.

Lemma pad_ids_lookup_out ids i :
  (length ids <= i < 1024)%nat -> zget (pad_ids ids) (Z.of_nat i) = Some 0.
Proof.
  intros H. unfold zget, pad_ids. rewrite decide_True by lia. rewrite Nat2Z.id.
  rewrite lookup_app_r by lia. apply lookup_repeat. lia.
Qed.

Lemma load_ints_read d id a :
  wf_disk d -> load_ints d id = Some a ->
  exists b, read_block d id = Some b /\ ints_of_bytes b = a.
Proof.
  intros Hwf. unfold load_ints. destruct (read_block d id) as [b|] eqn:E; [|done].
  intros [= <-]. exists b. split; [done|].
  rewrite take_ge; [done|]. rewrite (ints_of_block_length _ _ _ Hwf E).
  rewrite PTRS_PER_BLOCK_eq. lia.
Qed.

Lemma read_ints_load d id a arr :
  wf_disk d -> load_ints d id = Some arr -> read_ints d id a = arr.
Proof.
  intros Hwf H. destruct (load_ints_read _ _ _ Hwf H) as (b & E & <-).
  unfold read_ints. by rewrite E.
Qed.

(** A write of an array to one of the blocks of the command. *)
Lemma actx_write_ints' d0 d S id a :
  actx d0 d S -> id ∈ S -> length a = 1024%nat -> Forall int_range a ->
  load_ints (write_ints d id a) id = Some a /\
  agree d (write_ints d id a) [id] /\
  block_bit (write_ints d id a) 0 = block_bit d 0 /\
  actx d0 (write_ints d id a) S.
Proof.
  intros Hc Hin Hl Ha.
  destruct (actx_write_ints _ _ _ _ _ Hc Hin Hl Ha) as (H1 & H2 & H3).
  split_and!; try done.
  - intros x b Hx Hn Hr. apply not_elem_of_cons in Hn as [Hn _]. by rewrite H2.
  - apply block_bit_write_ints.
Qed.

(** The buffer the loop writes for one chunk of the local file. *)
Definition data_buffer (chunk : list byte) : block :=
  chunk ++ zero_bytes (BLOCK_SIZE - Z.of_nat (length chunk)).

Definition opt_block (x : Z) : list Z := if decide (x = -1) then [] else [x].

(** Every block the loop has allocated so far: the data blocks [ids], the
    single indirect block, the double indirect block and the level 1
    blocks [l1s]. *)
Definition file_structure (ino : inode_t) (ids l1s : list Z) : list Z :=
  ids ++ opt_block (indirect_block ino) ++ opt_block (double_indirect_block ino) ++ l1s.

(** The state of the loop after the chunks [chunks] were stored in the
    blocks [ids], started on the disk [d0]. *)
Record loop_inv (d0 : disk) (chunks : list (list byte)) (l : add_locals)
       (ids l1s : list Z) : Prop := mk_li {
  li_ctx : actx d0 (l_disk l) (file_structure (file_inode l) ids l1s);
  li_zero : ids <> [] -> block_bit (l_disk l) 0 = true;
  li_chunks : length chunks = length ids;
  li_chunk_len : Forall (fun c => Z.of_nat (length c) <= BLOCK_SIZE) chunks;
  li_total : total_blocks l = Z.of_nat (length ids);
  li_bound : (length ids <= 3065)%nat;
  li_type : type (file_inode l) = INODE_FILE;
  li_triple : triple_indirect_block (file_inode l) = -1;
  li_size : size (file_inode l) = Z.of_nat (length (concat chunks));
  li_dlen : length (direct_blocks (file_inode l)) = 1017%nat;
  li_nd : num_direct (file_inode l) = Z.min (Z.of_nat (length ids)) 1017;
  li_direct : live_direct_blocks (file_inode l) = take 1017 ids;
  li_ibuf : length (indirect_buf l) = 1024%nat;
  li_dbuf : length (double_indirect_buf l) = 1024%nat;
  li_single :
    if decide (length ids <= 1017)%nat
    then indirect_block (file_inode l) = -1 /\ indirect_count l = 0
    else indirect_block (file_inode l) <> -1 /\
         indirect_count l = Z.min (Z.of_nat (length ids)) 2041 - 1017 /\
         load_ints (l_disk l) (indirect_block (file_inode l))
         = Some (pad_ids (take 1024 (drop 1017 ids)));
  li_double :
    if decide (length ids <= 2041)%nat
    then double_indirect_block (file_inode l) = -1 /\
         double_indirect_level1_count l = 0 /\
         double_indirect_level2_count l = 0 /\ l1s = []
    else double_indirect_block (file_inode l) <> -1 /\
         double_indirect_level1_count l = Z.of_nat (length ids) - 2041 /\
         double_indirect_level2_count l = 1 /\
         length l1s = (length ids - 2041)%nat /\
         load_ints (l_disk l) (double_indirect_block (file_inode l)) = Some (pad_ids l1s) /\
         forall j b id, l1s !! j = Some b -> ids !! (2041 + j)%nat = Some id ->
                        load_ints (l_disk l) b = Some (pad_ids [id]);
  li_data : forall i c id, chunks !! i = Some c -> ids !! i = Some id ->
                           read_block (l_disk l) id = Some (data_buffer c);
  li_nonzero : Forall (fun x => x <> 0) (drop 1 (file_structure (file_inode l) ids l1s))
}.

Lemma loop_inv_init d0 : wf_disk d0 -> loop_inv d0 [] (initial_locals d0) [] [].
Proof.
  intros Hwf. split; try done.
  - by apply actx_init.
  - simpl. lia.
Qed.

Lemma file_structure_length l d0 chunks ids l1s :
  loop_inv d0 chunks l ids l1s ->
  (length (file_structure (file_inode l) ids l1s) <= 4091)%nat.
Proof.
  intros H. unfold file_structure, opt_block. rewrite !length_app.
  pose proof (li_bound _ _ _ _ _ H). pose proof (li_double _ _ _ _ _ H) as Hd.
  assert (length l1s <= 1024)%nat.
  { destruct (decide (length ids <= 2041)%nat).
    - destruct Hd as (_ & _ & _ & ->). simpl. lia.
    - destruct Hd as (_ & _ & _ & -> & _). lia. }
  repeat destruct (decide _); simpl; lia.
Qed.

Lemma concat_snoc_length (chunks : list (list byte)) c :
  length (concat (chunks ++ [c])) = (length (concat chunks) + length c)%nat.
Proof. rewrite concat_app, length_app. simpl. rewrite app_nil_r. done. Qed.

Lemma concat_length_bound (chunks : list (list byte)) :
  Forall (fun c => Z.of_nat (length c) <= BLOCK_SIZE) chunks ->
  Z.of_nat (length (concat chunks)) <= BLOCK_SIZE * Z.of_nat (length chunks).
Proof.
  induction 1 as [|c chunks Hc _ IH]; simpl; [lia|].
  rewrite length_app. unfold BLOCK_SIZE in *. lia.
Qed.

Lemma size_t_small z : 0 <= z < 2 ^ 64 -> size_t z = z.
Proof. intros H. unfold size_t. by apply Z.mod_small. Qed.

Ltac loc_simpl :=
  cbn [l_disk file_inode indirect_buf double_indirect_buf total_blocks indirect_count
       double_indirect_level1_count double_indirect_level2_count
       with_size with_direct with_indirect with_double_indirect
       type size num_direct direct_blocks indirect_block double_indirect_block
       triple_indirect_block fst snd] in *.

Lemma li_data_step d d' W (chunks : list (list byte)) ids c id :
  length chunks = length ids ->
  (forall i c id, chunks !! i = Some c -> ids !! i = Some id ->
                  read_block d id = Some (data_buffer c)) ->
  agree d d' W -> (forall x, x ∈ ids -> 0 <= x /\ x ∉ W) ->
  read_block d' id = Some (data_buffer c) ->
  forall i c0 id0, (chunks ++ [c]) !! i = Some c0 -> (ids ++ [id]) !! i = Some id0 ->
                   read_block d' id0 = Some (data_buffer c0).
Proof.
  intros Hl Hdat Hag Hids Hr i c0 id0 Hc0 Hid0.
  destruct (decide (i < length ids)%nat) as [Hi|Hi].
  - rewrite lookup_app_l in Hc0 by lia. rewrite lookup_app_l in Hid0 by lia.
    destruct (Hids id0) as [H0 HW]; [by eapply list_elem_of_lookup_2|].
    apply (Hag id0); [done..|]. by eapply Hdat.
  - rewrite lookup_app_r in Hc0 by lia. rewrite lookup_app_r in Hid0 by lia.
    rewrite Hl in Hc0. destruct (i - length ids)%nat; [|done].
    simpl in *. by simplify_eq.
Qed.

Lemma size_step (chunks : list (list byte)) c sz :
  Forall (fun c => Z.of_nat (length c) <= BLOCK_SIZE) chunks ->
  (length chunks <= 3065)%nat ->
  Z.of_nat (length c) <= BLOCK_SIZE ->
  sz = Z.of_nat (length (concat chunks)) ->
  size_t (sz + Z.of_nat (length c)) = Z.of_nat (length (concat (chunks ++ [c]))).
Proof.
  intros Hcl Hn Hc ->. pose proof (concat_length_bound _ Hcl) as Hb.
  rewrite concat_snoc_length, Nat2Z.inj_add. apply size_t_small.
  unfold BLOCK_SIZE in *. lia.
Qed.

Lemma take_snoc_lt {A} (l : list A) x n : (n <= length l)%nat -> take n (l ++ [x]) = take n l.
Proof. intros H. by rewrite take_app_le. Qed.

Lemma live_direct_snoc ino id (ids : list Z) :
  length (direct_blocks ino) = 1017%nat ->
  num_direct ino = Z.of_nat (length ids) ->
  (length ids < 1017)%nat ->
  live_direct_blocks ino = ids ->
  take (Z.to_nat (num_direct ino + 1)) (zset (direct_blocks ino) (num_direct ino) id)
  = ids ++ [id].
Proof.
  unfold live_direct_blocks. intros Hl Hn Hk Hd. rewrite Hn in *.
  rewrite Nat2Z.id in Hd. unfold zset. rewrite decide_True by lia.
  replace (Z.to_nat (Z.of_nat (length ids) + 1)) with (S (length ids)) by lia.
  rewrite Nat2Z.id.
  rewrite (take_S_r _ _ id).
  - rewrite take_insert_ge by lia. by rewrite Hd.
  - apply list_lookup_insert_eq. lia.
Qed.

Lemma add_block_direct d0 chunks l ids l1s c :
  loop_inv d0 chunks l ids l1s ->
  Z.of_nat (length (data_segs d0)) + 4100 <= MAX_SEGMENTS ->
  Z.of_nat (length c) <= BLOCK_SIZE ->
  (length ids < 1017)%nat ->
  exists l' id, add_block l c = Ok l' /\ loop_inv d0 (chunks ++ [c]) l' (ids ++ [id]) l1s.
Proof.
  intros Hinv Hroom Hc Hk.
  pose proof (file_structure_length _ _ _ _ _ Hinv) as HS.
  destruct Hinv as [Hctx Hzero Hch Hcl Htot Hbd Hty Htr Hsz Hdl Hnd Hdir Hib Hdb Hsi Hdo Hdat Hnz].
  rewrite decide_True in Hsi by lia. destruct Hsi as [Hind Hic].
  rewrite decide_True in Hdo by lia. destruct Hdo as (Hdbl & Hl1c & Hl2c & ->).
  destruct (actx_alloc_write d0 _ _ (data_buffer c) Hctx ltac:(lia) (data_buffer_length c Hc))
    as (id & d1 & d2 & Ha & Hne & Hnin & Hw & Hr & Hag & Hnz0 & Hz2 & Hc2).
  assert (HSeq : file_structure (file_inode l) ids [] = ids).
  { unfold file_structure, opt_block. rewrite Hind, Hdbl. simpl. by rewrite app_nil_r. }
  rewrite HSeq in *.
  eexists _, id. split.
  - unfold add_block. rewrite Ha. cbn [alloc_or_stop bind]. rewrite decide_False by done.
    cbn [bind]. fold (data_buffer c). rewrite Hw.
    rewrite decide_True by (rewrite Htot; unfold MAX_DIRECT_BLOCKS; lia).
    unfold place_direct. rewrite decide_True by (rewrite Hnd; unfold MAX_DIRECT_BLOCKS; lia).
    cbn [bind]. reflexivity.
  - assert (HSeq' : forall ino', indirect_block ino' = -1 -> double_indirect_block ino' = -1 ->
                       file_structure ino' (ids ++ [id]) [] = ids ++ [id]).
    { intros ino' H1 H2. unfold file_structure, opt_block. rewrite H1, H2. simpl.
      by rewrite app_nil_r. }
    assert (Hnd' : num_direct (file_inode l) = Z.of_nat (length ids)) by lia.
    split; loc_simpl; rewrite ?length_app, ?HSeq' by done; simpl length.
    + eapply actx_perm; [|exact Hc2]. solve_Permutation.
    + done.
    + lia.
    + apply Forall_app. split; [done|]. by constructor.
    + lia.
    + lia.
    + done.
    + done.
    + apply size_step; [done|lia|done|done].
    + by rewrite zset_length.
    + lia.
    + unfold live_direct_blocks. loc_simpl.
      rewrite (live_direct_snoc _ _ ids); try done.
      * rewrite take_ge; [done|]. rewrite length_app. simpl. lia.
      * rewrite Hdir. rewrite take_ge; [done|lia].
    + done.
    + done.
    + rewrite decide_True by lia. done.
    + rewrite decide_True by lia. done.
    + apply (li_data_step (l_disk l) d2 [id]); try done.
      intros x Hx. split; [by apply (actx_nonneg _ _ _ _ Hctx)|].
      intros ->%list_elem_of_singleton. done.
    + destruct ids as [|i0 ids']; simpl; [constructor|].
      simpl in Hnz. apply Forall_app. split; [done|].
      constructor; [|constructor]. apply Hnz0. by apply Hzero.
Qed.

Lemma opt_block_some x : x <> -1 -> opt_block x = [x].
Proof. intros H. unfold opt_block. by rewrite decide_False. Qed.

Lemma opt_block_none : opt_block (-1) = [].
Proof. reflexivity. Qed.

Lemma drop_1_app {A} (l k : list A) : l <> [] -> drop 1 (l ++ k) = drop 1 l ++ k.
Proof. destruct l; [done|]. intros _. simpl. by rewrite !drop_0. Qed.

Lemma add_block_single d0 chunks l ids l1s c :
  loop_inv d0 chunks l ids l1s ->
  Z.of_nat (length (data_segs d0)) + 4100 <= MAX_SEGMENTS ->
  Z.of_nat (length c) <= BLOCK_SIZE ->
  (1017 <= length ids < 2041)%nat ->
  exists l' id, add_block l c = Ok l' /\ loop_inv d0 (chunks ++ [c]) l' (ids ++ [id]) l1s.
Proof.
  intros Hinv Hroom Hc Hk.
  pose proof (file_structure_length _ _ _ _ _ Hinv) as HS.
  destruct Hinv as [Hctx Hzero Hch Hcl Htot Hbd Hty Htr Hsz Hdl Hnd Hdir Hib Hdb Hsi Hdo Hdat Hnz].
  rewrite decide_True in Hdo by lia. destruct Hdo as (Hdbl & Hl1c & Hl2c & ->).
  assert (Hne0 : ids <> []) by (intros ->; simpl in Hk; lia).
  destruct (actx_alloc_write d0 _ _ (data_buffer c) Hctx ltac:(lia) (data_buffer_length c Hc))
    as (id & d1 & d2 & Ha & Hne & Hnin & Hw & Hr & Hag & Hnz0 & Hz2 & Hc2).
  specialize (Hnz0 (Hzero Hne0)).
  unfold file_structure in *. rewrite Hdbl, opt_block_none in *. rewrite !app_nil_r in *.
  (* the single indirect block, allocated now or before *)
  assert (exists ib d3 ino1,
    (if decide (indirect_block (file_inode l) = -1) then
       p <- alloc_or_stop (allocate_block d2) Failed_to_allocate_indirect_block ;;
       Ok (with_indirect (file_inode l) (fst p), zero_ints, snd p)
     else
       Ok (file_inode l, read_ints d2 (indirect_block (file_inode l)) (indirect_buf l), d2))
    = Ok (ino1, pad_ids (take 1024 (drop 1017 ids)), d3) /\
    ino1 = with_indirect (file_inode l) ib /\
    ib <> -1 /\ ib <> 0 /\ (ib ∉ ids) /\ ib <> id /\
    actx d0 d3 (ib :: id :: ids) /\
    agree d2 d3 [] /\ block_bit d3 0 = true /\
    indirect_count l = Z.of_nat (length ids) - 1017) as Hpre.
  { destruct (decide (length ids <= 1017)%nat) as [Hk1|Hk1].
    - destruct Hsi as [Hind Hic]. rewrite Hind, opt_block_none, app_nil_r in *.
      rewrite decide_True by done.
      destruct (actx_alloc _ _ _ Hc2 ltac:(simpl in *; lia))
        as (ib & d3 & Ha3 & Hne3 & Hib0 & Hnin3 & Hfree3 & _ & Hrd3 & Hc3).
      exists ib, d3, (with_indirect (file_inode l) ib).
      rewrite Ha3. cbn [alloc_or_stop bind]. rewrite decide_False by done. cbn [bind fst snd].
      assert (drop 1017 ids = []) as -> by (apply drop_ge; lia).
      apply not_elem_of_cons in Hnin3 as [Hni1 Hni2].
      split_and!; try done.
      + intros ->. congruence.
      + intros x b _ _ Hx. by apply Hrd3.
      + apply (actx_zero_keep d0 d2 (id :: ids) d3 (ib :: id :: ids) Hc2 Hc3); [|done].
        intros x Hx. by right.
      + lia.
    - destruct Hsi as (Hind & Hic & Hload).
      rewrite opt_block_some in * by done. rewrite decide_False by done.
      exists (indirect_block (file_inode l)), d2, (file_inode l).
      assert (Hin : indirect_block (file_inode l) ∈ ids ++ [indirect_block (file_inode l)]).
      { apply elem_of_app. right. left. }
      assert (Hnid : indirect_block (file_inode l) <> id) by (intros E; apply Hnin; rewrite <- E; exact Hin).
      assert (Hl2 : load_ints d2 (indirect_block (file_inode l))
                    = Some (pad_ids (take 1024 (drop 1017 ids)))).
      { eapply agree_load_ints; [exact Hag| | |exact Hload].
        - by apply (actx_nonneg _ _ _ _ Hctx).
        - by intros E%list_elem_of_singleton. }
      rewrite (read_ints_load _ _ _ _ (ac_wf _ _ _ Hc2) Hl2).
      split_and!; try done.
      + by destruct (file_inode l).
      + rewrite drop_1_app in Hnz by done. apply Forall_app in Hnz as [_ Hnz].
        by inversion Hnz.
      + pose proof (ac_nodup _ _ _ Hctx) as Hnd0.
        apply NoDup_app in Hnd0 as (_ & Hdis & _). intros Hx. apply (Hdis _ Hx). left.
      + eapply actx_perm; [|exact Hc2]. solve_Permutation.
      + apply agree_refl.
      + lia. }
  destruct Hpre as (ib & d3 & ino1 & Hpre & -> & Hibne & Hib0 & Hibids & Hibid & Hc3 & Hag3 & Hz3 & Hic).
  assert (Hlen : length (take 1024 (drop 1017 ids)) = (length ids - 1017)%nat).
  { rewrite length_take, length_drop. lia. }
  assert (Hrange : Forall int_range (pad_ids (take 1024 (drop 1017 ids) ++ [id]))).
  { apply pad_ids_range, Forall_app. split.
    - apply Forall_forall. intros x Hx.
      apply (actx_int_range _ _ _ x Hc3); [simpl in *; lia|].
      right. right. by eapply subseteq_drop, subseteq_take.
    - constructor; [|done]. apply (actx_int_range _ _ _ id Hc3); [simpl in *; lia|].
      right. left. }
  destruct (actx_write_ints' d0 d3 _ ib (pad_ids (take 1024 (drop 1017 ids) ++ [id])) Hc3)
    as (Hl4 & Hag4 & Hz4 & Hc4); [left| |done|].
  { apply pad_ids_length. rewrite length_app, Hlen. simpl. lia. }
  eexists _, id. split.
  - unfold add_block. rewrite Ha. cbn [alloc_or_stop bind]. rewrite decide_False by done.
    cbn [bind]. fold (data_buffer c). rewrite Hw.
    rewrite decide_False by (rewrite Htot; unfold MAX_DIRECT_BLOCKS; lia).
    rewrite decide_True
      by (rewrite Htot; unfold MAX_DIRECT_BLOCKS; rewrite PTRS_PER_BLOCK_eq, int32_small; lia).
    unfold place_indirect. rewrite Hpre. cbn [bind].
    unfold arr_write. rewrite decide_True by (rewrite PTRS_PER_BLOCK_eq; lia).
    cbn [bind]. rewrite Hic.
    replace (Z.of_nat (length ids) - 1017) with (Z.of_nat (length (take 1024 (drop 1017 ids))))
      by lia.
    rewrite pad_ids_snoc by lia. reflexivity.
  - assert (Hagree : agree (l_disk l) (write_ints d3 ib (pad_ids (take 1024 (drop 1017 ids) ++ [id]))) [id; ib]).
    { apply (agree_trans _ d2 _ [id] [ib]); [done|].
      apply (agree_trans _ d3 _ [] [ib]); done. }
    split; loc_simpl; unfold file_structure; loc_simpl;
      rewrite ?length_app, ?Hdbl, ?opt_block_none, ?opt_block_some, ?app_nil_r by done;
      simpl length.
    + eapply actx_perm; [|exact Hc4]. solve_Permutation.
    + intros _. by rewrite Hz4.
    + lia.
    + apply Forall_app. split; [done|]. by constructor.
    + lia.
    + lia.
    + done.
    + done.
    + apply size_step; [done|lia|done|done].
    + done.
    + lia.
    + unfold live_direct_blocks in *. loc_simpl. rewrite Hdir.
      rewrite take_app_le by lia. done.
    + apply pad_ids_length. rewrite length_app, Hlen. simpl. lia.
    + done.
    + rewrite decide_False by lia. split_and!; [done|lia|].
      rewrite Hl4. do 2 f_equal.
      rewrite drop_app_le by lia.
      rewrite !take_ge by (rewrite ?length_app, length_drop; simpl; lia). done.
    + rewrite decide_True by lia. done.
    + apply (li_data_step (l_disk l) _ [id; ib]); try done.
      * intros x Hx. split.
        -- apply (actx_nonneg _ _ _ x Hc3). by do 2 right.
        -- intros [->|[->|?%elem_of_nil]%elem_of_cons]%elem_of_cons; try done.
           apply Hnin. apply elem_of_app. by left.
      * apply Hag4; [by apply (actx_nonneg _ _ _ id Hc3); right; left| |].
        -- by intros E%list_elem_of_singleton.
        -- apply Hag3; [by apply (actx_nonneg _ _ _ id Hc3); right; left|by intros ?%elem_of_nil|done].
    + rewrite <- app_assoc, drop_1_app by done.
      apply Forall_app. split.
      * assert (Hsub : drop 1 ids ⊆ drop 1 (ids ++ opt_block (indirect_block (file_inode l)))).
        { rewrite drop_1_app by done. intros x Hx. apply elem_of_app. by left. }
        apply Forall_forall. intros x Hx. rewrite Forall_forall in Hnz. by apply Hnz, Hsub.
      * by repeat constructor.
Qed.

Lemma add_block_double d0 chunks l ids l1s c :
  loop_inv d0 chunks l ids l1s ->
  Z.of_nat (length (data_segs d0)) + 4100 <= MAX_SEGMENTS ->
  Z.of_nat (length c) <= BLOCK_SIZE ->
  (2041 <= length ids < 3065)%nat ->
  exists l' id l1, add_block l c = Ok l' /\
                   loop_inv d0 (chunks ++ [c]) l' (ids ++ [id]) (l1s ++ [l1]).
Proof.
  intros Hinv Hroom Hc Hk.
  pose proof (file_structure_length _ _ _ _ _ Hinv) as HS.
  destruct Hinv as [Hctx Hzero Hch Hcl Htot Hbd Hty Htr Hsz Hdl Hnd Hdir Hib Hdb Hsi Hdo Hdat Hnz].
  rewrite decide_False in Hsi by lia. destruct Hsi as (Hind & Hic & Hload).
  assert (Hne0 : ids <> []) by (intros ->; simpl in Hk; lia).
  destruct (actx_alloc_write d0 _ _ (data_buffer c) Hctx ltac:(lia) (data_buffer_length c Hc))
    as (id & d1 & d2 & Ha & Hne & Hnin & Hw & Hr & Hag & Hnz0 & Hz2 & Hc2).
  specialize (Hnz0 (Hzero Hne0)).
  unfold file_structure in *. rewrite (opt_block_some _ Hind) in *.
  set (ib := indirect_block (file_inode l)) in *.
  assert (Hl1len : (length l1s = length ids - 2041)%nat).
  { destruct (decide (length ids <= 2041)%nat).
    - destruct Hdo as (_ & _ & _ & ->). simpl. lia.
    - by destruct Hdo as (_ & _ & _ & ? & _). }
  (* the double indirect block, allocated now or before *)
  assert (exists dib d3 ino1,
    (if decide (double_indirect_block (file_inode l) = -1) then
       p <- alloc_or_stop (allocate_block d2) Failed_to_allocate_double_indirect_block ;;
       Ok (with_double_indirect (file_inode l) (fst p), zero_ints,
           write_ints (snd p) (fst p) zero_ints)
     else
       Ok (file_inode l,
           read_ints d2 (double_indirect_block (file_inode l)) (double_indirect_buf l), d2))
    = Ok (ino1, pad_ids l1s, d3) /\
    ino1 = with_double_indirect (file_inode l) dib /\
    dib <> -1 /\ dib <> 0 /\
    actx d0 d3 (dib :: id :: ids ++ [ib] ++ l1s) /\
    NoDup (dib :: id :: ids ++ [ib] ++ l1s) /\
    agree d2 d3 [dib] /\ block_bit d3 0 = true /\
    load_ints d3 dib = Some (pad_ids l1s) /\
    double_indirect_level1_count l = Z.of_nat (length l1s) /\
    0 <= double_indirect_level2_count l <= 1 /\
    (forall j b id, l1s !! j = Some b -> ids !! (2041 + j)%nat = Some id ->
                    load_ints (l_disk l) b = Some (pad_ids [id]))) as Hpre.
  { destruct (decide (length ids <= 2041)%nat) as [Hk1|Hk1].
    - destruct Hdo as (Hdbl & Hl1c & Hl2c & ->). rewrite Hdbl, opt_block_none in *.
      rewrite decide_True by done. simpl app in *.
      destruct (actx_alloc _ _ _ Hc2 ltac:(simpl in *; lia))
        as (dib & d3 & Ha3 & Hne3 & Hdib0 & Hnin3 & Hfree3 & _ & Hrd3 & Hc3).
      destruct (actx_write_ints' d0 d3 _ dib zero_ints Hc3) as (Hl4 & Hag4 & Hz4 & Hc4);
        [left|done|by apply (pad_ids_range [])|].
      assert (Hz3 : block_bit d3 0 = true).
      { apply (actx_zero_keep d0 d2 _ d3 _ Hc2 Hc3); [|done]. intros x Hx. by right. }
      exists dib, (write_ints d3 dib zero_ints), (with_double_indirect (file_inode l) dib).
      rewrite Ha3. cbn [alloc_or_stop bind]. rewrite decide_False by done. cbn [bind fst snd].
      split_and!; try done; try lia.
      + intros ->. congruence.
      + apply (ac_nodup _ _ _ Hc4).
      + intros x b Hx Hn Hrx. apply Hag4; [done..|]. by apply Hrd3.
      + by rewrite Hz4.
    - destruct Hdo as (Hdbl & Hl1c & Hl2c & _ & Hld & Hl1).
      rewrite (opt_block_some _ Hdbl) in *. rewrite decide_False by done.
      set (dib := double_indirect_block (file_inode l)) in *.
      exists dib, d2, (file_inode l).
      assert (Hin : dib ∈ ids ++ [ib] ++ [dib] ++ l1s).
      { apply elem_of_app. right. right. left. }
      assert (Hnid : dib <> id) by (intros E; apply Hnin; rewrite <- E; exact Hin).
      assert (Hl2 : load_ints d2 dib = Some (pad_ids l1s)).
      { eapply agree_load_ints; [exact Hag| | |exact Hld].
        - by apply (actx_nonneg _ _ _ _ Hctx).
        - by intros E%list_elem_of_singleton. }
      rewrite (read_ints_load _ _ _ _ (ac_wf _ _ _ Hc2) Hl2).
      assert (Hperm : id :: ids ++ [ib] ++ [dib] ++ l1s ≡ₚ dib :: id :: ids ++ [ib] ++ l1s)
        by solve_Permutation.
      split_and!; try done.
      + subst dib. by destruct (file_inode l).
      + rewrite drop_1_app in Hnz by done. apply Forall_app in Hnz as [_ Hnz].
        inversion Hnz as [|? ? _ Hnz']. by inversion Hnz'.
      + eapply actx_perm; [|exact Hc2]. done.
      + rewrite <- Hperm. apply (ac_nodup _ _ _ Hc2).
      + eapply agree_weaken; [apply agree_refl|done].
      + lia.
      + lia.
      + lia. }
  destruct Hpre as (dib & d3 & ino1 & Hpre & -> & Hdibne & Hdib0 & Hc3 & Hnd3 & Hag3 & Hz3
                    & Hl3 & Hl1c & Hl2c & Hl1).
  (* the level 1 block of this data block *)
  destruct (actx_alloc _ _ _ Hc3 ltac:(simpl in *; rewrite ?length_app in *; simpl in *; lia))
    as (l1 & d4 & Ha4 & Hne4 & Hl10 & Hnin4 & Hfree4 & _ & Hrd4 & Hc4).
  assert (Hl1nz : l1 <> 0) by (intros ->; congruence).
  assert (Hint : forall x, x ∈ l1 :: dib :: id :: ids ++ [ib] ++ l1s -> int_range x).
  { intros x Hx. apply (actx_int_range _ _ _ x Hc4); [|done].
    simpl in *. rewrite ?length_app in *. simpl in *. lia. }
  destruct (actx_write_ints' d0 d4 _ l1 zero_ints Hc4) as (Hl5 & Hag5 & Hz5 & Hc5);
    [left|done|by apply (pad_ids_range [])|].
  set (d5 := write_ints d4 l1 zero_ints) in *.
  destruct (actx_write_ints' d0 d5 _ l1 (pad_ids [id]) Hc5) as (Hl6 & Hag6 & Hz6 & Hc6);
    [left|done| |].
  { apply (pad_ids_range [id]). constructor; [|done]. apply Hint. by do 2 right; left. }
  set (d6 := write_ints d5 l1 (pad_ids [id])) in *.
  destruct (actx_write_ints' d0 d6 _ dib (pad_ids (l1s ++ [l1])) Hc6) as (Hl7 & Hag7 & Hz7 & Hc7);
    [by right; left| | |].
  { apply pad_ids_length. rewrite length_app. simpl. lia. }
  { apply pad_ids_range, Forall_app. split.
    - apply Forall_forall. intros x Hx. apply Hint. do 3 right.
      apply elem_of_app. right. by right.
    - constructor; [|done]. apply Hint. left. }
  set (d7 := write_ints d6 dib (pad_ids (l1s ++ [l1]))) in *.
  destruct (load_ints_read _ _ _ (ac_wf _ _ _ Hc5) Hl5) as (b5 & Hb5 & Hb5').
  assert (Hidx : Z.of_nat (length l1s) < 1024) by lia.
  eexists _, id, l1. split.
  - unfold add_block. rewrite Ha. cbn [alloc_or_stop bind]. rewrite decide_False by done.
    cbn [bind]. fold (data_buffer c). rewrite Hw.
    rewrite decide_False by (rewrite Htot; unfold MAX_DIRECT_BLOCKS; lia).
    rewrite decide_False
      by (rewrite Htot; unfold MAX_DIRECT_BLOCKS; rewrite PTRS_PER_BLOCK_eq, int32_small; lia).
    unfold place_double. rewrite Hpre. cbn [bind].
    rewrite decide_False by (rewrite PTRS_PER_BLOCK_eq; lia).
    unfold arr_read at 1. rewrite decide_True by (rewrite PTRS_PER_BLOCK_eq; lia).
    rewrite Hl1c, pad_ids_lookup_out by lia. cbn [bind].
    rewrite bool_decide_eq_true_2 by done.
    rewrite Ha4. cbn [alloc_or_stop bind]. rewrite decide_False by done. cbn [bind fst snd].
    unfold arr_write at 1. rewrite decide_True by (rewrite PTRS_PER_BLOCK_eq; lia).
    cbn [bind]. rewrite pad_ids_snoc by lia.
    unfold arr_read. rewrite decide_True by (rewrite PTRS_PER_BLOCK_eq; lia).
    replace (Z.of_nat (length l1s) + 1 - 1) with (Z.of_nat (length l1s)) by lia.
    rewrite (pad_ids_lookup_in _ _ l1)
      by (rewrite lookup_app_r by lia; by rewrite Nat.sub_diag).
    cbn [bind]. fold d5. rewrite Hb5. cbn [bind]. rewrite Hb5'.
    unfold arr_write. rewrite decide_True by (rewrite PTRS_PER_BLOCK_eq; lia).
    cbn [bind]. change (zset zero_ints 0 id) with (pad_ids [id]).
    fold d6. loc_simpl. fold d7. reflexivity.
  - pose proof (ac_nodup _ _ _ Hc4) as Hnd4.
    apply NoDup_cons in Hnd4 as [Hl1fresh Hnd4].
    apply NoDup_cons in Hnd4 as [Hdibfresh Hnd4].
    apply NoDup_cons in Hnd4 as [Hidfresh Hnd4].
    assert (Hold : forall x, x ∈ ids ++ [ib] ++ l1s -> 0 <= x /\ x ∉ [id; dib; l1]).
    { intros x Hx. split.
      - apply (actx_nonneg _ _ _ x Hc4). by do 3 right.
      - intros [->|[->|[->|?%elem_of_nil]%elem_of_cons]%elem_of_cons]%elem_of_cons; try done.
        + apply Hdibfresh. by right.
        + apply Hl1fresh. by do 2 right. }
    assert (Hid0 : 0 <= id) by (apply (actx_nonneg _ _ _ id Hc4); by do 2 right; left).
    assert (Hdibpos : 0 <= dib) by (apply (actx_nonneg _ _ _ dib Hc4); by right; left).
    assert (Hagree : agree (l_disk l) d7 [id; dib; l1]).
    { eapply agree_weaken.
      - apply (agree_trans _ d2 _ [id] ([dib] ++ [] ++ [l1] ++ [l1] ++ [dib])); [done|].
        apply (agree_trans _ d3 _ [dib]); [done|].
        apply (agree_trans _ d4 _ []); [by intros x b _ _ Hx; apply Hrd4|].
        apply (agree_trans _ d5 _ [l1]); [done|].
        apply (agree_trans _ d6 _ [l1]); done.
      - intros x Hx. simpl in Hx. clear -Hx. rewrite !elem_of_cons in Hx.
        rewrite !elem_of_cons. tauto. }
    assert (Hagree2 : agree d2 d7 [dib; l1]).
    { eapply agree_weaken.
      - apply (agree_trans _ d3 _ [dib] ([] ++ [l1] ++ [l1] ++ [dib])); [done|].
        apply (agree_trans _ d4 _ []); [by intros x b _ _ Hx; apply Hrd4|].
        apply (agree_trans _ d5 _ [l1]); [done|].
        apply (agree_trans _ d6 _ [l1]); done.
      - intros x Hx. simpl in Hx. clear -Hx. rewrite !elem_of_cons in Hx.
        rewrite !elem_of_cons. tauto. }
    assert (Hl1dib : l1 <> dib) by (intros ->; apply Hl1fresh; left).
    assert (Hl1id : l1 <> id) by (intros ->; apply Hl1fresh; right; left).
    assert (Hdibid : dib <> id) by (intros ->; apply Hdibfresh; left).
    split; loc_simpl; unfold file_structure; loc_simpl; fold ib;
      rewrite ?length_app, ?(opt_block_some ib), ?(opt_block_some dib) by done;
      simpl length.
    + eapply actx_perm; [|exact Hc7]. solve_Permutation.
    + intros _. rewrite Hz7, Hz6, Hz5.
      apply (actx_zero_keep d0 d3 _ d4 _ Hc3 Hc4); [|done]. intros x Hx. by right.
    + lia.
    + apply Forall_app. split; [done|]. by constructor.
    + lia.
    + lia.
    + done.
    + done.
    + apply size_step; [done|lia|done|done].
    + done.
    + lia.
    + unfold live_direct_blocks in *. loc_simpl. rewrite Hdir.
      rewrite take_app_le by lia. done.
    + done.
    + apply pad_ids_length. rewrite length_app. simpl. lia.
    + rewrite decide_False by lia. split_and!; [done|lia|].
      rewrite drop_app_le by lia. rewrite take_app_le by (rewrite length_drop; lia).
      destruct (Hold ib) as [? ?]; [apply elem_of_app; right; left|].
      by apply (agree_load_ints _ _ _ _ _ Hagree).
    + rewrite decide_False by lia. split_and!; [done|lia|lia|lia|done|].
      intros j b id' Hb Hid'.
      destruct (decide (j < length l1s)%nat) as [Hj|Hj].
      * rewrite lookup_app_l in Hb by lia. rewrite lookup_app_l in Hid' by lia.
        destruct (Hold b) as [? ?].
        { apply elem_of_app. right. right. by eapply list_elem_of_lookup_2. }
        apply (agree_load_ints _ _ _ _ _ Hagree); [done..|]. by eapply Hl1.
      * assert (j = length l1s) as ->.
        { apply lookup_lt_Some in Hb. rewrite length_app in Hb. simpl in Hb. lia. }
        rewrite lookup_app_r in Hb by lia. rewrite Nat.sub_diag in Hb.
        rewrite lookup_app_r in Hid' by lia.
        replace (2041 + length l1s - length ids)%nat with 0%nat in Hid' by lia.
        simpl in Hb, Hid'. simplify_eq.
        apply (agree_load_ints d6 d7 [dib]); [done|done| |done].
        by intros E%list_elem_of_singleton.
    + apply (li_data_step (l_disk l) _ [id; dib; l1]); try done.
      * intros x Hx. apply Hold. apply elem_of_app. by left.
      * apply Hagree2; [done| |done].
        intros [E|[E|?%elem_of_nil]%elem_of_cons]%elem_of_cons; done.
    + rewrite <- app_assoc, drop_1_app by done.
      rewrite drop_1_app in Hnz by done. apply Forall_app in Hnz as [Hnz1 Hnz2].
      apply Forall_app. split; [done|].
      apply Forall_cons in Hnz2 as [Hibnz Hnz2]. apply Forall_app in Hnz2 as [_ Hnz2].
      repeat first [apply Forall_cons; split; [done|] | apply Forall_app; split]; try done.
Qed.

(** The 3066th block: the double indirect array is indexed past its end. *)
Lemma add_block_overflow d0 chunks l ids l1s c :
  loop_inv d0 chunks l ids l1s ->
  Z.of_nat (length (data_segs d0)) + 4100 <= MAX_SEGMENTS ->
  Z.of_nat (length c) <= BLOCK_SIZE ->
  length ids = 3065%nat ->
  add_block l c = Undefined.
Proof.
  intros Hinv Hroom Hc Hk.
  pose proof (file_structure_length _ _ _ _ _ Hinv) as HS.
  destruct Hinv as [Hctx Hzero Hch Hcl Htot Hbd Hty Htr Hsz Hdl Hnd Hdir Hib Hdb Hsi Hdo Hdat Hnz].
  rewrite decide_False in Hdo by lia. destruct Hdo as (Hdbl & Hl1c & Hl2c & _).
  destruct (actx_alloc_write d0 _ _ (data_buffer c) Hctx ltac:(lia) (data_buffer_length c Hc))
    as (id & d1 & d2 & Ha & Hne & Hnin & Hw & Hr & Hag & Hnz0 & Hz2 & Hc2).
  unfold add_block. rewrite Ha. cbn [alloc_or_stop bind]. rewrite decide_False by done.
  cbn [bind]. fold (data_buffer c). rewrite Hw.
  rewrite decide_False by (rewrite Htot; unfold MAX_DIRECT_BLOCKS; lia).
  rewrite decide_False
    by (rewrite Htot; unfold MAX_DIRECT_BLOCKS; rewrite PTRS_PER_BLOCK_eq, int32_small; lia).
  unfold place_double. rewrite decide_False by done. cbn [bind].
  rewrite decide_False by (rewrite PTRS_PER_BLOCK_eq; lia).
  unfold arr_read at 1. rewrite decide_False by (rewrite PTRS_PER_BLOCK_eq; lia).
  reflexivity.
Qed.

(** One iteration, whatever the range. *)
Lemma add_block_step d0 chunks l ids l1s c :
  loop_inv d0 chunks l ids l1s ->
  Z.of_nat (length (data_segs d0)) + 4100 <= MAX_SEGMENTS ->
  Z.of_nat (length c) <= BLOCK_SIZE ->
  (length ids < 3065)%nat ->
  exists l' ids' l1s', add_block l c = Ok l' /\ loop_inv d0 (chunks ++ [c]) l' ids' l1s'.
Proof.
  intros Hinv Hroom Hc Hk.
  destruct (decide (length ids < 1017)%nat) as [H1|H1].
  { destruct (add_block_direct _ _ _ _ _ _ Hinv Hroom Hc H1) as (l' & id & H & H').
    by exists l', (ids ++ [id]), l1s. }
  destruct (decide (length ids < 2041)%nat) as [H2|H2].
  { destruct (add_block_single _ _ _ _ _ _ Hinv Hroom Hc ltac:(lia)) as (l' & id & H & H').
    by exists l', (ids ++ [id]), l1s. }
  destruct (add_block_double _ _ _ _ _ _ Hinv Hroom Hc ltac:(lia)) as (l' & id & l1 & H & H').
  by exists l', (ids ++ [id]), (l1s ++ [l1]).
Qed.

(** The loop over [chunks'], from a state of the loop. *)
Lemma add_blocks_from d0 chunks' : forall chunks l ids l1s,
  loop_inv d0 chunks l ids l1s ->
  Z.of_nat (length (data_segs d0)) + 4100 <= MAX_SEGMENTS ->
  Forall (fun c => Z.of_nat (length c) <= BLOCK_SIZE) chunks' ->
  (length ids + length chunks' <= 3065)%nat ->
  exists l' ids' l1s', add_blocks l chunks' = Ok l' /\
                       loop_inv d0 (chunks ++ chunks') l' ids' l1s'.
Proof.
  induction chunks' as [|c rest IH]; intros chunks l ids l1s Hinv Hroom Hcl Hn.
  - exists l, ids, l1s. rewrite app_nil_r. done.
  - inversion Hcl as [|? ? Hc Hrest]; subst. simpl in Hn.
    destruct (add_block_step _ _ _ _ _ _ Hinv Hroom Hc ltac:(lia)) as (l1 & ids1 & l1s1 & H1 & Hinv1).
    pose proof (li_chunks _ _ _ _ _ Hinv) as Hlen.
    pose proof (li_chunks _ _ _ _ _ Hinv1) as Hlen1. rewrite length_app in Hlen1. simpl in Hlen1.
    destruct (IH _ _ _ _ Hinv1 Hroom Hrest ltac:(lia)) as (l' & ids' & l1s' & H' & Hinv').
    exists l', ids', l1s'. split.
    + simpl. rewrite H1. done.
    + by rewrite <- app_assoc in Hinv'.
Qed.

Lemma add_blocks_overflow d0 chunks' : forall chunks l ids l1s,
  loop_inv d0 chunks l ids l1s ->
  Z.of_nat (length (data_segs d0)) + 4100 <= MAX_SEGMENTS ->
  Forall (fun c => Z.of_nat (length c) <= BLOCK_SIZE) chunks' ->
  (3065 < length ids + length chunks')%nat ->
  add_blocks l chunks' = Undefined.
Proof.
  induction chunks' as [|c rest IH]; intros chunks l ids l1s Hinv Hroom Hcl Hn.
  - pose proof (li_bound _ _ _ _ _ Hinv). simpl in Hn. lia.
  - inversion Hcl as [|? ? Hc Hrest]; subst. simpl in Hn. simpl.
    destruct (decide (length ids = 3065)%nat) as [Hk|Hk].
    + by rewrite (add_block_overflow _ _ _ _ _ _ Hinv Hroom Hc Hk).
    + pose proof (li_bound _ _ _ _ _ Hinv).
      destruct (add_block_step _ _ _ _ _ _ Hinv Hroom Hc ltac:(lia))
        as (l1 & ids1 & l1s1 & H1 & Hinv1).
      pose proof (li_chunks _ _ _ _ _ Hinv) as Hlen.
      pose proof (li_chunks _ _ _ _ _ Hinv1) as Hlen1. rewrite length_app in Hlen1.
      simpl in Hlen1. rewrite H1. cbn [bind].
      apply (IH _ _ _ _ Hinv1 Hroom Hrest). lia.
Qed.

(** The whole loop of one [exfs2_add]. *)
Lemma add_blocks_ok d0 chunks :
  wf_disk d0 ->
  Z.of_nat (length (data_segs d0)) + 4100 <= MAX_SEGMENTS ->
  Forall (fun c => Z.of_nat (length c) <= BLOCK_SIZE) chunks ->
  (length chunks <= 3065)%nat ->
  exists l ids l1s, add_blocks (initial_locals d0) chunks = Ok l /\
                    loop_inv d0 chunks l ids l1s.
Proof.
  intros Hwf Hroom Hcl Hn.
  apply (add_blocks_from d0 chunks [] _ [] [] (loop_inv_init d0 Hwf) Hroom Hcl). simpl. lia.
Qed.

Lemma add_blocks_too_long d0 chunks :
  wf_disk d0 ->
  Z.of_nat (length (data_segs d0)) + 4100 <= MAX_SEGMENTS ->
  Forall (fun c => Z.of_nat (length c) <= BLOCK_SIZE) chunks ->
  (3065 < length chunks)%nat ->
  add_blocks (initial_locals d0) chunks = Undefined.
Proof.
  intros Hwf Hroom Hcl Hn.
  apply (add_blocks_overflow d0 chunks [] _ [] [] (loop_inv_init d0 Hwf) Hroom Hcl). simpl. lia.
Qed.

(** ** The block map of a file *)

(** Slot [i] of the array of ids stored in block [block_id]. *)
Definition slot (d : disk) (block_id i : Z) : option Z :=
  match load_ints d block_id with
  | Some a => zget a i
  | None => None
  end.

(** The block map as the specification words it: the physical block of
    logical block [L], with D = [MAX_DIRECT_BLOCKS] and P =
    [PTRS_PER_BLOCK]. *)
Definition spec_block_map (d : disk) (ino : inode_t) (L : Z) : option Z :=
  let D := MAX_DIRECT_BLOCKS in
  let P := PTRS_PER_BLOCK in
  if decide (L < D) then zget (direct_blocks ino) L
  else if decide (L < D + P) then slot d (indirect_block ino) (L - D)
  else
    match slot d (double_indirect_block ino) ((L - D - P) / P) with
    | Some b => slot d b ((L - D - P) mod P)
    | None => None
    end.

Lemma slot_pad_in d b ids i x :
  load_ints d b = Some (pad_ids ids) -> ids !! i = Some x ->
  slot d b (Z.of_nat i) = Some x.
Proof. intros H Hi. unfold slot. rewrite H. by apply pad_ids_lookup_in. Qed.

Lemma slot_pad_out d b ids i :
  load_ints d b = Some (pad_ids ids) -> (length ids <= i < 1024)%nat ->
  slot d b (Z.of_nat i) = Some 0.
Proof. intros H Hi. unfold slot. rewrite H. by apply pad_ids_lookup_out. Qed.

(** Where the loop has put the data blocks. *)
Lemma loop_inv_direct d0 chunks l ids l1s (L : nat) id :
  loop_inv d0 chunks l ids l1s -> ids !! L = Some id -> (L < 1017)%nat ->
  zget (direct_blocks (file_inode l)) (Z.of_nat L) = Some id.
Proof.
  intros Hinv Hid HL. pose proof (li_direct _ _ _ _ _ Hinv) as Hd.
  unfold live_direct_blocks in Hd. unfold zget. rewrite decide_True by lia. rewrite Nat2Z.id.
  assert (take 1017 ids !! L = Some id) as Ht by (by rewrite lookup_take_lt).
  rewrite <- Hd in Ht. by apply lookup_take_Some in Ht as [? _].
Qed.

Lemma loop_inv_single d0 chunks l ids l1s (L : nat) id :
  loop_inv d0 chunks l ids l1s -> ids !! L = Some id -> (1017 <= L < 2041)%nat ->
  slot (l_disk l) (indirect_block (file_inode l)) (Z.of_nat L - 1017) = Some id.
Proof.
  intros Hinv Hid HL. pose proof (li_single _ _ _ _ _ Hinv) as Hs.
  apply lookup_lt_Some in Hid as Hlt.
  rewrite decide_False in Hs by lia. destruct Hs as (_ & _ & Hload).
  replace (Z.of_nat L - 1017) with (Z.of_nat (L - 1017)) by lia.
  apply (slot_pad_in _ _ _ _ _ Hload).
  rewrite lookup_take_lt by lia. rewrite lookup_drop.
  by replace (1017 + (L - 1017))%nat with L by lia.
Qed.

Lemma loop_inv_double d0 chunks l ids l1s (L : nat) id :
  loop_inv d0 chunks l ids l1s -> ids !! L = Some id -> (2041 <= L)%nat ->
  exists b, l1s !! (L - 2041)%nat = Some b /\ b <> 0 /\ id <> 0 /\
            slot (l_disk l) (double_indirect_block (file_inode l)) (Z.of_nat L - 2041) = Some b /\
            load_ints (l_disk l) b = Some (pad_ids [id]).
Proof.
  intros Hinv Hid HL. pose proof (li_double _ _ _ _ _ Hinv) as Hs.
  apply lookup_lt_Some in Hid as Hlt.
  rewrite decide_False in Hs by lia. destruct Hs as (_ & _ & _ & Hlen & Hload & Hl1).
  destruct (lookup_lt_is_Some_2 l1s (L - 2041)) as [b Hb]; [lia|].
  pose proof (li_nonzero _ _ _ _ _ Hinv) as Hnz. unfold file_structure in Hnz.
  assert (Hne0 : ids <> []) by (intros ->; done).
  rewrite drop_1_app in Hnz by done. apply Forall_app in Hnz as [Hnz1 Hnz2].
  rewrite !Forall_app in Hnz2. destruct Hnz2 as (_ & _ & Hnz2).
  exists b. split_and!; try done.
  - rewrite Forall_forall in Hnz2. apply Hnz2. by eapply list_elem_of_lookup_2.
  - rewrite Forall_forall in Hnz1. apply Hnz1.
    apply (list_elem_of_lookup_2 _ (L - 1)). rewrite lookup_drop.
    by replace (1 + (L - 1))%nat with L by lia.
  - replace (Z.of_nat L - 2041) with (Z.of_nat (L - 2041)) by lia.
    by apply (slot_pad_in _ _ _ _ _ Hload).
  - apply (Hl1 (L - 2041)%nat); [done|].
    by replace (2041 + (L - 2041))%nat with L by lia.
Qed.

(** C2 (file block map contract).  The write loop of [exfs2_add] stores
    the chunks of a file of at most 3065 blocks in blocks [ids]; logical
    block [L] is at the position the specification gives only up to
    L = D + P.  Past it the loop opens a new level 1 block for every data
    block: block [L] is in slot 0 of the level 1 block named by slot
    L - D - P of the double indirect block, and the slot the specification
    names holds 0. *)
Theorem add_blocks_block_map d0 chunks :
  wf_disk d0 ->
  Z.of_nat (length (data_segs d0)) + 4100 <= MAX_SEGMENTS ->
  Forall (fun c => Z.of_nat (length c) <= BLOCK_SIZE) chunks ->
  (length chunks <= 3065)%nat ->
  exists l ids,
    add_blocks (initial_locals d0) chunks = Ok l /\
    length ids = length chunks /\
    (forall L c id, chunks !! L = Some c -> ids !! L = Some id ->
                    read_block (l_disk l) id = Some (data_buffer c)) /\
    forall (L : nat) id, ids !! L = Some id ->
      if decide (L <= 2041)%nat
      then spec_block_map (l_disk l) (file_inode l) (Z.of_nat L) = Some id
      else id <> 0 /\
           spec_block_map (l_disk l) (file_inode l) (Z.of_nat L) = Some 0 /\
           exists b, slot (l_disk l) (double_indirect_block (file_inode l))
                          (Z.of_nat L - 2041) = Some b /\
                     slot (l_disk l) b 0 = Some id.
Proof.
  intros Hwf Hroom Hcl Hn.
  destruct (add_blocks_ok d0 chunks Hwf Hroom Hcl Hn) as (l & ids & l1s & Hadd & Hinv).
  exists l, ids. split_and!; [done|by rewrite (li_chunks _ _ _ _ _ Hinv)|apply Hinv|].
  intros L id Hid. apply lookup_lt_Some in Hid as Hlt.
  pose proof (li_chunks _ _ _ _ _ Hinv) as Hlen.
  unfold spec_block_map. cbv zeta. unfold MAX_DIRECT_BLOCKS. rewrite PTRS_PER_BLOCK_eq.
  destruct (decide (L <= 2041)%nat) as [HL|HL].
  - destruct (decide (Z.of_nat L < 1017)) as [H1|H1].
    { apply (loop_inv_direct _ _ _ _ _ _ _ Hinv Hid). lia. }
    destruct (decide (Z.of_nat L < 1017 + 1024)) as [H2|H2].
    { apply (loop_inv_single _ _ _ _ _ _ _ Hinv Hid). lia. }
    assert (L = 2041%nat) as -> by lia.
    destruct (loop_inv_double _ _ _ _ _ _ _ Hinv Hid ltac:(lia)) as (b & _ & _ & _ & Hb & Hlb).
    change (Z.of_nat 2041 - 1017 - 1024) with 0. change (0 / 1024) with 0. change (0 mod 1024) with 0.
    change (Z.of_nat 2041 - 2041) with 0 in Hb. rewrite Hb.
    by apply (slot_pad_in _ _ _ 0%nat _ Hlb).
  - rewrite decide_False by lia. rewrite decide_False by lia.
    destruct (loop_inv_double _ _ _ _ _ _ _ Hinv Hid ltac:(lia)) as (b & _ & _ & Hidnz & Hb & Hlb).
    split_and!; [done| |].
    + destruct (lookup_lt_is_Some_2 ids 2041) as [id0 Hid0]; [lia|].
      destruct (loop_inv_double _ _ _ _ _ _ _ Hinv Hid0 ltac:(lia)) as (b0 & _ & _ & _ & Hb0 & Hlb0).
      rewrite Z.div_small by lia. rewrite Z.mod_small by lia.
      change (Z.of_nat 2041 - 2041) with 0 in Hb0. rewrite Hb0.
      replace (Z.of_nat L - 1017 - 1024) with (Z.of_nat (L - 2041)) by lia.
      apply (slot_pad_out _ _ _ _ Hlb0). simpl. lia.
    + exists b. split; [done|]. by apply (slot_pad_in _ _ _ 0%nat _ Hlb).
Qed.

(** A file of 2043 one-byte reads: two blocks past the single indirect
    range. *)
Definition chunks_2043 : list (list byte) := repeat [x41] 2043.

Lemma chunks_2043_length : Forall (fun c => Z.of_nat (length c) <= BLOCK_SIZE) chunks_2043.
Proof.
  apply List.Forall_forall. intros c Hc%repeat_spec. subst. simpl. unfold BLOCK_SIZE. lia.
Qed.

Lemma add_blocks_block_map_witness :
  exists l ids,
    add_blocks (initial_locals (init_fs empty_disk)) chunks_2043 = Ok l /\
    length ids = length chunks_2043 /\
    (forall L c id, chunks_2043 !! L = Some c -> ids !! L = Some id ->
                    read_block (l_disk l) id = Some (data_buffer c)) /\
    forall (L : nat) id, ids !! L = Some id ->
      if decide (L <= 2041)%nat
      then spec_block_map (l_disk l) (file_inode l) (Z.of_nat L) = Some id
      else id <> 0 /\
           spec_block_map (l_disk l) (file_inode l) (Z.of_nat L) = Some 0 /\
           exists b, slot (l_disk l) (double_indirect_block (file_inode l))
                          (Z.of_nat L - 2041) = Some b /\
                     slot (l_disk l) b 0 = Some id.
Proof.
  apply (add_blocks_block_map (init_fs empty_disk) chunks_2043).
  - apply wf_init_fs_empty.
  - vm_compute. discriminate.
  - apply chunks_2043_length.
  - unfold chunks_2043. rewrite repeat_length. lia.
Defined.

(** Logical block 2042 of that file: the specification's position holds
    0, the block is elsewhere. *)
Example block_2042_misplaced :
  exists l id,
    add_blocks (initial_locals (init_fs empty_disk)) chunks_2043 = Ok l /\
    read_block (l_disk l) id = Some (data_buffer [x41]) /\ id <> 0 /\
    spec_block_map (l_disk l) (file_inode l) 2042 = Some 0.
Proof.
  remember (add_blocks (initial_locals (init_fs empty_disk)) chunks_2043) as r eqn:Er.
  destruct (add_blocks_block_map (init_fs empty_disk) chunks_2043)
    as (l & ids & Hadd & Hlen & Hdata & Hmap).
  - apply wf_init_fs_empty.
  - vm_compute. discriminate.
  - apply chunks_2043_length.
  - unfold chunks_2043. rewrite repeat_length. lia.
  - rewrite <- Er in Hadd. clear Er.
    unfold chunks_2043 in Hlen. rewrite repeat_length in Hlen.
    destruct (lookup_lt_is_Some_2 ids 2042) as [id Hid]; [lia|].
    exists l, id. specialize (Hmap 2042%nat id Hid).
    rewrite decide_False in Hmap by lia. destruct Hmap as (Hnz & Hspec & _).
    split; [exact Hadd|]. split; [|split; [exact Hnz|exact Hspec]].
    apply (Hdata 2042%nat [x41] id); [|exact Hid].
    unfold chunks_2043. apply lookup_repeat. lia.
Qed.

(** * Further properties of the operations *)

(** ** Bitmaps *)

(** X1.  [find_free_bit] returns the lowest clear bit among the first
    [num_bits] bits of the bitmap, and -1 exactly when every one of them is
    set. *)
Theorem find_free_bit_lowest bitmap num_bits :
  0 <= num_bits ->
  (find_free_bit bitmap num_bits = -1 /\
   forall j, 0 <= j < num_bits -> bit_is_clear bitmap j = false) \/
  (0 <= find_free_bit bitmap num_bits < num_bits /\
   bit_is_clear bitmap (find_free_bit bitmap num_bits) = true /\
   forall j, 0 <= j < find_free_bit bitmap num_bits -> bit_is_clear bitmap j = false).
Proof.
  intros Hn. destruct (find_free_bit_spec bitmap num_bits Hn) as [[Hr Hall]|(Hr & Hc & Hlow)].
  - left. split; [done|]. intros j Hj. apply Hall in Hj. unfold test_bit in Hj.
    by apply negb_true_iff in Hj.
  - right. split_and!; [lia|lia| |].
    + unfold test_bit in Hc. by apply negb_false_iff in Hc.
    + intros j Hj. apply Hlow in Hj. unfold test_bit in Hj. by apply negb_true_iff in Hj.
Qed.

Lemma find_free_bit_lowest_witness :
  (find_free_bit [xff; x01] 16 = -1 /\
   forall j, 0 <= j < 16 -> bit_is_clear [xff; x01] j = false) \/
  (0 <= find_free_bit [xff; x01] 16 < 16 /\
   bit_is_clear [xff; x01] (find_free_bit [xff; x01] 16) = true /\
   forall j, 0 <= j < find_free_bit [xff; x01] 16 -> bit_is_clear [xff; x01] j = false).
Proof. apply (find_free_bit_lowest [xff; x01] 16). lia. Defined.

(** X2.  [set_bit] sets bit [i] of the bitmap and [clear_bit] clears it;
    both leave every other bit, and the length of the bitmap, as they
    were. *)
Theorem set_bit_clear_bit_exact bitmap i j :
  0 <= i < 8 * Z.of_nat (length bitmap) -> 0 <= j ->
  bit_is_clear (set_bit bitmap i) j
  = (if decide (i = j) then false else bit_is_clear bitmap j) /\
  bit_is_clear (clear_bit bitmap i) j
  = (if decide (i = j) then true else bit_is_clear bitmap j) /\
  length (set_bit bitmap i) = length bitmap /\
  length (clear_bit bitmap i) = length bitmap.
Proof.
  intros Hi Hj.
  pose proof (test_bit_set_bit bitmap i j Hi Hj) as Hs.
  pose proof (test_bit_clear_bit bitmap i j Hi Hj) as Hc.
  unfold test_bit in Hs, Hc.
  split_and!.
  - destruct (decide (i = j)).
    + by apply negb_true_iff in Hs.
    + by destruct (bit_is_clear (set_bit bitmap i) j), (bit_is_clear bitmap j).
  - destruct (decide (i = j)).
    + by apply negb_false_iff in Hc.
    + by destruct (bit_is_clear (clear_bit bitmap i) j), (bit_is_clear bitmap j).
  - apply set_bit_length.
  - apply clear_bit_length.
Qed.

Lemma set_bit_clear_bit_exact_witness :
  bit_is_clear (set_bit [x00; x00] 9) 9
  = (if decide (9 = 9) then false else bit_is_clear [x00; x00] 9) /\
  bit_is_clear (clear_bit [x00; x00] 9) 9
  = (if decide (9 = 9) then true else bit_is_clear [x00; x00] 9) /\
  length (set_bit [x00; x00] 9) = length [x00; x00] /\
  length (clear_bit [x00; x00] 9) = length [x00; x00].
Proof. apply (set_bit_clear_bit_exact [x00; x00] 9 9); simpl; lia. Defined.

(** ** Block and inode stores *)

(** X3.  A block written with [write_block] is what [read_block] returns
    for that id afterwards; every other block reads as before, and no
    bitmap bit or inode segment changes. *)
Theorem write_block_then_read d block_id buffer :
  wf_disk d -> valid_block d block_id ->
  exists d',
    write_block d block_id buffer = Some d' /\
    read_block d' block_id = Some buffer /\
    (forall x, 0 <= x -> x <> block_id -> read_block d' x = read_block d x) /\
    (forall x, block_bit d' x = block_bit d x) /\
    inode_segs d' = inode_segs d.
Proof.
  intros Hwf Hv. destruct (write_block_valid d block_id buffer Hv) as [d' Hw].
  destruct Hv as [Hid _]. exists d'. split_and!; [done| | | |].
  - rewrite (read_block_write_block _ _ _ _ Hw) by done. by rewrite decide_True.
  - intros x Hx Hne. rewrite (read_block_write_block _ _ _ _ Hw) by done.
    by rewrite decide_False.
  - intros x. by apply (write_block_bit _ _ _ _ Hw).
  - by apply (write_block_inode_segs _ _ _ _ Hw).
Qed.

Lemma write_block_then_read_witness :
  exists d',
    write_block (init_fs empty_disk) 3 [x41] = Some d' /\
    read_block d' 3 = Some [x41] /\
    (forall x, 0 <= x -> x <> 3 -> read_block d' x = read_block (init_fs empty_disk) x) /\
    (forall x, block_bit d' x = block_bit (init_fs empty_disk) x) /\
    inode_segs d' = inode_segs (init_fs empty_disk).
Proof.
  apply (write_block_then_read (init_fs empty_disk) 3 [x41]).
  - apply wf_init_fs_empty.
  - vm_compute. split; discriminate || reflexivity.
Defined.

(** X4.  A block id past the last data segment cannot be read or written,
    and freeing it changes nothing. *)
Theorem block_past_last_segment d block_id buffer :
  blocks_per_segment * Z.of_nat (length (data_segs d)) <= block_id ->
  read_block d block_id = None /\
  write_block d block_id buffer = None /\
  free_block d block_id = d.
Proof.
  intros H. rewrite blocks_per_segment_eq in H.
  assert (zget (data_segs d) (Z.quot block_id blocks_per_segment) = None) as Hz.
  { apply zget_None. rewrite blocks_per_segment_eq. zlia. }
  unfold read_block, write_block, free_block. by rewrite Hz.
Qed.

Lemma block_past_last_segment_witness :
  read_block (init_fs empty_disk) 255 = None /\
  write_block (init_fs empty_disk) 255 [x41] = None /\
  free_block (init_fs empty_disk) 255 = init_fs empty_disk.
Proof.
  apply (block_past_last_segment (init_fs empty_disk) 255 [x41]).
  vm_compute. discriminate.
Defined.

(** X5.  An inode written with [write_inode] is what [read_inode] returns
    for that number afterwards; every other inode reads as before, and no
    bitmap bit or data segment changes. *)
Theorem write_inode_then_read d inode_num ino :
  wf_disk d -> valid_inode d inode_num ->
  exists d',
    write_inode d inode_num ino = Some d' /\
    read_inode d' inode_num = Some ino /\
    (forall x, 0 <= x -> x <> inode_num -> read_inode d' x = read_inode d x) /\
    (forall x, inode_bit d' x = inode_bit d x) /\
    data_segs d' = data_segs d.
Proof.
  intros Hwf Hv. destruct (write_inode_valid d inode_num ino Hv) as [d' Hw].
  destruct Hv as [Hn _]. exists d'. split_and!; [done| | | |].
  - rewrite (read_inode_write_inode _ _ _ _ Hw) by done. by rewrite decide_True.
  - intros x Hx Hne. rewrite (read_inode_write_inode _ _ _ _ Hw) by done.
    by rewrite decide_False.
  - intros x. by apply (write_inode_bit _ _ _ _ Hw).
  - by apply (write_inode_data_segs _ _ _ _ Hw).
Qed.

Lemma write_inode_then_read_witness :
  exists d',
    write_inode (init_fs empty_disk) 7 (fresh_inode INODE_FILE) = Some d' /\
    read_inode d' 7 = Some (fresh_inode INODE_FILE) /\
    (forall x, 0 <= x -> x <> 7 -> read_inode d' x = read_inode (init_fs empty_disk) x) /\
    (forall x, inode_bit d' x = inode_bit (init_fs empty_disk) x) /\
    data_segs d' = data_segs (init_fs empty_disk).
Proof.
  apply (write_inode_then_read (init_fs empty_disk) 7 (fresh_inode INODE_FILE)).
  - apply wf_init_fs_empty.
  - vm_compute. split; discriminate || reflexivity.
Defined.

(** X6.  An inode number past the last inode segment cannot be read or
    written, and freeing it changes nothing. *)
Theorem inode_past_last_segment d inode_num ino :
  num_inodes_per_segment * Z.of_nat (length (inode_segs d)) <= inode_num ->
  read_inode d inode_num = None /\
  write_inode d inode_num ino = None /\
  free_inode d inode_num = d.
Proof.
  intros H. rewrite num_inodes_per_segment_eq in H.
  assert (zget (inode_segs d) (Z.quot inode_num num_inodes_per_segment) = None) as Hz.
  { apply zget_None. rewrite num_inodes_per_segment_eq. zlia. }
  unfold read_inode, write_inode, free_inode. by rewrite Hz.
Qed.

Lemma inode_past_last_segment_witness :
  read_inode (init_fs empty_disk) 254 = None /\
  write_inode (init_fs empty_disk) 254 zero_inode = None /\
  free_inode (init_fs empty_disk) 254 = init_fs empty_disk.
Proof.
  apply (inode_past_last_segment (init_fs empty_disk) 254 zero_inode).
  vm_compute. discriminate.
Defined.

(** X7.  [allocate_block] is first fit and never fails while the segment
    count stays in the [int] range: it returns the lowest block id whose
    bit is clear, other than -1, sets that bit and no other, keeps every
    readable block and every inode segment as they were, and makes the id
    readable, adding at most one data segment. *)
Theorem allocate_block_first_fit d :
  wf_disk d -> Z.of_nat (length (data_segs d)) <= MAX_SEGMENTS ->
  exists block_id d',
    allocate_block d = Some (block_id, d') /\
    block_id <> -1 /\ 0 <= block_id /\
    block_bit d block_id = false /\
    (forall x, 0 <= x < block_id -> block_bit d x = true) /\
    (forall x, 0 <= x ->
               block_bit d' x = if decide (x = block_id) then true else block_bit d x) /\
    (forall x b, read_block d x = Some b -> read_block d' x = Some b) /\
    is_Some (read_block d' block_id) /\
    inode_segs d' = inode_segs d /\
    (length (data_segs d) <= length (data_segs d') <= length (data_segs d) + 1)%nat.
Proof.
  intros Hwf Hmax.
  destruct (allocate_block_ok d Hwf Hmax) as (id & d' & Ha & Hp).
  destruct Hp as [Pid Pv Pf P1 Pb Pi Pr Pwf Pl].
  exists id, d'. split_and!; try done; try lia.
  by apply read_block_valid.
Qed.

Lemma allocate_block_first_fit_witness :
  exists block_id d',
    allocate_block (init_fs empty_disk) = Some (block_id, d') /\
    block_id <> -1 /\ 0 <= block_id /\
    block_bit (init_fs empty_disk) block_id = false /\
    (forall x, 0 <= x < block_id -> block_bit (init_fs empty_disk) x = true) /\
    (forall x, 0 <= x ->
               block_bit d' x
               = if decide (x = block_id) then true else block_bit (init_fs empty_disk) x) /\
    (forall x b, read_block (init_fs empty_disk) x = Some b -> read_block d' x = Some b) /\
    is_Some (read_block d' block_id) /\
    inode_segs d' = inode_segs (init_fs empty_disk) /\
    (length (data_segs (init_fs empty_disk)) <= length (data_segs d')
     <= length (data_segs (init_fs empty_disk)) + 1)%nat.
Proof.
  apply (allocate_block_first_fit (init_fs empty_disk)).
  - apply wf_init_fs_empty.
  - vm_compute. discriminate.
Defined.

(** X8.  [free_block] clears the bit of the block and nothing else: every
    other bit, the content of every block with an id that is not negative
    (the freed one included) and the inode segments stay. *)
Theorem free_block_clears_only_bit d block_id :
  wf_disk d -> 0 <= block_id ->
  (forall x, 0 <= x ->
             block_bit (free_block d block_id) x
             = if decide (x = block_id) then false else block_bit d x) /\
  (forall x, 0 <= x -> read_block (free_block d block_id) x = read_block d x) /\
  inode_segs (free_block d block_id) = inode_segs d.
Proof.
  intros Hwf Hid. split_and!.
  - intros x Hx. by apply block_bit_free_block.
  - intros x _. apply read_block_free_block.
  - apply inode_segs_free_block.
Qed.

Lemma free_block_clears_only_bit_witness :
  (forall x, 0 <= x ->
             block_bit (free_block fs_with_a 0) x
             = if decide (x = 0) then false else block_bit fs_with_a x) /\
  (forall x, 0 <= x -> read_block (free_block fs_with_a 0) x = read_block fs_with_a x) /\
  inode_segs (free_block fs_with_a 0) = inode_segs fs_with_a.
Proof. apply (free_block_clears_only_bit fs_with_a 0); [apply wf_fs_with_a|lia]. Defined.

(** X9.  Space is reused: after [free_block] of an existing block, the next
    [allocate_block] returns that id or a lower one. *)
Theorem allocate_after_free_block d block_id :
  wf_disk d -> valid_block d block_id ->
  Z.of_nat (length (data_segs d)) <= MAX_SEGMENTS ->
  exists id' d',
    allocate_block (free_block d block_id) = Some (id', d') /\
    0 <= id' <= block_id.
Proof.
  intros Hwf [Hid Hlt] Hmax.
  destruct (allocate_block_ok (free_block d block_id)) as (id' & d' & Ha & Hp).
  - by apply wf_free_block.
  - by rewrite length_data_segs_free_block.
  - exists id', d'. split; [done|].
    destruct Hp as [Pid _ _ P1 _ _ _ _ _]. split; [lia|].
    destruct (decide (id' <= block_id)) as [|Hgt]; [done|].
    specialize (P1 block_id ltac:(lia)).
    rewrite block_bit_free_block, decide_True in P1 by done. done.
Qed.

Lemma allocate_after_free_block_witness :
  exists id' d',
    allocate_block (free_block fs_with_a 0) = Some (id', d') /\
    0 <= id' <= 0.
Proof.
  apply (allocate_after_free_block fs_with_a 0).
  - apply wf_fs_with_a.
  - vm_compute. split; discriminate || reflexivity.
  - vm_compute. discriminate.
Defined.

(** X10.  [free_inode] clears the bit of the inode and nothing else: the
    record stays on disk and still reads as before, as do all other records
    with a number that is not negative, and the data segments. *)
Theorem free_inode_clears_only_bit d inode_num :
  wf_disk d -> 0 <= inode_num ->
  (forall x, 0 <= x ->
             inode_bit (free_inode d inode_num) x
             = if decide (x = inode_num) then false else inode_bit d x) /\
  (forall x, 0 <= x -> read_inode (free_inode d inode_num) x = read_inode d x) /\
  data_segs (free_inode d inode_num) = data_segs d.
Proof.
  intros Hwf Hn. split_and!.
  - intros x Hx. by apply inode_bit_free_inode.
  - intros x _. apply read_inode_free_inode.
  - apply data_segs_free_inode.
Qed.

Lemma free_inode_clears_only_bit_witness :
  (forall x, 0 <= x ->
             inode_bit (free_inode fs_with_a 1) x
             = if decide (x = 1) then false else inode_bit fs_with_a x) /\
  (forall x, 0 <= x -> read_inode (free_inode fs_with_a 1) x = read_inode fs_with_a x) /\
  data_segs (free_inode fs_with_a 1) = data_segs fs_with_a.
Proof. apply (free_inode_clears_only_bit fs_with_a 1); [apply wf_fs_with_a|lia]. Defined.

(** ** Start-up and the commands *)

Lemma init_fs_no_segment ds :
  init_fs (mk_disk [] ds) = mk_disk [root_inode_segment] (put_segment ds 0 zero_data_segment).
Proof. reflexivity. Qed.

Lemma zget_put_segment_0 {A} (segs : list A) (s : A) : zget (put_segment segs 0 s) 0 = Some s.
Proof.
  unfold put_segment. destruct segs as [|s0 l].
  - rewrite decide_False by (simpl; lia). reflexivity.
  - rewrite decide_True by (simpl length; lia). reflexivity.
Qed.

(** X11.  [init_fs] initialises once: run on the result of [init_fs], it
    changes nothing. *)
Theorem init_fs_idempotent d : init_fs (init_fs d) = init_fs d.
Proof.
  destruct d as [[|s0 l] ds].
  - rewrite init_fs_no_segment. reflexivity.
  - reflexivity.
Qed.

(** X12.  Without inode segment 0, [init_fs] creates the root directory:
    inode 0 is allocated, alone in its segment, it is a directory with no
    entry, and data block 0 is free and zeroed. *)
Theorem init_fs_creates_empty_root d :
  inode_segs d = [] ->
  read_inode (init_fs d) ROOT_DIR_INODE = Some (fresh_inode INODE_DIR) /\
  (forall x, 0 <= x -> inode_bit (init_fs d) x = bool_decide (x = ROOT_DIR_INODE)) /\
  (forall nm, find_entry_in_dir (init_fs d) (fresh_inode INODE_DIR) nm = -1) /\
  read_block (init_fs d) 0 = Some zero_block /\
  block_bit (init_fs d) 0 = false.
Proof.
  destruct d as [isegs ds]. simpl. intros ->. rewrite init_fs_no_segment. split_and!.
  - reflexivity.
  - intros x Hx. unfold inode_bit. cbn [inode_segs]. rewrite num_inodes_per_segment_eq.
    destruct (decide (x < 254)) as [Hlt|Hge].
    + replace (Z.quot x 254) with 0 by zlia. replace (Z.rem x 254) with x by zlia.
      change (zget [root_inode_segment] 0) with (Some root_inode_segment).
      by apply test_bit_root_bitmap.
    + replace (zget [root_inode_segment] (Z.quot x 254)) with (@None inode_segment).
      * symmetry. apply bool_decide_eq_false. unfold ROOT_DIR_INODE. lia.
      * symmetry. apply zget_None. simpl. zlia.
  - reflexivity.
  - unfold read_block. cbn [data_segs].
    change (Z.quot 0 blocks_per_segment) with 0. rewrite zget_put_segment_0. reflexivity.
  - unfold block_bit. cbn [data_segs].
    change (Z.quot 0 blocks_per_segment) with 0. rewrite zget_put_segment_0.
    apply test_bit_zero_bytes.
Qed.

Lemma init_fs_creates_empty_root_witness :
  read_inode (init_fs empty_disk) ROOT_DIR_INODE = Some (fresh_inode INODE_DIR) /\
  (forall x, 0 <= x -> inode_bit (init_fs empty_disk) x = bool_decide (x = ROOT_DIR_INODE)) /\
  (forall nm, find_entry_in_dir (init_fs empty_disk) (fresh_inode INODE_DIR) nm = -1) /\
  read_block (init_fs empty_disk) 0 = Some zero_block /\
  block_bit (init_fs empty_disk) 0 = false.
Proof. apply (init_fs_creates_empty_root empty_disk). reflexivity. Defined.

(** X13.  Every disk a sequence of commands produces keeps its segment
    files whole: each bitmap has 4096 bytes, each inode segment 254
    records, each data segment 255 blocks of 4096 bytes. *)
Theorem reachable_segments_whole d :
  reachable d ->
  Forall (fun s => Z.of_nat (length (ibitmap s)) = BLOCK_SIZE /\
                   Z.of_nat (length (inodes s)) = num_inodes_per_segment) (inode_segs d) /\
  Forall (fun s => Z.of_nat (length (dbitmap s)) = BLOCK_SIZE /\
                   Z.of_nat (length (blocks s)) = blocks_per_segment /\
                   Forall (fun b : block => Z.of_nat (length b) = BLOCK_SIZE) (blocks s))
         (data_segs d).
Proof.
  intros H. destruct (wf_reachable d H) as [Hi Hd Hb]. split; [exact Hi|].
  rewrite Forall_lookup in Hd, Hb. apply Forall_lookup. intros i s Hs.
  destruct (Hd i s Hs) as [? ?]. split_and!; [done..|]. by apply (Hb i s).
Qed.

Lemma reachable_segments_whole_witness :
  Forall (fun s => Z.of_nat (length (ibitmap s)) = BLOCK_SIZE /\
                   Z.of_nat (length (inodes s)) = num_inodes_per_segment)
         (inode_segs fs_with_a) /\
  Forall (fun s => Z.of_nat (length (dbitmap s)) = BLOCK_SIZE /\
                   Z.of_nat (length (blocks s)) = blocks_per_segment /\
                   Forall (fun b : block => Z.of_nat (length b) = BLOCK_SIZE) (blocks s))
         (data_segs fs_with_a).
Proof. apply (reachable_segments_whole fs_with_a). apply reachable_fs_with_a. Defined.

Lemma lookup_map {A B} (f : A -> B) (l : list A) : forall i, map f l !! i = f <$> l !! i.
Proof. induction l as [|x l IH]; intros [|i]; simpl; try done. Qed.

Lemma read_inode_records d d' n : records d' = records d -> read_inode d' n = read_inode d n.
Proof.
  intros H. unfold read_inode.
  set (q := Z.quot n num_inodes_per_segment).
  assert (inodes <$> zget (inode_segs d') q = inodes <$> zget (inode_segs d) q) as Hq.
  { unfold zget. destruct (decide (0 <= q)); [|done].
    rewrite <- !lookup_map. unfold records in H. by rewrite H. }
  destruct (zget (inode_segs d') q) as [s'|], (zget (inode_segs d) q) as [s|];
    simpl in Hq; try done. by injection Hq as ->.
Qed.

(** X14.  [exfs2_remove] never rewrites an inode record: whatever the path
    and however the command ends, every inode number that is not negative
    reads as it did before; removal only clears bitmap bits and the
    parent's entry. *)
Theorem exfs2_remove_keeps_inode_records fuel d path d' n :
  0 <= n ->
  disk_after (exfs2_remove fuel d path) = Some d' ->
  read_inode d' n = read_inode d n.
Proof. intros _ H. apply read_inode_records. by eapply records_exfs2_remove. Qed.

Lemma exfs2_remove_keeps_inode_records_witness :
  read_inode (disk_of (exfs2_remove 1 fs_with_a path_a)) 1 = read_inode fs_with_a 1.
Proof.
  apply (exfs2_remove_keeps_inode_records 1 fs_with_a path_a); [lia|].
  apply disk_after_disk_of. vm_compute. reflexivity.
Defined.

(** ** Paths *)

Lemma cstr_no_nul s : x00 ∉ cstr s.
Proof.
  induction s as [|c r IH]; simpl; [by intros ?%elem_of_nil|].
  destruct (decide (c = x00)); [by intros ?%elem_of_nil|].
  intros [E|H]%elem_of_cons; [done|by apply IH].
Qed.

Lemma strtok_all_tokens s : forall cur,
  SLASH ∉ cur ->
  Forall (fun t => t <> [] /\ (SLASH ∉ t) /\ forall c, c ∈ t -> c ∈ cur \/ c ∈ s)
         (strtok_all s cur).
Proof.
  induction s as [|c r IH]; intros cur Hcur; simpl.
  - destruct cur as [|c0 cur']; constructor; [|constructor].
    split_and!; [done|done|]. intros c Hc. by left.
  - destruct (decide (c = SLASH)) as [->|Hne].
    + assert (Forall (fun t => t <> [] /\ (SLASH ∉ t) /\
                               forall c, c ∈ t -> c ∈ cur \/ c ∈ SLASH :: r)
                     (strtok_all r [])) as Hrest.
      { eapply Forall_impl; [apply (IH []); by intros ?%elem_of_nil|].
        intros t (? & ? & Ht). split_and!; [done..|].
        intros c Hc. destruct (Ht c Hc) as [?%elem_of_nil|?]; [done|]. right. by right. }
      destruct cur as [|c0 cur']; [done|]. constructor; [|done].
      split_and!; [done|done|]. intros c Hc. by left.
    + eapply Forall_impl.
      * apply (IH (cur ++ [c])). intros [?|?%list_elem_of_singleton]%elem_of_app; [done|].
        by subst.
      * intros t (? & ? & Ht). split_and!; [done..|].
        intros c' Hc'. destruct (Ht c' Hc') as [[?|E]%elem_of_app|?].
        -- by left.
        -- apply list_elem_of_singleton in E as ->. right. left.
        -- right. by right.
Qed.


(** X15.  [split_path] hands back at most 32 components; each one is
    non-empty, at most 255 bytes long, and holds neither a '/' nor a NUL. *)
Theorem split_path_components path :
  (length (split_path path) <= 32)%nat /\
  Forall (fun part => part <> [] /\ (length part <= 255)%nat /\
                      (SLASH ∉ part) /\ (x00 ∉ part))
         (split_path path).
Proof.
  unfold split_path. destruct (decide _) as [|Hne]; [split; [simpl; lia|constructor]|].
  set (p := cstr path).
  set (start := match take (Z.to_nat (MAX_PATH - 1)) p with
                | [] => take (Z.to_nat (MAX_PATH - 1)) p
                | c :: r => if decide (c = SLASH) then r
                            else take (Z.to_nat (MAX_PATH - 1)) p
                end).
  assert (Hstart : forall c, c ∈ start -> c ∈ p).
  { intros c Hc. apply (subseteq_take (Z.to_nat (MAX_PATH - 1))). subst start.
    destruct (take _ p) as [|c0 r]; [done|].
    destruct (decide (c0 = SLASH)); [by right|done]. }
  split; [rewrite length_take; lia|].
  apply Forall_take, Forall_forall. intros part Hpart.
  apply list_elem_of_In, in_map_iff in Hpart as (t & <- & Ht%list_elem_of_In).
  pose proof (strtok_all_tokens start [] ltac:(by intros ?%elem_of_nil)) as Htok.
  rewrite Forall_forall in Htok. destruct (Htok t Ht) as (Hne0 & Hsl & Hin).
  split_and!.
  - destruct t; [done|]. by simpl.
  - rewrite length_take. unfold MAX_FILENAME. lia.
  - intros Hx. by apply Hsl, (subseteq_take (Z.to_nat (MAX_FILENAME - 1))).
  - intros Hx. apply (subseteq_take (Z.to_nat (MAX_FILENAME - 1))) in Hx.
    destruct (Hin _ Hx) as [?%elem_of_nil|Hs]; [done|].
    by apply (cstr_no_nul path), Hstart.
Qed.




(** ** Directories *)

(** X17.  [find_entry_in_dir] answers with the inode number of a live
    entry of that name in one of the directory's loadable blocks, and
    with -1 only when the inode is no directory or no live entry of those
    blocks has the name. *)
Theorem find_entry_in_dir_sound d dir_inode nm :
  (find_entry_in_dir d dir_inode nm <> -1 /\
   type dir_inode = INODE_DIR /\
   exists b es e,
     b ∈ live_direct_blocks dir_inode /\ load_directory_entries d b = Some es /\
     e ∈ es /\ inode_num e = find_entry_in_dir d dir_inode nm /\
     strcmp_eq (name e) nm = true) \/
  (find_entry_in_dir d dir_inode nm = -1 /\
   (type dir_inode <> INODE_DIR \/
    forall b es e,
      b ∈ live_direct_blocks dir_inode -> load_directory_entries d b = Some es ->
      e ∈ es -> inode_num e <> -1 -> strcmp_eq (name e) nm = false)).
Proof.
  unfold find_entry_in_dir. destruct (decide (type dir_inode = INODE_DIR)) as [Hty|Hty].
  - destruct (decide (find_in_blocks d (live_direct_blocks dir_inode) nm = -1)) as [Hf|Hne].
    + right. split; [done|]. right. intros b es e Hb Hl He Hlive.
      apply find_in_blocks_notfound in Hf. rewrite Forall_forall in Hf.
      specialize (Hf b Hb). unfold block_entries in Hf. rewrite Hl in Hf. simpl in Hf.
      apply find_in_entries_None in Hf. rewrite Forall_forall in Hf.
      by destruct (Hf e He).
    + left. split_and!; [done..|].
      destruct (find_in_blocks_found d _ nm _ eq_refl Hne) as (i & b & Hb & Hf & _).
      destruct (find_in_entries_Some _ _ _ Hf) as (j & e & He & Hnum & _ & Hcmp & _).
      unfold block_entries in He.
      destruct (load_directory_entries d b) as [es|] eqn:El; [|done]. simpl in He.
      exists b, es, e. split_and!; try done; by eapply list_elem_of_lookup_2.
  - right. split; [done|]. by left.
Qed.

Lemma cstr_id l : x00 ∉ l -> cstr l = l.
Proof.
  induction l as [|c r IH]; simpl; [done|]. intros Hn.
  apply not_elem_of_cons in Hn as [Hc Hr]. rewrite decide_False by done. by rewrite IH.
Qed.

Lemma cstr_app_nul l r : x00 ∉ l -> cstr (l ++ x00 :: r) = l.
Proof.
  induction l as [|c l IH]; simpl; intros Hn.
  - reflexivity.
  - apply not_elem_of_cons in Hn as [Hc Hl]. rewrite decide_False by done. by rewrite IH.
Qed.

(** A name of at most 255 characters is stored whole. *)
Lemma cstr_strncpy_name nm :
  (length (cstr nm) <= 255)%nat -> cstr (strncpy_name nm) = cstr nm.
Proof.
  intros Hl. unfold strncpy_name.
  rewrite (take_ge (cstr nm)) by (unfold MAX_FILENAME; lia).
  rewrite fixed_short by (unfold MAX_FILENAME; lia).
  unfold zero_bytes, MAX_FILENAME.
  replace (Z.to_nat (256 - Z.of_nat (length (cstr nm))))
    with (S (255 - length (cstr nm))) by lia.
  simpl repeat. apply cstr_app_nul, cstr_no_nul.
Qed.

Lemma strcmp_strncpy_name nm :
  (length (cstr nm) <= 255)%nat -> strcmp_eq (strncpy_name nm) nm = true.
Proof.
  intros Hl. unfold strcmp_eq. apply bool_decide_eq_true. by apply cstr_strncpy_name.
Qed.

Lemma new_entry_wf nm child : int_range child -> entry_wf (new_entry nm child).
Proof.
  intros Hc. split; [|done]. simpl.
  pose proof (fixed_length MAX_FILENAME (take (Z.to_nat (MAX_FILENAME - 1)) (cstr nm))
                           ltac:(done)) as H.
  unfold strncpy_name. unfold MAX_FILENAME in *. lia.
Qed.

Lemma find_in_entries_new es nm child :
  child <> -1 -> (length (cstr nm) <= 255)%nat ->
  find_in_entries (new_entry nm child :: es) nm = Some child.
Proof.
  intros Hc Hl. cbn [find_in_entries new_entry inode_num name].
  rewrite strcmp_strncpy_name by done.
  destruct (Z.eqb_spec child (-1)); done.
Qed.

Lemma find_in_entries_insert es j e0 nm child :
  es !! j = Some e0 -> find_in_entries (take j es) nm = None ->
  child <> -1 -> (length (cstr nm) <= 255)%nat ->
  find_in_entries (<[j := new_entry nm child]> es) nm = Some child.
Proof.
  intros Hj Hpre Hc Hl. apply lookup_lt_Some in Hj as Hlt.
  rewrite insert_take_drop by done. rewrite find_in_entries_app, Hpre.
  by apply find_in_entries_new.
Qed.

Lemma find_in_entries_take es nm j :
  find_in_entries es nm = None -> find_in_entries (take j es) nm = None.
Proof.
  rewrite !find_in_entries_None. apply Forall_take.
Qed.

Lemma new_directory_block_wf nm child :
  int_range child ->
  length (new_directory_block nm child) = 15%nat /\
  Forall entry_wf (new_directory_block nm child).
Proof.
  intros Hc. unfold new_directory_block. split.
  - rewrite length_insert, repeat_length. reflexivity.
  - apply Forall_insert; [|by apply (new_entry_wf nm child)].
    apply List.Forall_forall. intros e He%repeat_spec. subst. split; [reflexivity|].
    unfold int_range. simpl. lia.
Qed.

(** The blocks a lookup visits before it meets the block [id] that holds
    the name in front. *)
Lemma find_in_blocks_upto d blks id nm child :
  find_in_entries (block_entries d id) nm = Some child ->
  Forall (fun b => b = id \/ find_in_entries (block_entries d b) nm = None) blks ->
  find_in_blocks d (blks ++ [id]) nm = child.
Proof.
  intros Hid. induction 1 as [|b rest Hb _ IH]; simpl app.
  - rewrite find_in_blocks_cons, Hid. done.
  - rewrite find_in_blocks_cons. destruct Hb as [->|Hb].
    + by rewrite Hid.
    + by rewrite Hb.
Qed.

(** What a successful [add_entry_to_dir] leaves for the lookup. *)
Lemma add_entry_then_find d dir_inode dir_inode_num nm child dir_inode' d' :
  wf_disk d -> Z.of_nat (length (data_segs d)) <= MAX_SEGMENTS ->
  0 <= num_direct dir_inode ->
  length (direct_blocks dir_inode) = 1017%nat ->
  Forall (valid_block d) (live_direct_blocks dir_inode) ->
  child <> -1 -> int_range child -> (length (cstr nm) <= 255)%nat ->
  add_entry_to_dir d dir_inode dir_inode_num nm child = Some (0, dir_inode', d') ->
  find_entry_in_dir d' dir_inode' nm = child.
Proof.
  intros Hwf Hmax Hnd Hlen Hvalid Hc Hcr Hnm Hadd.
  unfold add_entry_to_dir in Hadd.
  destruct (decide (type dir_inode = INODE_DIR)) as [Hty|]; [|done].
  destruct (decide (find_entry_in_dir d dir_inode nm = -1)) as [Hfind|]; [|done].
  unfold find_entry_in_dir in Hfind. rewrite decide_True in Hfind by done.
  apply find_in_blocks_notfound in Hfind.
  set (blks := live_direct_blocks dir_inode) in *.
  destruct (fill_free_slot d blks nm child) as [d1|] eqn:Hfill.
  - (* a free slot of an existing block *)
    injection Hadd as <- <-.
    apply fill_free_slot_Some in Hfill as (i & b & es & j & Hi & Hfull & Hl & Hj & ->).
    apply first_free_slot_Some in Hj as (j' & e0 & -> & Hj' & He0 & Hlive). simpl.
    pose proof (take_drop_middle _ _ _ Hi) as Hsplit.
    assert (Hvb : valid_block d b).
    { rewrite Forall_forall in Hvalid. apply Hvalid. by eapply list_elem_of_lookup_2. }
    destruct (load_directory_entries_wf _ _ _ Hwf Hl) as [Hes15 Heswf].
    destruct (write_block_valid d b
                (fixed BLOCK_SIZE (bytes_of_entries (<[j' := new_entry nm child]> es))) Hvb)
      as [d1 Hsave].
    fold (save_directory_entries d b (<[j' := new_entry nm child]> es)) in Hsave.
    rewrite Hsave. simpl.
    assert (Hl1 : load_directory_entries d1 b = Some (<[j' := new_entry nm child]> es)).
    { apply (load_after_save d b); try done.
      - by destruct Hvb.
      - by rewrite length_insert.
      - apply Forall_insert; [done|by apply new_entry_wf]. }
    unfold find_entry_in_dir. rewrite decide_True by done. fold blks.
    rewrite <- Hsplit. rewrite find_in_blocks_app.
    assert (Hpre : find_in_blocks d1 (take i blks) nm = -1).
    { apply find_in_blocks_notfound. apply Forall_forall. intros b' Hb'.
      assert (Hb'in : b' ∈ blks) by (by eapply subseteq_take).
      rewrite Forall_forall in Hfull, Hfind, Hvalid.
      assert (b' <> b) as Hne.
      { intros ->. specialize (Hfull b Hb'). unfold full_block, block_entries in Hfull.
        rewrite Hl in Hfull. simpl in Hfull.
        apply first_free_slot_None in Hfull. rewrite Forall_forall in Hfull.
        by apply (Hfull e0); [eapply list_elem_of_lookup_2|]. }
      unfold block_entries.
      rewrite (load_other_after_save d b (<[j' := new_entry nm child]> es) d1 b'); try done.
      - by apply Hfind.
      - by destruct Hvb.
      - by destruct (Hvalid b' Hb'in). }
    rewrite decide_True by done.
    rewrite find_in_blocks_cons. unfold block_entries at 1. rewrite Hl1. simpl.
    rewrite (find_in_entries_insert es j' e0); try done.
    apply find_in_entries_take.
    rewrite Forall_forall in Hfind. specialize (Hfind b ltac:(by eapply list_elem_of_lookup_2)).
    unfold block_entries in Hfind. by rewrite Hl in Hfind.
  - (* a new block *)
    destruct (decide (MAX_DIRECT_BLOCKS <= num_direct dir_inode)) as [|Hroom]; [done|].
    destruct (allocate_block_ok d Hwf Hmax) as (id & d1 & Ha & Hp). rewrite Ha in Hadd.
    destruct Hp as [Pid Pv Pf P1 Pb Pi Pr Pwf Pl].
    destruct (decide (id = -1)); [done|].
    destruct (write_block_valid d1 id
                (fixed BLOCK_SIZE (bytes_of_entries (new_directory_block nm child))) Pv)
      as [d2 Hsave].
    fold (save_directory_entries d1 id (new_directory_block nm child)) in Hsave.
    rewrite Hsave in Hadd. injection Hadd as <- <-.
    destruct (new_directory_block_wf nm child Hcr) as [Hn15 Hnwf].
    assert (Hl2 : load_directory_entries d2 id = Some (new_directory_block nm child)).
    { apply (load_after_save d1 id); try done. by destruct Pv. }
    set (dir' := with_direct _ _ _ _).
    set (d3 := default d2 (write_inode d2 dir_inode_num dir')).
    assert (Hrd3 : forall x, read_block d3 x = read_block d2 x).
    { intros x. subst d3. destruct (write_inode d2 dir_inode_num dir') as [d3|] eqn:Hw; [|done].
      simpl. by apply (write_inode_read_block _ _ _ _ Hw). }
    assert (Hnblks : num_direct dir_inode = Z.of_nat (length blks)).
    { subst blks. unfold live_direct_blocks. rewrite length_take, Hlen.
      unfold MAX_DIRECT_BLOCKS in Hroom. lia. }
    assert (Hblks' : live_direct_blocks dir' = blks ++ [id]).
    { unfold live_direct_blocks, dir'. cbn [num_direct direct_blocks with_direct].
      apply (live_direct_snoc dir_inode id blks); try done.
      unfold MAX_DIRECT_BLOCKS in Hroom. lia. }
    unfold find_entry_in_dir. rewrite decide_True by done. rewrite Hblks'.
    apply find_in_blocks_upto.
    + assert (Hl3 : block_entries d3 id = new_directory_block nm child).
      { unfold block_entries, load_directory_entries. rewrite Hrd3.
        fold (load_directory_entries d2 id). by rewrite Hl2. }
      rewrite Hl3.
      change (new_directory_block nm child)
        with (new_entry nm child :: repeat (mk_entry (zero_bytes MAX_FILENAME) (-1)) 14).
      by apply find_in_entries_new.
    + apply Forall_forall. intros b Hb.
      destruct (decide (b = id)) as [|Hne]; [by left|right].
      rewrite Forall_forall in Hfind, Hvalid.
      rewrite <- (Hfind b Hb). f_equal.
      unfold block_entries, load_directory_entries. rewrite Hrd3.
      destruct (read_block_valid d b Hwf (Hvalid b Hb)) as [buf Hbuf].
      rewrite Hbuf. rewrite (read_block_write_block _ _ _ _ Hsave b Pwf); try lia.
      * rewrite decide_False by done. by rewrite (Pr b buf Hbuf).
      * by destruct (Hvalid b Hb).
Qed.

(** [add_entry_to_dir] on a directory with room: it succeeds, by a free
    slot of the first block that has one or by a new block, and touches
    neither a block in use outside the directory nor another inode. *)
Lemma add_entry_to_dir_ok d dir_inode dir_inode_num nm child :
  wf_disk d -> Z.of_nat (length (data_segs d)) <= MAX_SEGMENTS ->
  type dir_inode = INODE_DIR ->
  0 <= num_direct dir_inode < MAX_DIRECT_BLOCKS ->
  length (direct_blocks dir_inode) = 1017%nat ->
  Forall (valid_block d) (live_direct_blocks dir_inode) ->
  0 <= dir_inode_num -> int_range child ->
  find_entry_in_dir d dir_inode nm = -1 ->
  exists dir_inode' d',
    add_entry_to_dir d dir_inode dir_inode_num nm child = Some (0, dir_inode', d') /\
    wf_disk d' /\
    (forall x b0, 0 <= x -> x ∉ live_direct_blocks dir_inode -> block_bit d x = true ->
                  read_block d x = Some b0 -> read_block d' x = Some b0) /\
    (forall m, 0 <= m -> m <> dir_inode_num -> read_inode d' m = read_inode d m) /\
    (read_inode d dir_inode_num = Some dir_inode ->
     read_inode d' dir_inode_num = Some dir_inode') /\
    ((Forall (full_block d) (live_direct_blocks dir_inode) /\
      exists id, block_bit d id = false /\ block_bit d' id = true /\
                 (forall x, 0 <= x -> x <> id -> block_bit d' x = block_bit d x) /\
                 dir_inode' = with_direct dir_inode (num_direct dir_inode + 1)
                                (zset (direct_blocks dir_inode) (num_direct dir_inode) id)
                                (size_t (size dir_inode + BLOCK_SIZE)) /\
                 live_direct_blocks dir_inode' = live_direct_blocks dir_inode ++ [id] /\
                 block_entries d' id = new_directory_block nm child) \/
     (~ Forall (full_block d) (live_direct_blocks dir_inode) /\
      dir_inode' = dir_inode /\
      (forall x, block_bit d' x = block_bit d x) /\
      length (data_segs d') = length (data_segs d))).
Proof.
  intros Hwf Hmax Hty Hnd Hlen Hvalid Hn0 Hcr Hfind.
  unfold add_entry_to_dir. rewrite !decide_True by done.
  set (blks := live_direct_blocks dir_inode) in *.
  destruct (fill_free_slot d blks nm child) as [d1|] eqn:Hfill.
  - apply fill_free_slot_Some in Hfill as (i & b & es & j & Hi & Hfull & Hl & Hj & ->).
    assert (Hbin : b ∈ blks) by (by eapply list_elem_of_lookup_2).
    assert (Hvb : valid_block d b) by (rewrite Forall_forall in Hvalid; by apply Hvalid).
    destruct (write_block_valid d b
                (fixed BLOCK_SIZE (bytes_of_entries (<[j := new_entry nm child]> es))) Hvb)
      as [d1 Hsave].
    fold (save_directory_entries d b (<[j := new_entry nm child]> es)) in Hsave.
    rewrite Hsave. simpl. exists dir_inode, d1. split_and!; [done| | | | |].
    + by eapply wf_save_directory_entries.
    + intros x b0 Hx Hnin _ Hr.
      rewrite (read_block_write_block _ _ _ _ Hsave x Hwf); [|by destruct Hvb|done].
      rewrite decide_False; [done|]. by intros ->.
    + intros m _ _. by apply (write_block_read_inode _ _ _ _ _ Hsave).
    + intros Hr. by rewrite (write_block_read_inode _ _ _ _ _ Hsave).
    + right. split_and!; [|done| |].
      * intros Hall. rewrite Forall_forall in Hall. specialize (Hall b Hbin).
        unfold full_block, block_entries in Hall. rewrite Hl in Hall. simpl in Hall.
        congruence.
      * intros x. by apply (write_block_bit _ _ _ _ Hsave).
      * by apply (write_block_length _ _ _ _ Hsave).
  - apply fill_free_slot_None in Hfill.
    rewrite decide_False by lia.
    destruct (allocate_block_ok d Hwf Hmax) as (id & d1 & Ha & Hp). rewrite Ha.
    destruct Hp as [Pid Pv Pf P1 Pb Pi Pr Pwf Pl].
    rewrite decide_False by lia.
    destruct (write_block_valid d1 id
                (fixed BLOCK_SIZE (bytes_of_entries (new_directory_block nm child))) Pv)
      as [d2 Hsave].
    fold (save_directory_entries d1 id (new_directory_block nm child)) in Hsave.
    rewrite Hsave.
    set (dir' := with_direct _ _ _ _).
    assert (Hwf2 : wf_disk d2) by (by eapply wf_save_directory_entries).
    assert (Hd3 : exists d3, default d2 (write_inode d2 dir_inode_num dir') = d3 /\
                             wf_disk d3 /\
                             (forall x, read_block d3 x = read_block d2 x) /\
                             (forall x, block_bit d3 x = block_bit d2 x) /\
                             (forall m, 0 <= m -> m <> dir_inode_num ->
                                        read_inode d3 m = read_inode d2 m) /\
                             (is_Some (read_inode d2 dir_inode_num) ->
                              read_inode d3 dir_inode_num = Some dir')).
    { destruct (write_inode d2 dir_inode_num dir') as [d3|] eqn:Hw; simpl.
      - exists d3. split_and!; [done| | | | |].
        + by apply (write_inode_wf _ _ _ _ Hw).
        + intros x. by apply (write_inode_read_block _ _ _ _ Hw).
        + intros x. by apply (write_inode_block_bit _ _ _ _ Hw).
        + intros m Hm Hne.
          rewrite (read_inode_write_inode _ _ _ _ Hw m Hwf2 Hn0 Hm). by rewrite decide_False.
        + intros _. rewrite (read_inode_write_inode _ _ _ _ Hw _ Hwf2 Hn0 Hn0).
          by rewrite decide_True.
      - exists d2. split_and!; try done.
        intros [ino Hino]. apply (read_inode_Some_valid _ _ _ Hn0) in Hino.
        destruct (write_inode_valid d2 dir_inode_num dir' Hino) as [? ?]. congruence. }
    destruct Hd3 as (d3 & -> & Hwf3 & Hrd3 & Hbit3 & Hino3 & Hself3).
    assert (Hnblks : num_direct dir_inode = Z.of_nat (length blks)).
    { subst blks. unfold live_direct_blocks. rewrite length_take, Hlen.
      unfold MAX_DIRECT_BLOCKS in Hnd. lia. }
    exists dir', d3. split_and!; [done|done| | | |].
    + intros x b0 Hx Hnin Hbit Hr. rewrite Hrd3.
      rewrite (read_block_write_block _ _ _ _ Hsave x Pwf); [|lia|done].
      rewrite decide_False by (intros ->; congruence). by apply Pr.
    + intros m Hm Hne. rewrite (Hino3 m Hm Hne).
      rewrite (write_block_read_inode _ _ _ _ _ Hsave). unfold read_inode. by rewrite Pi.
    + intros Hr. apply Hself3.
      rewrite (write_block_read_inode _ _ _ _ _ Hsave). unfold read_inode. rewrite Pi.
      fold (read_inode d dir_inode_num). by rewrite Hr.
    + left. split; [done|]. exists id. split_and!; [done| | |done| |].
      * rewrite Hbit3, (write_block_bit _ _ _ _ Hsave), Pb by lia. by rewrite decide_True.
      * intros x Hx Hne. rewrite Hbit3, (write_block_bit _ _ _ _ Hsave), Pb by lia.
        by rewrite decide_False.
      * unfold live_direct_blocks at 1, dir'. cbn [num_direct direct_blocks with_direct].
        apply (live_direct_snoc dir_inode id blks); try done.
        unfold MAX_DIRECT_BLOCKS in Hnd. lia.
      * unfold block_entries, load_directory_entries. rewrite Hrd3.
        fold (load_directory_entries d2 id).
        destruct (new_directory_block_wf nm child Hcr) as [Hn15 Hnwf].
        rewrite (load_after_save d1 id (new_directory_block nm child) d2); try done.
        by destruct Pv.
Qed.

(** X18.  Insert then look up: in a directory with room, under a name it
    does not hold yet, [add_entry_to_dir] succeeds, and [find_entry_in_dir]
    on the directory it leaves finds the child by that name. *)
Theorem add_entry_to_dir_then_lookup d dir_inode dir_inode_num nm child :
  wf_disk d -> Z.of_nat (length (data_segs d)) <= MAX_SEGMENTS ->
  type dir_inode = INODE_DIR ->
  0 <= num_direct dir_inode < MAX_DIRECT_BLOCKS ->
  length (direct_blocks dir_inode) = 1017%nat ->
  Forall (valid_block d) (live_direct_blocks dir_inode) ->
  0 <= dir_inode_num ->
  child <> -1 -> int_range child -> (length (cstr nm) <= 255)%nat ->
  find_entry_in_dir d dir_inode nm = -1 ->
  exists dir_inode' d',
    add_entry_to_dir d dir_inode dir_inode_num nm child = Some (0, dir_inode', d') /\
    find_entry_in_dir d' dir_inode' nm = child.
Proof.
  intros Hwf Hmax Hty Hnd Hlen Hvalid Hn Hc Hcr Hnm Hfind.
  destruct (add_entry_to_dir_ok d dir_inode dir_inode_num nm child)
    as (dir' & d' & Hadd & _); try done.
  exists dir', d'. split; [done|].
  apply (add_entry_then_find d dir_inode dir_inode_num nm child); try done. lia.
Qed.

Lemma add_entry_to_dir_then_lookup_witness :
  exists dir_inode' d',
    add_entry_to_dir (init_fs empty_disk) (fresh_inode INODE_DIR) 0 [x61] 1
    = Some (0, dir_inode', d') /\
    find_entry_in_dir d' dir_inode' [x61] = 1.
Proof.
  apply (add_entry_to_dir_then_lookup (init_fs empty_disk) (fresh_inode INODE_DIR) 0 [x61] 1).
  - apply wf_init_fs_empty.
  - vm_compute. discriminate.
  - reflexivity.
  - vm_compute. split; discriminate || reflexivity.
  - reflexivity.
  - apply Forall_nil_2.
  - lia.
  - lia.
  - unfold int_range. lia.
  - simpl. lia.
  - reflexivity.
Defined.

(** X19.  A directory block holds 15 entries, and [add_entry_to_dir] grows
    a directory only when it must: with a free slot in some block the
    inode and all bitmaps stay as they are; with every block full it
    allocates one block that was free, appends it to the direct blocks and
    adds 4096 to the size. *)
Theorem add_entry_to_dir_growth d dir_inode dir_inode_num nm child :
  wf_disk d -> Z.of_nat (length (data_segs d)) <= MAX_SEGMENTS ->
  type dir_inode = INODE_DIR ->
  0 <= num_direct dir_inode < MAX_DIRECT_BLOCKS ->
  length (direct_blocks dir_inode) = 1017%nat ->
  Forall (valid_block d) (live_direct_blocks dir_inode) ->
  0 <= dir_inode_num -> int_range child ->
  find_entry_in_dir d dir_inode nm = -1 ->
  (forall b es, load_directory_entries d b = Some es -> length es = 15%nat) /\
  exists dir_inode' d',
    add_entry_to_dir d dir_inode dir_inode_num nm child = Some (0, dir_inode', d') /\
    ((Forall (full_block d) (live_direct_blocks dir_inode) /\
      exists id, block_bit d id = false /\ block_bit d' id = true /\
                 live_direct_blocks dir_inode' = live_direct_blocks dir_inode ++ [id] /\
                 num_direct dir_inode' = num_direct dir_inode + 1 /\
                 size dir_inode' = size_t (size dir_inode + BLOCK_SIZE)) \/
     (~ Forall (full_block d) (live_direct_blocks dir_inode) /\
      dir_inode' = dir_inode /\
      forall x, block_bit d' x = block_bit d x)).
Proof.
  intros Hwf Hmax Hty Hnd Hlen Hvalid Hn Hcr Hfind. split.
  { intros b es Hl. by destruct (load_directory_entries_wf _ _ _ Hwf Hl). }
  destruct (add_entry_to_dir_ok d dir_inode dir_inode_num nm child)
    as (dir' & d' & Hadd & _ & _ & _ & _ & Hcase); try done.
  exists dir', d'. split; [done|].
  destruct Hcase as [(Hfull & id & Hf & Hs & _ & -> & Hlive & _)|(Hnf & -> & Hb & _)].
  - left. split; [done|]. exists id. split_and!; done.
  - right. done.
Qed.

Lemma add_entry_to_dir_growth_witness :
  (forall b es, load_directory_entries (init_fs empty_disk) b = Some es ->
                length es = 15%nat) /\
  exists dir_inode' d',
    add_entry_to_dir (init_fs empty_disk) (fresh_inode INODE_DIR) 0 [x61] 1
    = Some (0, dir_inode', d') /\
    ((Forall (full_block (init_fs empty_disk)) (live_direct_blocks (fresh_inode INODE_DIR)) /\
      exists id, block_bit (init_fs empty_disk) id = false /\ block_bit d' id = true /\
                 live_direct_blocks dir_inode'
                 = live_direct_blocks (fresh_inode INODE_DIR) ++ [id] /\
                 num_direct dir_inode' = num_direct (fresh_inode INODE_DIR) + 1 /\
                 size dir_inode' = size_t (size (fresh_inode INODE_DIR) + BLOCK_SIZE)) \/
     (~ Forall (full_block (init_fs empty_disk)) (live_direct_blocks (fresh_inode INODE_DIR)) /\
      dir_inode' = fresh_inode INODE_DIR /\
      forall x, block_bit d' x = block_bit (init_fs empty_disk) x)).
Proof.
  apply (add_entry_to_dir_growth (init_fs empty_disk) (fresh_inode INODE_DIR) 0 [x61] 1).
  - apply wf_init_fs_empty.
  - vm_compute. discriminate.
  - reflexivity.
  - vm_compute. split; discriminate || reflexivity.
  - reflexivity.
  - apply Forall_nil_2.
  - lia.
  - unfold int_range. lia.
  - reflexivity.
Defined.

(** X20.  [add_entry_to_dir] refuses, with status -1 and the inode and the
    disk untouched, when the inode is no directory, when the name is
    already there, and when all 1017 direct blocks are in use and full. *)
Theorem add_entry_to_dir_refuses d dir_inode dir_inode_num nm child :
  type dir_inode <> INODE_DIR \/
  find_entry_in_dir d dir_inode nm <> -1 \/
  (Forall (full_block d) (live_direct_blocks dir_inode) /\
   MAX_DIRECT_BLOCKS <= num_direct dir_inode) ->
  add_entry_to_dir d dir_inode dir_inode_num nm child = Some (-1, dir_inode, d).
Proof.
  intros H. unfold add_entry_to_dir.
  destruct (decide (type dir_inode = INODE_DIR)) as [Hty|]; [|done].
  destruct (decide (find_entry_in_dir d dir_inode nm = -1)) as [Hf|]; [|done].
  destruct H as [?|[?|[Hfull Hmax]]]; [done..|].
  apply (fill_free_slot_None d _ nm child) in Hfull. rewrite Hfull. by rewrite decide_True.
Qed.

Lemma add_entry_to_dir_refuses_witness :
  add_entry_to_dir fs_with_a (root_of fs_with_a) 0 [x61] 7
  = Some (-1, root_of fs_with_a, fs_with_a).
Proof.
  apply (add_entry_to_dir_refuses fs_with_a (root_of fs_with_a) 0 [x61] 7).
  right. left. vm_compute. discriminate.
Defined.

(** ** The write loop of [exfs2_add] *)

(** X21.  The read loop of [exfs2_add], run on at most 3065 chunks, ends
    normally with every chunk stored, zero padded, in a block of its own;
    the file size is the number of bytes read; the first 1017 blocks are
    the direct blocks, the next 1024 fill the single indirect block in
    order, and every later block [L] is alone in a level 1 block of its
    own, named by slot [L - 2041] of the double indirect block.  No id
    stored in an indirect block is 0. *)
Theorem add_blocks_stores_file d0 chunks :
  wf_disk d0 ->
  Z.of_nat (length (data_segs d0)) + 4100 <= MAX_SEGMENTS ->
  Forall (fun c => Z.of_nat (length c) <= BLOCK_SIZE) chunks ->
  (length chunks <= 3065)%nat ->
  exists l ids,
    add_blocks (initial_locals d0) chunks = Ok l /\
    length ids = length chunks /\
    size (file_inode l) = Z.of_nat (length (concat chunks)) /\
    num_direct (file_inode l) = Z.min (Z.of_nat (length chunks)) MAX_DIRECT_BLOCKS /\
    forall (L : nat) c, chunks !! L = Some c ->
      exists id,
        ids !! L = Some id /\
        read_block (l_disk l) id = Some (c ++ zero_bytes (BLOCK_SIZE - Z.of_nat (length c))) /\
        if decide (L < 1017)%nat then
          zget (direct_blocks (file_inode l)) (Z.of_nat L) = Some id
        else if decide (L < 2041)%nat then
          id <> 0 /\
          slot (l_disk l) (indirect_block (file_inode l)) (Z.of_nat L - 1017) = Some id
        else
          id <> 0 /\
          exists b, b <> 0 /\
                    slot (l_disk l) (double_indirect_block (file_inode l))
                         (Z.of_nat L - 2041) = Some b /\
                    slot (l_disk l) b 0 = Some id /\
                    slot (l_disk l) b 1 = Some 0.
Proof.
  intros Hwf Hroom Hcl Hn.
  destruct (add_blocks_ok d0 chunks Hwf Hroom Hcl Hn) as (l & ids & l1s & Hadd & Hinv).
  pose proof (li_chunks _ _ _ _ _ Hinv) as Hlen.
  exists l, ids. split_and!; [done|done|apply Hinv| |].
  { rewrite (li_nd _ _ _ _ _ Hinv), Hlen. reflexivity. }
  intros L c Hc. apply lookup_lt_Some in Hc as Hlt.
  destruct (lookup_lt_is_Some_2 ids L) as [id Hid]; [lia|].
  exists id. split_and!; [done|by apply (li_data _ _ _ _ _ Hinv L)|].
  destruct (decide (L < 1017)%nat) as [H1|H1].
  { by apply (loop_inv_direct _ _ _ _ _ _ _ Hinv Hid). }
  destruct (decide (L < 2041)%nat) as [H2|H2].
  { split; [|apply (loop_inv_single _ _ _ _ _ _ _ Hinv Hid); lia].
    pose proof (li_nonzero _ _ _ _ _ Hinv) as Hnz. unfold file_structure in Hnz.
    assert (Hne0 : ids <> []) by (intros ->; done).
    rewrite drop_1_app in Hnz by done. apply Forall_app in Hnz as [Hnz _].
    rewrite Forall_forall in Hnz. apply Hnz.
    apply (list_elem_of_lookup_2 _ (L - 1)). rewrite lookup_drop.
    by replace (1 + (L - 1))%nat with L by lia. }
  destruct (loop_inv_double _ _ _ _ _ _ _ Hinv Hid ltac:(lia)) as (b & _ & Hb0 & Hid0 & Hb & Hlb).
  split; [done|]. exists b. split_and!; [done|done| |].
  - by apply (slot_pad_in _ _ _ 0%nat _ Hlb).
  - apply (slot_pad_out _ _ _ 1%nat Hlb). simpl. lia.
Qed.

Lemma add_blocks_stores_file_witness :
  exists l ids,
    add_blocks (initial_locals (init_fs empty_disk)) chunks_2043 = Ok l /\
    length ids = length chunks_2043 /\
    size (file_inode l) = Z.of_nat (length (concat chunks_2043)) /\
    num_direct (file_inode l) = Z.min (Z.of_nat (length chunks_2043)) MAX_DIRECT_BLOCKS /\
    forall (L : nat) c, chunks_2043 !! L = Some c ->
      exists id,
        ids !! L = Some id /\
        read_block (l_disk l) id = Some (c ++ zero_bytes (BLOCK_SIZE - Z.of_nat (length c))) /\
        if decide (L < 1017)%nat then
          zget (direct_blocks (file_inode l)) (Z.of_nat L) = Some id
        else if decide (L < 2041)%nat then
          id <> 0 /\
          slot (l_disk l) (indirect_block (file_inode l)) (Z.of_nat L - 1017) = Some id
        else
          id <> 0 /\
          exists b, b <> 0 /\
                    slot (l_disk l) (double_indirect_block (file_inode l))
                         (Z.of_nat L - 2041) = Some b /\
                    slot (l_disk l) b 0 = Some id /\
                    slot (l_disk l) b 1 = Some 0.
Proof.
  apply (add_blocks_stores_file (init_fs empty_disk) chunks_2043).
  - apply wf_init_fs_empty.
  - vm_compute. discriminate.
  - apply chunks_2043_length.
  - unfold chunks_2043. rewrite repeat_length. lia.
Defined.

(** A file of 3066 one-byte reads. *)
Definition chunks_3066 : list (list byte) := repeat [x41] 3066.

Lemma chunks_3066_length : Forall (fun c => Z.of_nat (length c) <= BLOCK_SIZE) chunks_3066.
Proof.
  apply List.Forall_forall. intros c Hc%repeat_spec. subst. simpl. unfold BLOCK_SIZE. lia.
Qed.

(** X22.  Past 3065 blocks the loop leaves the bounds of its double
    indirect array: the 3066th block makes it read
    [double_indirect_block[1024]] of an array of 1024 ints, whatever the
    disk. *)
Theorem add_blocks_overruns_array d0 chunks :
  wf_disk d0 ->
  Z.of_nat (length (data_segs d0)) + 4100 <= MAX_SEGMENTS ->
  Forall (fun c => Z.of_nat (length c) <= BLOCK_SIZE) chunks ->
  (3065 < length chunks)%nat ->
  add_blocks (initial_locals d0) chunks = Undefined.
Proof. apply add_blocks_too_long. Qed.

Lemma add_blocks_overruns_array_witness :
  add_blocks (initial_locals (init_fs empty_disk)) chunks_3066 = Undefined.
Proof.
  apply (add_blocks_overruns_array (init_fs empty_disk) chunks_3066).
  - apply wf_init_fs_empty.
  - vm_compute. discriminate.
  - apply chunks_3066_length.
  - unfold chunks_3066. rewrite repeat_length. lia.
Defined.

(** X23.  The loop writes to blocks that were free and to nothing else: a
    block allocated before the loop keeps its bit and its content, and the
    inode segments are not touched (the file inode is written after the
    loop). *)
Theorem add_blocks_spares_allocated d0 chunks :
  wf_disk d0 ->
  Z.of_nat (length (data_segs d0)) + 4100 <= MAX_SEGMENTS ->
  Forall (fun c => Z.of_nat (length c) <= BLOCK_SIZE) chunks ->
  (length chunks <= 3065)%nat ->
  exists l,
    add_blocks (initial_locals d0) chunks = Ok l /\
    inode_segs (l_disk l) = inode_segs d0 /\
    forall x, 0 <= x -> block_bit d0 x = true ->
              block_bit (l_disk l) x = true /\
              forall b, read_block d0 x = Some b -> read_block (l_disk l) x = Some b.
Proof.
  intros Hwf Hroom Hcl Hn.
  destruct (add_blocks_ok d0 chunks Hwf Hroom Hcl Hn) as (l & ids & l1s & Hadd & Hinv).
  pose proof (li_ctx _ _ _ _ _ Hinv) as Hctx.
  exists l. split_and!; [done|apply Hctx|].
  intros x Hx Hbit.
  assert (Hnin : x ∉ file_structure (file_inode l) ids l1s).
  { intros Hin. apply (ac_fresh _ _ _ Hctx) in Hin. congruence. }
  split.
  - by rewrite (ac_bits _ _ _ Hctx).
  - intros b. by apply (ac_read _ _ _ Hctx).
Qed.

Lemma add_blocks_spares_allocated_witness :
  exists l,
    add_blocks (initial_locals fs_with_a) chunks_2043 = Ok l /\
    inode_segs (l_disk l) = inode_segs fs_with_a /\
    forall x, 0 <= x -> block_bit fs_with_a x = true ->
              block_bit (l_disk l) x = true /\
              forall b, read_block fs_with_a x = Some b -> read_block (l_disk l) x = Some b.
Proof.
  apply (add_blocks_spares_allocated fs_with_a chunks_2043).
  - apply wf_fs_with_a.
  - vm_compute. discriminate.
  - apply chunks_2043_length.
  - unfold chunks_2043. rewrite repeat_length. lia.
Defined.

(** ** Reading a file back *)

(** The chunks [fread] delivers: none is empty or longer than a block, and
    all but the last fill a block. *)
Definition chunks_ok (cs : list (list byte)) : Prop :=
  Forall (fun c => (0 < length c <= 4096)%nat) cs /\
  forall i c, cs !! i = Some c -> (S i < length cs)%nat -> length c = 4096%nat.

Lemma chunks_ok_cons c cs :
  chunks_ok (c :: cs) ->
  (0 < length c <= 4096)%nat /\ (cs <> [] -> length c = 4096%nat) /\ chunks_ok cs.
Proof.
  intros [Hall Hfull]. inversion Hall as [|? ? Hc Hrest]; subst. split_and!; [lia|lia| |].
  - intros Hne. apply (Hfull 0%nat); [done|]. destruct cs; [done|]. simpl. lia.
  - split; [done|]. intros i c' Hi Hlt. apply (Hfull (S i)); [done|]. simpl. lia.
Qed.

Lemma chunks_ok_app_r cs1 cs2 : chunks_ok (cs1 ++ cs2) -> chunks_ok cs2.
Proof.
  induction cs1 as [|c cs1 IH]; [done|]. intros H. apply IH.
  by apply chunks_ok_cons in H as (_ & _ & H).
Qed.

Lemma fread_all_chunks fuel : forall data,
  (length data <= fuel)%nat ->
  concat (fread_all fuel data) = data /\ chunks_ok (fread_all fuel data).
Proof.
  induction fuel as [|fuel IH]; intros data Hl.
  - destruct data; [|simpl in Hl; lia]. split; [done|]. split; [constructor|done].
  - destruct data as [|b data']; [split; [done|]; split; [constructor|done]|].
    cbn [fread_all]. remember (b :: data') as data eqn:Ed.
    assert (0 < length data)%nat as Hpos by (subst; simpl; lia). clear Ed.
    change (Z.to_nat BLOCK_SIZE) with 4096%nat.
    destruct (IH (drop 4096 data)) as [Hcat [Hall Hfull]].
    { rewrite length_drop. lia. }
    split; [|split].
    + cbn [concat]. rewrite Hcat. apply take_drop.
    + constructor; [|done]. rewrite length_take. lia.
    + intros [|i] c Hi Hlt.
      * simpl in Hi. injection Hi as <-. simpl in Hlt.
        rewrite length_take. apply Nat.min_l.
        destruct (decide (4096 <= length data)%nat) as [|Hshort]; [done|].
        rewrite drop_ge in Hlt by lia.
        destruct fuel; simpl in Hlt; lia.
      * simpl in Hi, Hlt. apply (Hfull i); [done|lia].
Qed.

Lemma file_chunks_ok data :
  concat (file_chunks data) = data /\ chunks_ok (file_chunks data).
Proof. apply fread_all_chunks. done. Qed.

Lemma data_buffer_take c :
  (length c <= 4096)%nat -> take (length c) (data_buffer c) = c.
Proof. intros H. unfold data_buffer. by rewrite take_app_length. Qed.

Lemma data_buffer_full c : length c = 4096%nat -> data_buffer c = c.
Proof.
  intros H. unfold data_buffer, BLOCK_SIZE. rewrite H. simpl. apply app_nil_r.
Qed.

(** One block of a file read back: the chunk, without its padding. *)
Lemma emit_block_chunk d id c after out :
  read_block d id = Some (data_buffer c) ->
  chunks_ok (c :: after) ->
  emit_block d id (Z.of_nat (length (concat (c :: after))), out)
  = (Z.of_nat (length (concat after)), out ++ c).
Proof.
  intros Hr Hok. apply chunks_ok_cons in Hok as (Hc & Hfull & Hok).
  unfold emit_block. rewrite Hr. cbn [concat]. rewrite length_app, Nat2Z.inj_add.
  unfold BLOCK_SIZE.
  destruct (decide (4096 < Z.of_nat (length c) + Z.of_nat (length (concat after)))) as [Hbig|Hsmall].
  - assert (after <> []) as Hne by (intros ->; simpl in Hbig; lia).
    specialize (Hfull Hne). rewrite (data_buffer_full c Hfull).
    f_equal; [lia|]. f_equal. apply take_ge. lia.
  - destruct (decide (after = [])) as [->|Hne].
    + simpl. rewrite Z.add_0_r, Nat2Z.id. f_equal; [lia|]. f_equal.
      apply data_buffer_take. lia.
    + specialize (Hfull Hne). destruct after as [|c' after']; [done|].
      apply chunks_ok_cons in Hok as (Hc' & _ & _). cbn [concat] in Hsmall.
      rewrite length_app in Hsmall. lia.
Qed.

Lemma concat_positive (c : list byte) after :
  (0 < length c)%nat -> 0 < Z.of_nat (length (concat (c :: after))).
Proof. intros H. cbn [concat]. rewrite length_app. lia. Qed.

(** The loop over the direct blocks. *)
Lemma extract_direct_chunks d : forall ids cs after out,
  Forall2 (fun id c => read_block d id = Some (data_buffer c)) ids cs ->
  chunks_ok (cs ++ after) ->
  extract_direct d ids (Z.of_nat (length (concat (cs ++ after))), out)
  = (Z.of_nat (length (concat after)), out ++ concat cs).
Proof.
  induction ids as [|id ids IH]; intros cs after out H2 Hok.
  - inversion H2; subst. simpl. by rewrite app_nil_r.
  - inversion H2 as [|? c ? cs' Hr H2']; subst. cbn [extract_direct].
    rewrite <- app_comm_cons in *.
    pose proof (chunks_ok_cons _ _ Hok) as (Hc & _ & Hok').
    rewrite decide_True by (cbn [fst]; apply concat_positive; lia).
    rewrite (emit_block_chunk d id c (cs' ++ after) out Hr Hok).
    rewrite (IH cs' after (out ++ c) H2' Hok'). cbn [concat]. by rewrite app_assoc.
Qed.

(** The loop over an array of ids that ends at the first 0. *)
Lemma extract_level1_chunks d k : forall ids cs after out,
  Forall2 (fun id c => id <> 0 /\ read_block d id = Some (data_buffer c)) ids cs ->
  chunks_ok (cs ++ after) ->
  extract_level1 d (ids ++ repeat 0 k) (Z.of_nat (length (concat (cs ++ after))), out)
  = (Z.of_nat (length (concat after)), out ++ concat cs).
Proof.
  induction ids as [|id ids IH]; intros cs after out H2 Hok.
  - inversion H2; subst. simpl app. rewrite app_nil_r.
    destruct k; simpl; [done|]. by destruct (decide _).
  - inversion H2 as [|? c ? cs' [Hnz Hr] H2']; subst.
    rewrite <- !app_comm_cons in *. cbn [extract_level1].
    pose proof (chunks_ok_cons _ _ Hok) as (Hc & _ & Hok').
    rewrite decide_True by (cbn [fst]; apply concat_positive; lia).
    rewrite decide_False by done.
    rewrite (emit_block_chunk d id c (cs' ++ after) out Hr Hok).
    rewrite (IH cs' after (out ++ c) H2' Hok'). cbn [concat]. by rewrite app_assoc.
Qed.

(** The loop over the double indirect block when every level 1 block
    holds one id. *)
Lemma extract_level2_chunks d k : forall l1s (ps : list (Z * list byte)) after out,
  Forall2 (fun b p => b <> 0 /\ fst p <> 0 /\
                      load_ints d b = Some (pad_ids [fst p]) /\
                      read_block d (fst p) = Some (data_buffer (snd p))) l1s ps ->
  chunks_ok (map snd ps ++ after) ->
  extract_level2 d (l1s ++ repeat 0 k)
                 (Z.of_nat (length (concat (map snd ps ++ after))), out)
  = (Z.of_nat (length (concat after)), out ++ concat (map snd ps)).
Proof.
  induction l1s as [|b l1s IH]; intros ps after out H2 Hok.
  - inversion H2; subst. simpl app. simpl map. rewrite app_nil_r.
    destruct k; simpl; [done|]. by destruct (decide _).
  - inversion H2 as [|? [id c] ? ps' (Hb & Hid & Hl & Hr) H2']; subst.
    cbn [fst snd map] in *. rewrite <- !app_comm_cons in *. cbn [extract_level2].
    pose proof (chunks_ok_cons _ _ Hok) as (Hc & _ & Hok').
    rewrite decide_True by (cbn [fst]; apply concat_positive; lia).
    rewrite decide_False by done. rewrite Hl. cbv beta iota.
    change (pad_ids [id]) with ([id] ++ repeat 0 1023).
    change (c :: map snd ps' ++ after) with ([c] ++ (map snd ps' ++ after)).
    rewrite (extract_level1_chunks d 1023 [id] [c] (map snd ps' ++ after) out).
    + rewrite (IH ps' after _ H2' Hok'). cbn [concat]. rewrite app_nil_r.
      by rewrite app_assoc.
    + by repeat constructor.
    + done.
Qed.

(** A file as the write loop lays it out, on a disk [d]: the chunks [cs]
    in the blocks [ids], the level 1 blocks [l1s]. *)
Record file_layout (d : disk) (ino : inode_t) (cs : list (list byte))
       (ids l1s : list Z) : Prop := mk_fl {
  fl_chunks : length cs = length ids;
  fl_bound : (length ids <= 3065)%nat;
  fl_size : size ino = Z.of_nat (length (concat cs));
  fl_chunk_len : Forall (fun c => Z.of_nat (length c) <= BLOCK_SIZE) cs;
  fl_type : type ino = INODE_FILE;
  fl_triple : triple_indirect_block ino = -1;
  fl_direct : live_direct_blocks ino = take 1017 ids;
  fl_single :
    if decide (length ids <= 1017)%nat then indirect_block ino = -1
    else indirect_block ino <> -1 /\
         load_ints d (indirect_block ino) = Some (pad_ids (take 1024 (drop 1017 ids)));
  fl_double :
    if decide (length ids <= 2041)%nat then double_indirect_block ino = -1 /\ l1s = []
    else double_indirect_block ino <> -1 /\
         length l1s = (length ids - 2041)%nat /\
         load_ints d (double_indirect_block ino) = Some (pad_ids l1s) /\
         forall j b id, l1s !! j = Some b -> ids !! (2041 + j)%nat = Some id ->
                        load_ints d b = Some (pad_ids [id]);
  fl_data : forall i c id, cs !! i = Some c -> ids !! i = Some id ->
                           read_block d id = Some (data_buffer c);
  fl_nonzero : Forall (fun x => x <> 0) (drop 1 (file_structure ino ids l1s))
}.

Lemma loop_inv_layout d0 cs l ids l1s :
  loop_inv d0 cs l ids l1s -> file_layout (l_disk l) (file_inode l) cs ids l1s.
Proof.
  intros H. split; try apply H.
  - pose proof (li_single _ _ _ _ _ H) as Hs. destruct (decide _); [by destruct Hs|].
    by destruct Hs as (? & _ & ?).
  - pose proof (li_double _ _ _ _ _ H) as Hd. destruct (decide _).
    + by destruct Hd as (? & _ & _ & ?).
    + by destruct Hd as (? & _ & _ & ? & ? & ?).
Qed.

(** The layout depends on the blocks of the file only. *)
Lemma file_layout_frame d d' ino cs ids l1s :
  file_layout d ino cs ids l1s ->
  (forall x, x ∈ file_structure ino ids l1s -> read_block d' x = read_block d x) ->
  file_layout d' ino cs ids l1s.
Proof.
  intros H Hsame. unfold file_structure in Hsame.
  split; try apply H.
  - pose proof (fl_single _ _ _ _ _ H) as Hs. destruct (decide _); [done|].
    destruct Hs as [Hne Hl]. split; [done|]. rewrite <- Hl. apply load_ints_frame, Hsame.
    rewrite (opt_block_some _ Hne). apply elem_of_app. right. left.
  - pose proof (fl_double _ _ _ _ _ H) as Hd. destruct (decide _); [done|].
    destruct Hd as (Hne & Hlen & Hl & Hl1). split_and!; [done|done| |].
    + rewrite <- Hl. apply load_ints_frame, Hsame.
      rewrite (opt_block_some _ Hne). rewrite !elem_of_app. right. right. left. left.
    + intros j b id Hb Hid. rewrite <- (Hl1 j b id Hb Hid). apply load_ints_frame, Hsame.
      rewrite !elem_of_app. do 3 right. by eapply list_elem_of_lookup_2.
  - intros i c id Hc Hid. rewrite Hsame; [by apply (fl_data _ _ _ _ _ H i)|].
    apply elem_of_app. left. by eapply list_elem_of_lookup_2.
Qed.

Lemma drop_nonempty_positive (cs : list (list byte)) k :
  chunks_ok cs -> (k < length cs)%nat -> 0 < Z.of_nat (length (concat (drop k cs))).
Proof.
  intros Hok Hk. destruct (drop k cs) as [|c rest] eqn:E.
  - apply (f_equal length) in E. rewrite length_drop in E. simpl in E. lia.
  - assert (chunks_ok (c :: rest)) as Hok'.
    { rewrite <- E. apply (chunks_ok_app_r (take k cs)). by rewrite take_drop. }
    apply chunks_ok_cons in Hok' as (Hc & _). apply concat_positive. lia.
Qed.

Lemma map_fmap {A B} (f : A -> B) (l : list A) : map f l = f <$> l.
Proof. induction l as [|x l IH]; simpl; [done|]. by rewrite IH. Qed.

(** [exfs2_extract], once at the inode of a file laid out by the write
    loop, writes the chunks back in order. *)
Lemma extract_inode_layout d ino cs ids l1s :
  file_layout d ino cs ids l1s -> chunks_ok cs ->
  extract_inode d ino = concat cs.
Proof.
  intros H Hok.
  destruct H as [Hlen Hbd Hsz Hcl Hty Htr Hdir Hsi Hdo Hdat Hnz].
  assert (Hall : Forall2 (fun id c => read_block d id = Some (data_buffer c)) ids cs).
  { apply Forall2_same_length_lookup_2; [done|]. intros i id c Hid Hc. by apply (Hdat i). }
  assert (Hnz' : Forall (fun x => x <> 0) (drop 1017 ids) /\ Forall (fun x => x <> 0) l1s).
  { destruct (decide (ids = [])) as [->|Hne].
    - rewrite decide_True in Hdo by (simpl; lia). destruct Hdo as [_ ->]. by split.
    - unfold file_structure in Hnz. rewrite drop_1_app in Hnz by done.
      rewrite !Forall_app in Hnz. destruct Hnz as (Hn1 & _ & _ & Hn2). split; [|done].
      rewrite Forall_forall in Hn1. apply Forall_forall. intros x Hx. apply Hn1.
      apply list_elem_of_lookup_1 in Hx as [i Hi]. rewrite lookup_drop in Hi.
      apply (list_elem_of_lookup_2 _ (1016 + i)). rewrite lookup_drop.
      by replace (1 + (1016 + i))%nat with (1017 + i)%nat by lia. }
  destruct Hnz' as [Hnzi Hnzl].
  pose proof (concat_length_bound _ Hcl) as Hbound. unfold BLOCK_SIZE in Hbound.
  unfold extract_inode. cbv zeta beta. rewrite Hsz, int32_small by lia.
  rewrite Htr, Hdir.
  (* direct blocks *)
  pose proof (extract_direct_chunks d (take 1017 ids) (take 1017 cs) (drop 1017 cs) []
                (Forall2_take _ _ _ 1017 Hall)) as E0.
  rewrite take_drop in E0. rewrite (E0 Hok). clear E0. cbn [fst snd app].
  destruct (decide (length ids <= 1017)%nat) as [H1|H1].
  { rewrite Hsi. rewrite decide_True in Hdo by lia. destruct Hdo as [-> _].
    rewrite !decide_False by (intros [? _]; done). cbn [snd].
    by rewrite take_ge by lia. }
  destruct Hsi as [Hind Hli].
  destruct (decide (indirect_block ino <> -1 /\ _)) as [_|Hn];
    [|exfalso; apply Hn; split; [done|apply drop_nonempty_positive; [done|lia]]].
  rewrite Hli. unfold pad_ids.
  (* single indirect block *)
  pose proof (extract_level1_chunks d (1024 - length (take 1024 (drop 1017 ids)))
                (take 1024 (drop 1017 ids)) (take 1024 (drop 1017 cs))
                (drop 1024 (drop 1017 cs)) (concat (take 1017 cs))) as E1.
  rewrite take_drop in E1. rewrite E1; clear E1.
  2:{ apply Forall2_take. apply Forall2_same_length_lookup_2.
      - rewrite !length_drop. lia.
      - intros i id c Hid Hc. split.
        + rewrite Forall_forall in Hnzi. apply Hnzi. by eapply list_elem_of_lookup_2.
        + rewrite lookup_drop in Hid. rewrite lookup_drop in Hc.
          by apply (Hdat (1017 + i)%nat). }
  2:{ apply (chunks_ok_app_r (take 1017 cs)). by rewrite take_drop. }
  rewrite drop_drop. change (1017 + 1024)%nat with 2041%nat.
  rewrite <- concat_app. rewrite (take_take_drop cs 1017 1024).
  change (1017 + 1024)%nat with 2041%nat. cbn [fst snd].
  destruct (decide (length ids <= 2041)%nat) as [H2|H2].
  { destruct Hdo as [-> _].
    rewrite !decide_False by (intros [? _]; done). cbn [snd].
    by rewrite take_ge by lia. }
  destruct Hdo as (Hdbl & Hl1len & Hld & Hl1).
  destruct (decide (double_indirect_block ino <> -1 /\ _)) as [_|Hn];
    [|exfalso; apply Hn; split; [done|apply drop_nonempty_positive; [done|lia]]].
  rewrite Hld. unfold pad_ids.
  (* double indirect block *)
  set (ps := zip (drop 2041 ids) (drop 2041 cs)).
  assert (Hps : map snd ps = drop 2041 cs).
  { subst ps. rewrite map_fmap. apply snd_zip. rewrite !length_drop. lia. }
  pose proof (extract_level2_chunks d (1024 - length l1s) l1s ps [] (concat (take 2041 cs))) as E2.
  rewrite Hps, app_nil_r in E2. rewrite E2; clear E2.
  2:{ apply Forall2_same_length_lookup_2.
      - subst ps. rewrite length_zip, !length_drop. lia.
      - intros j b [id c] Hb Hp. subst ps. apply lookup_zip_Some in Hp as [Hid Hc].
        cbn [fst snd]. rewrite lookup_drop in Hid. rewrite lookup_drop in Hc. split_and!.
        + rewrite Forall_forall in Hnzl. apply Hnzl. by eapply list_elem_of_lookup_2.
        + rewrite Forall_forall in Hnzi. apply Hnzi.
          apply (list_elem_of_lookup_2 _ (1024 + j)). rewrite lookup_drop.
          by replace (1017 + (1024 + j))%nat with (2041 + j)%nat by lia.
        + by apply (Hl1 j).
        + by apply (Hdat (2041 + j)%nat). }
  2:{ apply (chunks_ok_app_r (take 2041 cs)). by rewrite take_drop. }
  rewrite decide_False by (intros [? _]; done). cbn [snd].
  rewrite <- concat_app. by rewrite take_drop.
Qed.

Lemma chunks_ok_count (cs : list (list byte)) :
  chunks_ok cs -> cs = [] \/ (4096 * length cs < length (concat cs) + 4096)%nat.
Proof.
  induction cs as [|c rest IH]; [by left|]. intros Hok. right.
  apply chunks_ok_cons in Hok as (Hc & Hfull & Hok).
  cbn [concat length]. rewrite length_app.
  destruct (decide (rest = [])) as [->|Hne]; [cbn [length concat]; lia|].
  destruct (IH Hok) as [?|Hrest]; [done|].
  specialize (Hfull Hne). lia.
Qed.

Lemma chunks_ok_bound (cs : list (list byte)) :
  chunks_ok cs -> Forall (fun c => Z.of_nat (length c) <= BLOCK_SIZE) cs.
Proof.
  intros [Hall _]. eapply Forall_impl; [exact Hall|]. intros c Hc. simpl in Hc.
  unfold BLOCK_SIZE. lia.
Qed.

Lemma file_chunks_count data :
  Z.of_nat (length data) <= 3065 * BLOCK_SIZE -> (length (file_chunks data) <= 3065)%nat.
Proof.
  intros H. destruct (file_chunks_ok data) as [Hcat Hok].
  destruct (chunks_ok_count _ Hok) as [->|Hn]; [cbn [length]; lia|].
  rewrite Hcat in Hn. unfold BLOCK_SIZE in H. lia.
Qed.

(** X24.  What the write loop stores, the read side gives back: for a
    local file of at most 3065 blocks, [extract_inode] on the inode and
    the disk the loop leaves writes exactly the bytes of the file. *)
Theorem add_blocks_then_extract d0 data :
  wf_disk d0 ->
  Z.of_nat (length (data_segs d0)) + 4100 <= MAX_SEGMENTS ->
  Z.of_nat (length data) <= 3065 * BLOCK_SIZE ->
  exists l,
    add_blocks (initial_locals d0) (file_chunks data) = Ok l /\
    extract_inode (l_disk l) (file_inode l) = data.
Proof.
  intros Hwf Hroom Hlen. destruct (file_chunks_ok data) as [Hcat Hok].
  destruct (add_blocks_ok d0 (file_chunks data) Hwf Hroom (chunks_ok_bound _ Hok)
              (file_chunks_count data Hlen)) as (l & ids & l1s & Hadd & Hinv).
  exists l. split; [done|]. transitivity (concat (file_chunks data)); [|done].
  apply (extract_inode_layout _ _ _ ids l1s); [|done]. by apply (loop_inv_layout d0).
Qed.

Lemma add_blocks_then_extract_witness :
  exists l,
    add_blocks (initial_locals (init_fs empty_disk)) (file_chunks [x41; x42]) = Ok l /\
    extract_inode (l_disk l) (file_inode l) = [x41; x42].
Proof.
  apply (add_blocks_then_extract (init_fs empty_disk) [x41; x42]).
  - apply wf_init_fs_empty.
  - vm_compute. discriminate.
  - vm_compute. discriminate.
Defined.

(** ** A file directly under the root *)

Lemma strtok_all_simple s : forall cur,
  SLASH ∉ s ->
  strtok_all s cur = match cur ++ s with [] => [] | _ => [cur ++ s] end.
Proof.
  induction s as [|c r IH]; intros cur Hs.
  - rewrite app_nil_r. by destruct cur.
  - apply not_elem_of_cons in Hs as [Hc Hr]. cbn [strtok_all].
    rewrite decide_False by done. rewrite (IH (cur ++ [c]) Hr).
    by rewrite <- app_assoc.
Qed.

(** The path "/name" of a plain name has that name as its one component. *)
Lemma split_path_simple nm :
  nm <> [] -> SLASH ∉ nm -> x00 ∉ nm -> (length nm <= 255)%nat ->
  split_path (SLASH :: nm) = [nm].
Proof.
  intros Hne Hsl Hnul Hlen. unfold split_path.
  assert (cstr (SLASH :: nm) = SLASH :: nm) as ->.
  { apply cstr_id. intros [E|?]%elem_of_cons; [discriminate E|done]. }
  rewrite decide_False.
  2:{ intros [E|E]; [done|]. injection E as ->. done. }
  rewrite (take_ge (SLASH :: nm)) by (cbn [length]; unfold MAX_PATH; lia).
  rewrite decide_True by done.
  rewrite strtok_all_simple by done. simpl app.
  destruct nm as [|c r]; [done|]. cbn [map].
  rewrite (take_ge (c :: r)) by (unfold MAX_FILENAME; lia). reflexivity.
Qed.

Lemma block_bit_same_segs d d' x : data_segs d' = data_segs d -> block_bit d' x = block_bit d x.
Proof. unfold block_bit. by intros ->. Qed.

Lemma read_block_same_segs d d' x : data_segs d' = data_segs d -> read_block d' x = read_block d x.
Proof. unfold read_block. by intros ->. Qed.

Lemma read_inode_same_segs d d' x : inode_segs d' = inode_segs d -> read_inode d' x = read_inode d x.
Proof. unfold read_inode. by intros ->. Qed.

(** X25.  Add then extract, for a file directly under the root: when the
    root directory has room, its blocks are allocated, and it has no entry
    of that name, adding a local file of at most 3065 blocks as "/name"
    succeeds, and extracting "/name" from the disk it leaves writes
    exactly the bytes of the file. *)
Theorem add_then_extract_in_root d root nm data :
  wf_disk d -> fits d 4100 ->
  read_inode d ROOT_DIR_INODE = Some root ->
  inode_bit d ROOT_DIR_INODE = true ->
  type root = INODE_DIR ->
  0 <= num_direct root < MAX_DIRECT_BLOCKS ->
  length (direct_blocks root) = 1017%nat ->
  Forall (fun b => valid_block d b /\ block_bit d b = true) (live_direct_blocks root) ->
  nm <> [] -> SLASH ∉ nm -> x00 ∉ nm -> (length nm <= 255)%nat ->
  find_entry_in_dir d root nm = -1 ->
  Z.of_nat (length data) <= 3065 * BLOCK_SIZE ->
  exists d',
    exfs2_add d (SLASH :: nm) (Some data) = Ok d' /\
    exfs2_extract d' (SLASH :: nm) = Ok data.
Proof.
  intros Hwf [Hfi Hfd] Hroot Hbit0 Hty Hnd Hlen Hblks Hne Hsl Hnul Hnm Hfind Hdata.
  pose proof (split_path_simple nm Hne Hsl Hnul Hnm) as Hsp.
  assert (Hcstr : (length (cstr nm) <= 255)%nat) by (by rewrite cstr_id).
  unfold ROOT_DIR_INODE in *.
  (* the inode of the file *)
  assert (Hsegs : inode_segs d <> []).
  { intros E. unfold read_inode in Hroot. rewrite E in Hroot. done. }
  destruct (allocate_inode_ok d Hwf ltac:(lia) Hsegs) as (f & d2 & Ha & Hp).
  destruct Hp as [Pid Pv Pf P1 Pb Pdata Pr Pwf Pl].
  assert (Hf0 : f <> 0) by (intros ->; congruence).
  assert (Hfr : int_range f).
  { unfold int_range, MAX_SEGMENTS in *. rewrite num_inodes_per_segment_eq in Pid. lia. }
  (* the write loop *)
  destruct (file_chunks_ok data) as [Hcat Hok].
  destruct (add_blocks_ok d2 (file_chunks data) Pwf ltac:(rewrite Pdata; lia)
              (chunks_ok_bound _ Hok) (file_chunks_count data Hdata))
    as (l & ids & l1s & Hadd & Hinv).
  pose proof (li_ctx _ _ _ _ _ Hinv) as Hctx.
  pose proof (file_structure_length _ _ _ _ _ Hinv) as HS.
  set (S := file_structure (file_inode l) ids l1s) in *.
  (* the inode is written *)
  assert (Hvf : valid_inode (l_disk l) f).
  { unfold valid_inode. rewrite (ac_inodes _ _ _ Hctx). exact Pv. }
  destruct (write_inode_valid (l_disk l) f (file_inode l) Hvf) as [d3 Hw].
  assert (Hwf3 : wf_disk d3) by (apply (write_inode_wf _ _ _ _ Hw), Hctx).
  assert (Hrd3 : forall x, read_block d3 x = read_block (l_disk l) x)
    by (intros x; apply (write_inode_read_block _ _ _ _ Hw)).
  assert (Hbb3 : forall x, block_bit d3 x = block_bit (l_disk l) x)
    by (intros x; apply (write_inode_block_bit _ _ _ _ Hw)).
  assert (Hds3 : data_segs d3 = data_segs (l_disk l))
    by apply (write_inode_data_segs _ _ _ _ Hw).
  assert (Hri3 : forall x, 0 <= x ->
            read_inode d3 x = if decide (x = f) then Some (file_inode l)
                              else read_inode (l_disk l) x).
  { intros x Hx. apply (read_inode_write_inode _ _ _ _ Hw); [apply Hctx|lia|done]. }
  destruct (ac_len _ _ _ Hctx) as [Hlen0 Hlen1]. rewrite Pdata in Hlen0, Hlen1.
  (* the blocks of the root directory are as before *)
  assert (Hrootblk : forall b, b ∈ live_direct_blocks root ->
            valid_block d3 b /\ (b ∉ S) /\ read_block d3 b = read_block d b).
  { intros b Hb. rewrite Forall_forall in Hblks. destruct (Hblks b Hb) as [Hv Hbit].
    assert (Hnin : b ∉ S).
    { intros Hin. apply (ac_fresh _ _ _ Hctx) in Hin.
      rewrite (block_bit_same_segs d d2) in Hin by done. congruence. }
    split_and!; [|done|].
    - unfold valid_block in *. rewrite Hds3. rewrite blocks_per_segment_eq in *. lia.
    - destruct (read_block_valid d b Hwf Hv) as [buf Hbuf]. rewrite Hbuf, Hrd3.
      apply (ac_read _ _ _ Hctx); [by destruct Hv|done|].
      by rewrite (read_block_same_segs d d2). }
  assert (Hfind3 : find_entry_in_dir d3 root nm = -1).
  { rewrite <- Hfind. unfold find_entry_in_dir. rewrite !decide_True by done.
    apply find_in_blocks_frame, Forall_forall. intros b Hb.
    apply block_entries_frame. by destruct (Hrootblk b Hb) as (_ & _ & ?). }
  assert (Hvalid3 : Forall (valid_block d3) (live_direct_blocks root)).
  { apply Forall_forall. intros b Hb. by destruct (Hrootblk b Hb). }
  assert (Hmax3 : Z.of_nat (length (data_segs d3)) <= MAX_SEGMENTS) by (rewrite Hds3; lia).
  assert (Hroot3 : read_inode d3 0 = Some root).
  { rewrite Hri3, decide_False by (try lia; done).
    rewrite (read_inode_same_segs d2) by apply Hctx. by apply Pr. }
  (* the entry *)
  destruct (add_entry_to_dir_ok d3 root 0 nm f Hwf3 Hmax3 Hty Hnd Hlen Hvalid3
              ltac:(lia) Hfr Hfind3)
    as (root' & d4 & Hadd4 & Hwf4 & F1 & F2 & F3 & _).
  pose proof (add_entry_then_find d3 root 0 nm f root' d4 Hwf3 Hmax3 ltac:(lia) Hlen
                Hvalid3 ltac:(lia) Hfr Hcstr Hadd4) as Hfind4.
  exists d4. split.
  - unfold exfs2_add. unfold ROOT_DIR_INODE. rewrite Hsp, Hroot. cbn [removelast add_walk bind List.last].
    rewrite decide_True by done. rewrite Ha. cbn [alloc_or_stop bind].
    rewrite decide_False by lia. cbn [bind]. rewrite Hadd. cbn [bind]. rewrite Hw, Hadd4.
    by rewrite decide_True.
  - unfold exfs2_extract. rewrite Hsp. unfold ROOT_DIR_INODE. rewrite (F3 Hroot3).
    cbn [walk_path]. rewrite Hfind4. rewrite decide_False by lia.
    rewrite F2 by (try lia; done). rewrite Hri3, decide_True by (try lia; done).
    cbn [bind]. rewrite decide_True by apply Hinv. f_equal.
    transitivity (concat (file_chunks data)); [|done].
    apply (extract_inode_layout _ _ _ ids l1s); [|done].
    apply (file_layout_frame (l_disk l)); [by apply (loop_inv_layout d2)|].
    intros x Hx. fold S in Hx.
    pose proof (ac_valid _ _ _ Hctx x Hx) as Hvx.
    destruct (read_block_valid (l_disk l) x (ac_wf _ _ _ Hctx) Hvx) as [buf Hbuf].
    rewrite Hbuf. apply F1.
    + by destruct Hvx.
    + intros Hin. by destruct (Hrootblk x Hin) as (_ & ? & _).
    + rewrite Hbb3. by apply (ac_set _ _ _ Hctx).
    + by rewrite Hrd3.
Qed.

Lemma add_then_extract_in_root_witness :
  exists d',
    exfs2_add (init_fs empty_disk) (SLASH :: [x61]) (Some [x41; x42]) = Ok d' /\
    exfs2_extract d' (SLASH :: [x61]) = Ok [x41; x42].
Proof.
  apply (add_then_extract_in_root (init_fs empty_disk) (fresh_inode INODE_DIR)
           [x61] [x41; x42]).
  - apply wf_init_fs_empty.
  - vm_compute. split; discriminate.
  - reflexivity.
  - vm_compute. reflexivity.
  - reflexivity.
  - vm_compute. split; discriminate || reflexivity.
  - reflexivity.
  - apply Forall_nil_2.
  - discriminate.
  - rewrite list_elem_of_singleton. discriminate.
  - rewrite list_elem_of_singleton. discriminate.
  - simpl. lia.
  - reflexivity.
  - vm_compute. discriminate.
Defined.

(** X26.  A local file that cannot be opened costs an inode: [exfs2_add]
    allocates the inode of the file before it opens the local file, and
    on that failure returns without freeing it.  The bit of an inode that
    was free is left set, while no block and no directory entry changes. *)
Theorem add_unopenable_file_leaks_inode d root nm :
  wf_disk d -> Z.of_nat (length (inode_segs d)) <= MAX_SEGMENTS ->
  read_inode d ROOT_DIR_INODE = Some root ->
  nm <> [] -> SLASH ∉ nm -> x00 ∉ nm -> (length nm <= 255)%nat ->
  find_entry_in_dir d root nm = -1 ->
  exists f d',
    exfs2_add d (SLASH :: nm) None = Stop d' Failed_to_open_local_file /\
    inode_bit d f = false /\ inode_bit d' f = true /\
    data_segs d' = data_segs d /\
    find_entry_in_dir d' root nm = -1.
Proof.
  intros Hwf Hmax Hroot Hne Hsl Hnul Hnm Hfind.
  pose proof (split_path_simple nm Hne Hsl Hnul Hnm) as Hsp.
  assert (Hsegs : inode_segs d <> []).
  { intros E. unfold read_inode in Hroot. rewrite E in Hroot. done. }
  destruct (allocate_inode_ok d Hwf Hmax Hsegs) as (f & d2 & Ha & Hp).
  destruct Hp as [Pid Pv Pf P1 Pb Pdata Pr Pwf Pl].
  exists f, d2. split_and!; [|done| |done|].
  - unfold exfs2_add. rewrite Hsp, Hroot. cbn [removelast add_walk bind List.last].
    rewrite decide_True by done. rewrite Ha. cbn [alloc_or_stop bind].
    by rewrite decide_False by lia.
  - rewrite Pb by lia. by rewrite decide_True.
  - rewrite <- Hfind. unfold find_entry_in_dir. destruct (decide _); [|done].
    apply find_in_blocks_frame, Forall_forall. intros b _.
    apply block_entries_frame. by apply read_block_same_segs.
Qed.

Lemma add_unopenable_file_leaks_inode_witness :
  exists f d',
    exfs2_add (init_fs empty_disk) (SLASH :: [x61]) None
    = Stop d' Failed_to_open_local_file /\
    inode_bit (init_fs empty_disk) f = false /\ inode_bit d' f = true /\
    data_segs d' = data_segs (init_fs empty_disk) /\
    find_entry_in_dir d' (fresh_inode INODE_DIR) [x61] = -1.
Proof.
  apply (add_unopenable_file_leaks_inode (init_fs empty_disk) (fresh_inode INODE_DIR) [x61]).
  - apply wf_init_fs_empty.
  - vm_compute. discriminate.
  - reflexivity.
  - discriminate.
  - rewrite list_elem_of_singleton. discriminate.
  - rewrite list_elem_of_singleton. discriminate.
  - simpl. lia.
  - reflexivity.
Defined.

(** X27.  The data store grows on demand: when every block of every
    existing data segment is taken, [allocate_block] creates the next
    segment and returns its first block. *)
Theorem allocate_block_grows d :
  wf_disk d -> Z.of_nat (length (data_segs d)) <= MAX_SEGMENTS ->
  (forall x, 0 <= x < blocks_per_segment * Z.of_nat (length (data_segs d)) ->
             block_bit d x = true) ->
  exists d',
    allocate_block d = Some (blocks_per_segment * Z.of_nat (length (data_segs d)), d') /\
    length (data_segs d') = S (length (data_segs d)) /\
    read_block d' (blocks_per_segment * Z.of_nat (length (data_segs d))) = Some zero_block.
Proof.
  intros Hwf Hmax Hfull.
  destruct (allocate_block_ok d Hwf Hmax) as (id & d' & Ha & Hp).
  destruct Hp as [Pid Pv Pf P1 Pb Pi Pr Pwf Pl].
  rewrite blocks_per_segment_eq in *.
  assert (id = 255 * Z.of_nat (length (data_segs d))) as ->.
  { destruct (decide (id < 255 * Z.of_nat (length (data_segs d)))) as [Hlt|Hge].
    - rewrite Hfull in Pf by lia. done.
    - destruct (decide (255 * Z.of_nat (length (data_segs d)) < id)) as [Hgt|]; [|lia].
      specialize (P1 (255 * Z.of_nat (length (data_segs d))) ltac:(lia)).
      unfold block_bit in P1. rewrite blocks_per_segment_eq in P1.
      replace (zget (data_segs d) _) with (@None data_segment) in P1; [done|].
      symmetry. apply zget_None. zlia. }
  assert (Hlen : length (data_segs d') = S (length (data_segs d))).
  { unfold valid_block in Pv. rewrite blocks_per_segment_eq in Pv. lia. }
  exists d'. split_and!; [done|done|].
  (* the segment just created is zero filled *)
  unfold allocate_block in Ha.
  destruct (allocate_block_loop_spec (S (length (data_segs d))) d 0)
    as (s & i & d1 & seg & Hs & Hi & Hd1 & Hz & Hc & Hl & Hf & Heq); try done; try lia.
  rewrite Heq in Ha. injection Ha as Hid <-.
  rewrite blocks_per_segment_eq in *.
  assert (s = Z.of_nat (length (data_segs d)) /\ i = 0) as [-> ->] by lia.
  rewrite decide_False in Hd1 by lia. rewrite create_data_segment in Hd1. subst d1.
  cbn [data_segs] in Hz. rewrite zget_app_last in Hz. injection Hz as <-.
  unfold read_block. cbn [data_segs inode_segs].
  rewrite blocks_per_segment_eq.
  replace (Z.quot (255 * Z.of_nat (length (data_segs d))) 255)
    with (Z.of_nat (length (data_segs d))) by zlia.
  replace (Z.rem (255 * Z.of_nat (length (data_segs d))) 255) with 0 by zlia.
  rewrite zget_zset_eq by (rewrite length_app; simpl; lia).
  reflexivity.
Qed.

Lemma allocate_block_grows_witness :
  exists d',
    allocate_block empty_disk
    = Some (blocks_per_segment * Z.of_nat (length (data_segs empty_disk)), d') /\
    length (data_segs d') = S (length (data_segs empty_disk)) /\
    read_block d' (blocks_per_segment * Z.of_nat (length (data_segs empty_disk)))
    = Some zero_block.
Proof.
  apply (allocate_block_grows empty_disk).
  - apply wf_empty_disk.
  - vm_compute. discriminate.
  - intros x Hx. simpl in Hx. lia.
Defined.

(** ** Removing what was added *)

Lemma nonzero_prefix_app_zeros ids n :
  Forall (fun x => x <> 0) ids -> nonzero_prefix (ids ++ repeat 0 n) = ids.
Proof.
  induction 1 as [|x r Hx _ IH]; simpl.
  - by destruct n.
  - rewrite decide_False by done. by rewrite IH.
Qed.

(** The blocks the "file" branch of [exfs2_remove_recursive] frees for a
    file the write loop has stored: its first 2041 data blocks and the
    single indirect block. *)
Lemma loop_inv_freed d0 chunks l ids l1s :
  loop_inv d0 chunks l ids l1s ->
  file_freed_blocks (l_disk l) (file_inode l)
  = take 2041 ids ++ opt_block (indirect_block (file_inode l)).
Proof.
  intros Hinv. unfold file_freed_blocks, file_indirect_entries.
  rewrite (li_direct _ _ _ _ _ Hinv).
  pose proof (li_single _ _ _ _ _ Hinv) as Hs.
  destruct (decide (length ids <= 1017)%nat) as [Hn|Hn].
  - destruct Hs as [-> _]. rewrite !decide_False by (intros H; by apply H). unfold opt_block.
    rewrite decide_True by done. simpl. rewrite app_nil_r.
    rewrite app_nil_r. by rewrite !take_ge by lia.
  - destruct Hs as (Hib & _ & Hload). rewrite !decide_True by done. rewrite Hload.
    unfold opt_block. rewrite decide_False by done.
    unfold pad_ids. rewrite nonzero_prefix_app_zeros.
    + rewrite app_assoc. f_equal.
      change 2041%nat with (1017 + 1024)%nat. by rewrite take_take_drop.
    + pose proof (li_nonzero _ _ _ _ _ Hinv) as Hnz. unfold file_structure in Hnz.
      assert (Hne0 : ids <> []) by (intros ->; simpl in Hn; lia).
      rewrite drop_1_app in Hnz by done. apply Forall_app in Hnz as [Hnz _].
      apply Forall_take.
      replace 1017%nat with (1 + 1016)%nat by lia. rewrite <- drop_drop.
      by apply Forall_drop.
Qed.

(** X28.  Removal gives back every block the write loop took exactly when
    the file has at most 2041 blocks.  The "file" branch of
    [exfs2_remove_recursive] frees the direct blocks, the entries of the
    single indirect block and that block; it never looks at the double
    indirect block, which stays marked as allocated, as does everything
    below it. *)
Theorem remove_file_after_add_blocks d0 chunks inode_num :
  wf_disk d0 ->
  Z.of_nat (length (data_segs d0)) + 4100 <= MAX_SEGMENTS ->
  Forall (fun c => Z.of_nat (length c) <= BLOCK_SIZE) chunks ->
  (length chunks <= 3065)%nat ->
  0 <= inode_num ->
  exists l,
    add_blocks (initial_locals d0) chunks = Ok l /\
    ((forall x, 0 <= x ->
        block_bit (remove_file (l_disk l) inode_num (file_inode l)) x = block_bit d0 x)
     <-> (length chunks <= 2041)%nat) /\
    ((2041 < length chunks)%nat ->
     double_indirect_block (file_inode l) <> -1 /\
     block_bit d0 (double_indirect_block (file_inode l)) = false /\
     block_bit (remove_file (l_disk l) inode_num (file_inode l))
               (double_indirect_block (file_inode l)) = true).
Proof.
  intros Hwf Hroom Hcl Hn Hino.
  destruct (add_blocks_ok d0 chunks Hwf Hroom Hcl Hn) as (l & ids & l1s & Hadd & Hinv).
  exists l. split; [done|].
  pose proof (li_ctx _ _ _ _ _ Hinv) as Hctx.
  pose proof (li_chunks _ _ _ _ _ Hinv) as Hlen.
  pose proof (loop_inv_freed _ _ _ _ _ Hinv) as Hfreed.
  set (S := file_structure (file_inode l) ids l1s) in *.
  assert (Hsub : forall x, x ∈ file_freed_blocks (l_disk l) (file_inode l) -> x ∈ S).
  { intros x. rewrite Hfreed. unfold S, file_structure. rewrite !elem_of_app.
    intros [Hx|Hx]; [left|right; by left].
    by eapply subseteq_take. }
  assert (Hpos : Forall (fun id => 0 <= id) (file_freed_blocks (l_disk l) (file_inode l))).
  { apply Forall_forall. intros x Hx. by destruct (ac_valid _ _ _ Hctx x (Hsub x Hx)). }
  destruct (remove_file_bits (l_disk l) inode_num (file_inode l) (ac_wf _ _ _ Hctx) Hino Hpos)
    as [Hbits _].
  pose proof (li_double _ _ _ _ _ Hinv) as Hd.
  assert (Hleak : (2041 < length chunks)%nat ->
            double_indirect_block (file_inode l) <> -1 /\
            block_bit d0 (double_indirect_block (file_inode l)) = false /\
            block_bit (remove_file (l_disk l) inode_num (file_inode l))
                      (double_indirect_block (file_inode l)) = true).
  { intros Hbig. rewrite decide_False in Hd by lia. destruct Hd as (Hdb & _).
    assert (Hin : double_indirect_block (file_inode l) ∈ S).
    { unfold S, file_structure, opt_block. rewrite !elem_of_app.
      right. right. left. rewrite decide_False by done. by apply list_elem_of_singleton. }
    split_and!; [done|by apply (ac_fresh _ _ _ Hctx)|].
    rewrite Hbits by (by destruct (ac_valid _ _ _ Hctx _ Hin)).
    rewrite decide_False; [by apply (ac_set _ _ _ Hctx)|].
    rewrite Hfreed. intros Hfr.
    pose proof (ac_nodup _ _ _ Hctx) as Hnd. unfold S, file_structure in Hnd.
    apply NoDup_app in Hnd as (_ & Hdis1 & Hnd).
    apply NoDup_app in Hnd as (_ & Hdis2 & _).
    apply elem_of_app in Hfr as [Hfr|Hfr].
    - apply (Hdis1 (double_indirect_block (file_inode l))); [by eapply subseteq_take|].
      rewrite !elem_of_app. right. left. unfold opt_block.
      rewrite decide_False by done. by apply list_elem_of_singleton.
    - apply (Hdis2 (double_indirect_block (file_inode l))); [done|].
      rewrite !elem_of_app. left. unfold opt_block.
      rewrite decide_False by done. by apply list_elem_of_singleton. }
  split; [|done]. split.
  - intros Hall. destruct (decide (length chunks <= 2041)%nat) as [|Hbig]; [done|].
    destruct (Hleak ltac:(lia)) as (Hdb & H0 & H1).
    assert (Hin : double_indirect_block (file_inode l) ∈ S).
    { unfold S, file_structure, opt_block. rewrite !elem_of_app.
      right. right. left. rewrite decide_False by done. by apply list_elem_of_singleton. }
    rewrite Hall in H1 by (by destruct (ac_valid _ _ _ Hctx _ Hin)). congruence.
  - intros Hsmall x Hx. rewrite Hbits by done.
    rewrite decide_True in Hd by lia. destruct Hd as (Hdb & _ & _ & Hl1).
    assert (HS : S = file_freed_blocks (l_disk l) (file_inode l)).
    { rewrite Hfreed. unfold S, file_structure. rewrite Hdb, Hl1.
      rewrite take_ge by lia. unfold opt_block at 2. rewrite decide_True by done.
      simpl. by rewrite app_nil_r. }
    rewrite <- HS.
    destruct (decide (x ∈ S)) as [Hin|Hnin].
    + symmetry. by apply (ac_fresh _ _ _ Hctx).
    + by apply (ac_bits _ _ _ Hctx).
Qed.

Lemma remove_file_after_add_blocks_witness :
  exists l,
    add_blocks (initial_locals (init_fs empty_disk)) [[x41]; [x42]] = Ok l /\
    ((forall x, 0 <= x ->
        block_bit (remove_file (l_disk l) 1 (file_inode l)) x
        = block_bit (init_fs empty_disk) x)
     <-> (length [[x41]; [x42]] <= 2041)%nat) /\
    ((2041 < length [[x41]; [x42]])%nat ->
     double_indirect_block (file_inode l) <> -1 /\
     block_bit (init_fs empty_disk) (double_indirect_block (file_inode l)) = false /\
     block_bit (remove_file (l_disk l) 1 (file_inode l))
               (double_indirect_block (file_inode l)) = true).
Proof.
  apply (remove_file_after_add_blocks (init_fs empty_disk) [[x41]; [x42]] 1).
  - apply wf_init_fs_empty.
  - vm_compute. discriminate.
  - repeat constructor; vm_compute; discriminate.
  - simpl. lia.
  - lia.
Defined.

(** ** [exfs2_list] *)

(** [for (k = 0; k < depth; k++) printf("  ")] *)
Definition indent (depth : Z) : list byte := concat (repeat [x20; x20] (Z.to_nat depth)).

(** [printf("%s", name)] of a [char name[MAX_FILENAME]]: the characters
    before the first NUL; an array that holds no NUL is read past its
    end. *)
Definition print_name (nm : list byte) : outcome (list byte) :=
  if decide (x00 ∈ nm) then Ok (cstr nm) else Undefined.

(** Inner loop of [exfs2_list_recursive]: the bytes printed for the live
    entries of one block; [rec] is the recursive call. *)
Fixpoint list_entries (rec : Z -> Z -> outcome (list byte)) (d : disk)
         (entries : list dir_entry_t) (depth : Z) : outcome (list byte) :=
  match entries with
  | [] => Ok []
  | e :: rest =>
      if decide (inode_num e <> -1) then
        nm <- print_name (name e) ;;
        below <- match read_inode d (inode_num e) with
                 | None => Ok []
                 | Some child_inode =>
                     if decide (type child_inode = INODE_DIR) then
                       sub <- rec (inode_num e) (depth + 1) ;;
                       Ok ([x2f; x0a] ++ sub)
                     else Ok [x0a]
                 end ;;
        more <- list_entries rec d rest depth ;;
        Ok (indent depth ++ nm ++ below ++ more)
      else list_entries rec d rest depth
  end.

(** Outer loop: a block that cannot be loaded is skipped. *)
Fixpoint list_blocks (rec : Z -> Z -> outcome (list byte)) (d : disk)
         (blks : list Z) (depth : Z) : outcome (list byte) :=
  match blks with
  | [] => Ok []
  | b :: rest =>
      match load_directory_entries d b with
      | None => list_blocks rec d rest depth
      | Some entries =>
          out <- list_entries rec d entries depth ;;
          more <- list_blocks rec d rest depth ;;
          Ok (out ++ more)
      end
  end.

(** [exfs2_list_recursive]: the bytes written to the standard output, with
    [fuel] bounding the depth of the recursion. *)
Fixpoint exfs2_list_recursive (fuel : nat) (d : disk) (inode_num depth : Z)
  : outcome (list byte) :=
  match fuel with
  | O => OutOfFuel
  | S fuel' =>
      match read_inode d inode_num with
      | None => Ok []
      | Some inode =>
          if decide (type inode = INODE_DIR) then
            list_blocks (exfs2_list_recursive fuel' d) d (live_direct_blocks inode) depth
          else Ok []
      end
  end.

Definition exfs2_list (fuel : nat) (d : disk) : outcome (list byte) :=
  out <- exfs2_list_recursive fuel d ROOT_DIR_INODE 1 ;;
  Ok ([x2f; x0a] ++ out).

(** ** The entries of a directory across an insertion and a removal *)

Definition free_entry : dir_entry_t := mk_entry (zero_bytes MAX_FILENAME) (-1).

(** At most one entry of the block names [t]. *)
Definition names_once (t : Z) (es : list dir_entry_t) : Prop :=
  exists i : nat, forall (j : nat) e, j <> i -> es !! j = Some e -> inode_num e <> t.

(** An entry after the unlink loop: as it was, or cleared because it named
    [t]. *)
Definition unlinked (t : Z) (e e' : dir_entry_t) : Prop :=
  e' = e \/ (inode_num e = t /\ e' = free_entry).

Lemma clear_first_spec es t :
  match clear_first es t with
  | None => Forall (fun e => inode_num e <> t) es
  | Some es' => exists (i : nat) e, es !! i = Some e /\ inode_num e = t /\
                                    es' = <[i := free_entry]> es
  end.
Proof.
  induction es as [|e rest IH]; simpl; [constructor|].
  destruct (decide (inode_num e = t)) as [He|He].
  - by exists 0%nat, e.
  - destruct (clear_first rest t) as [rest'|].
    + destruct IH as (i & e' & Hi & He' & ->). by exists (S i), e'.
    + by constructor.
Qed.

Lemma unlinked_refl t es : Forall2 (unlinked t) es es.
Proof. apply Forall2_same_length_lookup_2; [done|]. intros i x y Hx Hy. left. congruence. Qed.

Lemma unlinked_trans t es1 es2 es3 :
  t <> -1 ->
  Forall2 (unlinked t) es1 es2 -> Forall2 (unlinked t) es2 es3 ->
  Forall2 (unlinked t) es1 es3.
Proof.
  intros Ht H12. revert es3. induction H12 as [|e1 e2 r1 r2 H _ IH]; intros es3 H23.
  - by inversion H23.
  - inversion H23 as [|? e3 ? r3 H' Hr]; subst. constructor; [|by apply IH].
    destruct H as [->|[He ->]]; [done|].
    destruct H' as [->|[He' _]]; [by right|]. simpl in He'. congruence.
Qed.

Lemma unlinked_insert t es (i : nat) e :
  es !! i = Some e -> inode_num e = t ->
  Forall2 (unlinked t) es (<[i := free_entry]> es).
Proof.
  intros Hi He. apply Forall2_same_length_lookup_2; [by rewrite length_insert|].
  intros j x y Hx Hy. destruct (decide (j = i)) as [->|Hne].
  - rewrite list_lookup_insert_eq in Hy by (by eapply lookup_lt_Some).
    right. split; congruence.
  - rewrite list_lookup_insert_ne in Hy by done. left. congruence.
Qed.

Lemma unlinked_none t es es' :
  t <> -1 ->
  Forall2 (unlinked t) es es' ->
  Forall (fun e => inode_num e <> t) es -> Forall (fun e => inode_num e <> t) es'.
Proof.
  intros Ht H. induction H as [|e e' r r' H _ IH]; intros Hall; [constructor|].
  inversion Hall; subst. constructor; [|by apply IH].
  destruct H as [->|[_ ->]]; [done|]. simpl. congruence.
Qed.

Lemma unlinked_once t es es' :
  t <> -1 ->
  Forall2 (unlinked t) es es' -> names_once t es -> names_once t es'.
Proof.
  intros Ht H [i Hi]. exists i. intros j e' Hj He'.
  destruct (Forall2_lookup_r _ _ _ _ _ H He') as (e & He & [->|[_ ->]]).
  - by apply (Hi j).
  - simpl. congruence.
Qed.

(** Clearing the first entry that names [t] leaves none when there was at
    most one. *)
Lemma clear_first_once es t es' :
  t <> -1 -> names_once t es -> clear_first es t = Some es' ->
  Forall (fun e => inode_num e <> t) es'.
Proof.
  intros Ht [i Hi] Hc. pose proof (clear_first_spec es t) as H. rewrite Hc in H.
  destruct H as (i0 & e & Hi0 & He & ->).
  assert (i0 = i) as ->.
  { destruct (decide (i0 = i)); [done|]. by destruct (Hi i0 e). }
  apply Forall_lookup. intros j e' Hj.
  destruct (decide (j = i)) as [->|Hne].
  - rewrite list_lookup_insert_eq in Hj by (by eapply lookup_lt_Some).
    injection Hj as <-. simpl. congruence.
  - rewrite list_lookup_insert_ne in Hj by done. by apply (Hi j).
Qed.

Lemma free_entry_wf : entry_wf free_entry.
Proof. split; [reflexivity|]. unfold int_range. simpl. lia. Qed.

(** The unlink loop of [exfs2_remove]: entries are only cleared, and a block
    of the directory that named [t] at most once names it no more. *)
Lemma unlink_entry_spec blks t : forall d,
  t <> -1 -> wf_disk d -> Forall (valid_block d) blks ->
  (forall b, 0 <= b ->
             Forall2 (unlinked t) (block_entries d b)
                     (block_entries (unlink_entry d blks t) b)) /\
  (forall b, b ∈ blks -> names_once t (block_entries d b) ->
             Forall (fun e => inode_num e <> t) (block_entries (unlink_entry d blks t) b)).
Proof.
  intros d Ht. revert d. induction blks as [|b0 rest IH]; intros d Hwf Hv; cbn [unlink_entry].
  - split; [intros; apply unlinked_refl|]. intros b Hb. by apply elem_of_nil in Hb.
  - inversion Hv as [|? ? Hv0 Hvr]; subst.
    destruct (read_block_valid d b0 Hwf Hv0) as [buf Hbuf].
    destruct (load_directory_entries d b0) as [es|] eqn:Hl.
    2:{ unfold load_directory_entries in Hl. by rewrite Hbuf in Hl. }
    destruct (load_directory_entries_wf _ _ _ Hwf Hl) as [H15 Hewf].
    pose proof (clear_first_spec es t) as Hc.
    destruct (clear_first es t) as [es'|] eqn:Ec.
    + destruct Hc as (i & e & Hi & He & ->).
      destruct (write_block_valid d b0
                  (fixed BLOCK_SIZE (bytes_of_entries (<[i := free_entry]> es))) Hv0)
        as [d1 Hs].
      fold (save_directory_entries d b0 (<[i := free_entry]> es)) in Hs.
      rewrite Hs. cbn [default].
      assert (Hwf1 : wf_disk d1) by (by eapply wf_save_directory_entries).
      assert (Hv1 : Forall (valid_block d1) rest).
      { eapply Forall_impl; [exact Hvr|]. intros x Hx. unfold valid_block in *.
        by rewrite (write_block_length _ _ _ _ Hs). }
      assert (Hl1 : load_directory_entries d1 b0 = Some (<[i := free_entry]> es)).
      { apply (load_after_save d b0); try done.
        - by destruct Hv0.
        - by rewrite length_insert.
        - apply Forall_insert; [done|apply free_entry_wf]. }
      destruct (IH d1 Hwf1 Hv1) as [I1 I2].
      assert (Hstep : forall b, 0 <= b ->
                Forall2 (unlinked t) (block_entries d b) (block_entries d1 b)).
      { intros b Hb. unfold block_entries. destruct (decide (b = b0)) as [->|Hne].
        - rewrite Hl, Hl1. simpl. by apply (unlinked_insert t es i e).
        - rewrite (load_other_after_save d b0 (<[i := free_entry]> es) d1 b); try done;
            [|by destruct Hv0].
          apply unlinked_refl. }
      split.
      * intros b Hb. eapply unlinked_trans; [done|by apply Hstep|by apply I1].
      * intros b Hb Honce.
        assert (H0 : 0 <= b).
        { rewrite Forall_forall in Hv. by destruct (Hv b Hb). }
        destruct (decide (b ∈ rest)) as [Hin|Hnin].
        -- apply I2; [done|]. eapply unlinked_once; [done|by apply Hstep|done].
        -- assert (b = b0) as -> by (apply elem_of_cons in Hb as [|]; done).
           eapply unlinked_none; [done|by apply I1|].
           unfold block_entries at 1. rewrite Hl1. simpl.
           apply (clear_first_once es t); try done.
           unfold block_entries in Honce. by rewrite Hl in Honce.
    + destruct (IH d Hwf Hvr) as [I1 I2]. split; [done|].
      intros b Hb Honce. destruct (decide (b ∈ rest)) as [Hin|Hnin]; [by apply I2|].
      assert (b = b0) as -> by (apply elem_of_cons in Hb as [|]; done).
      eapply unlinked_none; [done|apply I1; by destruct Hv0|].
      unfold block_entries. rewrite Hl. exact Hc.
Qed.

(** What a successful [add_entry_to_dir] does to the entries: one free slot
    of one block of the directory, old or new, takes the new entry; every
    other block of the directory is as it was. *)
Lemma add_entry_to_dir_shape d dir_inode dir_inode_num nm child dir_inode' d' :
  wf_disk d -> Z.of_nat (length (data_segs d)) <= MAX_SEGMENTS ->
  0 <= num_direct dir_inode ->
  length (direct_blocks dir_inode) = 1017%nat ->
  Forall (valid_block d) (live_direct_blocks dir_inode) ->
  int_range child ->
  add_entry_to_dir d dir_inode dir_inode_num nm child = Some (0, dir_inode', d') ->
  (forall x, inode_bit d' x = inode_bit d x) /\
  Forall (valid_block d') (live_direct_blocks dir_inode') /\
  exists b es (j : nat) e0,
    b ∈ live_direct_blocks dir_inode' /\
    es !! j = Some e0 /\ inode_num e0 = -1 /\
    Forall (fun e => inode_num e = -1 \/
                     exists b0, b0 ∈ live_direct_blocks dir_inode /\ e ∈ block_entries d b0) es /\
    block_entries d' b = <[j := new_entry nm child]> es /\
    forall b', b' ∈ live_direct_blocks dir_inode' -> b' <> b ->
               b' ∈ live_direct_blocks dir_inode /\ block_entries d' b' = block_entries d b'.
Proof.
  intros Hwf Hmax Hnd Hlen Hvalid Hcr Hadd.
  unfold add_entry_to_dir in Hadd.
  destruct (decide (type dir_inode = INODE_DIR)) as [Hty|]; [|done].
  destruct (decide (find_entry_in_dir d dir_inode nm = -1)) as [Hfind|]; [|done].
  set (blks := live_direct_blocks dir_inode) in *.
  destruct (fill_free_slot d blks nm child) as [d1|] eqn:Hfill.
  - injection Hadd as <- <-.
    apply fill_free_slot_Some in Hfill as (i & b & es & j & Hi & Hfull & Hl & Hj & ->).
    apply first_free_slot_Some in Hj as (j' & e0 & -> & Hj' & He0 & Hlive). simpl.
    assert (Hbin : b ∈ blks) by (by eapply list_elem_of_lookup_2).
    assert (Hvb : valid_block d b) by (rewrite Forall_forall in Hvalid; by apply Hvalid).
    destruct (load_directory_entries_wf _ _ _ Hwf Hl) as [Hes15 Heswf].
    destruct (write_block_valid d b
                (fixed BLOCK_SIZE (bytes_of_entries (<[j' := new_entry nm child]> es))) Hvb)
      as [d1 Hsave].
    fold (save_directory_entries d b (<[j' := new_entry nm child]> es)) in Hsave.
    rewrite Hsave. simpl. split_and!.
    + intros x. by apply (write_block_inode_bit _ _ _ _ _ Hsave).
    + eapply Forall_impl; [exact Hvalid|]. intros x Hx. unfold valid_block in *.
      by rewrite (write_block_length _ _ _ _ Hsave).
    + exists b, es, j', e0. split_and!; try done.
      * apply Forall_forall. intros e He. right. exists b. split; [done|].
        unfold block_entries. by rewrite Hl.
      * unfold block_entries.
        rewrite (load_after_save d b (<[j' := new_entry nm child]> es) d1); try done.
        -- by destruct Hvb.
        -- by rewrite length_insert.
        -- apply Forall_insert; [done|by apply new_entry_wf].
      * intros b' Hb' Hne. split; [done|]. unfold block_entries.
        rewrite (load_other_after_save d b (<[j' := new_entry nm child]> es) d1 b'); try done;
          [by destruct Hvb|].
        rewrite Forall_forall in Hvalid. by destruct (Hvalid b' Hb').
  - destruct (decide (MAX_DIRECT_BLOCKS <= num_direct dir_inode)) as [|Hroom]; [done|].
    destruct (allocate_block_ok d Hwf Hmax) as (id & d1 & Ha & Hp). rewrite Ha in Hadd.
    destruct Hp as [Pid Pv Pf P1 Pb Pi Pr Pwf Pl].
    destruct (decide (id = -1)); [done|].
    destruct (write_block_valid d1 id
                (fixed BLOCK_SIZE (bytes_of_entries (new_directory_block nm child))) Pv)
      as [d2 Hsave].
    fold (save_directory_entries d1 id (new_directory_block nm child)) in Hsave.
    rewrite Hsave in Hadd. injection Hadd as <- <-.
    destruct (new_directory_block_wf nm child Hcr) as [Hn15 Hnwf].
    assert (Hl2 : load_directory_entries d2 id = Some (new_directory_block nm child)).
    { apply (load_after_save d1 id); try done. by destruct Pv. }
    set (dir' := with_direct _ _ _ _).
    set (d3 := default d2 (write_inode d2 dir_inode_num dir')).
    assert (Hrd3 : forall x, read_block d3 x = read_block d2 x).
    { intros x. subst d3. destruct (write_inode d2 dir_inode_num dir') as [d3|] eqn:Hw; [|done].
      simpl. by apply (write_inode_read_block _ _ _ _ Hw). }
    assert (Hib3 : forall x, inode_bit d3 x = inode_bit d2 x).
    { intros x. subst d3. destruct (write_inode d2 dir_inode_num dir') as [d3|] eqn:Hw; [|done].
      simpl. by apply (write_inode_bit _ _ _ _ Hw). }
    assert (Hds3 : length (data_segs d3) = length (data_segs d2)).
    { subst d3. destruct (write_inode d2 dir_inode_num dir') as [d3|] eqn:Hw; [|done].
      simpl. by rewrite (write_inode_data_segs _ _ _ _ Hw). }
    assert (Hnblks : num_direct dir_inode = Z.of_nat (length blks)).
    { subst blks. unfold live_direct_blocks. rewrite length_take, Hlen.
      unfold MAX_DIRECT_BLOCKS in Hroom. lia. }
    assert (Hblks' : live_direct_blocks dir' = blks ++ [id]).
    { unfold live_direct_blocks, dir'. cbn [num_direct direct_blocks with_direct].
      apply (live_direct_snoc dir_inode id blks); try done.
      unfold MAX_DIRECT_BLOCKS in Hroom. lia. }
    assert (Hv3 : forall x, valid_block d1 x -> valid_block d3 x).
    { intros x. unfold valid_block. by rewrite Hds3, (write_block_length _ _ _ _ Hsave). }
    split_and!.
    + intros x. rewrite Hib3, (write_block_inode_bit _ _ _ _ _ Hsave).
      unfold inode_bit. by rewrite Pi.
    + rewrite Hblks'. apply Forall_app. split.
      * eapply Forall_impl; [exact Hvalid|]. intros x Hx. apply Hv3.
        unfold valid_block in *. rewrite blocks_per_segment_eq in *. lia.
      * apply Forall_singleton. by apply Hv3.
    + exists id, (repeat free_entry 15), 0%nat, free_entry. split_and!; try done.
      * rewrite Hblks'. apply elem_of_app. right. by apply list_elem_of_singleton.
      * apply List.Forall_forall. intros e He%repeat_spec. left. by subst.
      * unfold block_entries, load_directory_entries. rewrite Hrd3.
        fold (load_directory_entries d2 id). by rewrite Hl2.
      * intros b' Hb' Hne. rewrite Hblks' in Hb'.
        apply elem_of_app in Hb' as [Hb'|Hb']; [|by apply list_elem_of_singleton in Hb'].
        split; [done|]. rewrite Forall_forall in Hvalid.
        unfold block_entries, load_directory_entries. rewrite Hrd3.
        destruct (read_block_valid d b' Hwf (Hvalid b' Hb')) as [buf Hbuf].
        rewrite Hbuf. rewrite (read_block_write_block _ _ _ _ Hsave b' Pwf); try lia.
        -- rewrite decide_False by done. by rewrite (Pr b' buf Hbuf).
        -- by destruct (Hvalid b' Hb').
Qed.

(** ** A file directly under the root: the state after the add *)

(** What [exfs2_add] of "/name" leaves: [f] is the inode of the file,
    [d2] the disk the write loop started on, [l] its final state, [root']
    the root directory after the call. *)
Record add_post (d : disk) (root : inode_t) (nm data : list byte) (d' : disk)
       (f : Z) (d2 : disk) (l : add_locals) (ids l1s : list Z) (root' : inode_t)
  : Prop := mk_add_post {
  ap_add : exfs2_add d (SLASH :: nm) (Some data) = Ok d';
  ap_wf : wf_disk d';
  ap_f : 0 < f;
  ap_fresh : inode_bit d f = false;
  ap_ibits : forall x, 0 <= x ->
               inode_bit d' x = if decide (x = f) then true else inode_bit d x;
  ap_root : read_inode d' ROOT_DIR_INODE = Some root';
  ap_file : read_inode d' f = Some (file_inode l);
  ap_type : type root' = INODE_DIR;
  ap_d2 : data_segs d2 = data_segs d;
  ap_inv : loop_inv d2 (file_chunks data) l ids l1s;
  ap_read : forall x, x ∈ file_structure (file_inode l) ids l1s ->
                      read_block d' x = read_block (l_disk l) x;
  ap_bbits : forall x, 0 <= x -> x ∉ live_direct_blocks root' ->
                       block_bit d' x = block_bit (l_disk l) x;
  ap_valid : Forall (valid_block d') (live_direct_blocks root');
  ap_find : find_entry_in_dir d' root' nm = f;
  ap_shape :
    exists b es (j : nat) e0,
      b ∈ live_direct_blocks root' /\
      es !! j = Some e0 /\ inode_num e0 = -1 /\
      Forall (fun e => inode_num e = -1 \/
                       exists b0, b0 ∈ live_direct_blocks root /\ e ∈ block_entries d b0) es /\
      block_entries d' b = <[j := new_entry nm f]> es /\
      forall b', b' ∈ live_direct_blocks root' -> b' <> b ->
                 b' ∈ live_direct_blocks root /\ block_entries d' b' = block_entries d b';
  ap_grow :
    live_direct_blocks root = [] ->
    exists id, live_direct_blocks root' = [id] /\
               block_entries d' id = new_directory_block nm f
}.

Lemma add_in_root_ok d root nm data :
  wf_disk d -> fits d 4100 ->
  read_inode d ROOT_DIR_INODE = Some root ->
  inode_bit d ROOT_DIR_INODE = true ->
  type root = INODE_DIR ->
  0 <= num_direct root < MAX_DIRECT_BLOCKS ->
  length (direct_blocks root) = 1017%nat ->
  Forall (fun b => valid_block d b /\ block_bit d b = true) (live_direct_blocks root) ->
  nm <> [] -> SLASH ∉ nm -> x00 ∉ nm -> (length nm <= 255)%nat ->
  find_entry_in_dir d root nm = -1 ->
  Z.of_nat (length data) <= 3065 * BLOCK_SIZE ->
  exists d' f d2 l ids l1s root', add_post d root nm data d' f d2 l ids l1s root'.
Proof.
  intros Hwf [Hfi Hfd] Hroot Hbit0 Hty Hnd Hlen Hblks Hne Hsl Hnul Hnm Hfind Hdata.
  pose proof (split_path_simple nm Hne Hsl Hnul Hnm) as Hsp.
  assert (Hcstr : (length (cstr nm) <= 255)%nat) by (by rewrite cstr_id).
  unfold ROOT_DIR_INODE in *.
  assert (Hsegs : inode_segs d <> []).
  { intros E. unfold read_inode in Hroot. rewrite E in Hroot. done. }
  destruct (allocate_inode_ok d Hwf ltac:(lia) Hsegs) as (f & d2 & Ha & Hp).
  destruct Hp as [Pid Pv Pf P1 Pb Pdata Pr Pwf Pl].
  assert (Hf0 : f <> 0) by (intros ->; congruence).
  assert (Hfr : int_range f).
  { unfold int_range, MAX_SEGMENTS in *. rewrite num_inodes_per_segment_eq in Pid. lia. }
  destruct (file_chunks_ok data) as [Hcat Hok].
  destruct (add_blocks_ok d2 (file_chunks data) Pwf ltac:(rewrite Pdata; lia)
              (chunks_ok_bound _ Hok) (file_chunks_count data Hdata))
    as (l & ids & l1s & Hadd & Hinv).
  pose proof (li_ctx _ _ _ _ _ Hinv) as Hctx.
  set (S := file_structure (file_inode l) ids l1s) in *.
  assert (Hvf : valid_inode (l_disk l) f).
  { unfold valid_inode. rewrite (ac_inodes _ _ _ Hctx). exact Pv. }
  destruct (write_inode_valid (l_disk l) f (file_inode l) Hvf) as [d3 Hw].
  assert (Hwf3 : wf_disk d3) by (apply (write_inode_wf _ _ _ _ Hw), Hctx).
  assert (Hrd3 : forall x, read_block d3 x = read_block (l_disk l) x)
    by (intros x; apply (write_inode_read_block _ _ _ _ Hw)).
  assert (Hbb3 : forall x, block_bit d3 x = block_bit (l_disk l) x)
    by (intros x; apply (write_inode_block_bit _ _ _ _ Hw)).
  assert (Hds3 : data_segs d3 = data_segs (l_disk l))
    by apply (write_inode_data_segs _ _ _ _ Hw).
  assert (Hri3 : forall x, 0 <= x ->
            read_inode d3 x = if decide (x = f) then Some (file_inode l)
                              else read_inode (l_disk l) x).
  { intros x Hx. apply (read_inode_write_inode _ _ _ _ Hw); [apply Hctx|lia|done]. }
  destruct (ac_len _ _ _ Hctx) as [Hlen0 Hlen1]. rewrite Pdata in Hlen0, Hlen1.
  pose proof (file_structure_length _ _ _ _ _ Hinv) as HS. fold S in HS.
  assert (Hrootblk : forall b, b ∈ live_direct_blocks root ->
            valid_block d3 b /\ (b ∉ S) /\ read_block d3 b = read_block d b).
  { intros b Hb. rewrite Forall_forall in Hblks. destruct (Hblks b Hb) as [Hv Hbit].
    assert (Hnin : b ∉ S).
    { intros Hin. apply (ac_fresh _ _ _ Hctx) in Hin.
      rewrite (block_bit_same_segs d d2) in Hin by done. congruence. }
    split_and!; [|done|].
    - unfold valid_block in *. rewrite Hds3. rewrite blocks_per_segment_eq in *. lia.
    - destruct (read_block_valid d b Hwf Hv) as [buf Hbuf]. rewrite Hbuf, Hrd3.
      apply (ac_read _ _ _ Hctx); [by destruct Hv|done|].
      by rewrite (read_block_same_segs d d2). }
  assert (Hent3 : forall b, b ∈ live_direct_blocks root ->
            block_entries d3 b = block_entries d b).
  { intros b Hb. apply block_entries_frame. by destruct (Hrootblk b Hb) as (_ & _ & ?). }
  assert (Hfind3 : find_entry_in_dir d3 root nm = -1).
  { rewrite <- Hfind. unfold find_entry_in_dir. rewrite !decide_True by done.
    apply find_in_blocks_frame, Forall_forall. intros b Hb. by apply Hent3. }
  assert (Hvalid3 : Forall (valid_block d3) (live_direct_blocks root)).
  { apply Forall_forall. intros b Hb. by destruct (Hrootblk b Hb). }
  assert (Hmax3 : Z.of_nat (length (data_segs d3)) <= MAX_SEGMENTS) by (rewrite Hds3; lia).
  assert (Hroot3 : read_inode d3 0 = Some root).
  { rewrite Hri3, decide_False by (try lia; done).
    rewrite (read_inode_same_segs d2) by apply Hctx. by apply Pr. }
  destruct (add_entry_to_dir_ok d3 root 0 nm f Hwf3 Hmax3 Hty Hnd Hlen Hvalid3
              ltac:(lia) Hfr Hfind3)
    as (root' & d4 & Hadd4 & Hwf4 & F1 & F2 & F3 & F4).
  pose proof (add_entry_then_find d3 root 0 nm f root' d4 Hwf3 Hmax3 ltac:(lia) Hlen
                Hvalid3 ltac:(lia) Hfr Hcstr Hadd4) as Hfind4.
  destruct (add_entry_to_dir_shape d3 root 0 nm f root' d4 Hwf3 Hmax3 ltac:(lia) Hlen
              Hvalid3 Hfr Hadd4) as (G1 & G2 & b & es & j & e0 & Hb & Hj & He0 & Hes & Hnew & Hoth).
  exists d4, f, d2, l, ids, l1s, root'. split.
  - unfold exfs2_add. unfold ROOT_DIR_INODE. rewrite Hsp, Hroot.
    cbn [removelast add_walk bind List.last].
    rewrite decide_True by done. rewrite Ha. cbn [alloc_or_stop bind].
    rewrite decide_False by lia. cbn [bind]. rewrite Hadd. cbn [bind]. rewrite Hw, Hadd4.
    by rewrite decide_True.
  - exact Hwf4.
  - lia.
  - exact Pf.
  - intros x Hx. rewrite G1, (write_inode_bit _ _ _ _ Hw).
    unfold inode_bit at 1. rewrite (ac_inodes _ _ _ Hctx). fold (inode_bit d2 x).
    by apply Pb.
  - by apply F3.
  - rewrite F2 by (try lia; done). by rewrite Hri3, decide_True by (try lia; done).
  - destruct F4 as [(_ & id & _ & _ & _ & -> & _)|(_ & -> & _)]; done.
  - exact Pdata.
  - exact Hinv.
  - intros x Hx. fold S in Hx.
    pose proof (ac_valid _ _ _ Hctx x Hx) as Hvx.
    destruct (read_block_valid (l_disk l) x (ac_wf _ _ _ Hctx) Hvx) as [buf Hbuf].
    rewrite Hbuf. apply F1.
    + by destruct Hvx.
    + intros Hin. by destruct (Hrootblk x Hin) as (_ & ? & _).
    + rewrite Hbb3. by apply (ac_set _ _ _ Hctx).
    + by rewrite Hrd3.
  - intros x Hx Hnin. rewrite <- Hbb3.
    destruct F4 as [(_ & id & _ & _ & Fb & _ & Hlive & _)|(_ & _ & Fb & _)]; [|by apply Fb].
    apply Fb; [done|]. intros ->. apply Hnin. rewrite Hlive.
    apply elem_of_app. right. by apply list_elem_of_singleton.
  - exact G2.
  - exact Hfind4.
  - exists b, es, j, e0. split_and!; try done.
    + eapply Forall_impl; [exact Hes|]. intros e [He|(b0 & Hb0 & He)]; [by left|].
      right. exists b0. split; [done|]. by rewrite <- Hent3.
    + intros b' Hb' Hne'. destruct (Hoth b' Hb' Hne') as [Hin Heq].
      split; [done|]. rewrite Heq. by apply Hent3.
  - intros Hnil.
    destruct F4 as [(_ & id & _ & _ & _ & _ & Hlive & Hblk)|(Hnf & _)].
    + exists id. rewrite Hlive, Hnil. done.
    + exfalso. apply Hnf. rewrite Hnil. constructor.
Qed.

Lemma read_block_remove_file d n ino x : read_block (remove_file d n ino) x = read_block d x.
Proof. rewrite remove_file_eq, free_inode_read_block. apply read_block_free_blocks. Qed.

Lemma valid_block_remove_file d n ino x :
  valid_block d x -> valid_block (remove_file d n ino) x.
Proof.
  unfold valid_block. rewrite remove_file_eq, data_segs_free_inode.
  by rewrite length_data_segs_free_blocks.
Qed.

Lemma file_chunks_count_single data :
  Z.of_nat (length data) <= 2041 * BLOCK_SIZE -> (length (file_chunks data) <= 2041)%nat.
Proof.
  intros H. destruct (file_chunks_ok data) as [Hcat Hok].
  destruct (chunks_ok_count _ Hok) as [->|Hn]; [cbn [length]; lia|].
  rewrite Hcat in Hn. unfold BLOCK_SIZE in H. lia.
Qed.

(** X29.  Add then remove, for a file directly under the root whose
    entries name allocated inodes: the add succeeds, the remove succeeds,
    and afterwards the name is gone (extract reports "Path not found"),
    the inode bitmap is what it was before the add, and so is the block
    bitmap for a file of at most 2041 blocks, apart from the blocks of the
    root directory, which keeps a block it has gained. *)
Theorem add_then_remove_in_root d root nm data fuel :
  wf_disk d -> fits d 4100 ->
  read_inode d ROOT_DIR_INODE = Some root ->
  inode_bit d ROOT_DIR_INODE = true ->
  type root = INODE_DIR ->
  0 <= num_direct root < MAX_DIRECT_BLOCKS ->
  length (direct_blocks root) = 1017%nat ->
  Forall (fun b => valid_block d b /\ block_bit d b = true) (live_direct_blocks root) ->
  (forall b e, b ∈ live_direct_blocks root -> e ∈ block_entries d b ->
               inode_num e <> -1 -> inode_bit d (inode_num e) = true) ->
  nm <> [] -> SLASH ∉ nm -> x00 ∉ nm -> (length nm <= 255)%nat ->
  find_entry_in_dir d root nm = -1 ->
  Z.of_nat (length data) <= 3065 * BLOCK_SIZE ->
  exists d1 d2 root1,
    exfs2_add d (SLASH :: nm) (Some data) = Ok d1 /\
    exfs2_remove (S fuel) d1 (SLASH :: nm) = Ok d2 /\
    exfs2_extract d2 (SLASH :: nm) = Stop d2 (Path_not_found nm) /\
    (forall x, 0 <= x -> inode_bit d2 x = inode_bit d x) /\
    read_inode d2 ROOT_DIR_INODE = Some root1 /\
    (Z.of_nat (length data) <= 2041 * BLOCK_SIZE ->
     forall x, 0 <= x -> x ∉ live_direct_blocks root1 -> block_bit d2 x = block_bit d x).
Proof.
  intros Hwf Hfits Hroot Hbit0 Hty Hnd Hlen Hblks Hnamed Hne Hsl Hnul Hnm Hfind Hdata.
  destruct (add_in_root_ok d root nm data Hwf Hfits Hroot Hbit0 Hty Hnd Hlen Hblks
              Hne Hsl Hnul Hnm Hfind Hdata)
    as (d1 & f & d0 & l & ids & l1s & root' & Hp).
  destruct Hp as [Hadd Hwf1 Hf Hfresh Hib Hroot1 Hfile Hty1 Hd0 Hinv Hread Hbb Hvalid
                  Hfind1 Hshape _].
  pose proof (split_path_simple nm Hne Hsl Hnul Hnm) as Hsp.
  pose proof (li_ctx _ _ _ _ _ Hinv) as Hctx.
  set (ino := file_inode l) in *.
  set (S := file_structure ino ids l1s) in *.
  set (blks := live_direct_blocks root') in *.
  set (d5 := remove_file d1 f ino).
  set (d6 := unlink_entry d5 blks f).
  (* the blocks the removal frees *)
  assert (Hfreed : file_freed_blocks d1 ino = file_freed_blocks (l_disk l) ino).
  { unfold file_freed_blocks, file_indirect_entries.
    destruct (decide (indirect_block ino <> -1)) as [Hib1|]; [|done].
    assert (Hin : indirect_block ino ∈ S).
    { unfold S, file_structure, opt_block. rewrite !elem_of_app. right. left.
      rewrite decide_False by done. by apply list_elem_of_singleton. }
    unfold load_ints. by rewrite (Hread _ Hin). }
  pose proof (loop_inv_freed _ _ _ _ _ Hinv) as Hfr. fold ino in Hfr.
  assert (Hsub : forall x, x ∈ file_freed_blocks d1 ino -> x ∈ S).
  { intros x. rewrite Hfreed, Hfr. unfold S, file_structure. rewrite !elem_of_app.
    intros [Hx|Hx]; [left|right; by left]. by eapply subseteq_take. }
  assert (Hpos : Forall (fun id => 0 <= id) (file_freed_blocks d1 ino)).
  { apply Forall_forall. intros x Hx. by destruct (ac_valid _ _ _ Hctx x (Hsub x Hx)). }
  destruct (remove_file_bits d1 f ino Hwf1 ltac:(lia) Hpos) as [Hbits5 Hibits5].
  fold d5 in Hbits5, Hibits5.
  destruct (unlink_entry_bits blks f d5) as [Ub Ui]. fold d6 in Ub, Ui.
  (* the directory after the unlink loop *)
  assert (Hwf5 : wf_disk d5) by (by apply wf_remove_file).
  assert (Hvalid5 : Forall (valid_block d5) blks).
  { eapply Forall_impl; [exact Hvalid|]. intros x Hx. by apply valid_block_remove_file. }
  assert (Hent5 : forall b, block_entries d5 b = block_entries d1 b).
  { intros b. apply block_entries_frame. apply read_block_remove_file. }
  destruct (unlink_entry_spec blks f d5 ltac:(lia) Hwf5 Hvalid5) as [U1 U2].
  fold d6 in U1, U2.
  destruct Hshape as (bn & es & j & e0 & Hbn & Hj & He0 & Hes & Hnew & Hoth).
  assert (Hold : forall b0 e, b0 ∈ live_direct_blocks root -> e ∈ block_entries d b0 ->
                   inode_num e <> f /\
                   (inode_num e = -1 \/ strcmp_eq (name e) nm = false)).
  { intros b0 e Hb0 He. split.
    - destruct (decide (inode_num e = -1)) as [E|E]; [lia|].
      intros Ef. specialize (Hnamed b0 e Hb0 He E). congruence.
    - unfold find_entry_in_dir in Hfind. rewrite decide_True in Hfind by done.
      apply find_in_blocks_notfound in Hfind. rewrite Forall_forall in Hfind.
      specialize (Hfind b0 Hb0). apply find_in_entries_None in Hfind.
      rewrite Forall_forall in Hfind. by apply Hfind. }
  assert (Hes' : forall e, e ∈ es ->
                   inode_num e <> f /\
                   (inode_num e = -1 \/ strcmp_eq (name e) nm = false)).
  { intros e He. rewrite Forall_forall in Hes.
    destruct (Hes e He) as [E|(b0 & Hb0 & Hin)]; [|by apply (Hold b0)].
    split; [lia|by left]. }
  assert (Hgone : find_entry_in_dir d6 root' nm = -1).
  { unfold find_entry_in_dir. rewrite decide_True by done. fold blks.
    apply find_in_blocks_notfound, Forall_forall. intros b Hb.
    assert (Hb0 : 0 <= b) by (rewrite Forall_forall in Hvalid; by destruct (Hvalid b Hb)).
    specialize (U1 b Hb0). rewrite Hent5 in U1.
    assert (Honce : names_once f (block_entries d5 b)).
    { rewrite Hent5. destruct (decide (b = bn)) as [->|Hnb].
      - exists j. intros j' e Hj' He. rewrite Hnew in He.
        rewrite list_lookup_insert_ne in He by done.
        apply (Hes' e). by eapply list_elem_of_lookup_2.
      - exists 0%nat. intros j' e _ He. destruct (Hoth b Hb Hnb) as [Hin Heq].
        rewrite Heq in He. apply (Hold b e Hin). by eapply list_elem_of_lookup_2. }
    specialize (U2 b Hb Honce).
    apply find_in_entries_None, Forall_lookup. intros k e' Hk.
    rewrite Forall_forall in U2.
    pose proof (U2 e' ltac:(by eapply list_elem_of_lookup_2)) as Hnf.
    destruct (Forall2_lookup_r _ _ _ _ _ U1 Hk) as (e & He & [->|[_ ->]]); [|by left].
    destruct (decide (b = bn)) as [->|Hnb].
    + rewrite Hnew in He. destruct (decide (k = j)) as [->|Hkj].
      * rewrite list_lookup_insert_eq in He by (by eapply lookup_lt_Some).
        injection He as <-. done.
      * rewrite list_lookup_insert_ne in He by done.
        apply (Hes' e). by eapply list_elem_of_lookup_2.
    + destruct (Hoth b Hb Hnb) as [Hin Heq]. rewrite Heq in He.
      apply (Hold b e Hin). by eapply list_elem_of_lookup_2. }
  assert (Hroot6 : read_inode d6 ROOT_DIR_INODE = Some root').
  { rewrite <- Hroot1. apply read_inode_records.
    unfold d6, d5. by rewrite records_unlink_entry, records_remove_file. }
  exists d1, d6, root'. split_and!; [done| | | |done|].
  - unfold exfs2_remove. rewrite Hsp, Hroot1. cbn [removelast walk_path bind List.last].
    rewrite Hfind1. rewrite decide_False by lia.
    cbn [exfs2_remove_recursive]. rewrite Hfile.
    rewrite decide_True by apply Hinv. done.
  - unfold exfs2_extract. rewrite Hsp, Hroot6. cbn [walk_path].
    rewrite Hgone. by rewrite decide_True.
  - intros x Hx. rewrite Ui, Hibits5, Hib by done.
    destruct (decide (x = f)) as [->|]; [by rewrite Hfresh|done].
  - intros Hsmall x Hx Hnin. rewrite Ub, Hbits5 by done.
    pose proof (file_chunks_count_single data Hsmall) as Hn.
    pose proof (li_chunks _ _ _ _ _ Hinv) as Hlc.
    pose proof (li_double _ _ _ _ _ Hinv) as Hd.
    rewrite decide_True in Hd by lia. destruct Hd as (Hdb & _ & _ & Hl1).
    assert (HS : S = file_freed_blocks d1 ino).
    { rewrite Hfreed, Hfr. unfold S, file_structure. fold ino in Hdb. rewrite Hdb, Hl1.
      rewrite take_ge by lia. unfold opt_block at 2. rewrite decide_True by done.
      simpl. by rewrite app_nil_r. }
    rewrite <- HS. rewrite (Hbb x Hx Hnin).
    rewrite <- (block_bit_same_segs d d0 x Hd0).
    destruct (decide (x ∈ S)) as [Hin|Hnin'].
    + symmetry. by apply (ac_fresh _ _ _ Hctx).
    + by apply (ac_bits _ _ _ Hctx).
Qed.

Lemma add_then_remove_in_root_witness :
  exists d1 d2 root1,
    exfs2_add (init_fs empty_disk) (SLASH :: [x61]) (Some [x41; x42]) = Ok d1 /\
    exfs2_remove 1 d1 (SLASH :: [x61]) = Ok d2 /\
    exfs2_extract d2 (SLASH :: [x61]) = Stop d2 (Path_not_found [x61]) /\
    (forall x, 0 <= x -> inode_bit d2 x = inode_bit (init_fs empty_disk) x) /\
    read_inode d2 ROOT_DIR_INODE = Some root1 /\
    (Z.of_nat (length [x41; x42]) <= 2041 * BLOCK_SIZE ->
     forall x, 0 <= x -> x ∉ live_direct_blocks root1 ->
               block_bit d2 x = block_bit (init_fs empty_disk) x).
Proof.
  apply (add_then_remove_in_root (init_fs empty_disk) (fresh_inode INODE_DIR)
           [x61] [x41; x42] 0).
  - apply wf_init_fs_empty.
  - vm_compute. split; discriminate.
  - reflexivity.
  - vm_compute. reflexivity.
  - reflexivity.
  - vm_compute. split; discriminate || reflexivity.
  - reflexivity.
  - apply Forall_nil_2.
  - intros b e Hb. by apply elem_of_nil in Hb.
  - discriminate.
  - rewrite list_elem_of_singleton. discriminate.
  - rewrite list_elem_of_singleton. discriminate.
  - simpl. lia.
  - reflexivity.
  - vm_compute. discriminate.
Defined.

(** ** Listing after an add *)

(** The name field [add_entry_to_dir] fills is NUL terminated. *)
Lemma strncpy_name_nul nm : x00 ∈ strncpy_name nm.
Proof.
  unfold strncpy_name. set (s := take (Z.to_nat (MAX_FILENAME - 1)) (cstr nm)).
  assert (Hs : (length s <= 255)%nat).
  { subst s. rewrite length_take. unfold MAX_FILENAME. lia. }
  rewrite fixed_short by (unfold MAX_FILENAME; lia).
  apply elem_of_app. right. unfold zero_bytes, MAX_FILENAME.
  replace (Z.to_nat (256 - Z.of_nat (length s))) with (S (255 - length s)) by lia.
  simpl. by left.
Qed.

Lemma list_entries_free rec d n depth :
  list_entries rec d (repeat free_entry n) depth = Ok [].
Proof.
  induction n as [|n IH]; cbn [repeat list_entries]; [done|].
  destruct (decide (inode_num free_entry <> -1)) as [H|_]; [|exact IH].
  by destruct H.
Qed.

(** X30.  Add then list: after a file was added as "/name" to an empty
    root directory, the listing is the root line followed by the name,
    indented by two spaces, on a line of its own (no '/' after it: it is
    not a directory). *)
Theorem add_then_list_in_empty_root d root nm data fuel :
  wf_disk d -> fits d 4100 ->
  read_inode d ROOT_DIR_INODE = Some root ->
  inode_bit d ROOT_DIR_INODE = true ->
  type root = INODE_DIR ->
  num_direct root = 0 ->
  length (direct_blocks root) = 1017%nat ->
  nm <> [] -> SLASH ∉ nm -> x00 ∉ nm -> (length nm <= 255)%nat ->
  Z.of_nat (length data) <= 3065 * BLOCK_SIZE ->
  exists d',
    exfs2_add d (SLASH :: nm) (Some data) = Ok d' /\
    exfs2_list (S fuel) d' = Ok ([x2f; x0a] ++ [x20; x20] ++ nm ++ [x0a]).
Proof.
  intros Hwf Hfits Hroot Hbit0 Hty Hnd Hlen Hne Hsl Hnul Hnm Hdata.
  assert (Hlive : live_direct_blocks root = []).
  { unfold live_direct_blocks. by rewrite Hnd. }
  assert (Hfind : find_entry_in_dir d root nm = -1).
  { unfold find_entry_in_dir. rewrite decide_True by done. by rewrite Hlive. }
  destruct (add_in_root_ok d root nm data Hwf Hfits Hroot Hbit0 Hty
              ltac:(rewrite Hnd; unfold MAX_DIRECT_BLOCKS; lia) Hlen
              ltac:(rewrite Hlive; constructor) Hne Hsl Hnul Hnm Hfind Hdata)
    as (d1 & f & d0 & l & ids & l1s & root' & Hp).
  destruct Hp as [Hadd Hwf1 Hf Hfresh Hib Hroot1 Hfile Hty1 Hd0 Hinv Hread Hbb Hvalid
                  Hfind1 _ Hgrow].
  destruct (Hgrow Hlive) as (id & Hblks & Hent).
  exists d1. split; [done|].
  assert (Hload : load_directory_entries d1 id = Some (new_directory_block nm f)).
  { assert (Hv : valid_block d1 id).
    { rewrite Forall_forall in Hvalid. apply Hvalid. rewrite Hblks.
      by apply list_elem_of_singleton. }
    destruct (read_block_valid d1 id Hwf1 Hv) as [buf Hbuf].
    unfold block_entries, load_directory_entries in Hent. rewrite Hbuf in Hent.
    unfold load_directory_entries. rewrite Hbuf. rewrite <- Hent. reflexivity. }
  unfold exfs2_list. cbn [exfs2_list_recursive]. rewrite Hroot1.
  rewrite decide_True by done. rewrite Hblks. cbn [list_blocks]. rewrite Hload.
  change (new_directory_block nm f) with (new_entry nm f :: repeat free_entry 14).
  cbn [list_entries new_entry inode_num name].
  rewrite decide_True by lia.
  unfold print_name. rewrite decide_True by apply strncpy_name_nul.
  rewrite cstr_strncpy_name by (by rewrite cstr_id). rewrite cstr_id by done.
  cbn [bind]. rewrite Hfile. rewrite decide_False.
  2:{ rewrite (li_type _ _ _ _ _ Hinv). discriminate. }
  rewrite list_entries_free. cbn [bind]. unfold indent.
  change (Z.to_nat 1) with 1%nat. cbn [repeat concat].
  by rewrite !app_nil_r.
Qed.

Lemma add_then_list_in_empty_root_witness :
  exists d',
    exfs2_add (init_fs empty_disk) (SLASH :: [x61]) (Some [x41; x42]) = Ok d' /\
    exfs2_list 1 d' = Ok ([x2f; x0a] ++ [x20; x20] ++ [x61] ++ [x0a]).
Proof.
  apply (add_then_list_in_empty_root (init_fs empty_disk) (fresh_inode INODE_DIR)
           [x61] [x41; x42] 0).
  - apply wf_init_fs_empty.
  - vm_compute. split; discriminate.
  - reflexivity.
  - vm_compute. reflexivity.
  - reflexivity.
  - reflexivity.
  - reflexivity.
  - discriminate.
  - rewrite list_elem_of_singleton. discriminate.
  - rewrite list_elem_of_singleton. discriminate.
  - simpl. lia.
  - vm_compute. discriminate.
Defined.

(** ** No run of the write loop builds a triple indirect block *)

(** A file of more than [n] blocks is read in more than [n] chunks. *)
Lemma file_chunks_many data (n : nat) :
  Z.of_nat n * BLOCK_SIZE < Z.of_nat (length data) -> (n < length (file_chunks data))%nat.
Proof.
  intros H. destruct (file_chunks_ok data) as [Hcat Hok].
  pose proof (concat_length_bound _ (chunks_ok_bound _ Hok)) as Hb.
  rewrite Hcat in Hb. unfold BLOCK_SIZE in *. lia.
Qed.

(** C4.  The write loop of [exfs2_add] never grows a triple indirect
    block.  For a local file of at most 3065 blocks the loop ends with
    [triple_indirect_block = -1], the value set before the loop; for every
    larger file, and so for every file long enough to reach the triple
    indirect range, the loop has no defined result: its third and last
    branch indexes [double_indirect_block] past its 1024 entries when it
    stores the 3066th block. *)
Theorem add_blocks_never_triple d0 data :
  wf_disk d0 ->
  Z.of_nat (length (data_segs d0)) + 4100 <= MAX_SEGMENTS ->
  (Z.of_nat (length data) <= 3065 * BLOCK_SIZE /\
   exists l, add_blocks (initial_locals d0) (file_chunks data) = Ok l /\
             triple_indirect_block (file_inode l) = -1) \/
  (3065 * BLOCK_SIZE < Z.of_nat (length data) /\
   add_blocks (initial_locals d0) (file_chunks data) = Undefined).
Proof.
  intros Hwf Hroom.
  destruct (file_chunks_ok data) as [Hcat Hok].
  pose proof (chunks_ok_bound _ Hok) as Hcl.
  destruct (decide (Z.of_nat (length data) <= 3065 * BLOCK_SIZE)) as [Hs|Hb].
  - left. split; [exact Hs|].
    destruct (add_blocks_ok d0 _ Hwf Hroom Hcl (file_chunks_count data Hs))
      as (l & ids & l1s & Hadd & Hinv).
    exists l. split; [exact Hadd|]. exact (li_triple _ _ _ _ _ Hinv).
  - right. split; [lia|]. apply add_blocks_too_long; [exact Hwf|exact Hroom|exact Hcl|].
    apply (file_chunks_many data 3065). lia.
Qed.

(** A local file of 1050618 blocks: the least number of blocks whose last
    one has logical index 1017 + 1024 + 1024 * 1024. *)
Definition data_triple : list byte := repeat x41 (Z.to_nat (1050617 * 4096 + 1)).

Lemma add_blocks_never_triple_witness :
  add_blocks (initial_locals (init_fs empty_disk)) (file_chunks data_triple) = Undefined.
Proof.
  assert (H1 : Z.of_nat (length (data_segs (init_fs empty_disk))) + 4100 <= MAX_SEGMENTS)
    by (vm_compute; discriminate).
  destruct (add_blocks_never_triple (init_fs empty_disk) data_triple wf_init_fs_empty H1)
    as [[Hs _]|[_ H]].
  - exfalso. unfold data_triple in Hs. rewrite repeat_length in Hs.
    rewrite Z2Nat.id in Hs by lia. unfold BLOCK_SIZE in Hs. lia.
  - exact H.
Defined.

(** ** Removing a file that has a single indirect block *)




